(* ===== verification/_CoqProject ===== *)
-Q . S2P
Prelude.v
Locks.v
GoStd.v
PData.v
Signals.v
Config.v
Cache.v
Gob.v
Buffer.v
WireCodec.v
BufferLemmas.v
Split.v
BufferSpec.v
BufferTypes.v
BufferLocks.v
Samples.v
BufferTheorems.v
BufferRefinement.v
Manager.v
BufferRaces.v
Grouping.v
Rollup.v
RollupTheorems.v
Discovery.v
Gossip.v
Decision.v
Wal.v
Telemetry.v
Processor.v
ProcessorTheorems.v
Receiver.v
Main.v
MainTheorems.v
Lifecycle.v
Cluster.v
Liveness.v
SamplesNode.v
Witnesses.v
WitnessesSystem.v
