(* ===== verification/Prelude.v ===== *)
(** * A model of the OpenTelemetry tail sampler, and its correctness

    ** The program

    A node receives traces, metrics and logs over OTLP (internal/receiver),
    writes each signal to a write-ahead log (internal/wal) and keeps it in an
    in-memory buffer (internal/buffer). A batch of spans that matches a policy
    (internal/decision) gives a sampling decision, which is broadcast to the
    cluster (internal/gossip, internal/discovery). Every node that hears the
    decision exports what it has of the trace and of the time around it
    (internal/processor, internal/exporter); what nobody asks for is merged and
    exported every thirty seconds (internal/rollup). cmd/server ties the parts
    together, watches the load, truncates the log and replays it at startup.

    ** The files

    - Prelude: the monad of Go code, 64-bit integers, shared lemmas, tactics and
      hint databases. Locks: goroutines that take and release reader-writer
      mutexes under any schedule, and why an order of the mutexes lets them all
      finish. GoStd: time, hexadecimal text, strings, mutexes, buffered
      channels. PData: OTLP messages as plain data. Gob: the byte stream of
      encoding/gob for the one type that is stored with it.
    - Signals (pkg/signals), Config (internal/config).
    - Cache: BigCache and the B-tree as classes of operations and of laws, each
      with an executable instance. WireCodec: an executable marshaler.
    - Buffer: internal/buffer/buffer.go, one definition per method, the removal
      hook included. BufferLemmas: the invariant [buf_inv] (index and cache agree)
      and each operation's effect. Split: the loops that sort a batch by trace.
      BufferSpec: the abstract buffer - a map of trace entries, a map of metrics
      and one of logs with their times - and reachable states. BufferTypes: what
      every call of the cache keeps, every operation keeps; the key of an entry
      tells its type. BufferTheorems: what each operation does.
      BufferRefinement: an abstract table that any sequence of operations
      refines. BufferLocks: the mutexes of a node, those of BigCache's shards
      included, and the order in which each task takes them. BufferRaces:
      goroutines that come between two steps of storing. Manager: the
      interface [buffer.Manager] as a class with laws, and the in-memory
      instance.
    - Grouping: slices indexed by a map, and what such loops compute. Rollup:
      internal/rollup/rollup.go; RollupTheorems: it is a nested grouping, which
      keeps totals and counts; when it panics.
    - Discovery, Gossip, Decision, Wal: the packages of those names, each with
      its theorems.
    - Telemetry: internal/telemetry/telemetry.go, counters and gauges.
    - Processor: internal/processor/processor.go, over the interfaces
      [BufferManager] and [Exporter]. ProcessorTheorems: what each handler
      exports, removes and keeps.
    - Receiver: the OTLP receiver with its three services, and the OTLP exporter,
      which is shown to keep to the interface the processor uses.
    - Main: cmd/server/main.go, and a node as a state machine whose events are
      the steps of its goroutines. MainTheorems: safety, recovery, high load and
      sampling across a cluster. Liveness: a decision that waits
      is handled. Cluster: nodes side by side and a network that loses, repeats
      and reorders messages.
    - Lifecycle: the function [main] itself - settings, the order in which the
      parts are opened, the stack of deferred calls, and the four ways the
      process ends.
    - Samples, SamplesNode: concrete parameters and data. Witnesses,
      WitnessesSystem: each property at a concrete input where its hypotheses
      hold.

    ** How the code is modelled

    Code that changes a state [S] and gives an [A] is a function of type [Go S A],
    which returns a value with the new state, panics, or blocks for ever on a
    mutex. A component's state is a record with the fields of the Go struct;
    [zoom] runs code on a part of a larger state. An error is a value of a sum or
    option type, a nil pointer an option. An [int64] is an integer that wraps
    where the code can overflow; a [float64] is the binary64 format of the
    standard library. Loops over slices are folds or [for_each]; the order in
    which Go visits a map is a parameter of the call ([env_range]), and so are
    the clock readings and the fresh UUIDs. Logging to the console is left out.

    Third-party code is a class of operations with a class of laws, which state
    documented behaviour: BigCache, the B-tree, pdata maps, protobuf marshalers
    and timestamps, memberlist and its broadcast queue, tidwall/wal, the OTLP
    clients, the DNS resolver. Theorems hold for every instance.

    BigCache does not handle collisions of its 64-bit hash, and the laws say so: a
    shard keeps one entry per hash, [Set] drops an entry with the hash of its key
    without a call of the hook, and [Delete] goes by the hash alone. Where a
    theorem needs that this does not happen it says so: [lone k c] (no other key
    in the cache [c] has the hash of [k]), [distinct b] (so it is for the indexed
    keys of a buffer) and [accepts kvs c] (each of the writes [kvs] succeeds,
    evicts nothing and meets no other key of its hash). The executable instance
    works with any hash function; the samples use 64-bit FNV-1a.

    An event of a node is atomic: a handler runs from beginning to end before
    another goroutine's step, and the theorems on reachable states hold for every
    order of events. Two files look inside. BufferLocks gives the mutex
    operations of every task of the program as a list and interleaves them one
    by one; a mutex prefers writers that wait, as sync.RWMutex does. The lists
    cover the nesting that the code has: the log's mutex around the replay, the
    buffer's around a range query's reads of the cache, and a shard's around the
    removal hook - whether BigCache calls the hook inside the shard's lock is a
    parameter. BufferRaces interleaves the calls of the cache inside [Store].
    What a process has open is a [World]; [main] is a program over it with a
    stack of deferred calls, and its loops are the events of the node.

    ** What is shown

    - The buffer (BufferTheorems, BufferTypes, BufferRefinement): an operation that
      runs alone neither deadlocks nor panics from any reachable state; every
      entry can be decoded as what its key says; when the cache accepts what is
      stored, the answers are those of an abstract table, storing appends to
      traces and inserts metrics and logs; range queries are exact, and so are
      removals of distinct keys; clean-up forwards what it evicts as long as the
      channel has room.
    - Goroutines (BufferLocks, BufferRaces): everything but range queries finishes
      under every schedule; a range query and a removal can block each other
      for ever; two stores for one trace can lose spans or logs; an index entry
      can leak.
    - The rollup (RollupTheorems): equivalence with the nested grouping, totals
      modulo 2^64, counts, one point per sum or gauge at the coarse level, and
      the exact condition for the panic.
    - Decisions (Decision): which batches match, what the decision says.
    - Gossip: what is broadcast is received as it was; no bytes can crash a node.
    - The log (Wal): writing, replaying and truncating, errors included.
    - The processor: what is exported, in which order, and what is removed.
    - A node and the cluster (MainTheorems, Liveness, Cluster): a node that boots keeps running
      except for one panic; an acknowledged signal is in the log; a replay
      restores what was accepted; high load and sampling decisions reach every
      node that receives the message; a decision that waits is handled in its
      turn; and no decision or trigger comes out of thin air, whatever the
      network does.
    - The process (Lifecycle): what is closed, in which order, for each way it
      ends, against what is open then; a service that is stopped closes the log of its last moment.

    Some theorems state behaviour the code probably does not intend: the logs of
    a sampled trace are lost, a decision can name another trace, a metric whose
    type changes crashes the rollup, a log that is old throughout is never
    truncated, an interval of 0 crashes at startup, an index entry can leak, two
    goroutines of a node can deadlock, concurrent stores can lose data, and a
    fatal error closes nothing.

    ** Bounds and fuel

    Decoding in Gob and WireCodec takes the length of the input as fuel, and the
    round-trip lemmas show that it is enough. Loops of the program recurse on the
    slices they range over. Bounds appear as hypotheses: a time window before the
    year 2262, where UnixNano is defined, and less than 2^63 log records.

    ** What is not modelled

    The generated protobuf code, the YAML parser, the gRPC servers and
    connections, the OpenTelemetry SDK and memberlist's protocol are parameters.
    Delivery of signals of the operating system; memory that goroutines share
    below the level of a mutex operation, a call of the cache or a channel
    operation (the program keeps its shared fields under mutexes, apart from
    the cluster handle that [Gossip.Start] sets before its loop starts); time
    that passes while a goroutine waits; console output. *)
From Stdlib Require Export ZArith Lia.
From stdpp Require Export base gmap sets list strings pretty.

(** ** Scope and notations *)

Declare Scope sampler_scope.
Delimit Scope sampler_scope with sampler.
#[global] Open Scope sampler_scope.

(** ** Machine integers

    Go's [int64] values are [Z]; an operation that can leave the range wraps. *)

Definition min_int64 : Z := (-9223372036854775808)%Z.
Definition max_int64 : Z := 9223372036854775807%Z.
Definition two64 : Z := 18446744073709551616%Z.

Definition wrap64 (z : Z) : Z := ((z + 9223372036854775808) mod two64 - 9223372036854775808)%Z.

Definition int64 (z : Z) : Prop := (min_int64 ≤ z ≤ max_int64)%Z.

#[global] Instance int64_dec z : Decision (int64 z).
Proof. unfold int64. apply _. Defined.

(** ** The outcome of running Go code

    A call returns a value, panics, or blocks for ever on a mutex. *)

Inductive outcome (A : Type) : Type :=
| Ok (a : A)
| Panic
| Deadlock.
Arguments Ok {A} a.
Arguments Panic {A}.
Arguments Deadlock {A}.

(** Code that reads and writes a state of type [S]. *)
Definition Go (S A : Type) : Type := S → outcome (A * S).

#[global] Instance Go_ret S : MRet (Go S) := λ A a s, Ok (a, s).
#[global] Instance Go_bind S : MBind (Go S) := λ A B k m s,
  match m s with
  | Ok (a, s') => k a s'
  | Panic => Panic
  | Deadlock => Deadlock
  end.

#[global] Instance outcome_bind : MBind outcome := λ A B k o,
  match o with Ok a => k a | Panic => Panic | Deadlock => Deadlock end.

Definition getS {S} : Go S S := λ s, Ok (s, s).
Definition putS {S} (s : S) : Go S unit := λ _, Ok (tt, s).
Definition modifyS {S} (f : S → S) : Go S unit := λ s, Ok (tt, f s).
Definition panic {S A} : Go S A := λ _, Panic.
Definition deadlock {S A} : Go S A := λ _, Deadlock.

(** A [for ... range] loop over a slice. *)
Fixpoint for_each {S A} (f : A → Go S unit) (l : list A) : Go S unit :=
  match l with
  | [] => mret tt
  | x :: l' => f x ≫= λ _, for_each f l'
  end.

(** Code on a part [T] of the state, run on the whole state [S]. *)
Definition zoom {S T A} (get : S → T) (set : T → S → S) (m : Go T A) : Go S A := λ s,
  match m (get s) with
  | Ok (a, t) => Ok (a, set t s)
  | Panic => Panic
  | Deadlock => Deadlock
  end.

(** ** Sums of integers *)

Definition sumZ {A} (f : A → Z) (l : list A) : Z := foldr (λ x acc, (f x + acc)%Z) 0%Z l.

(** ** Lemmas on machine integers *)

Create HintDb sampler.
Create Rewrite HintDb sampler.

Lemma wrap64_range z : int64 (wrap64 z).
Proof.
  unfold int64, wrap64, min_int64, max_int64, two64.
  pose proof (Z.mod_pos_bound (z + 9223372036854775808) 18446744073709551616 ltac:(lia)).
  lia.
Qed.

Lemma wrap64_id z : int64 z → wrap64 z = z.
Proof.
  unfold int64, wrap64, min_int64, max_int64, two64. intros ?.
  rewrite Z.mod_small; lia.
Qed.

Lemma wrap64_mod z : (wrap64 z mod two64 = z mod two64)%Z.
Proof.
  unfold wrap64. rewrite Zminus_mod_idemp_l. f_equal. lia.
Qed.

Lemma wrap64_idemp z : wrap64 (wrap64 z) = wrap64 z.
Proof. apply wrap64_id, wrap64_range. Qed.

Lemma wrap64_eq_mod z : ∃ k, (wrap64 z = z + k * two64)%Z.
Proof.
  exists (- ((z + 9223372036854775808) / two64))%Z. unfold wrap64.
  pose proof (Z.div_mod (z + 9223372036854775808) two64 ltac:(unfold two64; lia)). lia.
Qed.

(** Equality of integers modulo 2^64, which rewriting can use. *)
Definition eq64 (x y : Z) : Prop := (x mod two64 = y mod two64)%Z.

#[global] Instance eq64_equivalence : Equivalence eq64.
Proof. unfold eq64. split; [by intros x|by intros x y|intros x y z; by etrans]. Qed.

#[global] Instance eq64_add : Proper (eq64 ==> eq64 ==> eq64) Z.add.
Proof.
  unfold eq64. intros x x' Hx y y' Hy.
  rewrite (Zplus_mod x), (Zplus_mod x'). by rewrite Hx, Hy.
Qed.

Lemma eq64_eq x y : x = y → eq64 x y.
Proof. by intros ->. Qed.

Lemma wrap64_eq64 x : eq64 (wrap64 x) x.
Proof. apply wrap64_mod. Qed.

Lemma eq64_exact x y : int64 x → int64 y → eq64 x y → x = y.
Proof.
  intros Hx Hy H. rewrite <- (wrap64_id x Hx), <- (wrap64_id y Hy). unfold wrap64.
  rewrite (Zplus_mod x), (Zplus_mod y). unfold eq64 in H. by rewrite H.
Qed.

#[export] Hint Resolve wrap64_range : sampler.

(** ** Lemmas on running code *)

Section go_lemmas.
Context {S : Type}.

Lemma bind_ok {A B} (m : Go S A) (k : A → Go S B) s a s' :
  m s = Ok (a, s') → (m ≫= k) s = k a s'.
Proof. intros H. unfold mbind, Go_bind. by rewrite H. Qed.

Lemma for_each_cons {A} (f : A → Go S unit) x l s :
  for_each f (x :: l) s = match f x s with Ok (_, s') => for_each f l s' | Panic => Panic | Deadlock => Deadlock end.
Proof. done. Qed.

Lemma for_each_app {A} (f : A → Go S unit) l1 l2 s :
  for_each f (l1 ++ l2) s = (for_each f l1 ≫= λ _, for_each f l2) s.
Proof.
  revert s. induction l1 as [|x l1 IH]; intros s; [done|].
  cbn. unfold mbind, Go_bind. destruct (f x s) as [[[] s']| |]; [|done|done].
  apply IH.
Qed.

(** A loop whose body always succeeds is the fold of the body's effect. *)
Lemma for_each_fold {A} (I : S → Prop) (f : A → Go S unit) (g : A → S → S) l s :
  (∀ x s, x ∈ l → I s → f x s = Ok (tt, g x s) ∧ I (g x s)) →
  I s →
  for_each f l s = Ok (tt, foldl (λ s x, g x s) s l) ∧ I (foldl (λ s x, g x s) s l).
Proof.
  revert s. induction l as [|x l IH]; intros s Hf HI; [done|]. cbn.
  destruct (Hf x s (list_elem_of_here x l) HI) as [Hx HI'].
  erewrite bind_ok by exact Hx.
  apply IH; [|done]. intros y s' Hy. by apply Hf, list_elem_of_further.
Qed.

(** A loop whose body keeps an invariant and returns. *)
Lemma for_each_inv {A} (I : S → Prop) (f : A → Go S unit) l s :
  (∀ x s, x ∈ l → I s → ∃ s', f x s = Ok (tt, s') ∧ I s') → I s →
  ∃ s', for_each f l s = Ok (tt, s') ∧ I s'.
Proof.
  revert s. induction l as [|x l IH]; intros s Hf HI; [by exists s|]. cbn.
  destruct (Hf x s (list_elem_of_here x l) HI) as (s1 & Hx & HI1).
  erewrite bind_ok by exact Hx. apply IH; [|done].
  intros y s' Hy. by apply Hf, list_elem_of_further.
Qed.

(** Code that keeps a property of the state whenever it returns. *)
Definition keeps {A} (P : S → Prop) (m : Go S A) : Prop := ∀ s r s', P s → m s = Ok (r, s') → P s'.

Lemma keeps_ret {A} P (a : A) : keeps P (mret a).
Proof. intros s r s' HP. unfold mret, Go_ret. by intros [= <- <-]. Qed.

Lemma keeps_bind {A B} P (m : Go S A) (k : A → Go S B) :
  keeps P m → (∀ a, keeps P (k a)) → keeps P (m ≫= k).
Proof.
  intros Hm Hk s r s' HP H. unfold mbind, Go_bind in H.
  destruct (m s) as [[a s1]| |] eqn:E; [|done..]. by eapply Hk, H; eapply Hm.
Qed.

Lemma keeps_getS P : keeps P getS.
Proof. intros s r s' HP. unfold getS. by intros [= <- <-]. Qed.

Lemma keeps_panic {A} P : keeps P (panic (A := A)).
Proof. by intros s r s' HP. Qed.

Lemma keeps_deadlock {A} P : keeps P (deadlock (A := A)).
Proof. by intros s r s' HP. Qed.

Lemma keeps_for_each {A} P (f : A → Go S unit) l :
  (∀ x, x ∈ l → keeps P (f x)) → keeps P (for_each f l).
Proof.
  induction l as [|x l IH]; intros Hf; cbn; [apply keeps_ret|].
  apply keeps_bind; [apply Hf, list_elem_of_here|]. intros _. apply IH.
  intros y ?. by apply Hf, list_elem_of_further.
Qed.

Lemma keeps_modify P (f : S → S) : (∀ s, P s → P (f s)) → keeps P (modifyS f).
Proof. intros Hf s r s' HP. unfold modifyS. intros [= _ <-]. by apply Hf. Qed.

Lemma keeps_put P (s1 : S) : P s1 → keeps P (putS s1).
Proof. intros H1 s r s' _. unfold putS. by intros [= _ <-]. Qed.

Lemma keeps_bind_getS {A} P (k : S → Go S A) : (∀ s, P s → keeps P (k s)) → keeps P (getS ≫= k).
Proof. intros Hk s r s' HP Hrun. by eapply (Hk s). Qed.

Lemma keeps_true {A} (m : Go S A) : keeps (λ _, True) m.
Proof. by intros s r s' _ _. Qed.
End go_lemmas.

(** Code that runs on a part of the state. *)
Lemma keeps_zoom {S T A} (P : S → Prop) (Q : T → Prop) (get : S → T) (set : T → S → S) (m : Go T A) :
  keeps Q m → (∀ s, P s → Q (get s)) → (∀ s t, P s → Q t → P (set t s)) → keeps P (zoom get set m).
Proof.
  intros Hm Hget Hset s r s' HP Hrun. unfold zoom in Hrun.
  destruct (m (get s)) as [[a t]| |] eqn:E; [|done..]. injection Hrun as _ <-.
  apply Hset; [done|]. by eapply Hm; [apply Hget|].
Qed.

#[export] Hint Resolve keeps_true : sampler.
#[export] Hint Resolve keeps_ret keeps_bind keeps_getS keeps_panic keeps_deadlock keeps_for_each : sampler.

(** ** Lemmas on lists *)

Lemma omap_cons {A B} (f : A → option B) x l :
  omap f (x :: l) = match f x with Some y => y :: omap f l | None => omap f l end.
Proof. done. Qed.

Lemma sumZ_app {A} (f : A → Z) l1 l2 : (sumZ f (l1 ++ l2) = sumZ f l1 + sumZ f l2)%Z.
Proof. unfold sumZ. induction l1; cbn; [done|]. rewrite IHl1. lia. Qed.

Lemma sumZ_cons {A} (f : A → Z) x l : (sumZ f (x :: l) = f x + sumZ f l)%Z.
Proof. done. Qed.

Lemma sumZ_ext {A} (f g : A → Z) l : (∀ x, x ∈ l → f x = g x) → sumZ f l = sumZ g l.
Proof.
  induction l as [|x l IH]; intros H; [done|]. rewrite !sumZ_cons, H by apply list_elem_of_here.
  rewrite IH; [done|]. intros. by apply H, list_elem_of_further.
Qed.

Lemma sumZ_flat_map {A B} (f : B → Z) (g : A → list B) l :
  sumZ f (flat_map g l) = sumZ (λ x, sumZ f (g x)) l.
Proof. induction l as [|x l IH]; [done|]. cbn [flat_map]. by rewrite sumZ_app, sumZ_cons, IH. Qed.

Lemma sumZ_nonneg {A} (f : A → Z) l : (∀ x, 0 ≤ f x)%Z → (0 ≤ sumZ f l)%Z.
Proof. intros H. induction l as [|x l IH]; [done|]. rewrite sumZ_cons. specialize (H x). lia. Qed.

Lemma sumZ_Forall_nonneg {A} (f : A → Z) (Q : A → Prop) l :
  (∀ x, Q x → 0 ≤ f x)%Z → Forall Q l → (0 ≤ sumZ f l)%Z.
Proof. intros H. induction 1 as [|x l Hx Hl IH]; [done|]. rewrite sumZ_cons. specialize (H x Hx). lia. Qed.

Lemma sumZ_perm {A} (f : A → Z) l1 l2 : l1 ≡ₚ l2 → sumZ f l1 = sumZ f l2.
Proof. induction 1; cbn; unfold sumZ in *; cbn; lia. Qed.

Lemma sumZ_const {A} (f : A → Z) c l :
  (∀ x, x ∈ l → f x = c) → (sumZ f l = c * Z.of_nat (length l))%Z.
Proof.
  induction l as [|x l IH]; intros H; cbn; [lia|].
  rewrite H by apply list_elem_of_here. fold (sumZ f l).
  rewrite IH; [lia|]. intros y ?. by apply H, list_elem_of_further.
Qed.

Lemma take_app_take {A} n (l1 l2 : list A) : take n (take n l1 ++ l2) = take n (l1 ++ l2).
Proof. rewrite !take_app, take_take, Nat.min_id, length_take. do 2 f_equal. lia. Qed.

#[export] Hint Rewrite @sumZ_app @sumZ_cons : sampler.

(** ** Tactics *)

(** Unfolds monadic plumbing and computes. *)
Ltac go_simpl :=
  repeat (unfold mbind, Go_bind, mret, Go_ret, getS, putS, modifyS, panic, deadlock in *; cbn in * ).
