(* ===== verification/Locks.v ===== *)
(** Goroutines that share [sync.RWMutex]es, step by step.

    The other files run a handler from beginning to end. Here a goroutine is
    the sequence of its lock operations, any goroutine may take the next step,
    and the question is whether all of them can get to their end. *)
From S2P Require Import Prelude.

Section Locks.
Context {L : Type} `{EqL : EqDecision L}.

Inductive Mode := Reading | Writing.
#[export] Instance Mode_eq_dec : EqDecision Mode.
Proof. solve_decision. Defined.

Inductive Act := RLock (l : L) | RUnlock (l : L) | Lock (l : L) | Unlock (l : L).

(** [waiting]: the goroutine has announced the [Lock] it is at; since then no
    new reader gets the mutex, and it only waits for the present readers. *)
Record Goroutine := MkGoroutine { holds : list (L * Mode); waiting : bool; todo : list Act }.

Definition spawn (p : list Act) : Goroutine := MkGoroutine [] false p.

Abbreviation State := (list Goroutine).

Definition announced (l : L) (g : Goroutine) : Prop := waiting g = true ∧ head (todo g) = Some (Lock l).
#[export] Instance Act_eq_dec : EqDecision Act.
Proof. solve_decision. Defined.
#[export] Instance announced_dec l g : Decision (announced l g).
Proof. unfold announced. apply _. Defined.

(** Some goroutine has, or has asked for, the mutex for writing; has it for reading. *)
Definition writer (l : L) (s : State) : Prop := Exists (λ g, (l, Writing) ∈ holds g ∨ announced l g) s.
Definition reader (l : L) (s : State) : Prop := Exists (λ g, (l, Reading) ∈ holds g) s.
#[export] Instance writer_dec l s : Decision (writer l s).
Proof. unfold writer. apply _. Defined.
#[export] Instance reader_dec l s : Decision (reader l s).
Proof. unfold reader. apply _. Defined.

Fixpoint release (x : L * Mode) (h : list (L * Mode)) : list (L * Mode) :=
  match h with [] => [] | y :: h' => if decide (x = y) then h' else y :: release x h' end.

(** The next step of a goroutine, when it is not blocked. *)
Definition advance (s : State) (g : Goroutine) : option Goroutine :=
  match todo g with
  | [] => None
  | RLock l :: p => if decide (writer l s) then None else Some (MkGoroutine ((l, Reading) :: holds g) false p)
  | RUnlock l :: p =>
      if decide ((l, Reading) ∈ holds g) then Some (MkGoroutine (release (l, Reading) (holds g)) false p) else None
  | Lock l :: p =>
      if waiting g then
        if decide (reader l s) then None else Some (MkGoroutine ((l, Writing) :: holds g) false p)
      else if decide (writer l s) then None else Some (MkGoroutine (holds g) true (todo g))
  | Unlock l :: p =>
      if decide ((l, Writing) ∈ holds g) then Some (MkGoroutine (release (l, Writing) (holds g)) false p) else None
  end.

(** Goroutine [i] takes a step. *)
Definition step (i : nat) (s : State) : option State :=
  g ← s !! i; g' ← advance s g; Some (<[i := g']> s).

(** [n] steps, in some order. *)
Inductive moves : nat → State → State → Prop :=
| moves_refl s : moves 0 s s
| moves_next n i s s1 s2 : step i s = Some s1 → moves n s1 s2 → moves (S n) s s2.

Definition finished (s : State) : Prop := Forall (λ g, todo g = []) s.

(** Nobody can move, and somebody is not done. *)
Definition deadlocked (s : State) : Prop := (∀ i, step i s = None) ∧ ¬ finished s.

(** A schedule, to run the machine. *)
Fixpoint run_schedule (sched : list nat) (s : State) : option State :=
  match sched with [] => Some s | i :: sched' => s' ← step i s; run_schedule sched' s' end.

Lemma run_schedule_moves sched s s' : run_schedule sched s = Some s' → moves (length sched) s s'.
Proof.
  revert s. induction sched as [|i sched IH]; intros s; cbn; [intros [= ->]; constructor|].
  destruct (step i s) as [s1|] eqn:E; [|done]. cbn. intros H. econstructor; [done|by apply IH].
Qed.

(** ** Ordered goroutines: each mutex that is taken ranks above those that are held *)
Context (rank : L → nat).

Definition above (l : L) (h : list (L * Mode)) : Prop := Forall (λ x, rank x.1 < rank l) h.

Fixpoint ordered (h : list (L * Mode)) (p : list Act) : Prop :=
  match p with
  | [] => h = []
  | RLock l :: p' => above l h ∧ ordered ((l, Reading) :: h) p'
  | Lock l :: p' => above l h ∧ ordered ((l, Writing) :: h) p'
  | RUnlock l :: p' => (l, Reading) ∈ h ∧ ordered (release (l, Reading) h) p'
  | Unlock l :: p' => (l, Writing) ∈ h ∧ ordered (release (l, Writing) h) p'
  end.

Definition good (g : Goroutine) : Prop :=
  ordered (holds g) (todo g) ∧ (waiting g = true → ∃ l, head (todo g) = Some (Lock l)).

Lemma ordered_app h p q : ordered h p → ordered [] q → ordered h (p ++ q).
Proof.
  revert h. induction p as [|a p IH]; intros h; cbn; [by intros ->|].
  destruct a; intros [? ?] ?; by split; [|apply IH].
Qed.

Lemma ordered_concat (ps : list (list Act)) : Forall (ordered []) ps → ordered [] (concat ps).
Proof. induction 1; cbn; [done|by apply ordered_app]. Qed.

(** Taking a mutex of lower rank around ordered code. *)
Lemma ordered_under m l h p :
  ordered h p → Forall (λ a, match a with RLock l' | Lock l' => rank l < rank l' | _ => True end) p →
  (l, m) ∉ h →
  ordered (h ++ [(l, m)]) (p ++ [match m with Reading => RUnlock l | Writing => Unlock l end]).
Proof.
  assert (∀ x h, (l, m) ∉ h → x ∈ h → release x (h ++ [(l, m)]) = release x h ++ [(l, m)]) as Hrel.
  { intros x h'. induction h' as [|y h' IH]; intros Hn Hx; cbn; [by apply elem_of_nil in Hx|].
    case_decide; [done|]. rewrite IH; [done|set_solver|set_solver]. }
  assert (∀ x y h, y ∈ release x h → y ∈ h) as Hsub.
  { intros x y h'. induction h' as [|z h' IH]; cbn; [done|]. case_decide; set_solver. }
  revert h. induction p as [|a p IH]; intros h; cbn.
  - intros -> _ _. destruct m; cbn; rewrite decide_True by done; by split; [apply list_elem_of_here|].
  - intros Ho [Ha Hp]%Forall_cons Hn.
    destruct a as [l'|l'|l'|l']; destruct Ho as [Hl Ho]; split.
    + apply Forall_app. split; [done|]. by repeat constructor.
    + apply (IH (_ :: h)); [done..|]. intros [[= -> ->]|?]%elem_of_cons; [lia|done].
    + apply elem_of_app. by left.
    + rewrite Hrel by done. apply IH; [done..|]. by intros ?%Hsub.
    + apply Forall_app. split; [done|]. by repeat constructor.
    + apply (IH (_ :: h)); [done..|]. intros [[= -> ->]|?]%elem_of_cons; [lia|done].
    + apply elem_of_app. by left.
    + rewrite Hrel by done. apply IH; [done..|]. by intros ?%Hsub.
Qed.

Lemma spawn_good p : ordered [] p → good (spawn p).
Proof. intros H. by split. Qed.

Lemma advance_good s g g' : good g → advance s g = Some g' → good g'.
Proof.
  intros [Ho Hw] Ha. unfold advance in Ha. destruct (todo g) as [|[l|l|l|l] p] eqn:Et; [done|..]; cbn in Ho; destruct Ho as [Hl Ho].
  - case_decide; simplify_eq. by split.
  - case_decide; simplify_eq. by split.
  - destruct (waiting g) eqn:Ew; case_decide; simplify_eq; [by split|].
    split; [done|]. intros _. by exists l.
  - case_decide; simplify_eq. by split.
Qed.

Lemma step_good i s s' : Forall good s → step i s = Some s' → Forall good s'.
Proof.
  intros Hs H. unfold step in H. destruct (s !! i) as [g|] eqn:Eg; [|done]. cbn in H.
  destruct (advance s g) as [g'|] eqn:Ea; [|done]. cbn in H. simplify_eq.
  apply Forall_insert; [done|]. eapply advance_good; [|done]. by eapply Forall_lookup_1.
Qed.

(** Goroutines that hold something go on: they release it or ask for more. *)
Lemma holder_next g x : good g → x ∈ holds g → todo g ≠ [].
Proof. intros [Ho _] Hx Ht. rewrite Ht in Ho. cbn in Ho. rewrite Ho in Hx. by apply elem_of_nil in Hx. Qed.

Definition enabled (s : State) : Prop := ∃ i s', step i s = Some s'.

Lemma advance_enabled s g g' : g ∈ s → advance s g = Some g' → enabled s.
Proof.
  intros [i Hi]%list_elem_of_lookup Ha. exists i. unfold step. rewrite Hi. cbn. rewrite Ha. by eexists.
Qed.

(** What a goroutine is about to take. *)
Definition wants (g : Goroutine) (l : L) : Prop := head (todo g) = Some (RLock l) ∨ head (todo g) = Some (Lock l).

Lemma not_wanting_enabled s g : good g → g ∈ s → todo g ≠ [] → enabled s ∨ ∃ l, wants g l.
Proof.
  intros [Ho _] Hg Hne. unfold wants. destruct (todo g) as [|[l|l|l|l] p] eqn:Et; [done|..]; cbn in Ho |- *; destruct Ho as [Hl _].
  - by right; exists l; left.
  - left. eapply advance_enabled; [done|]. unfold advance. by rewrite Et, decide_True.
  - by right; exists l; right.
  - left. eapply advance_enabled; [done|]. unfold advance. by rewrite Et, decide_True.
Qed.

Lemma wants_above g l x : good g → wants g l → x ∈ holds g → rank x.1 < rank l.
Proof.
  intros [Ho _] Hw Hx. unfold wants in Hw. destruct (todo g) as [|[l'|l'|l'|l'] p]; destruct Hw; simplify_eq/=;
    destruct Ho as [Hl _]; by eapply Forall_forall in Hl.
Qed.

Context (top : nat) (rank_top : ∀ l, rank l ≤ top).

(** A goroutine that has to wait waits for one that can move, directly or not. *)
Lemma wanting_enabled n s g l :
  Forall good s → g ∈ s → wants g l → top - rank l < n → enabled s.
Proof.
  intros Hs. revert g l. induction n as [|n IH]; intros g l Hg Hw Hn; [lia|].
  assert (∀ g x, g ∈ s → x ∈ holds g → x.1 = l → enabled s) as Hholder.
  { intros g' x Hg' Hx <-. assert (good g') as Hgood by by eapply Forall_forall in Hs.
    destruct (not_wanting_enabled s g' Hgood Hg' (holder_next _ _ Hgood Hx)) as [?|[l' Hw']]; [done|].
    pose proof (wants_above _ _ _ Hgood Hw' Hx). pose proof (rank_top l').
    apply (IH g' l'); [done..|lia]. }
  assert (writer l s → enabled s) as Hwriter.
  { intros (g' & Hg' & [Hx|[Hwait Hhd]])%Exists_exists; [by eapply (Hholder g' (l, Writing))|].
    destruct (todo g') as [|a p] eqn:Et; [done|]. cbn in Hhd. injection Hhd as ->.
    destruct (decide (reader l s)) as [(g2 & Hg2 & Hx)%Exists_exists|Hr]; [by eapply (Hholder g2 (l, Reading))|].
    eapply (advance_enabled s g'); [done|]. unfold advance. by rewrite Et, Hwait, decide_False. }
  destruct (decide (writer l s)) as [?|Hno]; [by apply Hwriter|].
  destruct Hw as [Hw|Hw]; destruct (todo g) as [|a p] eqn:Et; try done; cbn in Hw; injection Hw as ->.
  - eapply (advance_enabled s g); [done|]. unfold advance. by rewrite Et, decide_False.
  - destruct (waiting g) eqn:Ew.
    + exfalso. apply Hno. apply Exists_exists. exists g. split; [done|]. right. split; [done|]. by rewrite Et.
    + eapply (advance_enabled s g); [done|]. unfold advance. by rewrite Et, Ew, decide_False.
Qed.

Lemma good_progress s : Forall good s → ¬ finished s → enabled s.
Proof.
  intros Hs Hf. apply not_Forall_Exists in Hf; [|apply _].
  apply Exists_exists in Hf as (g & Hg & Hne).
  assert (good g) as Hgood by by eapply Forall_forall in Hs.
  destruct (not_wanting_enabled s g Hgood Hg Hne) as [?|[l Hw]]; [done|].
  apply (wanting_enabled (S (top - rank l)) s g l); [done..|lia].
Qed.

(** ** How long it takes *)
Definition act_cost (a : Act) : nat := match a with Lock _ => 2 | _ => 1 end.
Definition cost (g : Goroutine) : nat := sum_list (act_cost <$> todo g) - (if waiting g then 1 else 0).
Definition work (s : State) : nat := sum_list (cost <$> s).

Lemma advance_cost s g g' : good g → advance s g = Some g' → cost g = S (cost g').
Proof.
  intros [Ho Hw] Ha. unfold advance, cost in *. destruct (todo g) as [|[l|l|l|l] p] eqn:Et; [done|..].
  all: destruct (waiting g) eqn:Ew; try (destruct (Hw eq_refl) as [? ?]; simplify_eq/=; done).
  all: repeat case_decide; simplify_eq/=; try lia.
Qed.

Lemma work_insert s i g g' : s !! i = Some g → work s + cost g' = work (<[i := g']> s) + cost g.
Proof.
  assert (∀ h s, work (h :: s) = cost h + work s) as Hcons by done.
  revert i. induction s as [|h s IH]; intros i Hi; [done|]. destruct i as [|i]; cbn -[cost work] in Hi.
  - simplify_eq. change (<[0 := g']> (g :: s)) with (g' :: s). rewrite !Hcons. lia.
  - change (<[S i := g']> (h :: s)) with (h :: <[i := g']> s). rewrite !Hcons. specialize (IH i Hi). lia.
Qed.

Lemma step_work i s s' : Forall good s → step i s = Some s' → work s = S (work s').
Proof.
  intros Hs H. unfold step in H. destruct (s !! i) as [g|] eqn:Eg; [|done]. cbn in H.
  destruct (advance s g) as [g'|] eqn:Ea; [|done]. cbn in H. simplify_eq.
  assert (good g) as Hg by by eapply Forall_lookup_1.
  pose proof (advance_cost s g g' Hg Ea). pose proof (work_insert s i g g' Eg). lia.
Qed.

Lemma finished_work s : finished s → work s = 0.
Proof.
  induction 1 as [|g s Hg Hs IH]; [done|]. unfold work in *. cbn. rewrite IH. unfold cost. by rewrite Hg.
Qed.

Lemma moves_work n s s' : Forall good s → moves n s s' → work s = n + work s' ∧ Forall good s'.
Proof.
  intros Hs H. induction H as [s|n i s s1 s2 Hst Hr IH]; [done|].
  destruct IH as [IH Hg]; [by eapply step_good|]. split; [|done]. rewrite (step_work i s s1) by done. lia.
Qed.

(** Whatever the schedule, ordered goroutines are never stuck, and after as many
    steps as they have lock operations all of them are done. *)
Lemma ordered_finish s n s' :
  Forall good s → moves n s s' →
  n ≤ work s ∧ ¬ deadlocked s' ∧ (finished s' ↔ n = work s).
Proof.
  intros Hs Hst. destruct (moves_work n s s' Hs Hst) as [Ht Hg]. split; [lia|]. split.
  - intros [Hno Hf]. destruct (good_progress s' Hg Hf) as (i & s'' & H). by rewrite Hno in H.
  - split; [intros Hf; rewrite (finished_work s' Hf) in Ht; lia|]. intros ->.
    destruct (decide (finished s')) as [?|Hf]; [done|].
    destruct (good_progress s' Hg Hf) as (i & s'' & H). apply step_work in H; [|done]. lia.
Qed.
End Locks.

Arguments Act L : clear implicits.
Arguments Goroutine L : clear implicits.
