(* ===== verification/GoStd.v ===== *)
(** The parts of the Go language and of its standard library that the sampler
    uses: [time], [encoding/hex], string comparison, mutexes and buffered
    channels. *)
From S2P Require Import Prelude.
From Stdlib Require Import Ascii.
From Stdlib Require Export Strings.Byte.
From stdpp Require Export sorting.

(** ** Package time

    An instant is its distance in nanoseconds from the Unix epoch. Go stores
    seconds and nanoseconds apart, so an instant is not bounded by [int64];
    [UnixNano] is. A [Duration] is an [int64] of nanoseconds. *)
Module Time.

(** [time.Time{}]: January 1, year 1, 00:00:00 UTC. *)
Definition zero_time : Z := (-62135596800 * 1000000000)%Z.

Definition Nanosecond : Z := 1%Z.
Definition Millisecond : Z := 1000000%Z.
Definition Second : Z := 1000000000%Z.
Definition Minute : Z := (60 * Second)%Z.

Definition IsZero (t : Z) : bool := bool_decide (t = zero_time).
Definition Before (t u : Z) : bool := (t <? u)%Z.
Definition After (t u : Z) : bool := (u <? t)%Z.
Definition Add (t d : Z) : Z := (t + d)%Z.

(** [Sub] saturates at the ends of [Duration]. *)
Definition Sub (t u : Z) : Z := Z.max min_int64 (Z.min max_int64 (t - u)).

(** [UnixNano]: "the result is undefined if the Unix time in nanoseconds
    cannot be represented by an int64"; the implementation wraps. *)
Definition UnixNano (t : Z) : Z := wrap64 t.

(** [time.Unix(0, ns)]. *)
Definition Unix_nsec (ns : Z) : Z := ns.
End Time.

(** ** Byte slices *)

Abbreviation bytes := (list byte).

#[global] Instance byte_eq_decision : EqDecision byte := Byte.byte_eq_dec.

#[global] Program Instance byte_countable : Countable byte :=
  {| encode b := encode (Byte.to_N b); decode p := decode p ≫= Byte.of_N |}.
Next Obligation. intros b. cbn. rewrite decode_encode. cbn. apply Byte.of_to_N. Qed.

(** ** Package encoding/hex *)
Module Hex.

(** The digit of a value below 16. *)
Definition hextable (n : N) : Ascii.ascii :=
  default "0"%char (String.get (N.to_nat n) "0123456789abcdef").

(** Both cases of a digit are accepted on the way back. *)
Definition fromHexChar (c : Ascii.ascii) : option N :=
  let n := Ascii.N_of_ascii c in
  let between lo hi := ((Ascii.N_of_ascii lo <=? n) && (n <=? Ascii.N_of_ascii hi))%N in
  if between "0"%char "9"%char then Some (n - Ascii.N_of_ascii "0"%char)%N
  else if between "a"%char "f"%char then Some (n - Ascii.N_of_ascii "a"%char + 10)%N
  else if between "A"%char "F"%char then Some (n - Ascii.N_of_ascii "A"%char + 10)%N
  else None.
#[global] Arguments hextable : simpl never.
#[global] Arguments fromHexChar : simpl never.

Fixpoint EncodeToString (b : bytes) : string :=
  match b with
  | [] => ""
  | x :: b' => String (hextable (Byte.to_N x / 16)) (String (hextable (Byte.to_N x mod 16)) (EncodeToString b'))
  end.

(** [None] is the error of an odd length or of a character that is not a digit. *)
Fixpoint DecodeString (s : string) : option bytes :=
  match s with
  | "" => Some []
  | String c1 (String c2 s') =>
      h ← fromHexChar c1; l ← fromHexChar c2;
      x ← Byte.of_N (16 * h + l);
      b ← DecodeString s';
      Some (x :: b)
  | _ => None
  end.

Definition is_hex_digit (c : Ascii.ascii) : bool :=
  match fromHexChar c with Some _ => true | None => false end.

Lemma hextable_inv n : (n < 16)%N → fromHexChar (hextable n) = Some n.
Proof.
  intros H.
  assert (n = 0 ∨ n = 1 ∨ n = 2 ∨ n = 3 ∨ n = 4 ∨ n = 5 ∨ n = 6 ∨ n = 7 ∨ n = 8 ∨ n = 9
    ∨ n = 10 ∨ n = 11 ∨ n = 12 ∨ n = 13 ∨ n = 14 ∨ n = 15)%N as Hn by lia.
  repeat (destruct Hn as [->|Hn]; [done|]). by subst.
Qed.

Lemma byte_nibbles (x : byte) :
  (Byte.to_N x / 16 < 16)%N ∧ (Byte.to_N x mod 16 < 16)%N
  ∧ Byte.of_N (16 * (Byte.to_N x / 16) + Byte.to_N x mod 16) = Some x.
Proof.
  pose proof (Byte.to_N_bounded x). split_and!.
  - apply N.Div0.div_lt_upper_bound. lia.
  - by apply N.mod_lt.
  - rewrite <- N.div_mod by done. apply Byte.of_to_N.
Qed.

Lemma decode_encode b : DecodeString (EncodeToString b) = Some b.
Proof.
  induction b as [|x b IH]; [done|]. cbn.
  destruct (byte_nibbles x) as (Hh & Hl & Hx).
  rewrite (hextable_inv _ Hh), (hextable_inv _ Hl). cbn -[N.mul N.add].
  rewrite Hx. cbn. by rewrite IH.
Qed.

#[global] Instance EncodeToString_inj : Inj (=) (=) EncodeToString.
Proof. intros b1 b2 H. apply (f_equal DecodeString) in H. rewrite !decode_encode in H. by simplify_eq. Qed.

Lemma EncodeToString_head b c s : EncodeToString b = String c s → is_hex_digit c = true.
Proof.
  destruct b as [|x b]; cbn; intros H; [done|]. simplify_eq.
  unfold is_hex_digit. by rewrite hextable_inv by apply byte_nibbles.
Qed.

Lemma EncodeToString_length b : String.length (EncodeToString b) = 2 * length b.
Proof. induction b as [|x b IH]; cbn; [done|]. rewrite IH. lia. Qed.
End Hex.

(** ** Strings *)
Module Str.

(** [s < t] on strings: lexicographic on the bytes. *)
Definition Less (s t : string) : bool := String.ltb s t.

Fixpoint HasPrefix (s prefix : string) : bool :=
  match prefix, s with
  | "", _ => true
  | String p prefix', String c s' => bool_decide (c = p) && HasPrefix s' prefix'
  | _, _ => false
  end.

(** [sort.Strings]. *)
Definition Strings (l : list string) : list string := merge_sort String.le l.

(** [s[:n]], for [n] at most the length. *)
Definition take (n : nat) (s : string) : string := String.substring 0 n s.

Lemma Less_spec s t : Less s t = true ↔ String.le s t ∧ s ≠ t.
Proof.
  unfold Less, String.ltb, String.le, String.leb.
  destruct (String.compare s t) eqn:E.
  - apply String.compare_eq_iff in E as ->. naive_solver.
  - split; [|done]. intros _. split; [done|]. intros ->.
    pose proof (String.compare_antisym t t) as E'. by rewrite E in E'.
  - naive_solver.
Qed.

Lemma Less_irrefl s : Less s s = false.
Proof. apply not_true_is_false. rewrite Less_spec. naive_solver. Qed.

Lemma Less_trans s t u : Less s t = true → Less t u = true → Less s u = true.
Proof.
  rewrite !Less_spec. intros [H1 N1] [H2 N2]. split; [by etrans|].
  intros ->. apply N1. by apply (anti_symm String.le).
Qed.

Lemma Less_total s t : Less s t = false → Less t s = false → s = t.
Proof.
  intros H1 H2. destruct (decide (s = t)) as [|Hne]; [done|].
  destruct (total String.le s t) as [H|H].
  - assert (Less s t = true) by (rewrite Less_spec; done). congruence.
  - assert (Less t s = true) by (rewrite Less_spec; done). congruence.
Qed.

Lemma HasPrefix_app p s : HasPrefix (p +:+ s) p = true.
Proof. induction p as [|c p IH]; [by destruct s|].
  change (String c p +:+ s) with (String c (p +:+ s)).
  cbn -[bool_decide]. by rewrite bool_decide_true. Qed.
End Str.

(** ** Package sync: mutexes

    One goroutine runs at a time; a lock that is not free blocks it for ever,
    which the [Deadlock] outcome records. *)
Inductive RWMutex := Unlocked | RLocked (readers : nat) | WLocked.

#[global] Instance RWMutex_eq_dec : EqDecision RWMutex.
Proof. solve_decision. Defined.

Module Mutex.
Definition Lock : Go RWMutex unit := λ m,
  match m with Unlocked => Ok (tt, WLocked) | _ => Deadlock end.
Definition Unlock : Go RWMutex unit := λ m,
  match m with WLocked => Ok (tt, Unlocked) | _ => Panic end.
Definition RLock : Go RWMutex unit := λ m,
  match m with
  | Unlocked => Ok (tt, RLocked 1)
  | RLocked n => Ok (tt, RLocked (S n))
  | WLocked => Deadlock
  end.
Definition RUnlock : Go RWMutex unit := λ m,
  match m with
  | RLocked 1 => Ok (tt, Unlocked)
  | RLocked (S n) => Ok (tt, RLocked n)
  | _ => Panic
  end.
End Mutex.

(** ** Buffered channels *)
Record chan (A : Type) := Chan { chan_buf : list A; chan_cap : nat }.
Arguments Chan {A} chan_buf chan_cap.
Arguments chan_buf {A} _.
Arguments chan_cap {A} _.

Module Chan.
Definition make (A : Type) (n : nat) : chan A := Chan [] n.

(** [select { case c <- x: default: }]: the value is dropped when the buffer is
    full; the flag says whether it was sent. *)
Definition try_send {A} (x : A) (c : chan A) : bool * chan A :=
  if decide (length (chan_buf c) < chan_cap c)%nat
  then (true, Chan (chan_buf c ++ [x]) (chan_cap c))
  else (false, c).

(** [x := <-c], when a value is there. *)
Definition recv {A} (c : chan A) : option (A * chan A) :=
  match chan_buf c with
  | [] => None
  | x :: l => Some (x, Chan l (chan_cap c))
  end.

Definition wf {A} (c : chan A) : Prop := length (chan_buf c) ≤ chan_cap c.

Lemma try_send_wf {A} (x : A) c : wf c → wf (try_send x c).2.
Proof. unfold wf, try_send. case_decide; cbn; [|done]. rewrite length_app. cbn. lia. Qed.

Lemma try_send_cap {A} (x : A) c : chan_cap (try_send x c).2 = chan_cap c.
Proof. unfold try_send. by case_decide. Qed.

(** A send keeps what fits. *)
Lemma try_send_take {A} (x : A) c : wf c → (try_send x c).2 = Chan (take (chan_cap c) (chan_buf c ++ [x])) (chan_cap c).
Proof.
  unfold wf, try_send. intros Hwf. case_decide; cbn.
  - rewrite take_ge; [done|]. rewrite length_app. cbn. lia.
  - rewrite take_app_le, take_ge by lia. by destruct c.
Qed.

Lemma try_send_prefix {A} (x : A) c : ∃ l, chan_buf (try_send x c).2 = chan_buf c ++ l ∧ (l = [x] ∨ l = []).
Proof.
  unfold try_send. case_decide; cbn; [by eauto|]. exists []. rewrite app_nil_r. auto.
Qed.

Lemma recv_wf {A} (x : A) c c' : wf c → recv c = Some (x, c') → wf c'.
Proof.
  unfold wf, recv. destruct (chan_buf c) eqn:E; [done|]. intros ? [= <- <-]. cbn in *. lia.
Qed.
End Chan.

#[export] Hint Resolve Chan.try_send_wf Chan.recv_wf : sampler.
