(* ===== verification/PData.v ===== *)
(** The telemetry data the sampler handles: the OTLP messages as
    [go.opentelemetry.io/collector/pdata] exposes them.

    A message is plain data here: a slice is a list, [AppendEmpty] and
    [MoveAndAppendTo] append to it and [CopyTo] copies it. Fields that the
    sampler copies and never looks at are kept in one opaque field. What pdata
    computes (attribute maps, the text of a value, timestamps, the protobuf
    encoding) is not the sampler's code: it is a parameter, given by a class of
    operations and a class of the laws the sampler relies on. *)
From Stdlib Require Export SpecFloat.
From S2P Require Import Prelude GoStd.

(** ** Values and attributes *)

(** [float64] is IEEE 754 binary64. *)
Abbreviation float64 := spec_float.
Definition prec64 : Z := 53%Z.
Definition emax64 : Z := 1024%Z.
Definition float64_add (x y : float64) : float64 := SFadd prec64 emax64 x y.
Definition float64_mul (x y : float64) : float64 := SFmul prec64 emax64 x y.
Definition float64_of_Z (z : Z) : float64 := binary_normalize prec64 emax64 z 0 false.
Definition float64_zero : float64 := S754_zero false.

(** [pcommon.Value] *)
Inductive Value :=
| VEmpty
| VStr (s : string)
| VBool (b : bool)
| VInt (z : Z)
| VDouble (f : float64)
| VBytes (b : bytes)
| VSlice (l : list Value)
| VMap (m : list (string * Value)).

(** [pcommon.Map]: key-value pairs in order. *)
Abbreviation Map := (list (string * Value)).

(** [Value.Str]: "if the Type() is not ValueTypeStr then returns empty string". *)
Definition Str (v : Value) : string := match v with VStr s => s | _ => "" end.

(** [Value.Int]: "if the Type() is not ValueTypeInt then returns int64(0)". *)
Definition Int (v : Value) : Z := match v with VInt z => z | _ => 0%Z end.

(** ** Trace identifiers: [[16]byte] *)
Record TraceID := MkTraceID { tid_bytes : bytes; tid_len : Is_true (length tid_bytes =? 16) }.

Lemma tid_eq (t u : TraceID) : tid_bytes t = tid_bytes u → t = u.
Proof. destruct t as [b p], u as [c q]. cbn. intros <-. f_equal. apply proof_irrel. Qed.

#[global] Instance tid_bytes_inj : Inj (=) (=) tid_bytes := tid_eq.

(** [copy(tid[:], b)] for a [b] of 16 bytes. *)
Definition tid_of_bytes (b : bytes) : option TraceID :=
  match decide (Is_true (length b =? 16)) with
  | left p => Some (MkTraceID b p)
  | right _ => None
  end.

Definition IsEmpty (t : TraceID) : bool := forallb (Byte.eqb "000"%byte) (tid_bytes t).

#[global] Instance TraceID_eq_dec : EqDecision TraceID.
Proof.
  intros t u. destruct (decide (tid_bytes t = tid_bytes u)) as [H|H].
  - left. by apply tid_eq.
  - right. by intros ->.
Defined.

Lemma tid_of_bytes_bytes t : tid_of_bytes (tid_bytes t) = Some t.
Proof.
  unfold tid_of_bytes. destruct decide as [p|n].
  - f_equal. by apply tid_eq.
  - by destruct n, t.
Qed.

#[global] Instance TraceID_countable : Countable TraceID :=
  inj_countable tid_bytes tid_of_bytes tid_of_bytes_bytes.

Lemma tid_of_bytes_Some b : length b = 16 → ∃ t, tid_of_bytes b = Some t ∧ tid_bytes t = b.
Proof.
  intros H. unfold tid_of_bytes. destruct decide as [p|n]; [by eexists|].
  destruct n. apply Is_true_true, Nat.eqb_eq, H.
Qed.

Lemma tid_length t : length (tid_bytes t) = 16.
Proof. destruct t as [b p]. cbn. by apply Nat.eqb_eq, Is_true_true. Qed.

(** ** OTLP messages *)

Record Resource := MkResource { res_attrs : Map; res_rest : string }.

(** [pcommon.InstrumentationScope] *)
Record Scope := MkScope { sc_name : string; sc_version : string; sc_rest : string }.

(** [ScopeSpans], [ScopeMetrics] and [ScopeLogs] have the same shape, and so
    have [ResourceSpans], [ResourceMetrics] and [ResourceLogs]. *)
Record ScopeGroup (A : Type) := MkSG { sg_scope : Scope; sg_items : list A; sg_schema : string }.
Arguments MkSG {A} _ _ _.
Arguments sg_scope {A} _.
Arguments sg_items {A} _.
Arguments sg_schema {A} _.

Record ResourceGroup (A : Type) := MkRG { rg_resource : Resource; rg_scopes : list (ScopeGroup A); rg_schema : string }.
Arguments MkRG {A} _ _ _.
Arguments rg_resource {A} _.
Arguments rg_scopes {A} _.
Arguments rg_schema {A} _.

(** [ptrace.StatusCode] *)
Inductive StatusCode := StatusCodeUnset | StatusCodeOk | StatusCodeError.

#[global] Instance StatusCode_eq_dec : EqDecision StatusCode.
Proof. solve_decision. Defined.

(** [ptrace.Span]; timestamps are [uint64] nanoseconds since the Unix epoch. *)
Record Span := MkSpan {
  sp_trace_id : TraceID;
  sp_name : string;
  sp_start : Z;
  sp_end : Z;
  sp_status : StatusCode;
  sp_attrs : Map;
  sp_rest : string }.

(** [pmetric.NumberDataPoint] *)
Inductive NumberValue := NVEmpty | NVInt (z : Z) | NVDouble (f : float64).
Record NumberDataPoint := MkDP { dp_attrs : Map; dp_value : NumberValue; dp_rest : string }.

(** [NumberDataPoint.IntValue] and [DoubleValue] read 0 from a point of the
    other type. *)
Definition IntValue (dp : NumberDataPoint) : Z := match dp_value dp with NVInt z => z | _ => 0%Z end.
Definition DoubleValue (dp : NumberDataPoint) : float64 :=
  match dp_value dp with NVDouble f => f | _ => float64_zero end.

(** [pmetric.Metric]; histograms and summaries are opaque. *)
Inductive OtherKind := Histogram | ExponentialHistogram | Summary.
Inductive MetricData :=
| MDEmpty
| MDGauge (dps : list NumberDataPoint)
| MDSum (monotonic : bool) (temporality : Z) (dps : list NumberDataPoint)
| MDOther (k : OtherKind) (payload : string).
Record Metric := MkMetric {
  m_name : string;
  m_description : string;
  m_unit : string;
  m_metadata : Map;
  m_data : MetricData }.

(** [plog.LogRecord]; the severity number is an [int32]. *)
Record LogRecord := MkLR {
  lr_trace_id : TraceID;
  lr_severity : Z;
  lr_body : Value;
  lr_attrs : Map;
  lr_rest : string }.

Abbreviation Traces := (list (ResourceGroup Span)).
Abbreviation Metrics := (list (ResourceGroup Metric)).
Abbreviation Logs := (list (ResourceGroup LogRecord)).

(** All the items of a message, in order, each with its resource and scope. *)
Definition sg_flat {A} (r : Resource) (g : ScopeGroup A) : list (Resource * Scope * A) :=
  map (λ x, (r, sg_scope g, x)) (sg_items g).
Definition rg_flat {A} (g : ResourceGroup A) : list (Resource * Scope * A) :=
  flat_map (sg_flat (rg_resource g)) (rg_scopes g).
Definition flat {A} (gs : list (ResourceGroup A)) : list (Resource * Scope * A) := flat_map rg_flat gs.
Definition items {A} (gs : list (ResourceGroup A)) : list A :=
  flat_map (λ g, flat_map sg_items (rg_scopes g)) gs.

(** A message with one item in a group of its own. *)
Definition singleton_group {A} (r : Resource) (s : Scope) (x : A) : ResourceGroup A :=
  MkRG r [MkSG s [x] ""] "".

(** ** What pdata computes *)

Class PData := {
  map_get : string → Map → option Value;      (* Map.Get *)
  map_put : string → Value → Map → Map;       (* Map.PutEmpty and a setter, PutInt, PutBool *)
  map_remove : string → Map → Map;            (* Map.Remove *)
  as_string : Value → string;                 (* Value.AsString *)
  as_time : Z → Z                             (* Timestamp.AsTime *)
}.

Class PDataLaws `{PData} : Prop := {
  map_get_none k m : map_get k m = None ↔ k ∉ m.*1;
  map_get_elem k v m : map_get k m = Some v → (k, v) ∈ m;
  map_get_put k v m : map_get k (map_put k v m) = Some v;
  map_get_put_ne k k' v m : k ≠ k' → map_get k' (map_put k v m) = map_get k' m;
  map_put_fresh k v m : k ∉ m.*1 → map_put k v m = m ++ [(k, v)];
  map_put_keys k v m : k ∈ m.*1 → (map_put k v m).*1 = m.*1;
  map_get_remove k m : NoDup m.*1 → map_get k (map_remove k m) = None;
  map_get_remove_ne k k' m : NoDup m.*1 → k ≠ k' → map_get k' (map_remove k m) = map_get k' m;
  map_remove_keys k m : NoDup m.*1 → NoDup (map_remove k m).*1;
  as_string_str s : as_string (VStr s) = s;
  as_string_int z : as_string (VInt z) = pretty z;
  as_time_id ts : (0 ≤ ts ≤ max_int64)%Z → as_time ts = ts
}.

(** A protobuf marshaler and unmarshaler; an error is [None]. *)
Class Codec (A : Type) := {
  marshal : A → option bytes;
  unmarshal : bytes → option A
}.

#[global] Instance message_empty A : Empty (list A) := [].

(** The encoding of a message can be read back, only the empty message is
    encoded by no bytes, and an encoding is a slice that fits in memory. *)
Class CodecLaws (A : Type) `{!Codec A, !Empty A} : Prop := {
  unmarshal_marshal x b : marshal x = Some b → unmarshal b = Some x;
  marshal_nil x : marshal x = Some [] → x = ∅;
  marshal_length x b : marshal x = Some b → (Z.of_nat (length b) < 2 ^ 60)%Z
}.

(** ** An instance: association lists *)
Module AssocMap.

Fixpoint get (k : string) (m : Map) : option Value :=
  match m with
  | [] => None
  | (k', v) :: m' => if decide (k = k') then Some v else get k m'
  end.

Fixpoint put (k : string) (v : Value) (m : Map) : Map :=
  match m with
  | [] => [(k, v)]
  | (k', v') :: m' => if decide (k = k') then (k, v) :: m' else (k', v') :: put k v m'
  end.

Fixpoint remove (k : string) (m : Map) : Map :=
  match m with
  | [] => []
  | (k', v') :: m' => if decide (k = k') then m' else (k', v') :: remove k m'
  end.

(** The text of a composite value is left out. *)
Definition text (v : Value) : string :=
  match v with
  | VStr s => s
  | VInt z => pretty z
  | VBool true => "true"
  | VBool false => "false"
  | _ => ""
  end.

Definition instance : PData := {|
  map_get := get; map_put := put; map_remove := remove; as_string := text;
  as_time := wrap64 |}.

Lemma get_none k m : get k m = None ↔ k ∉ m.*1.
Proof.
  induction m as [|[k' v] m IH]; cbn.
  - split; [intros _; apply not_elem_of_nil|done].
  - rewrite not_elem_of_cons. case_decide; naive_solver.
Qed.

Lemma assoc_laws : @PDataLaws instance.
Proof.
  split; cbn.
  - apply get_none.
  - intros k v m. induction m as [|[k' v'] m IH]; cbn; [done|].
    case_decide; intros; simplify_eq; rewrite elem_of_cons; auto.
  - intros k v m. induction m as [|[k' v'] m IH]; cbn; repeat (case_decide; cbn); done.
  - intros k k' v m Hne. induction m as [|[k1 v1] m IH]; cbn; repeat (case_decide; cbn); congruence.
  - intros k v m. induction m as [|[k1 v1] m IH]; cbn; [done|].
    rewrite not_elem_of_cons. intros [? ?]. case_decide; [congruence|]. by rewrite IH.
  - intros k v m. induction m as [|[k1 v1] m IH]; cbn; [by rewrite elem_of_nil|].
    rewrite elem_of_cons. case_decide; cbn; [by subst|]. intros [?|?]; [done|]. by rewrite IH.
  - intros k m. induction m as [|[k1 v1] m IH]; cbn; [done|].
    rewrite NoDup_cons. intros [? ?]. case_decide; cbn.
    + subst. by apply get_none.
    + case_decide; [done|]. by apply IH.
  - intros k k' m _ Hne. induction m as [|[k1 v1] m IH]; cbn; [done|].
    repeat (case_decide; cbn); congruence.
  - intros k m. induction m as [|[k1 v1] m IH]; cbn; [done|]. rewrite NoDup_cons. intros [Hn Hm].
    case_decide; [done|]. cbn. apply NoDup_cons. split; [|by apply IH]. contradict Hn. clear IH Hm.
    induction m as [|[k2 v2] m IH]; cbn in *; [done|]. case_decide; cbn in *; rewrite ?elem_of_cons in *; tauto.
  - done.
  - done.
  - intros ts ?. apply wrap64_id. unfold int64, min_int64. lia.
Qed.
End AssocMap.

(** ** Lemmas *)

Lemma map_put_NoDup `{PDataLaws} k v m : NoDup m.*1 → NoDup (map_put k v m).*1.
Proof.
  intros Hm. destruct (decide (k ∈ m.*1)) as [Hk|Hk]; [by rewrite map_put_keys|].
  rewrite map_put_fresh, fmap_app by done. apply NoDup_app. split_and!; [done| |apply NoDup_singleton].
  intros k' ? ->%list_elem_of_singleton. done.
Qed.

Section lemmas.
Context {A : Type}.

Lemma flat_app (g1 g2 : list (ResourceGroup A)) : flat (g1 ++ g2) = flat g1 ++ flat g2.
Proof. apply flat_map_app. Qed.

Lemma items_app (g1 g2 : list (ResourceGroup A)) : items (g1 ++ g2) = items g1 ++ items g2.
Proof. apply flat_map_app. Qed.

Lemma flat_singletons (l : list (Resource * Scope * A)) :
  flat (map (λ x, singleton_group x.1.1 x.1.2 x.2) l) = l.
Proof. induction l as [|[[r s] x] l IH]; cbn; [done|]. by rewrite <- IH at 2. Qed.

Lemma sg_flat_items r (g : ScopeGroup A) : (sg_flat r g).*2 = sg_items g.
Proof. unfold sg_flat. induction (sg_items g) as [|x xs IH]; [done|]. cbn. by f_equal. Qed.

Lemma rg_flat_items (g : ResourceGroup A) : (rg_flat g).*2 = flat_map sg_items (rg_scopes g).
Proof.
  unfold rg_flat. induction (rg_scopes g) as [|s ss IH]; [done|].
  cbn [flat_map]. by rewrite fmap_app, IH, sg_flat_items.
Qed.

Lemma items_flat (gs : list (ResourceGroup A)) : items gs = (flat gs).*2.
Proof.
  induction gs as [|g gs IH]; [done|].
  change (flat (g :: gs)) with (rg_flat g ++ flat gs). rewrite fmap_app, rg_flat_items, <- IH. done.
Qed.
End lemmas.
