(* ===== verification/Signals.v ===== *)
(** Package [signals]: the three kinds of telemetry the pipeline carries
    (pkg/signals/signals.go). *)
From S2P Require Import Prelude GoStd PData.

Inductive SignalType := TypeTrace | TypeMetric | TypeLog.

#[global] Instance SignalType_eq_dec : EqDecision SignalType.
Proof. solve_decision. Defined.

Record Context := MkContext { ReceivedAt : Z; SourceAddr : string }.

Record TraceSignal := MkTraceSignal { ts_Traces : Traces; ts_Ctx : Context }.
Record MetricSignal := MkMetricSignal { ms_Metrics : Metrics; ms_Ctx : Context }.
Record LogSignal := MkLogSignal { ls_Logs : Logs; ls_Ctx : Context }.

(** The interface [Signal]. [OtherSignal] is an implementation from elsewhere,
    which the [default] branches of the type switches meet. *)
Inductive Signal :=
| SigTrace (s : TraceSignal)
| SigMetric (s : MetricSignal)
| SigLog (s : LogSignal)
| OtherSignal (t : SignalType) (ctx : Context).

Definition Signal_Type (s : Signal) : SignalType :=
  match s with
  | SigTrace _ => TypeTrace
  | SigMetric _ => TypeMetric
  | SigLog _ => TypeLog
  | OtherSignal t _ => t
  end.

Definition Signal_Context (s : Signal) : Context :=
  match s with
  | SigTrace s => ts_Ctx s
  | SigMetric s => ms_Ctx s
  | SigLog s => ls_Ctx s
  | OtherSignal _ ctx => ctx
  end.

(** A signal whose source address was not kept, as when it has been written to
    the log and read back. *)
Definition without_source (sig : Signal) : Signal :=
  let ctx := MkContext (ReceivedAt (Signal_Context sig)) "" in
  match sig with
  | SigTrace s => SigTrace (MkTraceSignal (ts_Traces s) ctx)
  | SigMetric s => SigMetric (MkMetricSignal (ms_Metrics s) ctx)
  | SigLog s => SigLog (MkLogSignal (ls_Logs s) ctx)
  | OtherSignal t _ => OtherSignal t ctx
  end.
