(* ===== verification/Config.v ===== *)
(** Package [config]: the settings of every component
    (internal/config/config.go). An [int] is a 64-bit integer. *)
From S2P Require Import Prelude GoStd PData.

Record ReceiverConfig := MkReceiverConfig { GRPCPort : Z; HTTPPort : Z; Host : string }.
Record BufferConfig := MkBufferConfig { Size : Z; TTLSeconds : Z; MaxTraces : Z }.
Record DiscoveryConfig := MkDiscoveryConfig { Discovery_Type : string; ServiceName : string; Peers : list string }.
Record GossipConfig := MkGossipConfig { Port : Z; BindAddr : string; Interval : Z }.
Record PolicyConfig := MkPolicyConfig {
  Policy_Name : string;
  Policy_Type : string;
  LatencyThresholdMS : Z;
  AttributeKey : string;
  AttributeValue : string;
  SampleRate : float64 }.
Record DecisionConfig := MkDecisionConfig { Policies : list PolicyConfig }.
Record RollupConfig := MkRollupConfig { Enabled : bool }.
Record ExporterConfig := MkExporterConfig { Endpoint : string; Insecure : bool }.

(** The whole configuration, in a module of its own for the sake of its field names. *)
Module Config.

Record Config := MkConfig {
  Debug : bool;
  Receiver : ReceiverConfig;
  Buffer : BufferConfig;
  Discovery : DiscoveryConfig;
  Gossip : GossipConfig;
  Decision : DecisionConfig;
  Rollup : RollupConfig;
  Exporter : ExporterConfig }.

Definition DefaultConfig : Config := {|
  Debug := true;
  Receiver := MkReceiverConfig 4317 4318 "0.0.0.0";
  Buffer := MkBufferConfig 512 30 5000;
  Discovery := MkDiscoveryConfig "static" "" [];
  Gossip := MkGossipConfig 7946 "0.0.0.0" 100;
  Decision := MkDecisionConfig
    [MkPolicyConfig "sample-all" "latency" (-1) "" "" float64_zero];
  Rollup := MkRollupConfig true;
  Exporter := MkExporterConfig "" false |}.
End Config.
