(* ===== verification/Cache.v ===== *)
(** The two third-party containers the buffer is built on, as interfaces:
    [github.com/allegro/bigcache] and [github.com/google/btree].

    Each is a class of operations and a class of the documented laws the buffer
    relies on; each has a small executable instance. *)
From S2P Require Import Prelude GoStd PData.

(** ** BigCache *)

(** [bigcache.RemoveReason] *)
Inductive RemoveReason := Expired | NoSpace | Deleted.

#[global] Instance RemoveReason_eq_dec : EqDecision RemoveReason.
Proof. solve_decision. Defined.

(** One call of the [OnRemoveWithReason] hook. *)
Abbreviation Removal := (string * bytes * RemoveReason)%type.

Definition rem_key (r : Removal) : string := r.1.1.

(** [cset] and [cclean] (one run of the clean-up goroutine) also return the
    calls of the hook that they make, in order. [cview] is the contents; only
    the laws mention it. *)
Record CacheConfig := MkCacheConfig { LifeWindow : Z; CleanWindow : Z; HardMaxCacheSize : Z }.

Class BigCache (C : Type) := {
  cnew : CacheConfig → option C;
  cclose : C → C;
  cview : C → gmap string bytes;
  chash : string → Z;
  cget : string → C → option bytes;
  cset : string → bytes → C → C * list Removal * bool;
  cdelete : string → C → C * list Removal;
  cclean : Z → C → C * list Removal;
  clen : C → nat
}.

(** Entries taken out of a cache, with the hook called on each. *)
Definition removals_ok (m : gmap string bytes) (evs : list Removal) : Prop :=
  NoDup (rem_key <$> evs) ∧
  ∀ k v r, (k, v, r) ∈ evs → m !! k = Some v ∧ r ≠ Deleted.

(** "BigCache does not handle collisions": a shard keeps one entry per hash. A new
    entry takes the place of one with the same hash, and the hook is not called
    for that one; [Get] compares keys, [Delete] does not: it removes the entry
    with the hash of the key, whatever its own key is, and gives the hook that
    entry's key. [Set] may fail (an entry larger than its shard) and may evict. *)
Class BigCacheLaws (C : Type) `{!BigCache C} : Prop := {
  cnew_view cfg c : cnew cfg = Some c → cview c = ∅;
  cclose_view c : cview (cclose c) = cview c;
  cget_view k c : cget k c = cview c !! k;
  clen_view c : clen c = size (cview c);
  cview_hash c k k' v v' : cview c !! k = Some v → cview c !! k' = Some v' → chash k = chash k' → k = k';
  cset_removals k v c c' evs ok :
    cset k v c = (c', evs, ok) → removals_ok (cview c) evs ∧ k ∉ rem_key <$> evs;
  cset_same k v c c' evs :
    cset k v c = (c', evs, true) → cview c' !! k = Some v;
  cset_fail k v c c' evs :
    cset k v c = (c', evs, false) → cview c' !! k = None ∨ cview c' !! k = cview c !! k;
  cset_removed k v c c' evs ok k' :
    cset k v c = (c', evs, ok) → k' ∈ rem_key <$> evs → cview c' !! k' = None;
  cset_collided k v c c' evs ok k' :
    cset k v c = (c', evs, ok) → k' ≠ k → chash k' = chash k →
    cview c' !! k' = None ∨ cview c' !! k' = cview c !! k';
  cset_other k v c c' evs ok k' :
    cset k v c = (c', evs, ok) → chash k' ≠ chash k → k' ∉ rem_key <$> evs →
    cview c' !! k' = cview c !! k';
  cdelete_view k c c' evs :
    cdelete k c = (c', evs) → cview c' = filter (λ x, chash x.1 ≠ chash k) (cview c);
  cdelete_removals k c c' evs :
    cdelete k c = (c', evs) →
    length evs ≤ 1 ∧ ∀ k' v r, (k', v, r) ∈ evs ↔ cview c !! k' = Some v ∧ chash k' = chash k ∧ r = Deleted;
  cclean_removals now c c' evs :
    cclean now c = (c', evs) →
    removals_ok (cview c) evs ∧ ∀ k v r, (k, v, r) ∈ evs → r = Expired;
  cclean_view now c c' evs k :
    cclean now c = (c', evs) →
    cview c' !! k = if decide (k ∈ rem_key <$> evs) then None else cview c !! k
}.

Section bigcache_lemmas.
Context {C : Type} `{!BigCache C, !BigCacheLaws C}.

(** What [cset] leaves under another key was there before. *)
Lemma cset_shrinks k v c c' evs ok k' w :
  cset k v c = (c', evs, ok) → k' ≠ k → cview c' !! k' = Some w → cview c !! k' = Some w.
Proof.
  intros Hs Hne Hw. destruct (decide (chash k' = chash k)) as [Hh|Hh].
  - destruct (cset_collided _ _ _ _ _ _ _ Hs Hne Hh); congruence.
  - destruct (decide (k' ∈ rem_key <$> evs)) as [Hin|Hin].
    + rewrite (cset_removed _ _ _ _ _ _ _ Hs Hin) in Hw. done.
    + by rewrite <- (cset_other _ _ _ _ _ _ _ Hs Hh Hin).
Qed.

(** No other key of the cache has the hash of [k]. *)
Definition lone (k : string) (c : C) : Prop := map_Forall (λ k' _, chash k' = chash k → k' = k) (cview c).

Definition loneb (k : string) (c : C) : bool :=
  forallb (λ x, negb (chash x.1 =? chash k)%Z || bool_decide (x.1 = k)) (map_to_list (cview c)).

Lemma loneb_spec k c : loneb k c = true → lone k c.
Proof.
  unfold loneb. rewrite forallb_forall. intros H k' v Hv Hh. cbn in Hh.
  specialize (H (k', v) (proj1 (list_elem_of_In _ _) (proj2 (elem_of_map_to_list _ _ _) Hv))). cbn in H.
  rewrite Hh, Z.eqb_refl in H. by apply bool_decide_eq_true in H.
Qed.

Lemma lone_lookup k c k' v : lone k c → cview c !! k' = Some v → chash k' = chash k → k' = k.
Proof. intros Hl Hv. exact (Hl k' v Hv). Qed.

Lemma lone_cached k v c : cview c !! k = Some v → lone k c.
Proof. intros Hv k' v' Hv' Hh. by eapply cview_hash. Qed.

Lemma lone_mono k c c' : (∀ k' v, cview c' !! k' = Some v → is_Some (cview c !! k')) → lone k c → lone k c'.
Proof. intros Hsub Hl k' v Hv. destruct (Hsub k' v Hv) as [w Hw]. exact (Hl k' w Hw). Qed.

(** What [cdelete] leaves was there before. *)
Lemma cdelete_shrinks k c c' evs k' v :
  cdelete k c = (c', evs) → cview c' !! k' = Some v → cview c !! k' = Some v ∧ k' ∉ rem_key <$> evs.
Proof.
  intros Hd. rewrite (cdelete_view _ _ _ _ Hd), map_lookup_filter_Some. intros [Hv Hh]. split; [done|].
  intros ([[k1 v1] r] & -> & Hin)%list_elem_of_fmap. apply (cdelete_removals _ _ _ _ Hd) in Hin as (_ & ? & _). done.
Qed.

(** Without a collision [cdelete] is deletion in the contents. *)
Lemma cdelete_lone k c c' evs :
  lone k c → cdelete k c = (c', evs) →
  cview c' = delete k (cview c) ∧ evs = match cview c !! k with Some v => [(k, v, Deleted)] | None => [] end.
Proof.
  intros Hl Hd. destruct (cdelete_removals _ _ _ _ Hd) as [Hlen Hev]. split.
  - rewrite (cdelete_view _ _ _ _ Hd). apply map_eq. intros k'. apply option_eq. intros v.
    rewrite map_lookup_filter_Some, lookup_delete_Some. cbn. split.
    + intros [Hv Hh]. split; [congruence|done].
    + intros [Hne Hv]. split; [done|]. intros Hh. apply Hne. symmetry. by eapply lone_lookup.
  - destruct (cview c !! k) as [v|] eqn:Ek.
    + assert ((k, v, Deleted) ∈ evs) as Hin by by apply Hev.
      destruct evs as [|x [|y l]]; [by apply elem_of_nil in Hin| |cbn in Hlen; lia].
      apply list_elem_of_singleton in Hin. by subst x.
    + destruct evs as [|[[k' v] r] l]; [done|]. destruct (Hev k' v r) as [(Hv & Hh & _) _]; [apply list_elem_of_here|].
      assert (k' = k) as -> by by eapply lone_lookup. congruence.
Qed.

(** The cache takes the entries, one after the other: each finds space in its
    shard, so that [Set] succeeds, evicts nothing, and meets no other key of the
    same hash. [acceptsb] computes it. *)
Fixpoint accepts (kvs : list (string * bytes)) (c : C) : Prop :=
  match kvs with
  | [] => True
  | (k, v) :: kvs' => match cset k v c with (c', [], true) => lone k c ∧ accepts kvs' c' | _ => False end
  end.

Fixpoint acceptsb (kvs : list (string * bytes)) (c : C) : bool :=
  match kvs with
  | [] => true
  | (k, v) :: kvs' => match cset k v c with (c', [], true) => loneb k c && acceptsb kvs' c' | _ => false end
  end.

Lemma acceptsb_spec kvs c : acceptsb kvs c = true → accepts kvs c.
Proof.
  revert c. induction kvs as [|[k v] kvs IH]; intros c; cbn; [done|].
  destruct (cset k v c) as [[c' []] []]; try done. intros [?%loneb_spec ?]%andb_true_iff. auto.
Qed.

(** Then [cset] is insertion in the contents. *)
Lemma accepts_cons k v kvs c :
  accepts ((k, v) :: kvs) c → ∃ c', cset k v c = (c', [], true) ∧ accepts kvs c' ∧ cview c' = <[k := v]> (cview c).
Proof.
  cbn. destruct (cset k v c) as [[c' [|]] []] eqn:Hs; try done. intros [Hl Ha]. exists c'. split_and!; [done..|].
  apply map_eq. intros k'. rewrite lookup_insert. case_decide as Hk; [subst; by eapply cset_same|].
  destruct (decide (chash k' = chash k)) as [Hh|Hh]; [|eapply cset_other; [done..|apply not_elem_of_nil]].
  assert (cview c !! k' = None) as Hn.
  { destruct (cview c !! k') eqn:E; [|done]. destruct Hk. symmetry. by eapply lone_lookup. }
  rewrite Hn. destruct (cset_collided _ _ _ _ _ _ k' Hs) as [H|H]; congruence.
Qed.
End bigcache_lemmas.

(** *** An instance: a queue of entries, oldest first, with room for [capacity]
    entries, over any hash function *)
Module QueueCache.

Record cache := MkCache { entries : list (string * bytes); capacity : nat }.

Section queue.
Context (hash : string → Z).
Abbreviation Entries := (list (string * bytes)).
Implicit Types (l : Entries) (c : cache).

Definition without (k : string) l : Entries := filter (λ e, hash e.1 ≠ hash k) l.

(** One entry per hash is kept by [norm], which the operations apply first: the
    first of them counts. *)
Fixpoint norm l : Entries := match l with [] => [] | e :: l' => e :: without e.1 (norm l') end.

Definition view c : gmap string bytes := list_to_map (norm (entries c)).

Definition set (k : string) (v : bytes) c : cache * list Removal * bool :=
  let l := without k (norm (entries c)) in
  let over := length l + 1 - capacity c in
  if capacity c =? 0 then (MkCache l 0, [], false)
  else (MkCache (drop over l ++ [(k, v)]) (capacity c),
        map (λ e, (e, NoSpace)) (take over l), true).

Definition delete (k : string) c : cache * list Removal :=
  (MkCache (without k (norm (entries c))) (capacity c),
   map (λ e, (e, Deleted)) (filter (λ e, hash e.1 = hash k) (norm (entries c)))).

Definition instance : BigCache cache := {|
  cnew := λ cfg, Some (MkCache [] (Z.to_nat (HardMaxCacheSize cfg)));
  cclose := λ c, c;
  cview := view;
  chash := hash;
  cget := λ k c, view c !! k;
  cset := set;
  cdelete := delete;
  cclean := λ now c, if (now <? 0)%Z then (c, [])
    else (MkCache [] (capacity c), map (λ e, (e, Expired)) (norm (entries c)));
  clen := λ c, size (view c)
|}.

(** **** Lists with one entry per hash *)
Definition spread l : Prop := NoDup (map (λ e, hash e.1) l).

Lemma elem_of_without k e l : e ∈ without k l ↔ hash e.1 ≠ hash k ∧ e ∈ l.
Proof. unfold without. by rewrite list_elem_of_filter. Qed.

Lemma elem_of_hashes h l : h ∈ map (λ e, hash e.1) l ↔ ∃ e, e ∈ l ∧ hash e.1 = h.
Proof. rewrite list_elem_of_In, in_map_iff. setoid_rewrite <- list_elem_of_In. naive_solver. Qed.

Lemma without_spread k l : spread l → spread (without k l).
Proof.
  unfold spread, without. induction l as [|e l IH]; cbn; [done|]. rewrite NoDup_cons. intros [Hn Hl].
  case_decide; cbn; [|auto]. apply NoDup_cons. split; [|auto].
  rewrite elem_of_hashes in *. intros (e' & [_ Hin]%list_elem_of_filter & He'). eauto.
Qed.

Lemma norm_spread l : spread (norm l).
Proof.
  induction l as [|e l IH]; cbn; [constructor|]. apply NoDup_cons. split; [|by apply without_spread].
  by intros (e' & [? _]%elem_of_without & ?)%elem_of_hashes.
Qed.

Lemma without_all k l : (∀ e, e ∈ l → hash e.1 ≠ hash k) → without k l = l.
Proof.
  intros H. unfold without. induction l as [|e l IH]; [done|]. cbn.
  rewrite decide_True by (apply H, list_elem_of_here). f_equal. apply IH. intros e' ?. by apply H, list_elem_of_further.
Qed.

Lemma norm_id l : spread l → norm l = l.
Proof.
  unfold spread. induction l as [|e l IH]; cbn; [done|]. rewrite NoDup_cons. intros [Hn Hl].
  rewrite IH by done. f_equal. apply without_all. intros e' Hin Hh. apply Hn, elem_of_hashes. eauto.
Qed.

Lemma spread_keys l : spread l → NoDup l.*1.
Proof.
  unfold spread. intros H. apply (NoDup_fmap_1 hash). rewrite <- list_fmap_compose. exact H.
Qed.

Lemma spread_hash l k v k' v' : spread l → (k, v) ∈ l → (k', v') ∈ l → hash k = hash k' → k = k'.
Proof.
  unfold spread. induction l as [|e l IH]; cbn; [by intros _ ?%elem_of_nil|]. rewrite NoDup_cons, elem_of_hashes, !elem_of_cons.
  intros [Hn Hl] [H1|H1] [H2|H2] Hh; [congruence| | |by apply IH]; destruct Hn.
  - subst e. by exists (k', v').
  - subst e. by exists (k, v).
Qed.

Lemma elem_of_view k v c : view c !! k = Some v ↔ (k, v) ∈ norm (entries c).
Proof. symmetry. apply elem_of_list_to_map, spread_keys, norm_spread. Qed.

Lemma elem_of_made k v l n : spread l → view (MkCache l n) !! k = Some v ↔ (k, v) ∈ l.
Proof. intros Hl. rewrite elem_of_view. cbn. by rewrite norm_id. Qed.

Lemma view_none k c : (∀ v, (k, v) ∉ norm (entries c)) → view c !! k = None.
Proof. intros H. apply eq_None_not_Some. intros [v Hv%elem_of_view]. by eapply H. Qed.

Lemma tagged_keys (r : RemoveReason) l : rem_key <$> map (λ e, (e, r)) l = l.*1.
Proof. induction l; cbn; [done|]. by f_equal. Qed.

Lemma elem_of_tagged (r r' : RemoveReason) k v l : (k, v, r) ∈ map (λ e, (e, r')) l ↔ (k, v) ∈ l ∧ r = r'.
Proof. rewrite list_elem_of_In, in_map_iff, list_elem_of_In. naive_solver. Qed.

Lemma elem_of_key k l : k ∈ l.*1 ↔ ∃ v, (k, v) ∈ l.
Proof.
  rewrite list_elem_of_fmap. split.
  - intros ([k' v] & -> & ?). by exists v.
  - intros [v ?]. by exists (k, v).
Qed.

(** **** Setting *)

Section set.
Context (k : string) (n : nat) (c : cache).
Let l := without k (norm (entries c)).

Lemma elem_of_rest k' v : (k', v) ∈ l ↔ view c !! k' = Some v ∧ hash k' ≠ hash k.
Proof. unfold l. rewrite elem_of_without, elem_of_view. cbn. tauto. Qed.

Lemma rest_parts k' v : (k', v) ∈ l ↔ (k', v) ∈ take n l ∨ (k', v) ∈ drop n l.
Proof. rewrite <- elem_of_app. by rewrite take_drop. Qed.

Lemma rest_spread : spread l.
Proof. apply without_spread, norm_spread. Qed.

Lemma rest_disjoint k' v v' : (k', v) ∈ take n l → (k', v') ∈ drop n l → False.
Proof.
  pose proof (spread_keys _ rest_spread) as H. rewrite <- (take_drop n l), fmap_app in H.
  apply NoDup_app in H as (_ & Hd & _). intros H1 H2. apply (Hd k'); apply elem_of_key; eauto.
Qed.

Lemma set_spread v : spread (drop n l ++ [(k, v)]).
Proof.
  unfold spread. rewrite map_app. apply NoDup_app. split_and!.
  - pose proof rest_spread as H. unfold spread in H. rewrite <- (take_drop n l), map_app in H. by apply NoDup_app in H as (_ & _ & ?).
  - intros h ([k' v'] & Hin & <-)%elem_of_hashes [= Hh]%list_elem_of_singleton.
    by destruct (proj1 (elem_of_rest k' v') (proj2 (rest_parts k' v') (or_intror Hin))).
  - cbn. apply NoDup_singleton.
Qed.

Lemma set_removals : let evs := map (λ e, (e, NoSpace)) (take n l) in removals_ok (view c) evs ∧ k ∉ rem_key <$> evs.
Proof.
  cbn. unfold removals_ok. rewrite tagged_keys. split_and!.
  - pose proof (spread_keys _ rest_spread) as H. rewrite <- (take_drop n l), fmap_app in H. by apply NoDup_app in H as (? & _).
  - intros k' v r [Hin ->]%elem_of_tagged. split; [|done]. by apply elem_of_rest, rest_parts; left.
  - intros [v Hin]%elem_of_key. by destruct (proj1 (elem_of_rest k v) (proj2 (rest_parts k v) (or_introl Hin))).
Qed.

Lemma set_view v k' w cap :
  view (MkCache (drop n l ++ [(k, v)]) cap) !! k' = Some w
  ↔ (k' = k ∧ w = v) ∨ (view c !! k' = Some w ∧ hash k' ≠ hash k ∧ k' ∉ (take n l).*1).
Proof.
  rewrite elem_of_made by apply set_spread. rewrite elem_of_app, list_elem_of_singleton. split.
  - intros [Hin|[= -> ->]]; [right|by left]. destruct (proj1 (elem_of_rest k' w) (proj2 (rest_parts k' w) (or_intror Hin))).
    split_and!; [done..|]. intros [v' Hin']%elem_of_key. by eapply rest_disjoint.
  - intros [[-> ->]|(Hv & Hh & Hn)]; [by right|left].
    destruct (proj1 (rest_parts k' w) (proj2 (elem_of_rest k' w) (conj Hv Hh))) as [Hin|?]; [|done].
    destruct Hn. apply elem_of_key. eauto.
Qed.
End set.

(** What [set] leaves, in either case. *)
Lemma set_inv k v c c' evs ok :
  set k v c = (c', evs, ok) →
  removals_ok (view c) evs ∧ k ∉ rem_key <$> evs ∧ ∀ k' w, view c' !! k' = Some w ↔
    (k' = k ∧ w = v ∧ ok = true) ∨ (view c !! k' = Some w ∧ hash k' ≠ hash k ∧ k' ∉ rem_key <$> evs).
Proof.
  unfold set. destruct (Nat.eqb_spec (capacity c) 0) as [Hc|Hc]; intros [= <- <- <-].
  - split_and!; [split; [constructor|]; by intros ??? ?%elem_of_nil|apply not_elem_of_nil|]. intros k' w.
    rewrite elem_of_made by apply rest_spread. rewrite elem_of_rest. split; [|intros [(_ & _ & ?)|(? & ? & _)]; done].
    intros [? ?]. right. split_and!; [done..|apply not_elem_of_nil].
  - destruct (set_removals k (length (without k (norm (entries c))) + 1 - capacity c) c) as [Hr Hk].
    split_and!; [done..|]. intros k' w. rewrite set_view, tagged_keys. naive_solver.
Qed.

Lemma set_none k v c c' evs ok k' :
  set k v c = (c', evs, ok) → (k' = k → ok = false) → (hash k' = hash k ∨ k' ∈ rem_key <$> evs) → view c' !! k' = None.
Proof.
  intros (_ & _ & H)%set_inv Hk Hh. apply eq_None_not_Some. intros [w [(-> & _ & ->)|(_ & ? & ?)]%H]; [by specialize (Hk eq_refl)|].
  by destruct Hh.
Qed.

(** **** The laws *)

Lemma clean_removals c : removals_ok (view c) (map (λ e, (e, Expired)) (norm (entries c))).
Proof.
  split; [rewrite tagged_keys; apply spread_keys, norm_spread|].
  intros k v r [Hin ->]%elem_of_tagged. by rewrite elem_of_view.
Qed.

Lemma delete_removals k c :
  length (filter (λ e, hash e.1 = hash k) (norm (entries c))) ≤ 1.
Proof.
  pose proof (norm_spread (entries c)) as H. unfold spread in H. induction (norm (entries c)) as [|e l IH]; cbn in *; [lia|].
  apply NoDup_cons in H as [Hn Hl]. case_decide as He; [|auto]. cbn.
  destruct (filter _ l) as [|e' l'] eqn:E; [cbn; lia|]. exfalso. apply Hn, elem_of_hashes. exists e'.
  assert (e' ∈ filter (λ e, hash e.1 = hash k) l) as [? ?]%list_elem_of_filter by (rewrite E; apply list_elem_of_here).
  split; [done|congruence].
Qed.

Lemma queue_laws : @BigCacheLaws cache instance.
Proof.
  split; cbn.
  - by intros cfg c [= <-].
  - done.
  - done.
  - done.
  - intros c k k' v v'. rewrite !elem_of_view. apply spread_hash, norm_spread.
  - intros k v c c' evs ok Hs. by apply set_inv in Hs as (? & ? & _).
  - intros k v c c' evs Hs. apply set_inv in Hs as (_ & _ & H). apply H. by left.
  - intros k v c c' evs Hs. left. eapply set_none; [exact Hs|done|by left].
  - intros k v c c' evs ok k' Hs Hin. eapply set_none; [exact Hs| |by right]. intros ->.
    by apply set_inv in Hs as (_ & ? & _).
  - intros k v c c' evs ok k' Hs Hne Hh. left. eapply set_none; [exact Hs|done|by left].
  - intros k v c c' evs ok k' Hs Hh Hk. apply set_inv in Hs as (_ & _ & H). apply option_eq. intros w. rewrite H.
    split; [intros [(-> & _)|(? & _)]; done|auto].
  - intros k c c' evs [= <- <-]. apply map_eq. intros k'. apply option_eq. intros v.
    rewrite elem_of_made by apply rest_spread. rewrite elem_of_rest, map_lookup_filter_Some. done.
  - intros k c c' evs [= <- <-]. split; [rewrite length_map; apply delete_removals|]. intros k' v r.
    rewrite elem_of_tagged, list_elem_of_filter, elem_of_view. cbn. tauto.
  - intros now c c' evs. case_match; intros [= <- <-].
    + split; [|by intros ??? ?%elem_of_nil]. split; [constructor|]. by intros ??? ?%elem_of_nil.
    + split; [apply clean_removals|]. by intros k v r [_ ->]%elem_of_tagged.
  - intros now c c' evs k. case_match; intros [= <- <-].
    + rewrite decide_False; [done|]. apply not_elem_of_nil.
    + rewrite tagged_keys. case_decide as Hk; [done|]. symmetry. apply view_none. intros v Hin.
      apply Hk, elem_of_key. eauto.
Qed.
End queue.
End QueueCache.

(** ** B-trees *)

(** The items of the sampler's trees: internal/buffer/buffer.go, [TimeKey]. *)
Record TimeKey := MkTimeKey { Timestamp : Z; Key : string }.

#[global] Instance TimeKey_eq_dec : EqDecision TimeKey.
Proof. solve_decision. Defined.

Definition Less (t other : TimeKey) : bool :=
  if decide (Timestamp t = Timestamp other) then Str.Less (Key t) (Key other)
  else (Timestamp t <? Timestamp other)%Z.

(** [AscendRange lo hi] visits the items that are not less than [lo] and are
    less than [hi], in ascending order, while the visitor returns [true]; the
    sampler's visitors always do. [bt_items] is the contents, in order. *)
Class BTree (T : Type) := {
  bt_items : T → list TimeKey;
  bt_new : T;
  ReplaceOrInsert : TimeKey → T → T;
  Delete : TimeKey → T → T;
  AscendRange : TimeKey → TimeKey → T → list TimeKey
}.

Class BTreeLaws (T : Type) `{!BTree T} : Prop := {
  bt_items_sorted t : StronglySorted (λ x y, Less x y = true) (bt_items t);
  bt_items_new : bt_items bt_new = [];
  bt_items_insert x y t : y ∈ bt_items (ReplaceOrInsert x t) ↔ y = x ∨ y ∈ bt_items t;
  bt_items_delete x y t : y ∈ bt_items (Delete x t) ↔ y ≠ x ∧ y ∈ bt_items t;
  bt_ascend lo hi t :
    AscendRange lo hi t = filter (λ x, Less x lo = false ∧ Less x hi = true) (bt_items t)
}.

(** *** [Less] is a strict total order *)

Lemma TimeKey_irrefl t : Less t t = false.
Proof. unfold Less. rewrite decide_True by done. apply Str.Less_irrefl. Qed.

Lemma Less_true t u :
  Less t u = true ↔ (Timestamp t < Timestamp u)%Z ∨ Timestamp t = Timestamp u ∧ Str.Less (Key t) (Key u) = true.
Proof. unfold Less. case_decide; [|rewrite Z.ltb_lt]; intuition lia. Qed.

Lemma TimeKey_trans t u v : Less t u = true → Less u v = true → Less t v = true.
Proof.
  rewrite !Less_true. intros [?|[? ?]] [?|[? ?]]; [left; lia..|right].
  split; [lia|]. by eapply Str.Less_trans.
Qed.

Lemma TimeKey_total t u : Less t u = false → Less u t = false → t = u.
Proof.
  destruct t as [a k], u as [b l]. unfold Less; cbn.
  destruct (decide (a = b)) as [->|Hne].
  - rewrite decide_True by done. intros. f_equal. by apply Str.Less_total.
  - rewrite decide_False by done. intros L1%Z.ltb_ge L2%Z.ltb_ge. lia.
Qed.

#[export] Hint Resolve TimeKey_trans TimeKey_irrefl : sampler.

(** *** An instance: a list, sorted and without duplicates when it is read *)
Module ListTree.

Fixpoint insert (x : TimeKey) (l : list TimeKey) : list TimeKey :=
  match l with
  | [] => [x]
  | y :: l' => if Less x y then x :: l else if Less y x then y :: insert x l' else l
  end.

Definition sorted_items (t : list TimeKey) : list TimeKey := foldr insert [] t.

Definition instance : BTree (list TimeKey) := {|
  bt_items := sorted_items;
  bt_new := [];
  ReplaceOrInsert := λ x t, x :: t;
  Delete := λ x t, filter (λ y, y ≠ x) t;
  AscendRange := λ lo hi t, filter (λ x, Less x lo = false ∧ Less x hi = true) (sorted_items t)
|}.

Lemma elem_of_insert x y l : y ∈ insert x l ↔ y = x ∨ y ∈ l.
Proof.
  induction l as [|z l IH]; cbn; [by rewrite list_elem_of_singleton, elem_of_nil; naive_solver|].
  destruct (Less x z) eqn:E1; [by rewrite elem_of_cons|].
  destruct (Less z x) eqn:E2.
  - rewrite !elem_of_cons, IH. naive_solver.
  - rewrite elem_of_cons, (TimeKey_total x z) by done. naive_solver.
Qed.

Lemma insert_sorted x l :
  StronglySorted (λ x y, Less x y = true) l → StronglySorted (λ x y, Less x y = true) (insert x l).
Proof.
  induction 1 as [|z l Hl IH Hz]; cbn; [by repeat constructor|].
  destruct (Less x z) eqn:E1.
  - constructor; [by constructor|]. constructor; [done|].
    eapply Forall_impl; [exact Hz|]. eauto with sampler.
  - destruct (Less z x) eqn:E2; [|by constructor].
    constructor; [done|]. apply Forall_forall. intros y [->|Hy]%elem_of_insert; [done|].
    by eapply Forall_forall in Hz.
Qed.

Lemma elem_of_sorted_items x t : x ∈ sorted_items t ↔ x ∈ t.
Proof. induction t as [|y t IH]; cbn; [done|]. by rewrite elem_of_insert, elem_of_cons, IH. Qed.

Lemma tree_laws : @BTreeLaws (list TimeKey) instance.
Proof.
  split; cbn.
  - intros t. induction t as [|x t IH]; cbn; [constructor|]. by apply insert_sorted.
  - done.
  - intros x y t. by rewrite elem_of_insert.
  - intros x y t. by rewrite !elem_of_sorted_items, list_elem_of_filter.
  - done.
Qed.
End ListTree.

(** Two trees with the same items have them in the same order. *)
Lemma bt_items_ext {T} `{!BTree T, !BTreeLaws T} t1 t2 :
  (∀ x, x ∈ bt_items t1 ↔ x ∈ bt_items t2) → bt_items t1 = bt_items t2.
Proof.
  intros H.
  assert (∀ t, NoDup (bt_items t)) as Hnd.
  { intros t. pose proof (bt_items_sorted t) as Hs. induction Hs as [|x l Hl IH Hx]; constructor; [|done].
    intros Hin. eapply Forall_forall in Hx; [|done]. by rewrite TimeKey_irrefl in Hx. }
  apply (StronglySorted_unique_strong (λ x y, Less x y = true)).
  - intros x y _ _ H1 H2. pose proof (TimeKey_trans _ _ _ H1 H2). by rewrite TimeKey_irrefl in *.
  - apply bt_items_sorted.
  - apply bt_items_sorted.
  - by apply NoDup_Permutation.
Qed.
