(* ===== verification/Gob.v ===== *)
(** Package [encoding/gob], for the one type the sampler encodes with it:
    [StoredTraceData] of internal/buffer/buffer.go.

    A stream is the definition of the type followed by one value. Integers have
    variable length, a field is announced by its distance from the previous one
    and a zero field is left out. *)
From S2P Require Import Prelude GoStd PData.
Local Open Scope Z_scope.

(** What the buffer keeps under a trace's key. *)
Record StoredTraceData := MkStored {
  st_ReceivedAt : Z;
  st_TracesData : bytes;
  st_LogsData : bytes }.

(** [var stored StoredTraceData] *)
Definition zero_stored : StoredTraceData := MkStored 0 [] [].

Module Gob.

Definition byte_of_Z (z : Z) : byte := default "000"%byte (Byte.of_N (Z.to_N (z mod 256))).
Definition Z_of_byte (b : byte) : Z := Z.of_N (Byte.to_N b).

(** Big-endian bytes without leading zeros; eight are enough for a [uint64]. *)
Fixpoint big_endian (n : nat) (x : Z) (acc : bytes) : bytes :=
  match n with
  | O => acc
  | S n' => if x =? 0 then acc else big_endian n' (x / 256) (byte_of_Z x :: acc)
  end.

Definition big_endian_value (b : bytes) : Z := foldl (λ acc x, acc * 256 + Z_of_byte x) 0 b.

Definition encodeUint (x : Z) : bytes :=
  if x <=? 127 then [byte_of_Z x]
  else let b := big_endian 8 x [] in byte_of_Z (256 - Z.of_nat (length b)) :: b.

Definition encodeInt (i : Z) : bytes := encodeUint (if i <? 0 then 2 * (- i - 1) + 1 else 2 * i).

Definition encodeBytes (b : bytes) : bytes := encodeUint (Z.of_nat (length b)) ++ b.

Definition decodeUint (r : bytes) : option (Z * bytes) :=
  match r with
  | [] => None
  | b :: r' =>
      if Z_of_byte b <=? 127 then Some (Z_of_byte b, r')
      else
        let n := Z.to_nat (256 - Z_of_byte b) in
        if decide (n ≤ 8 ∧ n ≤ length r')%nat
        then Some (big_endian_value (take n r'), drop n r') else None
  end.

Definition decodeInt (r : bytes) : option (Z * bytes) :=
  '(u, r') ← decodeUint r;
  Some (if Z.odd u then - (u / 2) - 1 else u / 2, r').

Definition decodeBytes (r : bytes) : option (bytes * bytes) :=
  '(n, r') ← decodeUint r;
  if n <=? Z.of_nat (length r') then Some (take (Z.to_nat n) r', drop (Z.to_nat n) r') else None.

(** *** The value *)

Definition fields (s : StoredTraceData) : list (Z * bytes) :=
  (if st_ReceivedAt s =? 0 then [] else [(1, encodeInt (st_ReceivedAt s))])
  ++ (if decide (st_TracesData s = []) then [] else [(2, encodeBytes (st_TracesData s))])
  ++ (if decide (st_LogsData s = []) then [] else [(3, encodeBytes (st_LogsData s))]).

Fixpoint encodeFields (last : Z) (fs : list (Z * bytes)) : bytes :=
  match fs with
  | [] => encodeUint 0
  | (n, p) :: fs' => encodeUint (n - last) ++ p ++ encodeFields n fs'
  end.

(** Fields present in the stream are stored in [s]; the others stay. *)
Fixpoint decodeFields (fuel : nat) (last : Z) (s : StoredTraceData) (r : bytes) : option StoredTraceData :=
  match fuel with
  | O => None
  | S fuel' =>
      '(delta, r1) ← decodeUint r;
      if delta =? 0 then Some s
      else
        let n := last + delta in
        if n =? 1 then
          '(i, r2) ← decodeInt r1;
          decodeFields fuel' n (MkStored i (st_TracesData s) (st_LogsData s)) r2
        else if n =? 2 then
          '(b, r2) ← decodeBytes r1;
          decodeFields fuel' n (MkStored (st_ReceivedAt s) b (st_LogsData s)) r2
        else if n =? 3 then
          '(b, r2) ← decodeBytes r1;
          decodeFields fuel' n (MkStored (st_ReceivedAt s) (st_TracesData s) b) r2
        else None
  end.

(** *** The stream *)

(** The first type that a process defines gets the number 65. *)
Definition type_id : Z := 65.

(** [type StoredTraceData struct { ReceivedAt int64; TracesData, LogsData []byte }],
    with its length in front. *)
Definition type_definition : bytes :=
  let name s := encodeBytes (String.list_byte_of_string s) in
  let field s t := [byte_of_Z 1] ++ name s ++ [byte_of_Z 1; byte_of_Z t; byte_of_Z 0] in
  encodeBytes
    (encodeInt (- type_id) ++ [byte_of_Z 3; byte_of_Z 1; byte_of_Z 1] ++ name "StoredTraceData"
     ++ [byte_of_Z 1] ++ encodeInt type_id ++ [byte_of_Z 0; byte_of_Z 1; byte_of_Z 3]
     ++ field "ReceivedAt" 4 ++ field "TracesData" 10 ++ field "LogsData" 10
     ++ [byte_of_Z 0; byte_of_Z 0]).

(** [gob.NewEncoder(&buf).Encode(stored)] *)
Definition Encode (s : StoredTraceData) : bytes :=
  type_definition ++ encodeBytes (encodeInt type_id ++ encodeFields 0 (fields s)).

(** [gob.NewDecoder(r).Decode(&s)] *)
Definition Decode (s : StoredTraceData) (r : bytes) : option StoredTraceData :=
  let n := length type_definition in
  if decide (take n r = type_definition) then
    '(body, _) ← decodeBytes (drop n r);
    '(id, r') ← decodeInt body;
    if id =? type_id then decodeFields (S (length r')) 0 s r' else None
  else None.

(** A value that Go can hold: the field is an [int64], the slices fit in memory. *)
Definition wf (s : StoredTraceData) : Prop :=
  int64 (st_ReceivedAt s)
  ∧ Z.of_nat (length (st_TracesData s)) < 2 ^ 60 ∧ Z.of_nat (length (st_LogsData s)) < 2 ^ 60.

(** *** Integers *)

Lemma Z_of_byte_of_Z z : Z_of_byte (byte_of_Z z) = z mod 256.
Proof.
  unfold Z_of_byte, byte_of_Z.
  pose proof (Z.mod_pos_bound z 256 ltac:(lia)) as Hb.
  destruct (Byte.of_N (Z.to_N (z mod 256))) as [b|] eqn:E; cbn [default from_option].
  - apply Byte.to_of_N in E. unfold id. lia.
  - apply Byte.of_N_None_iff in E. lia.
Qed.

Lemma byte_of_Z_of_byte b : byte_of_Z (Z_of_byte b) = b.
Proof.
  unfold byte_of_Z, Z_of_byte. pose proof (Byte.to_N_bounded b).
  rewrite Z.mod_small by lia. by rewrite N2Z.id, Byte.of_to_N.
Qed.

Lemma Z_of_byte_range b : 0 <= Z_of_byte b < 256.
Proof. unfold Z_of_byte. pose proof (Byte.to_N_bounded b). lia. Qed.

Lemma big_endian_acc n x acc : big_endian n x acc = big_endian n x [] ++ acc.
Proof.
  revert x acc. induction n as [|n IH]; intros x acc; cbn; [done|].
  case_match; [done|]. rewrite IH, (IH _ [_]), <- (assoc_L (++)). done.
Qed.

Lemma big_endian_length n x : (length (big_endian n x []) ≤ n)%nat.
Proof.
  revert x. induction n as [|n IH]; intros x; cbn; [done|].
  case_match; cbn; [lia|]. rewrite big_endian_acc, length_app. cbn. pose proof (IH (x / 256)). lia.
Qed.

Lemma big_endian_value_snoc b x : big_endian_value (b ++ [x]) = big_endian_value b * 256 + Z_of_byte x.
Proof. unfold big_endian_value. by rewrite foldl_app. Qed.

Lemma big_endian_spec n x : 0 <= x < 256 ^ Z.of_nat n → big_endian_value (big_endian n x []) = x.
Proof.
  revert x. induction n as [|n IH]; intros x Hx; cbn [big_endian].
  - cbn in *. lia.
  - destruct (Z.eqb_spec x 0) as [->|Hne]; [done|].
    rewrite big_endian_acc, big_endian_value_snoc, Z_of_byte_of_Z, IH.
    + pose proof (Z.div_mod x 256). lia.
    + rewrite Nat2Z.inj_succ, Z.pow_succ_r in Hx by lia.
      split; [apply Z.div_pos; lia|]. apply Z.div_lt_upper_bound; lia.
Qed.

Lemma big_endian_nonempty n x : x ≠ 0 → (0 < length (big_endian (S n) x []))%nat.
Proof.
  intros Hx. cbn [big_endian]. rewrite (proj2 (Z.eqb_neq x 0) Hx), big_endian_acc, length_app.
  cbn [length]. lia.
Qed.

Lemma decode_encode_Uint x r : 0 <= x < 2 ^ 64 → decodeUint (encodeUint x ++ r) = Some (x, r).
Proof.
  intros Hx. unfold encodeUint. destruct (Z.leb_spec x 127) as [Hs|Hl]; cbn [app decodeUint].
  - rewrite Z_of_byte_of_Z, Z.mod_small by lia. by rewrite (proj2 (Z.leb_le x 127)).
  - set (b := big_endian 8 x []).
    pose proof (big_endian_length 8 x) as Hb. fold b in Hb.
    pose proof (big_endian_nonempty 7 x ltac:(lia)) as Hb0. fold b in Hb0.
    rewrite Z_of_byte_of_Z, Z.mod_small by lia.
    rewrite (proj2 (Z.leb_gt _ 127)) by lia.
    replace (Z.to_nat (256 - (256 - Z.of_nat (length b)))) with (length b) by lia.
    rewrite decide_True by (rewrite length_app; lia).
    rewrite take_app_length, drop_app_length. do 2 f_equal. subst b. apply big_endian_spec.
    change (256 ^ Z.of_nat 8) with (2 ^ 64). lia.
Qed.

Lemma decode_encode_Int i r : int64 i → decodeInt (encodeInt i ++ r) = Some (i, r).
Proof.
  unfold int64, min_int64, max_int64. intros Hi. unfold decodeInt, encodeInt.
  rewrite decode_encode_Uint by (change (2 ^ 64) with 18446744073709551616; case_match; lia).
  cbn [mbind option_bind]. do 2 f_equal. destruct (Z.ltb_spec i 0).
  - replace (2 * (- i - 1) + 1) with (1 + (- i - 1) * 2) by lia.
    rewrite Z.odd_add, Z.odd_mul, Z.div_add by lia. cbn [Z.odd]. rewrite andb_false_r. cbn [xorb].
    change (1 / 2) with 0. lia.
  - rewrite Z.odd_mul. cbn [Z.odd andb]. replace (2 * i) with (i * 2) by lia.
    rewrite Z.div_mul by lia. lia.
Qed.

Lemma decode_encode_Bytes b r :
  Z.of_nat (length b) < 2 ^ 62 → decodeBytes (encodeBytes b ++ r) = Some (b, r).
Proof.
  intros Hb. unfold decodeBytes, encodeBytes. rewrite <- (assoc_L (++)).
  rewrite decode_encode_Uint by lia. cbn [mbind option_bind].
  rewrite (proj2 (Z.leb_le _ _)) by (rewrite length_app; lia).
  by rewrite Nat2Z.id, take_app_length, drop_app_length.
Qed.

(** *** Fields *)

(** Reading the field [n] with payload [p] takes [s] to [s']. *)
Inductive reads : Z → bytes → StoredTraceData → StoredTraceData → Prop :=
| reads_time i s : int64 i →
    reads 1 (encodeInt i) s (MkStored i (st_TracesData s) (st_LogsData s))
| reads_traces b s : Z.of_nat (length b) < 2 ^ 62 →
    reads 2 (encodeBytes b) s (MkStored (st_ReceivedAt s) b (st_LogsData s))
| reads_logs b s : Z.of_nat (length b) < 2 ^ 62 →
    reads 3 (encodeBytes b) s (MkStored (st_ReceivedAt s) (st_TracesData s) b).

Inductive runs : Z → list (Z * bytes) → StoredTraceData → StoredTraceData → Prop :=
| runs_nil last s : runs last [] s s
| runs_cons last n p fs s s1 s2 :
    0 <= last < n → reads n p s s1 → runs n fs s1 s2 → runs last ((n, p) :: fs) s s2.

Lemma decode_step fuel last n p s s' r :
  0 <= last < n → reads n p s s' →
  decodeFields (S fuel) last s (encodeUint (n - last) ++ p ++ r) = decodeFields fuel n s' r.
Proof.
  intros Hn Hr. cbn [decodeFields].
  assert (n <= 3) by (inversion Hr; lia).
  rewrite decode_encode_Uint by lia. cbn [mbind option_bind].
  rewrite (proj2 (Z.eqb_neq _ 0)) by lia. replace (last + (n - last)) with n by lia.
  destruct Hr; cbn [Z.eqb Pos.eqb].
  - by rewrite decode_encode_Int.
  - by rewrite decode_encode_Bytes.
  - by rewrite decode_encode_Bytes.
Qed.

Lemma decode_runs fuel last fs s s' r :
  runs last fs s s' → (length fs < fuel)%nat →
  decodeFields fuel last s (encodeFields last fs ++ r) = Some s'.
Proof.
  intros Hr. revert fuel. induction Hr as [last s|last n p fs s s1 s2 Hn Hrd Hr IH]; intros fuel Hf.
  - destruct fuel as [|fuel]; [lia|]. cbn [decodeFields encodeFields].
    by rewrite decode_encode_Uint.
  - destruct fuel as [|fuel]; [lia|]. cbn [encodeFields]. rewrite <- !app_assoc.
    rewrite (decode_step _ _ _ _ _ s1) by done. apply IH. cbn in Hf. lia.
Qed.

Lemma encodeUint_nonempty x : (1 ≤ length (encodeUint x))%nat.
Proof. unfold encodeUint. case_match; cbn; lia. Qed.

Lemma encodeFields_length last fs : (length fs < length (encodeFields last fs))%nat.
Proof.
  revert last. induction fs as [|[n p] fs IH]; intros last; cbn [encodeFields length].
  - apply encodeUint_nonempty.
  - rewrite !length_app. pose proof (encodeUint_nonempty (n - last)). pose proof (IH n). lia.
Qed.

Lemma fields_run s : wf s → runs 0 (fields s) zero_stored s.
Proof.
  destruct s as [t tr lg]. intros (Ht & Htr & Hlg).
  unfold fields, zero_stored. cbn [st_ReceivedAt st_TracesData st_LogsData] in *.
  assert (Z.of_nat (length tr) < 2 ^ 62) by lia.
  assert (Z.of_nat (length lg) < 2 ^ 62) by lia.
  destruct (Z.eqb_spec t 0) as [->|]; repeat case_decide; subst; cbn [app];
    repeat (eapply runs_cons; [lia|by constructor|]); apply runs_nil.
Qed.

Lemma encodeUint_length x : (length (encodeUint x) ≤ 9)%nat.
Proof. unfold encodeUint. case_match; cbn [length]; [lia|]. pose proof (big_endian_length 8 x). lia. Qed.

Lemma encodeBytes_length b : (length (encodeBytes b) ≤ 9 + length b)%nat.
Proof. unfold encodeBytes. rewrite length_app. pose proof (encodeUint_length (Z.of_nat (length b))). lia. Qed.

Lemma encodeFields_bound s :
  (length (encodeFields 0 (fields s)) ≤ 70 + length (st_TracesData s) + length (st_LogsData s))%nat.
Proof.
  unfold fields. pose proof (encodeBytes_length (st_TracesData s)).
  pose proof (encodeBytes_length (st_LogsData s)).
  repeat case_match; cbn [app encodeFields]; rewrite ?length_app; unfold encodeInt;
    repeat match goal with |- context [length (encodeUint ?x)] =>
      let H := fresh in pose proof (encodeUint_length x) as H; revert H;
      generalize (length (encodeUint x)); intros ? ? end; lia.
Qed.

(** Decoding what was encoded gives the value back. *)
Lemma Decode_Encode s : wf s → Decode zero_stored (Encode s) = Some s.
Proof.
  intros Hwf. unfold Decode, Encode.
  rewrite take_app_length, decide_True, drop_app_length by done.
  rewrite <- (app_nil_r (encodeBytes _)), decode_encode_Bytes.
  - cbn [mbind option_bind]. rewrite decode_encode_Int by done. cbn [mbind option_bind].
    rewrite Z.eqb_refl. rewrite <- (app_nil_r (encodeFields _ _)) at 2.
    apply decode_runs; [by apply fields_run|]. pose proof (encodeFields_length 0 (fields s)). lia.
  - rewrite length_app. pose proof (encodeFields_bound s).
    assert (length (encodeInt type_id) = 2%nat) as -> by reflexivity.
    destruct Hwf as (_ & ? & ?). lia.
Qed.
End Gob.
