(* ===== verification/Buffer.v ===== *)
(** Package [buffer]: signals kept until a decision or a rollup
    (internal/buffer/buffer.go).

    [InMemoryBuffer] keeps encoded signals in a BigCache. Metrics and time-bound
    logs also have an entry in a B-tree ordered by time and in a map from key to
    time; the cache's removal hook takes both away again and passes evicted
    signals on. All methods run in the monad [Go InMemoryBuffer], where taking a
    mutex that is held blocks for ever. *)
From S2P Require Import Prelude GoStd PData Signals Config Cache Gob.

(** ** What one call reads from the outside

    Clock readings (one at the start, one while a key is handled), the fresh
    UUID, and the order in which Go iterates over a map. *)
Record Env := MkEnv {
  env_now : Z;
  env_now_at : string → Z;
  env_uuid : string;
  env_range : ∀ K A : Type, list (K * A) → list (K * A) }.
Arguments env_range _ {K A} _.

Definition env_ok (e : Env) : Prop := ∀ K A (l : list (K * A)), env_range e l ≡ₚ l.

(** The errors [Store] can return; [ErrBufferFull] is declared and not used. *)
Inductive BufferError := ErrBufferFull | ErrMarshal.

Definition metric_prefix : string := "m_".
Definition log_prefix : string := "l_".

(** [fmt.Sprintf("m_%d_%s", ts, uuid)], and the same with [l_]. *)
Definition timed_key (prefix : string) (ts : Z) (uuid : string) : string :=
  prefix +:+ pretty ts +:+ "_" +:+ uuid.

(** [hex.EncodeToString(tid[:])] *)
Definition trace_key (tid : TraceID) : string := Hex.EncodeToString (tid_bytes tid).

Record InMemoryBuffer (C T : Type) := MkBuffer {
  cfg : BufferConfig;
  cache : C;
  mu : RWMutex;
  debug : bool;
  evictedChan : chan Signal;
  metricTimeIndex : T;
  logTimeIndex : T;
  metricKeyMap : gmap string Z;
  logKeyMap : gmap string Z }.
Arguments MkBuffer {C T} _ _ _ _ _ _ _ _ _.
Arguments cfg {C T} _.
Arguments cache {C T} _.
Arguments mu {C T} _.
Arguments debug {C T} _.
Arguments evictedChan {C T} _.
Arguments metricTimeIndex {C T} _.
Arguments logTimeIndex {C T} _.
Arguments metricKeyMap {C T} _.
Arguments logKeyMap {C T} _.

Section Buffer.
Context {C T : Type} `{!BigCache C} `{!BTree T}.
Context `{!Codec Traces} `{!Codec Metrics} `{!Codec Logs}.

Abbreviation B := (InMemoryBuffer C T).

(** ** Field updates *)

Definition set_cache (c : C) (b : B) : B :=
  MkBuffer (cfg b) c (mu b) (debug b) (evictedChan b) (metricTimeIndex b) (logTimeIndex b)
    (metricKeyMap b) (logKeyMap b).
Definition set_mu (m : RWMutex) (b : B) : B :=
  MkBuffer (cfg b) (cache b) m (debug b) (evictedChan b) (metricTimeIndex b) (logTimeIndex b)
    (metricKeyMap b) (logKeyMap b).
Definition set_evictedChan (ch : chan Signal) (b : B) : B :=
  MkBuffer (cfg b) (cache b) (mu b) (debug b) ch (metricTimeIndex b) (logTimeIndex b)
    (metricKeyMap b) (logKeyMap b).
Definition set_metric_index (t : T) (m : gmap string Z) (b : B) : B :=
  MkBuffer (cfg b) (cache b) (mu b) (debug b) (evictedChan b) t (logTimeIndex b) m (logKeyMap b).
Definition set_log_index (t : T) (m : gmap string Z) (b : B) : B :=
  MkBuffer (cfg b) (cache b) (mu b) (debug b) (evictedChan b) (metricTimeIndex b) t (metricKeyMap b) m.

(** [b.mu.Lock(); defer b.mu.Unlock()] around a body, and the reader's version. *)
Definition withLock {A} (body : Go B A) : Go B A :=
  _ ← zoom mu set_mu Mutex.Lock; r ← body; _ ← zoom mu set_mu Mutex.Unlock; mret r.
Definition withRLock {A} (body : Go B A) : Go B A :=
  _ ← zoom mu set_mu Mutex.RLock; r ← body; _ ← zoom mu set_mu Mutex.RUnlock; mret r.

(** ** Construction *)

(** [None] is the panic of a cache that cannot be made. *)
Definition New (config : BufferConfig) (dbg : bool) : option B :=
  let cacheConfig :=
    MkCacheConfig (wrap64 (TTLSeconds config * Time.Second)) (1 * Time.Second)
      (if (Size config =? 0)%Z then 512%Z else Size config) in
  c ← cnew cacheConfig;
  Some (MkBuffer config c Unlocked dbg (Chan.make Signal 1000) bt_new bt_new ∅ ∅).

Definition Start : Go B unit := mret tt.

Definition Stop : Go B unit := modifyS (λ b, set_cache (cclose (cache b)) b).

(** ** The removal hook *)

(** The signal an evicted entry is turned into, if it can be decoded. *)
Definition evictedSignal (e : Env) (key : string) (entry : bytes) : option Signal :=
  let ctx := MkContext (env_now_at e key) "" in
  if Str.HasPrefix key metric_prefix then
    m ← unmarshal entry; Some (SigMetric (MkMetricSignal m ctx))
  else if Str.HasPrefix key log_prefix then
    l ← unmarshal entry; Some (SigLog (MkLogSignal l ctx))
  else None.

Definition cleanupIndex (key : string) : B → B := λ b,
  if Str.HasPrefix key metric_prefix then
    match metricKeyMap b !! key with
    | Some ts => set_metric_index (Delete (MkTimeKey ts key) (metricTimeIndex b)) (delete key (metricKeyMap b)) b
    | None => b
    end
  else if Str.HasPrefix key log_prefix then
    match logKeyMap b !! key with
    | Some ts => set_log_index (Delete (MkTimeKey ts key) (logTimeIndex b)) (delete key (logKeyMap b)) b
    | None => b
    end
  else b.

Definition sendEvicted (e : Env) (key : string) (entry : bytes) (reason : RemoveReason) : B → B := λ b,
  if decide (reason = Expired ∨ reason = NoSpace) then
    match evictedSignal e key entry with
    | Some sig => set_evictedChan (Chan.try_send sig (evictedChan b)).2 b
    | None => b
    end
  else b.

Definition onCacheEvictionWithReason (e : Env) (key : string) (entry : bytes) (reason : RemoveReason) : Go B unit :=
  withLock (
    _ ← modifyS (cleanupIndex key);
    modifyS (sendEvicted e key entry reason)).

(** *** Calls of the cache: the hook runs inside them *)

Definition callHook (e : Env) (r : Removal) : Go B unit :=
  onCacheEvictionWithReason e r.1.1 r.1.2 r.2.

Definition cacheSet (e : Env) (key : string) (entry : bytes) : Go B bool :=
  b ← getS;
  let '(c, evs, ok) := cset key entry (cache b) in
  _ ← putS (set_cache c b);
  _ ← for_each (callHook e) evs;
  mret ok.

Definition cacheDelete (e : Env) (key : string) : Go B unit :=
  b ← getS;
  let '(c, evs) := cdelete key (cache b) in
  _ ← putS (set_cache c b);
  for_each (callHook e) evs.

(** One run of BigCache's clean-up goroutine. *)
Definition cacheClean (e : Env) : Go B unit :=
  b ← getS;
  let '(c, evs) := cclean (env_now e) (cache b) in
  _ ← putS (set_cache c b);
  for_each (callHook e) evs.

(** ** Storing traces *)

Definition addSpan (rs : ResourceGroup Span) (ils : ScopeGroup Span) (m : gmap TraceID Traces) (span : Span)
    : gmap TraceID Traces :=
  let tid := sp_trace_id span in
  if IsEmpty tid then m
  else <[tid := default [] (m !! tid) ++ [singleton_group (rg_resource rs) (sg_scope ils) span]]> m.

(** The three nested loops that sort the spans of a batch by trace. *)
Definition splitTraces (rss : Traces) : gmap TraceID Traces :=
  foldl (λ m rs, foldl (λ m ils, foldl (addSpan rs ils) m (sg_items ils)) m (rg_scopes rs)) ∅ rss.

(** What is stored under [key] now, or a new entry. *)
Definition fetchStored (e : Env) (key : string) (b : B) : StoredTraceData :=
  match cget key (cache b) with
  | Some entry => default zero_stored (Gob.Decode zero_stored entry)
  | None => MkStored (Time.UnixNano (env_now_at e key)) [] []
  end.

(** A message that failed to decode cannot be used: using it panics. *)
Definition decodeCurrent {A} `{!Codec (list A)} (data : bytes) : Go B (list A) :=
  match data with
  | [] => mret []
  | _ => match unmarshal data with Some x => mret x | None => panic end
  end.

Definition storeTrace (e : Env) (entry : TraceID * Traces) : Go B unit :=
  let '(tid, newTraces) := entry in
  let key := trace_key tid in
  b ← getS;
  let stored := fetchStored e key b in
  currentTraces ← decodeCurrent (st_TracesData stored);
  let data := default [] (marshal (currentTraces ++ newTraces)) in
  _ ← cacheSet e key (Gob.Encode (MkStored (st_ReceivedAt stored) data (st_LogsData stored)));
  mret tt.

Definition storeTraces (e : Env) (sig : TraceSignal) : Go B (option BufferError) :=
  _ ← for_each (storeTrace e) (env_range e (map_to_list (splitTraces (ts_Traces sig))));
  mret None.

(** ** Storing logs *)

(** The logs of each trace, and the logs without a trace if there are any. *)
Definition addLog (rl : ResourceGroup LogRecord) (sl : ScopeGroup LogRecord)
    (acc : gmap TraceID Logs * option Logs) (lr : LogRecord) : gmap TraceID Logs * option Logs :=
  let tid := lr_trace_id lr in
  let new := singleton_group (rg_resource rl) (sg_scope sl) lr in
  if IsEmpty tid then (acc.1, Some (default [] acc.2 ++ [new]))
  else (<[tid := default [] (acc.1 !! tid) ++ [new]]> acc.1, acc.2).

Definition splitLogs (rls : Logs) : gmap TraceID Logs * option Logs :=
  foldl (λ a rl, foldl (λ a sl, foldl (addLog rl sl) a (sg_items sl)) a (rg_scopes rl)) (∅, None) rls.

Definition storeTraceLogs (e : Env) (entry : TraceID * Logs) : Go B unit :=
  let '(tid, logs) := entry in
  let key := trace_key tid in
  b ← getS;
  let stored := fetchStored e key b in
  currentLogs ← decodeCurrent (st_LogsData stored);
  let data := default [] (marshal (currentLogs ++ logs)) in
  _ ← cacheSet e key (Gob.Encode (MkStored (st_ReceivedAt stored) (st_TracesData stored) data));
  mret tt.

Definition indexLog (key : string) (ts : Z) : Go B unit :=
  withLock (modifyS (λ b,
    set_log_index (ReplaceOrInsert (MkTimeKey ts key) (logTimeIndex b)) (<[key := ts]> (logKeyMap b)) b)).

Definition storeTimeLogs (e : Env) (timeLogs : Logs) : Go B unit :=
  match marshal timeLogs with
  | None => mret tt
  | Some data =>
      let ts := Time.UnixNano (env_now e) in
      let key := timed_key log_prefix ts (env_uuid e) in
      ok ← cacheSet e key data;
      if ok : bool then indexLog key ts else mret tt
  end.

Definition storeSplitLogs (e : Env) (sig : LogSignal) : Go B (option BufferError) :=
  let '(traceLogs, timeLogs) := splitLogs (ls_Logs sig) in
  _ ← for_each (storeTraceLogs e) (env_range e (map_to_list traceLogs));
  _ ← match timeLogs with Some l => storeTimeLogs e l | None => mret tt end;
  mret None.

(** ** Storing metrics *)

Definition indexMetric (key : string) (ts : Z) : Go B unit :=
  withLock (modifyS (λ b,
    set_metric_index (ReplaceOrInsert (MkTimeKey ts key) (metricTimeIndex b)) (<[key := ts]> (metricKeyMap b)) b)).

Definition storeMetric (e : Env) (sig : MetricSignal) : Go B (option BufferError) :=
  match marshal (ms_Metrics sig) with
  | None => mret (Some ErrMarshal)
  | Some data =>
      let ts := Time.UnixNano (env_now e) in
      let key := timed_key metric_prefix ts (env_uuid e) in
      ok ← cacheSet e key data;
      _ ← (if ok : bool then indexMetric key ts else mret tt);
      mret None
  end.

Definition Store (e : Env) (sig : Signal) : Go B (option BufferError) :=
  match sig with
  | SigTrace s => storeTraces e s
  | SigMetric s => storeMetric e s
  | SigLog s => storeSplitLogs e s
  | OtherSignal _ _ => mret None
  end.

(** ** Reading *)

Definition decodeStored (entry : option bytes) : option StoredTraceData :=
  e ← entry; Gob.Decode zero_stored e.

(** The error of the unmarshaler is ignored. The caller's first use of the invalid
    message would panic; [decodeCurrent] panics at once. *)
Definition GetTrace (traceID : TraceID) : Go B (option TraceSignal) :=
  b ← getS;
  match decodeStored (cget (trace_key traceID) (cache b)) with
  | None => mret None
  | Some stored =>
      match st_TracesData stored with
      | [] => mret None
      | data =>
          traces ← decodeCurrent data;
          mret (Some (MkTraceSignal traces (MkContext (Time.Unix_nsec (st_ReceivedAt stored)) "")))
      end
  end.

Definition GetTraceLogs (traceID : TraceID) : Go B (option LogSignal) :=
  b ← getS;
  match decodeStored (cget (trace_key traceID) (cache b)) with
  | None => mret None
  | Some stored =>
      match st_LogsData stored with
      | [] => mret None
      | data =>
          logs ← decodeCurrent data;
          mret (Some (MkLogSignal logs (MkContext (Time.Unix_nsec (st_ReceivedAt stored)) "")))
      end
  end.

Definition GetTraceCount : Go B nat := b ← getS; mret (clen (cache b)).

(** The bounds of a range query. *)
Definition range_lo (start : Z) : TimeKey := MkTimeKey (Time.UnixNano start) "".
Definition range_hi (stop : Z) : TimeKey := MkTimeKey (wrap64 (Time.UnixNano stop + 1)) "".

Definition GetMetricsInRange (start stop : Z) : Go B (list MetricSignal) :=
  withRLock (
    b ← getS;
    mret (omap (λ tk,
      data ← cget (Key tk) (cache b);
      m ← unmarshal data;
      Some (MkMetricSignal m (MkContext (Time.Unix_nsec (Timestamp tk)) "")))
      (AscendRange (range_lo start) (range_hi stop) (metricTimeIndex b)))).

Definition GetLogsInRange (start stop : Z) : Go B (list LogSignal) :=
  withRLock (
    b ← getS;
    mret (omap (λ tk,
      data ← cget (Key tk) (cache b);
      l ← unmarshal data;
      Some (MkLogSignal l (MkContext (Time.Unix_nsec (Timestamp tk)) "")))
      (AscendRange (range_lo start) (range_hi stop) (logTimeIndex b)))).

(** ** Removing *)

Definition RemoveTrace (e : Env) (traceID : TraceID) : Go B unit := cacheDelete e (trace_key traceID).

Definition RemoveMetricsInRange (e : Env) (start stop : Z) : Go B unit :=
  keys ← withRLock (b ← getS; mret (map Key (AscendRange (range_lo start) (range_hi stop) (metricTimeIndex b))));
  for_each (cacheDelete e) keys.

Definition RemoveLogsInRange (e : Env) (start stop : Z) : Go B unit :=
  keys ← withRLock (b ← getS; mret (map Key (AscendRange (range_lo start) (range_hi stop) (logTimeIndex b))));
  for_each (cacheDelete e) keys.

Definition ClearMetrics (e : Env) : Go B unit :=
  keys ← withLock (b ← getS; mret (env_range e (map_to_list (metricKeyMap b))).*1);
  for_each (cacheDelete e) keys.

Definition ClearLogs (e : Env) : Go B unit :=
  keys ← withLock (b ← getS; mret (env_range e (map_to_list (logKeyMap b))).*1);
  for_each (cacheDelete e) keys.
End Buffer.
