(* ===== verification/WireCodec.v ===== *)
(** A concrete marshaler for telemetry messages, used where a theorem that takes
    the protobuf marshaler as a parameter is applied to an example.

    An encoder may refuse a value (composite attribute values, floating-point
    numbers and very long messages are refused); what it accepts, the decoder
    reads back from the front of any input. *)
From S2P Require Import Prelude GoStd PData.

(** ** Prefix codes *)
Class Ser (A : Type) := {
  ser : A → option bytes;
  de : bytes → option (A * bytes);
  de_ser x b r : ser x = Some b → de (b ++ r) = Some (x, r)
}.

#[export] Program Instance ser_byte : Ser byte :=
  {| ser x := Some [x]; de r := match r with [] => None | x :: r' => Some (x, r') end |}.
Next Obligation. by intros x b r [= <-]. Qed.

#[export] Program Instance ser_unit : Ser unit := {| ser _ := Some []; de r := Some (tt, r) |}.
Next Obligation. by intros [] b r [= <-]. Qed.

#[export] Program Instance ser_pair {A B} `{!Ser A, !Ser B} : Ser (A * B) := {|
  ser x := b1 ← ser x.1; b2 ← ser x.2; Some (b1 ++ b2);
  de r := '(x, r1) ← de r; '(y, r2) ← de r1; Some ((x, y), r2) |}.
Next Obligation.
  intros A B HA HB [x y] b r H. cbn in H.
  destruct (ser x) as [b1|] eqn:E1; [|done]. destruct (ser y) as [b2|] eqn:E2; [|done].
  injection H as <-. rewrite <- app_assoc. rewrite (de_ser x) by done. cbn.
  by rewrite (de_ser y) by done.
Qed.

Definition ser_of_sum {A B} `{!Ser A, !Ser B} (x : A + B) : option bytes :=
  match x with inl x => cons "000"%byte <$> ser x | inr y => cons "001"%byte <$> ser y end.
Definition de_of_sum {A B} `{!Ser A, !Ser B} (r : bytes) : option ((A + B) * bytes) :=
  match r with
  | "000"%byte :: r' => '(x, r1) ← de r'; Some (inl x, r1)
  | "001"%byte :: r' => '(y, r1) ← de r'; Some (inr y, r1)
  | _ => None
  end.

#[export] Program Instance ser_sum {A B} `{!Ser A, !Ser B} : Ser (A + B) := {|
  ser := ser_of_sum; de := de_of_sum |}.
Next Obligation.
  intros A B HA HB [x|y] b r H; cbn in H.
  - destruct (ser x) as [b1|] eqn:E; [|done]. injection H as <-. cbn. by rewrite (de_ser x).
  - destruct (ser y) as [b1|] eqn:E; [|done]. injection H as <-. cbn. by rewrite (de_ser y).
Qed.

(** A type that is carried by another one. *)
Program Definition ser_via {A B} `{!Ser B} (f : A → option B) (g : B → option A)
    (gf : ∀ x y, f x = Some y → g y = Some x) : Ser A := {|
  ser x := y ← f x; ser y;
  de r := '(y, r1) ← de r; x ← g y; Some (x, r1) |}.
Next Obligation.
  intros A B HB f g gf x b r H. cbn in *. destruct (f x) as [y|] eqn:E; [|done]. cbn in H.
  rewrite (de_ser y) by done. cbn. by rewrite (gf x y).
Qed.

(** Lists: a mark in front of every element and one at the end. *)
Fixpoint ser_list {A} `{!Ser A} (l : list A) : option bytes :=
  match l with
  | [] => Some ["000"%byte]
  | x :: l' => b1 ← ser x; b2 ← ser_list l'; Some ("001"%byte :: b1 ++ b2)
  end.

Fixpoint de_list {A} `{!Ser A} (fuel : nat) (r : bytes) : option (list A * bytes) :=
  match fuel, r with
  | S fuel', "000"%byte :: r' => Some ([], r')
  | S fuel', "001"%byte :: r' =>
      '(x, r1) ← de r'; '(l, r2) ← de_list fuel' r1; Some (x :: l, r2)
  | _, _ => None
  end.

Lemma de_ser_list {A} `{!Ser A} (l : list A) b r fuel :
  ser_list l = Some b → length l < fuel → de_list fuel (b ++ r) = Some (l, r).
Proof.
  revert b fuel. induction l as [|x l IH]; intros b fuel H Hf; destruct fuel as [|fuel]; try lia; cbn in H.
  - by injection H as <-.
  - destruct (ser x) as [b1|] eqn:E1; [|done]. destruct (ser_list l) as [b2|] eqn:E2; [|done].
    injection H as <-. cbn. rewrite <- app_assoc, (de_ser x) by done. cbn.
    by rewrite (IH b2) by (done || (cbn in Hf; lia)).
Qed.

Lemma ser_list_length {A} `{!Ser A} (l : list A) b : ser_list l = Some b → length l < length b.
Proof.
  revert b. induction l as [|x l IH]; intros b H; cbn in H; [by injection H as <-; cbn; lia|].
  destruct (ser x) as [b1|]; [|done]. destruct (ser_list l) as [b2|]; [|done].
  injection H as <-. specialize (IH b2 eq_refl). cbn. rewrite length_app. lia.
Qed.

#[export] Program Instance ser_list_instance {A} `{!Ser A} : Ser (list A) := {|
  ser := ser_list; de r := de_list (S (length r)) r |}.
Next Obligation.
  intros A HA l b r H. apply de_ser_list; [done|].
  apply ser_list_length in H. rewrite length_app. lia.
Qed.

(** Integers, by their binary digits. *)
Fixpoint bits_of_pos (p : positive) : list byte :=
  match p with xH => [] | xO p => "000"%byte :: bits_of_pos p | xI p => "001"%byte :: bits_of_pos p end.
Fixpoint pos_of_bits (l : list byte) : positive :=
  match l with [] => xH | "000"%byte :: l => xO (pos_of_bits l) | _ :: l => xI (pos_of_bits l) end.

Lemma pos_of_bits_of_pos p : pos_of_bits (bits_of_pos p) = p.
Proof. induction p; cbn; by f_equal. Qed.

#[export] Instance ser_positive : Ser positive.
Proof. refine (ser_via (λ p, Some (bits_of_pos p)) (λ l, Some (pos_of_bits l)) _). intros p y [= <-]. by rewrite pos_of_bits_of_pos. Defined.

#[export] Instance ser_Z : Ser Z.
Proof.
  refine (ser_via (λ z, Some (match z with Z0 => inl tt | Zpos p => inr (inl p) | Zneg p => inr (inr p) end))
    (λ x : unit + (positive + positive), Some (match x with inl _ => Z0 | inr (inl p) => Zpos p | inr (inr p) => Zneg p end)) _).
  by intros [] y [= <-].
Defined.

#[export] Instance ser_bool : Ser bool.
Proof.
  refine (ser_via (λ x : bool, Some (if x then inl tt else inr tt))
    (λ x : unit + unit, Some (match x with inl _ => true | inr _ => false end)) _). by intros [] y [= <-].
Defined.

#[export] Instance ser_string : Ser string.
Proof.
  refine (ser_via (λ s, Some (String.list_byte_of_string s)) (λ l, Some (String.string_of_list_byte l)) _).
  intros s y [= <-]. by rewrite String.string_of_list_byte_of_string.
Defined.

(** ** Messages *)

#[export] Instance ser_value : Ser Value.
Proof.
  refine (ser_via (λ v, match v with
      | VEmpty => Some (inl tt) | VStr s => Some (inr (inl s)) | VBool b => Some (inr (inr (inl b)))
      | VInt z => Some (inr (inr (inr z))) | _ => None end)
    (λ x : unit + (string + (bool + Z)), Some (match x with
      | inl _ => VEmpty | inr (inl s) => VStr s | inr (inr (inl b)) => VBool b
      | inr (inr (inr z)) => VInt z end)) _).
  by intros [] y [= <-].
Defined.

#[export] Instance ser_tid : Ser TraceID.
Proof.
  refine (ser_via (λ t, Some (tid_bytes t)) tid_of_bytes _). intros t y [= <-]. apply tid_of_bytes_bytes.
Defined.

#[export] Instance ser_status : Ser StatusCode.
Proof.
  refine (ser_via (λ c, Some (match c with
      | StatusCodeUnset => inl tt | StatusCodeOk => inr (inl tt) | StatusCodeError => inr (inr tt) end))
    (λ x : unit + (unit + unit), Some (match x with
      | inl _ => StatusCodeUnset | inr (inl _) => StatusCodeOk | inr (inr _) => StatusCodeError end)) _).
  by intros [] y [= <-].
Defined.

#[export] Instance ser_span : Ser Span.
Proof.
  refine (ser_via (λ s, Some (sp_trace_id s, (sp_name s, (sp_start s, (sp_end s, (sp_status s, (sp_attrs s, sp_rest s)))))))
    (λ '(t, (n, (st, (en, (c, (a, r)))))), Some (MkSpan t n st en c a r)) _).
  by intros [] y [= <-].
Defined.

#[export] Instance ser_dp : Ser NumberDataPoint.
Proof.
  refine (ser_via (λ d, match dp_value d with
      | NVEmpty => Some (dp_attrs d, (inl tt, dp_rest d)) | NVInt z => Some (dp_attrs d, (inr z, dp_rest d))
      | NVDouble _ => None end)
    (λ '(a, (v, r)), Some (MkDP a (match v with inl tt => NVEmpty | inr z => NVInt z end) r)) _).
  intros [a [] r] y; by intros [= <-].
Defined.

#[export] Instance ser_metric : Ser Metric.
Proof.
  refine (ser_via (λ m, d ← match m_data m with
        | MDEmpty => Some (inl tt) | MDGauge l => Some (inr (inl l))
        | MDSum b t l => Some (inr (inr (b, (t, l)))) | MDOther _ _ => None end;
      Some (m_name m, (m_description m, (m_unit m, (m_metadata m, d)))))
    (λ x : string * (string * (string * (Map * (unit + (list NumberDataPoint + bool * (Z * list NumberDataPoint)))))),
      let '(n, (de, (u, (md, d)))) := x in
      Some (MkMetric n de u md (match d with
        | inl _ => MDEmpty | inr (inl l) => MDGauge l | inr (inr (b, (t, l))) => MDSum b t l end))) _).
  intros [n de u md []] y; by intros [= <-].
Defined.

#[export] Instance ser_lr : Ser LogRecord.
Proof.
  refine (ser_via (λ l, Some (lr_trace_id l, (lr_severity l, (lr_body l, (lr_attrs l, lr_rest l)))))
    (λ '(t, (s, (b, (a, r)))), Some (MkLR t s b a r)) _).
  by intros [] y [= <-].
Defined.

#[export] Instance ser_scope_group {A} `{!Ser A} : Ser (ScopeGroup A).
Proof.
  refine (ser_via (λ g, Some (sc_name (sg_scope g), (sc_version (sg_scope g), (sc_rest (sg_scope g), (sg_items g, sg_schema g)))))
    (λ '(n, (v, (r, (l, s)))), Some (MkSG (MkScope n v r) l s)) _).
  by intros [[] l s] y [= <-].
Defined.

#[export] Instance ser_resource_group {A} `{!Ser A} : Ser (ResourceGroup A).
Proof.
  refine (ser_via (λ g, Some (res_attrs (rg_resource g), (res_rest (rg_resource g), (rg_scopes g, rg_schema g))))
    (λ '(a, (r, (l, s))), Some (MkRG (MkResource a r) l s)) _).
  by intros [[] l s] y [= <-].
Defined.

(** ** The marshaler *)
Module WireCodec.
Section codec.
Context {A : Type} `{!Ser A}.

Definition instance : Codec (list A) := {|
  marshal x := b ← ser x; if (Z.of_nat (length b) <? 2 ^ 60)%Z then Some b else None;
  unmarshal b := '(x, r) ← de b; match r with [] => Some x | _ => None end |}.

Lemma wire_laws : @CodecLaws (list A) instance _.
Proof.
  split; cbn [marshal unmarshal instance].
  - intros x b H. destruct (ser x) as [b'|] eqn:E; [|done]. cbn [mbind option_bind] in H.
    case_match; [|done]. injection H as ->.
    apply (de_ser x b []) in E. rewrite app_nil_r in E. rewrite E. done.
  - intros x H. destruct (ser x) as [b'|] eqn:E; [|done]. cbn [mbind option_bind] in H.
    case_match; [|done]. injection H as ->. apply ser_list_length in E. cbn in E. lia.
  - intros x b H. destruct (ser x) as [b'|] eqn:E; [|done]. cbn [mbind option_bind] in H.
    destruct (Z.ltb_spec (Z.of_nat (length b')) (2 ^ 60)); [|done]. by injection H as <-.
Qed.
End codec.
End WireCodec.
