(* ===== verification/BufferLemmas.v ===== *)
(** Lemmas on [InMemoryBuffer]: what the hook, the calls of the cache and each
    operation do to the buffer, and the invariant that all of them keep. *)
From S2P Require Import Prelude GoStd PData Signals Config Cache Gob Buffer.

(** ** Metrics and time-bound logs are kept the same way *)
Inductive Kind := KMetric | KLog.

#[global] Instance Kind_eq_dec : EqDecision Kind.
Proof. solve_decision. Defined.

Definition kprefix (K : Kind) : string := match K with KMetric => metric_prefix | KLog => log_prefix end.

Section BufferLemmas.
Context {C T : Type} `{!BigCache C, !BigCacheLaws C} `{!BTree T, !BTreeLaws T}.
Context `{!Codec Traces, !CodecLaws Traces} `{!Codec Metrics, !CodecLaws Metrics} `{!Codec Logs, !CodecLaws Logs}.

Abbreviation B := (InMemoryBuffer C T).
Implicit Types (b : B) (e : Env) (r : Removal) (evs : list Removal).

Definition kmap (K : Kind) (b : B) : gmap string Z :=
  match K with KMetric => metricKeyMap b | KLog => logKeyMap b end.
Definition kindex (K : Kind) (b : B) : T :=
  match K with KMetric => metricTimeIndex b | KLog => logTimeIndex b end.
Definition set_kindex (K : Kind) (t : T) (m : gmap string Z) (b : B) : B :=
  match K with KMetric => set_metric_index t m b | KLog => set_log_index t m b end.

(** Whether the bytes are an encoded metric, or an encoded log. *)
Definition decodes (K : Kind) (v : bytes) : Prop :=
  match K with
  | KMetric => is_Some (unmarshal (A := Metrics) v)
  | KLog => is_Some (unmarshal (A := Logs) v)
  end.

(** ** The invariant *)

(** What the removal hook sends: metrics and logs. *)
Definition evictable (sig : Signal) : Prop :=
  match sig with SigMetric _ | SigLog _ => True | _ => False end.


(** The index, the key map and the channel, apart from the cache. *)
Record index_inv (b : B) : Prop := {
  inv_mu : mu b = Unlocked;
  inv_index K ts k : MkTimeKey ts k ∈ bt_items (kindex K b) ↔ kmap K b !! k = Some ts;
  inv_prefix K k ts : kmap K b !! k = Some ts → Str.HasPrefix k (kprefix K) = true;
  inv_chan : Chan.wf (evictedChan b);
  inv_chan_kinds sig : sig ∈ chan_buf (evictedChan b) → evictable sig
}.

(** No bytes, or the encoding of a message that is not empty. *)
Definition encodes {A} `{!Codec (list A)} (data : bytes) : Prop :=
  data = [] ∨ ∃ x : list A, unmarshal data = Some x ∧ x ≠ [].

(** What may be stored under the key of a trace. *)
Definition stored_ok (s : StoredTraceData) : Prop :=
  Gob.wf s ∧ encodes (A := ResourceGroup Span) (st_TracesData s) ∧ encodes (A := ResourceGroup LogRecord) (st_LogsData s).

(** The contents of the cache. *)
Record cache_inv (b : B) : Prop := {
  inv_cached K k v :
    cview (cache b) !! k = Some v → Str.HasPrefix k (kprefix K) = true →
    is_Some (kmap K b !! k) ∧ decodes K v;
  inv_trace tid v :
    cview (cache b) !! trace_key tid = Some v → ∃ s, v = Gob.Encode s ∧ stored_ok s
}.

Definition buf_inv (b : B) : Prop := index_inv b ∧ cache_inv b.

(** ** Keys *)

Lemma prefix_disjoint K K' k :
  Str.HasPrefix k (kprefix K) = true → Str.HasPrefix k (kprefix K') = true → K = K'.
Proof.
  destruct K, K'; try done; destruct k as [|c k]; try done; cbn;
    repeat case_bool_decide; subst; try done; congruence.
Qed.

Lemma trace_key_prefix K tid : Str.HasPrefix (trace_key tid) (kprefix K) = false.
Proof.
  unfold trace_key. destruct (Hex.EncodeToString (tid_bytes tid)) as [|c s] eqn:E; [by destruct K|].
  apply Hex.EncodeToString_head in E.
  destruct K; cbn; case_bool_decide; subst; done.
Qed.

#[export] Instance trace_key_inj : Inj (=) (=) trace_key.
Proof. intros t u H. apply tid_eq. by apply (inj Hex.EncodeToString). Qed.

Lemma timed_key_prefix K ts u : Str.HasPrefix (timed_key (kprefix K) ts u) (kprefix K) = true.
Proof. apply Str.HasPrefix_app. Qed.

Lemma timed_key_not_trace K ts u tid : timed_key (kprefix K) ts u ≠ trace_key tid.
Proof.
  intros H. pose proof (timed_key_prefix K ts u) as Hp. rewrite H, trace_key_prefix in Hp. done.
Qed.

(** ** Field updates *)

Lemma set_mu_id b : set_mu (mu b) b = b.
Proof. by destruct b. Qed.

Lemma set_mu_mu m n b : set_mu m (set_mu n b) = set_mu m b.
Proof. done. Qed.

Lemma cleanupIndex_mu k m b : cleanupIndex k (set_mu m b) = set_mu m (cleanupIndex k b).
Proof. unfold cleanupIndex. cbn. by repeat case_match. Qed.

Lemma cleanupIndex_mu_eq k b : mu (cleanupIndex k b) = mu b.
Proof. unfold cleanupIndex. by repeat case_match. Qed.

Lemma sendEvicted_mu e k v why m b : sendEvicted e k v why (set_mu m b) = set_mu m (sendEvicted e k v why b).
Proof. unfold sendEvicted. by repeat case_match. Qed.

Lemma sendEvicted_mu_eq e k v why b : mu (sendEvicted e k v why b) = mu b.
Proof. unfold sendEvicted. by repeat case_match. Qed.

(** A locked section that leaves the mutex alone. *)
Lemma withLock_modify (f : B → B) b :
  mu b = Unlocked → (∀ m, f (set_mu m b) = set_mu m (f b)) → mu (f b) = Unlocked →
  withLock (modifyS f) b = Ok (tt, f b).
Proof.
  intros Hmu Hf Hmu'. unfold withLock, zoom. go_simpl. rewrite Hmu. cbn. rewrite Hf. cbn.
  rewrite set_mu_mu, <- Hmu', set_mu_id. done.
Qed.

Lemma withLock_read {A} (f : B → A) b :
  mu b = Unlocked → withLock (b ← getS; mret (f b)) b = Ok (f (set_mu WLocked b), b).
Proof.
  intros Hmu. unfold withLock, zoom. go_simpl. rewrite Hmu. cbn.
  by rewrite set_mu_mu, <- Hmu, set_mu_id.
Qed.

Lemma withRLock_read {A} (f : B → A) b :
  mu b = Unlocked → withRLock (b ← getS; mret (f b)) b = Ok (f (set_mu (RLocked 1) b), b).
Proof.
  intros Hmu. unfold withRLock, zoom. go_simpl. rewrite Hmu. cbn.
  by rewrite set_mu_mu, <- Hmu, set_mu_id.
Qed.

(** ** The hook *)

(** What one call of the hook, and a series of them, do to the buffer. *)
Definition evict (e : Env) (r : Removal) (b : B) : B :=
  sendEvicted e r.1.1 r.1.2 r.2 (cleanupIndex r.1.1 b).
Definition evicts (e : Env) (evs : list Removal) (b : B) : B := foldl (λ b r, evict e r b) b evs.

Lemma evict_mu e r b : mu (evict e r b) = mu b.
Proof. unfold evict. by rewrite sendEvicted_mu_eq, cleanupIndex_mu_eq. Qed.

Lemma callHook_ok e r b : mu b = Unlocked → callHook e r b = Ok (tt, evict e r b).
Proof.
  intros Hmu. unfold callHook, onCacheEvictionWithReason.
  change (_ ← modifyS (cleanupIndex r.1.1); modifyS (sendEvicted e r.1.1 r.1.2 r.2))
    with (modifyS (S := B) (evict e r)).
  apply withLock_modify; [done| |by rewrite evict_mu].
  intros m. unfold evict. by rewrite cleanupIndex_mu, sendEvicted_mu.
Qed.

Lemma evicts_mu e evs b : mu (evicts e evs b) = mu b.
Proof. revert b. induction evs as [|r evs IH]; intros b; [done|]. cbn. fold (evicts e evs (evict e r b)). by rewrite IH, evict_mu. Qed.

Lemma callHooks_ok e evs b : mu b = Unlocked → for_each (callHook e) evs b = Ok (tt, evicts e evs b).
Proof.
  intros Hmu. eapply (for_each_fold (λ b, mu b = Unlocked)); [|done].
  intros r b' _ Hb'. split; [by apply callHook_ok|by rewrite evict_mu].
Qed.

Lemma cleanupIndex_cache k b : cache (cleanupIndex k b) = cache b.
Proof. unfold cleanupIndex. by repeat case_match. Qed.

Lemma evict_cache e r b : cache (evict e r b) = cache b.
Proof. unfold evict, sendEvicted. repeat case_match; apply cleanupIndex_cache. Qed.

Lemma evicts_cache e evs b : cache (evicts e evs b) = cache b.
Proof. revert b. induction evs as [|r evs IH]; intros b; [done|]. cbn. fold (evicts e evs (evict e r b)). by rewrite IH, evict_cache. Qed.

Lemma evict_kmap e r b K : kmap K (evict e r b) = kmap K (cleanupIndex r.1.1 b).
Proof. unfold evict, sendEvicted. by repeat case_match; destruct K. Qed.

Lemma evict_kindex e r b K : kindex K (evict e r b) = kindex K (cleanupIndex r.1.1 b).
Proof. unfold evict, sendEvicted. by repeat case_match; destruct K. Qed.

(** A key of one kind is not indexed under the other. *)
Lemma kmap_other b K K' k :
  index_inv b → Str.HasPrefix k (kprefix K) = true → K ≠ K' → kmap K' b !! k = None.
Proof.
  intros Hi Hp Hne. destruct (kmap K' b !! k) as [ts|] eqn:E; [|done].
  destruct Hne. eapply prefix_disjoint; [done|]. by eapply inv_prefix.
Qed.

Lemma kmap_no_prefix b K k :
  index_inv b → Str.HasPrefix k (kprefix K) = false → kmap K b !! k = None.
Proof.
  intros Hi Hp. destruct (kmap K b !! k) as [ts|] eqn:E; [|done].
  apply inv_prefix in E; [congruence|done].
Qed.

(** The index part of the hook, for both kinds at once. *)
Lemma cleanupIndex_kind k b :
  index_inv b →
  (∀ K, kmap K b !! k = None) ∧ cleanupIndex k b = b
  ∨ ∃ K ts, kmap K b !! k = Some ts ∧ (∀ K', K ≠ K' → kmap K' b !! k = None) ∧
    cleanupIndex k b = set_kindex K (Delete (MkTimeKey ts k) (kindex K b)) (delete k (kmap K b)) b.
Proof.
  intros Hi. unfold cleanupIndex.
  destruct (Str.HasPrefix k metric_prefix) eqn:Em; [|destruct (Str.HasPrefix k log_prefix) eqn:El].
  - destruct (metricKeyMap b !! k) as [ts|] eqn:E.
    + right. exists KMetric, ts. split_and!; [done| |done]. intros K'. by apply kmap_other.
    + left. split; [|done]. intros []; [done|]. by apply (kmap_other b KMetric).
  - destruct (logKeyMap b !! k) as [ts|] eqn:E.
    + right. exists KLog, ts. split_and!; [done| |done]. intros K'. by apply kmap_other.
    + left. split; [|done]. intros []; [|done]. by apply (kmap_other b KLog).
  - left. split; [|done]. intros []; by apply kmap_no_prefix.
Qed.

Lemma kmap_set_kindex K K' t m b : kmap K (set_kindex K' t m b) = if decide (K = K') then m else kmap K b.
Proof. by destruct K, K'. Qed.

Lemma kindex_set_kindex K K' t m b : kindex K (set_kindex K' t m b) = if decide (K = K') then t else kindex K b.
Proof. by destruct K, K'. Qed.

Lemma cleanupIndex_kmap k b K : index_inv b → kmap K (cleanupIndex k b) = delete k (kmap K b).
Proof.
  intros Hi. destruct (cleanupIndex_kind k b Hi) as [[Hn ->]|(K' & ts & Hs & Hn & ->)].
  - by rewrite delete_id.
  - rewrite kmap_set_kindex. case_decide; [by subst|]. by rewrite delete_id by auto.
Qed.

Lemma cleanupIndex_kindex k b K x :
  index_inv b → x ∈ bt_items (kindex K (cleanupIndex k b)) ↔ Key x ≠ k ∧ x ∈ bt_items (kindex K b).
Proof.
  intros Hi. destruct x as [ts k']. rewrite (inv_index _ Hi). cbn.
  destruct (cleanupIndex_kind k b Hi) as [[Hn ->]|(K' & ts' & Hs & Hn & ->)].
  - rewrite (inv_index _ Hi). split; [|by intros [_ ?]]. intros H. split; [|done].
    intros ->. by rewrite Hn in H.
  - rewrite kindex_set_kindex. case_decide as HK.
    + subst K'. rewrite bt_items_delete, (inv_index _ Hi).
      split; intros [Hne H]; (split; [|done]); intros Heq; apply Hne; [subst|by injection Heq].
      congruence.
    + rewrite (inv_index _ Hi). split; [|by intros [_ ?]]. intros H. split; [|done].
      intros ->. rewrite Hn in H; [done|congruence].
Qed.

Lemma evictedSignal_kind e k v sig : evictedSignal e k v = Some sig → evictable sig.
Proof.
  unfold evictedSignal. intros H. repeat case_match; try done.
  - destruct (unmarshal v); naive_solver.
  - destruct (unmarshal v); naive_solver.
Qed.

Lemma sendEvicted_chan e k v why b :
  Chan.wf (evictedChan b) → (∀ sig, sig ∈ chan_buf (evictedChan b) → evictable sig) →
  let ch := evictedChan (sendEvicted e k v why b) in
  Chan.wf ch ∧ ∀ sig, sig ∈ chan_buf ch → evictable sig.
Proof.
  intros Hwf Hk. unfold sendEvicted. case_decide; [|done].
  destruct (evictedSignal e k v) as [sig|] eqn:E; [|done]. cbn. split; [by apply Chan.try_send_wf|].
  intros sig' Hin. destruct (Chan.try_send_prefix sig (evictedChan b)) as (l & Hl & Hl').
  rewrite Hl in Hin. apply elem_of_app in Hin as [Hin|Hin]; [auto|].
  destruct Hl' as [-> | ->]; [|by apply elem_of_nil in Hin].
  apply list_elem_of_singleton in Hin as ->. by eapply evictedSignal_kind.
Qed.

Lemma cleanupIndex_chan k b : evictedChan (cleanupIndex k b) = evictedChan b.
Proof. unfold cleanupIndex. by repeat case_match. Qed.

Lemma evict_kmap_delete e r b K : index_inv b → kmap K (evict e r b) = delete (rem_key r) (kmap K b).
Proof. intros Hi. rewrite evict_kmap. by apply cleanupIndex_kmap. Qed.

(** The hook keeps the indices consistent, whatever it is called on. *)
Lemma evict_index_inv e r b : index_inv b → index_inv (evict e r b).
Proof.
  intros Hi. split.
  - rewrite evict_mu. apply Hi.
  - intros K ts k. rewrite evict_kindex, evict_kmap, cleanupIndex_kindex, cleanupIndex_kmap by done.
    rewrite (inv_index _ Hi), lookup_delete_Some. cbn. naive_solver.
  - intros K k ts. rewrite evict_kmap_delete by done. rewrite lookup_delete_Some.
    intros [_ ?]. by eapply inv_prefix.
  - apply sendEvicted_chan; rewrite cleanupIndex_chan; apply Hi.
  - apply sendEvicted_chan; rewrite cleanupIndex_chan; apply Hi.
Qed.

Lemma evicts_index_inv e evs b : index_inv b → index_inv (evicts e evs b).
Proof.
  revert b. induction evs as [|r evs IH]; intros b Hi; [done|]. cbn. by apply IH, evict_index_inv.
Qed.

Lemma evicts_kmap e evs b K k :
  index_inv b → kmap K (evicts e evs b) !! k = if decide (k ∈ rem_key <$> evs) then None else kmap K b !! k.
Proof.
  revert b. induction evs as [|r evs IH]; intros b Hi; cbn.
  - rewrite decide_False; [done|]. apply not_elem_of_nil.
  - fold (evicts e evs (evict e r b)). rewrite IH by by apply evict_index_inv.
    rewrite evict_kmap_delete, lookup_delete by done.
    repeat case_decide; set_solver.
Qed.

(** ** Calls of the cache *)

Lemma set_cache_index_inv c b : index_inv b → index_inv (set_cache c b).
Proof.
  intros Hi. split; [apply Hi|intros K|intros K|apply Hi|apply Hi].
  - destruct K; [apply (inv_index _ Hi KMetric)|apply (inv_index _ Hi KLog)].
  - destruct K; [apply (inv_prefix _ Hi KMetric)|apply (inv_prefix _ Hi KLog)].
Qed.

Lemma kmap_set_cache K c b : kmap K (set_cache c b) = kmap K b.
Proof. by destruct K. Qed.

Lemma cacheSet_run e key v b c evs ok :
  mu b = Unlocked → cset key v (cache b) = (c, evs, ok) →
  cacheSet e key v b = Ok (ok, evicts e evs (set_cache c b)).
Proof.
  intros Hmu Hc. unfold cacheSet. go_simpl. rewrite Hc. by rewrite callHooks_ok.
Qed.

Lemma cacheDelete_run e key b c evs :
  mu b = Unlocked → cdelete key (cache b) = (c, evs) →
  cacheDelete e key b = Ok (tt, evicts e evs (set_cache c b)).
Proof. intros Hmu Hc. unfold cacheDelete. go_simpl. rewrite Hc. by rewrite callHooks_ok. Qed.

Lemma cacheClean_run e b c evs :
  mu b = Unlocked → cclean (env_now e) (cache b) = (c, evs) →
  cacheClean e b = Ok (tt, evicts e evs (set_cache c b)).
Proof. intros Hmu Hc. unfold cacheClean. go_simpl. rewrite Hc. by rewrite callHooks_ok. Qed.

Lemma evicts_set_cache_inv e evs c b : index_inv b → index_inv (evicts e evs (set_cache c b)).
Proof. intros. by apply evicts_index_inv, set_cache_index_inv. Qed.

Lemma evicts_set_cache_kmap e evs c b K k :
  index_inv b →
  kmap K (evicts e evs (set_cache c b)) !! k = if decide (k ∈ rem_key <$> evs) then None else kmap K b !! k.
Proof. intros. rewrite evicts_kmap by by apply set_cache_index_inv. by rewrite kmap_set_cache. Qed.

Lemma evicts_set_cache_cache e evs c b : cache (evicts e evs (set_cache c b)) = c.
Proof. by rewrite evicts_cache. Qed.

(** [cache_inv] for the keys in [P] only. *)
Definition cache_inv_on (P : string → Prop) (b : B) : Prop :=
  (∀ K k v, P k → cview (cache b) !! k = Some v → Str.HasPrefix k (kprefix K) = true →
     is_Some (kmap K b !! k) ∧ decodes K v)
  ∧ ∀ tid v, P (trace_key tid) → cview (cache b) !! trace_key tid = Some v →
     ∃ s, v = Gob.Encode s ∧ stored_ok s.

Lemma cache_inv_on_any P b : cache_inv b → cache_inv_on P b.
Proof. intros Hc. split; intros; [by eapply inv_cached|by eapply inv_trace]. Qed.

Lemma cache_inv_on_all (P : string → Prop) b : (∀ k v, cview (cache b) !! k = Some v → P k) → cache_inv_on P b → cache_inv b.
Proof. intros HP [H1 H2]. split; intros; [by eapply H1; [by eapply HP|..]|by eapply H2; [by eapply HP|]]. Qed.

(** When the hook is called on every key that leaves the cache, the keys that
    stay are still indexed. *)
Lemma evicts_cached e evs c b (P : string → Prop) :
  index_inv b → cache_inv_on P b →
  (∀ k v, P k → cview c !! k = Some v → cview (cache b) !! k = Some v ∧ k ∉ rem_key <$> evs) →
  cache_inv_on P (evicts e evs (set_cache c b)).
Proof.
  intros Hi [H1 H2] Hsub. split; rewrite evicts_set_cache_cache.
  - intros K k v HP Hv Hp. destruct (Hsub k v HP Hv) as [Hv' Hn].
    rewrite evicts_set_cache_kmap, decide_False by done. by eapply H1.
  - intros tid v HP Hv. destruct (Hsub _ v HP Hv) as [Hv' _]. by eapply H2.
Qed.

Lemma cset_kept key v c c' evs ok k w :
  cset key v c = (c', evs, ok) → k ≠ key → cview c' !! k = Some w →
  cview c !! k = Some w ∧ k ∉ rem_key <$> evs.
Proof.
  intros Hs Hne Hw. split; [by eapply cset_shrinks|].
  intros Hin. by rewrite (cset_removed _ _ _ _ _ _ _ Hs Hin) in Hw.
Qed.

(** After [cset] everything holds except for the key that was set. *)
Lemma cacheSet_rest e key v b c evs ok :
  buf_inv b → cset key v (cache b) = (c, evs, ok) →
  let b' := evicts e evs (set_cache c b) in
  cacheSet e key v b = Ok (ok, b') ∧ index_inv b'
  ∧ (∀ K k w, k ≠ key → cview (cache b') !! k = Some w → Str.HasPrefix k (kprefix K) = true →
       is_Some (kmap K b' !! k) ∧ decodes K w)
  ∧ ∀ tid w, trace_key tid ≠ key → cview (cache b') !! trace_key tid = Some w →
       ∃ s, w = Gob.Encode s ∧ stored_ok s.
Proof.
  intros Hb Hs b'. split; [by apply cacheSet_run; [apply Hb|]|].
  split; [apply evicts_set_cache_inv, Hb|].
  apply (evicts_cached e evs c b (λ k, k ≠ key)); [apply Hb|apply cache_inv_on_any, Hb|].
  intros k w Hne Hw. by eapply cset_kept.
Qed.

(** Setting the entry of a trace. *)
Lemma cacheSet_trace e tid s b c evs ok :
  buf_inv b → stored_ok s → cset (trace_key tid) (Gob.Encode s) (cache b) = (c, evs, ok) →
  let b' := evicts e evs (set_cache c b) in
  cacheSet e (trace_key tid) (Gob.Encode s) b = Ok (ok, b') ∧ buf_inv b'.
Proof.
  intros Hb Hs Hset b'. destruct (cacheSet_rest e _ _ b c evs ok Hb Hset) as (Hrun & Hi & Hk & Ht).
  split; [done|]. split; [done|]. split.
  - intros K k v Hv Hp. apply Hk; [|done..]. intros ->. by rewrite trace_key_prefix in Hp.
  - intros tid' v Hv. destruct (decide (trace_key tid' = trace_key tid)) as [Heq|Hne]; [|by apply (Ht tid')].
    apply (inj _) in Heq as ->. unfold b' in Hv. rewrite evicts_set_cache_cache in Hv. destruct ok.
    + erewrite cset_same in Hv by done. simplify_eq. eauto.
    + destruct (cset_fail _ _ _ _ _ Hset) as [H|H]; rewrite H in Hv; [done|]. by apply Hb in Hv.
Qed.

(** Setting a metric or a log, then indexing it. *)
Definition index_key (K : Kind) (key : string) (ts : Z) (b : B) : B :=
  set_kindex K (ReplaceOrInsert (MkTimeKey ts key) (kindex K b)) (<[key := ts]> (kmap K b)) b.

Definition indexKind (K : Kind) (key : string) (ts : Z) : Go B unit :=
  match K with KMetric => indexMetric key ts | KLog => indexLog key ts end.

Lemma indexKind_run K key ts b :
  mu b = Unlocked → indexKind K key ts b = Ok (tt, index_key K key ts b).
Proof. intros Hmu. destruct K; by apply withLock_modify. Qed.

Lemma index_key_inv K key ts b :
  index_inv b → kmap K b !! key = None → Str.HasPrefix key (kprefix K) = true →
  index_inv (index_key K key ts b).
Proof.
  intros Hi Hn Hp. unfold index_key. split.
  - by destruct K; cbn; apply Hi.
  - intros K' ts' k. rewrite kindex_set_kindex, kmap_set_kindex.
    case_decide as HK; [|by rewrite (inv_index _ Hi)]. subst K'.
    rewrite bt_items_insert, (inv_index _ Hi), lookup_insert_Some.
    split; [intros [[= -> ->]|H]|intros [[-> ->]|[_ ?]]]; [by left| |by left|by right].
    right. split; [congruence|done].
  - intros K' k ts'. rewrite kmap_set_kindex. case_decide as HK; [subst K'|by apply inv_prefix].
    rewrite lookup_insert_Some. intros [[<- _]|[_ ?]]; [done|]. by eapply inv_prefix.
  - by destruct K; apply Hi.
  - by destruct K; apply Hi.
Qed.

Lemma index_key_cache K key ts b : cache (index_key K key ts b) = cache b.
Proof. by destruct K. Qed.

Lemma index_key_kmap K key ts b : kmap K (index_key K key ts b) = <[key := ts]> (kmap K b).
Proof. unfold index_key. by rewrite kmap_set_kindex, decide_True. Qed.

Lemma index_key_kmap_other K K' key ts b : K' ≠ K → kmap K' (index_key K key ts b) = kmap K' b.
Proof. intros. unfold index_key. by rewrite kmap_set_kindex, decide_False. Qed.

Definition storeTimed (K : Kind) (e : Env) (key : string) (ts : Z) (data : bytes) : Go B unit :=
  ok ← cacheSet e key data; if ok : bool then indexKind K key ts else mret tt.

(** A fresh key: no key of a stored or indexed signal. *)
Definition fresh_key (K : Kind) (key : string) (b : B) : Prop := kmap K b !! key = None.

Lemma storeTimed_spec K e key ts data b c evs ok :
  buf_inv b → Str.HasPrefix key (kprefix K) = true → fresh_key K key b → decodes K data →
  cset key data (cache b) = (c, evs, ok) →
  let b1 := evicts e evs (set_cache c b) in
  let b' := if ok then index_key K key ts b1 else b1 in
  storeTimed K e key ts data b = Ok (tt, b') ∧ buf_inv b'.
Proof.
  intros Hb Hp Hf Hd Hset b1 b'.
  destruct (cacheSet_rest e _ _ b c evs ok Hb Hset) as (Hrun & Hi & Hk & Ht). fold b1 in Hrun, Hi, Hk, Ht.
  assert (cache b1 = c) as Hc1 by apply evicts_set_cache_cache.
  assert (∀ tid, trace_key tid ≠ key) as Hnt.
  { intros tid <-. by rewrite trace_key_prefix in Hp. }
  unfold storeTimed. erewrite bind_ok by exact Hrun. destruct ok; subst b'.
  - split; [apply indexKind_run, Hi|].
    assert (index_inv (index_key K key ts b1)) as Hi'.
    { apply index_key_inv; [done| |done]. subst b1. rewrite evicts_set_cache_kmap by apply Hb. by case_decide. }
    split; [done|]. split; rewrite index_key_cache; [|by intros; apply (Ht tid)].
    intros K' k v Hv Hp'. destruct (decide (k = key)) as [->|Hne].
    + rewrite (prefix_disjoint K' K key) in * by done. rewrite index_key_kmap, lookup_insert_eq.
      rewrite Hc1 in Hv. erewrite cset_same in Hv by done. by simplify_eq.
    + destruct (Hk K' k v Hne Hv Hp') as [Hs ?]. split; [|done].
      destruct (decide (K' = K)) as [->|]; [|by rewrite index_key_kmap_other].
      by rewrite index_key_kmap, lookup_insert_ne.
  - split; [done|]. split; [done|]. split; [|by intros; apply (Ht tid)].
    intros K' k v Hv Hp'. destruct (decide (k = key)) as [->|Hne]; [|by apply Hk].
    exfalso. rewrite (prefix_disjoint K' K key) in * by done.
    assert (cview (cache b) !! key = None) as Hn.
    { destruct (cview (cache b) !! key) eqn:E; [|done].
      destruct (inv_cached _ (proj2 Hb) K key _ E Hp) as [[? H] _]. unfold fresh_key in Hf. congruence. }
    rewrite Hc1 in Hv. destruct (cset_fail _ _ _ _ _ Hset); congruence.
Qed.

(** Deleting a key, and the clean-up. *)
Lemma evicts_deleted e evs b :
  (∀ r, r ∈ evs → r.2 = Deleted) → evictedChan (evicts e evs b) = evictedChan b ∧ cfg (evicts e evs b) = cfg b.
Proof.
  revert b. induction evs as [|r evs IH]; intros b Hd; [done|]. cbn. fold (evicts e evs (evict e r b)).
  destruct (IH (evict e r b)) as [-> ->]; [intros r' Hr; by apply Hd, list_elem_of_further|].
  unfold evict, sendEvicted. rewrite decide_False by (rewrite (Hd r (list_elem_of_here _ _)); by intros [?|?]).
  split; [apply cleanupIndex_chan|]. unfold cleanupIndex. by repeat case_match.
Qed.

(** Whatever the hashes, a deletion returns, and only takes away. *)
Lemma cacheDelete_returns e key b :
  buf_inv b →
  ∃ b', cacheDelete e key b = Ok (tt, b') ∧ buf_inv b'
    ∧ (∀ k v, cview (cache b') !! k = Some v → cview (cache b) !! k = Some v)
    ∧ (∀ K k ts, kmap K b' !! k = Some ts → kmap K b !! k = Some ts)
    ∧ evictedChan b' = evictedChan b ∧ cfg b' = cfg b.
Proof.
  intros Hb. destruct (cdelete key (cache b)) as [c evs] eqn:Hd.
  exists (evicts e evs (set_cache c b)). split; [apply cacheDelete_run; [apply Hb|done]|].
  destruct (evicts_deleted e evs (set_cache c b)) as [-> ->].
  { intros [[k v] r] (_ & _ & ?)%(cdelete_removals _ _ _ _ Hd). done. }
  rewrite evicts_set_cache_cache. split_and!; [| | |done..].
  - split; [apply evicts_set_cache_inv, Hb|].
    apply (cache_inv_on_all (λ _, True)); [done|].
    apply evicts_cached; [apply Hb|apply cache_inv_on_any, Hb|].
    intros k v _. by eapply cdelete_shrinks.
  - intros k v Hv. by eapply cdelete_shrinks.
  - intros K k ts. rewrite evicts_set_cache_kmap by apply Hb. by case_decide.
Qed.

(** Without a collision it takes away the key. *)
Lemma cacheDelete_spec e key b :
  buf_inv b → lone key (cache b) →
  ∃ b', cacheDelete e key b = Ok (tt, b') ∧ buf_inv b'
    ∧ cview (cache b') = delete key (cview (cache b))
    ∧ (∀ K k, kmap K b' !! k =
         if decide (k = key ∧ is_Some (cview (cache b) !! key)) then None else kmap K b !! k)
    ∧ evictedChan b' = evictedChan b ∧ cfg b' = cfg b.
Proof.
  intros Hb Hl. destruct (cacheDelete_returns e key b Hb) as (b' & Hrun & Hb' & _ & _ & Hc).
  exists b'. split_and!; try apply Hc; try done.
  all: destruct (cdelete key (cache b)) as [c evs] eqn:Hd; rewrite (cacheDelete_run e key b c evs) in Hrun by (apply Hb || done).
  all: injection Hrun as <-; destruct (cdelete_lone _ _ _ _ Hl Hd) as [Hv He].
  - by rewrite evicts_set_cache_cache.
  - intros K k. rewrite evicts_set_cache_kmap by apply Hb. subst evs.
    destruct (cview (cache b) !! key) eqn:E; cbn.
    + destruct (decide (k = key)) as [->|Hne].
      * rewrite !decide_True; [done|by eauto|by apply list_elem_of_here].
      * rewrite !decide_False; [done|by intros []|]. by intros ?%list_elem_of_singleton.
    + rewrite !decide_False; [done| |apply not_elem_of_nil]. intros [_ [? ?]]. done.
Qed.
End BufferLemmas.
