(* ===== verification/Split.v ===== *)
(** Sorting a batch by trace: what the nested loops of [storeTraces] and of
    [storeSplitLogs] compute. *)
From S2P Require Import Prelude GoStd PData Signals Config Cache Gob Buffer.

(** ** Splitting a batch by trace *)
Section split.
Context {A : Type} (tidof : A → TraceID).

Abbreviation item := (Resource * Scope * A)%type.

Definition alone (x : item) : ResourceGroup A := singleton_group x.1.1 x.1.2 x.2.

(** The items of [tid], each in a group of its own. *)
Definition alone_of (tid : TraceID) (l : list item) : list (ResourceGroup A) :=
  map alone (filter (λ x, tidof x.2 = tid) l).

Definition split_step (m : gmap TraceID (list (ResourceGroup A))) (x : item) :=
  if IsEmpty (tidof x.2) then m else <[tidof x.2 := default [] (m !! tidof x.2) ++ [alone x]]> m.

Lemma alone_of_snoc tid l x :
  alone_of tid (l ++ [x]) = alone_of tid l ++ (if decide (tidof x.2 = tid) then [alone x] else []).
Proof.
  unfold alone_of. rewrite filter_app, map_app. cbn. by case_decide.
Qed.

Lemma split_fold l tid :
  foldl split_step ∅ l !! tid =
  if IsEmpty tid then None else match alone_of tid l with [] => None | gs => Some gs end.
Proof.
  induction l as [|x l IH] using rev_ind.
  - cbn [foldl]. rewrite lookup_empty. by case_match.
  - rewrite foldl_app. cbn [foldl]. unfold split_step at 1. rewrite alone_of_snoc.
    destruct (IsEmpty (tidof x.2)) eqn:Ex.
    + rewrite IH. destruct (IsEmpty tid) eqn:Et; [done|].
      rewrite decide_False by congruence. by rewrite app_nil_r.
    + rewrite lookup_insert. case_decide as Hd; [subst tid|].
      * rewrite Ex, IH, Ex. destruct (alone_of (tidof x.2) l) as [|g gs]; done.
      * by rewrite IH, app_nil_r.
Qed.
End split.

(** A loop over groups, scopes and items is a loop over [flat]. *)
Lemma foldl_flat {A S} (f : S → Resource * Scope * A → S) (gs : list (ResourceGroup A)) s :
  foldl (λ m g, foldl (λ m sg, foldl (λ m x, f m (rg_resource g, sg_scope sg, x)) m (sg_items sg)) m (rg_scopes g)) s gs
  = foldl f s (flat gs).
Proof.
  assert (∀ r (sg : ScopeGroup A) s,
    foldl (λ m x, f m (r, sg_scope sg, x)) s (sg_items sg) = foldl f s (sg_flat r sg)) as H1.
  { intros r sg. unfold sg_flat. induction (sg_items sg) as [|x xs IH]; intros s'; cbn; [done|]. apply IH. }
  assert (∀ r (ss : list (ScopeGroup A)) s,
    foldl (λ m sg, foldl (λ m x, f m (r, sg_scope sg, x)) m (sg_items sg)) s ss
    = foldl f s (flat_map (sg_flat r) ss)) as H2.
  { intros r ss. induction ss as [|sg ss IH]; intros s'; cbn; [done|]. by rewrite foldl_app, H1, IH. }
  revert s. induction gs as [|g gs IH]; intros s; cbn; [done|].
  change (flat (g :: gs)) with (rg_flat g ++ flat gs). by rewrite foldl_app, H2, IH.
Qed.

Lemma splitTraces_fold rss : splitTraces rss = foldl (split_step sp_trace_id) ∅ (flat rss).
Proof. symmetry. etransitivity; [symmetry; apply foldl_flat|]. done. Qed.

(** One step of the loop of [storeSplitLogs]. *)
Definition log_step (acc : gmap TraceID Logs * option Logs) (x : Resource * Scope * LogRecord) :=
  if IsEmpty (lr_trace_id x.2) then (acc.1, Some (default [] acc.2 ++ [alone x]))
  else (<[lr_trace_id x.2 := default [] (acc.1 !! lr_trace_id x.2) ++ [alone x]]> acc.1, acc.2).

Lemma splitLogs_fold rls : splitLogs rls = foldl log_step (∅, None) (flat rls).
Proof. symmetry. etransitivity; [symmetry; apply foldl_flat|]. done. Qed.

Lemma log_steps l m o :
  foldl log_step (m, o) l =
  (foldl (split_step lr_trace_id) m l,
   match map alone (filter (λ x, IsEmpty (lr_trace_id x.2) = true) l) with
   | [] => o
   | gs => Some (default [] o ++ gs)
   end).
Proof.
  revert m o. induction l as [|x l IH]; intros m o; [done|]. cbn [foldl].
  unfold log_step at 2, split_step at 2. cbn [fst snd]. rewrite filter_cons.
  destruct (IsEmpty (lr_trace_id x.2)) eqn:E; rewrite IH; [rewrite decide_True by done|by rewrite decide_False by done].
  f_equal. cbn. destruct (map alone _) as [|g gs]; [done|]. by rewrite <- app_assoc.
Qed.

(** No trace of the batch is without items. *)
Lemma split_nonempty {A} (tidof : A → TraceID) l tid gs :
  foldl (split_step tidof) ∅ l !! tid = Some gs → gs ≠ [].
Proof. rewrite split_fold. destruct (IsEmpty tid); [done|]. destruct (alone_of tidof tid l); naive_solver. Qed.

Lemma splitTraces_nonempty rss tid gs : splitTraces rss !! tid = Some gs → gs ≠ [].
Proof. rewrite splitTraces_fold. apply split_nonempty. Qed.

Lemma splitLogs_nonempty rls tid gs : (splitLogs rls).1 !! tid = Some gs → gs ≠ [].
Proof. rewrite splitLogs_fold, log_steps. apply split_nonempty. Qed.
