(* ===== verification/BufferSpec.v ===== *)
(** What [InMemoryBuffer] promises: an abstract buffer, and the theorems that
    each operation acts on it as it should. *)
From S2P Require Import Prelude GoStd PData Signals Config Cache Gob Buffer BufferLemmas Split.

(** ** The abstract buffer *)

(** A trace entry: when it was first seen, its spans and its logs. *)
Record TraceEntry := MkEntry { te_received : Z; te_spans : Traces; te_logs : Logs }.

(** An operation of the buffer, with what it reads from the outside. *)
Inductive BufferOp :=
| OpStore (e : Env) (sig : Signal)
| OpRemoveTrace (e : Env) (tid : TraceID)
| OpRemoveMetrics (e : Env) (start stop : Z)
| OpRemoveLogs (e : Env) (start stop : Z)
| OpClearMetrics (e : Env)
| OpClearLogs (e : Env)
| OpGetTrace (tid : TraceID)
| OpGetTraceLogs (tid : TraceID)
| OpGetMetrics (start stop : Z)
| OpGetLogs (start stop : Z)
| OpCount
| OpClean (e : Env).

Section BufferSpec.
Context {C T : Type} `{!BigCache C, !BigCacheLaws C} `{!BTree T, !BTreeLaws T}.
Context `{!Codec Traces, !CodecLaws Traces} `{!Codec Metrics, !CodecLaws Metrics} `{!Codec Logs, !CodecLaws Logs}.

Abbreviation B := (InMemoryBuffer C T).
Implicit Types (b : B) (e : Env).

Definition discard {A} (m : Go B A) : Go B unit := _ ← m; mret tt.

Definition run_op (op : BufferOp) : Go B unit :=
  match op with
  | OpStore e sig => discard (Store e sig)
  | OpRemoveTrace e tid => RemoveTrace e tid
  | OpRemoveMetrics e start stop => RemoveMetricsInRange e start stop
  | OpRemoveLogs e start stop => RemoveLogsInRange e start stop
  | OpClearMetrics e => ClearMetrics e
  | OpClearLogs e => ClearLogs e
  | OpGetTrace tid => discard (GetTrace tid)
  | OpGetTraceLogs tid => discard (GetTraceLogs tid)
  | OpGetMetrics start stop => discard (GetMetricsInRange start stop)
  | OpGetLogs start stop => discard (GetLogsInRange start stop)
  | OpCount => discard GetTraceCount
  | OpClean e => cacheClean e
  end.

(** [uuid.NewString] never gives a key that is still indexed. *)
Definition store_fresh (e : Env) (b : B) : Prop :=
  ∀ K, kmap K b !! timed_key (kprefix K) (Time.UnixNano (env_now e)) (env_uuid e) = None.

(** What an operation relies on: Go visits every entry of a map, and keys are fresh. *)
Definition op_fresh (op : BufferOp) (b : B) : Prop :=
  match op with OpStore e _ => env_ok e ∧ store_fresh e b | _ => True end.

(** The states a buffer can be in. *)
Inductive reachable (b0 : B) : B → Prop :=
| reach_init : reachable b0 b0
| reach_op b op b' : reachable b0 b → op_fresh op b → run_op op b = Ok (tt, b') → reachable b0 b'.

(** The spans or logs encoded by [data]. *)
Definition decoded {A} `{!Codec (list A)} (data : bytes) : list A :=
  match data with [] => [] | _ => default [] (unmarshal data) end.

Definition entry_of (s : StoredTraceData) : TraceEntry :=
  MkEntry (st_ReceivedAt s) (decoded (st_TracesData s)) (decoded (st_LogsData s)).

(** The entry of a trace in the buffer. *)
Definition trace_at (b : B) (tid : TraceID) : option TraceEntry :=
  entry_of <$> decodeStored (cview (cache b) !! trace_key tid).

(** The metrics (or logs) that are indexed and in the cache, with their time. *)
Definition live (K : Kind) (b : B) : gmap string (Z * bytes) :=
  map_imap (λ k ts, pair ts <$> cview (cache b) !! k) (kmap K b).

Definition metrics_at (b : B) : gmap string (Z * Metrics) :=
  omap (λ x, pair x.1 <$> unmarshal (A := Metrics) x.2) (live KMetric b).
Definition logs_at (b : B) : gmap string (Z * Logs) :=
  omap (λ x, pair x.1 <$> unmarshal (A := Logs) x.2) (live KLog b).

(** The times a query from [start] to [stop] asks for. *)
Definition in_range (start stop ts : Z) : Prop := (Time.UnixNano start ≤ ts ≤ Time.UnixNano stop)%Z.
#[export] Instance in_range_dec start stop ts : Decision (in_range start stop ts).
Proof. unfold in_range. apply _. Defined.

(** ** Lemmas on the observations *)

Lemma live_lookup K b k ts v :
  live K b !! k = Some (ts, v) ↔ kmap K b !! k = Some ts ∧ cview (cache b) !! k = Some v.
Proof.
  unfold live. rewrite map_lookup_imap. destruct (kmap K b !! k) as [ts'|]; cbn; [|naive_solver].
  destruct (cview (cache b) !! k); cbn; naive_solver.
Qed.

Lemma decodeCurrent_ok {A} `{!Codec (list A)} (data : bytes) b :
  encodes (A := A) data → decodeCurrent data b = Ok (decoded data, b).
Proof.
  intros H. unfold decodeCurrent, decoded. destruct data; [done|].
  destruct H as [?|(x & -> & _)]; done.
Qed.

(** There is something to decode exactly when there are bytes. *)
Lemma decoded_nil {A} `{!Codec (list A)} (data : bytes) :
  encodes (A := A) data → decoded (A := A) data = [] ↔ data = [].
Proof.
  unfold decoded. intros [->|(x & Hx & Hne)]; [done|]. destruct data as [|y data]; [done|]. rewrite Hx. done.
Qed.

Lemma decodeStored_inv b tid s :
  cache_inv b → decodeStored (cview (cache b) !! trace_key tid) = Some s → stored_ok s.
Proof.
  intros Hc H. unfold decodeStored in H. destruct (cview (cache b) !! trace_key tid) as [v|] eqn:E; [|done].
  cbn in H. destruct (inv_trace _ Hc _ _ E) as (s' & -> & Hs). rewrite Gob.Decode_Encode in H by apply Hs.
  by simplify_eq.
Qed.

Lemma fetchStored_ok e tid b :
  cache_inv b → stored_ok (fetchStored e (trace_key tid) b).
Proof.
  intros Hc. unfold fetchStored. rewrite cget_view.
  destruct (cview (cache b) !! trace_key tid) as [v|] eqn:E.
  - destruct (inv_trace _ Hc _ _ E) as (s & -> & Hs). rewrite Gob.Decode_Encode by apply Hs. done.
  - split; [|split; by left]. split; [|done]. unfold Time.UnixNano. apply wrap64_range.
Qed.

Lemma marshal_ok {A} `{!Codec (list A), !CodecLaws (list A)} (x : list A) :
  x ≠ [] → let d := default [] (marshal x) in (Z.of_nat (length d) < 2 ^ 60)%Z ∧ encodes (A := A) d.
Proof.
  intros Hx. cbn. destruct (marshal x) as [d|] eqn:E; cbn; [|by split; [lia|left]].
  split; [by eapply marshal_length|]. right. exists x. split; [by eapply unmarshal_marshal|done].
Qed.

(** ** Storing *)

Definition add_traces (s : StoredTraceData) (t : Traces) : StoredTraceData :=
  MkStored (st_ReceivedAt s) (default [] (marshal (decoded (st_TracesData s) ++ t))) (st_LogsData s).
Definition add_logs (s : StoredTraceData) (l : Logs) : StoredTraceData :=
  MkStored (st_ReceivedAt s) (st_TracesData s) (default [] (marshal (decoded (st_LogsData s) ++ l))).

Lemma add_traces_ok s t : t ≠ [] → stored_ok s → stored_ok (add_traces s t).
Proof.
  intros Hne ((? & ? & ?) & ? & ?). destruct (marshal_ok (decoded (st_TracesData s) ++ t)); [by intros [_ ?]%app_nil|].
  by split_and!.
Qed.

Lemma add_logs_ok s l : l ≠ [] → stored_ok s → stored_ok (add_logs s l).
Proof.
  intros Hne ((? & ? & ?) & ? & ?). destruct (marshal_ok (decoded (st_LogsData s) ++ l)); [by intros [_ ?]%app_nil|].
  by split_and!.
Qed.

(** The new entry of one trace of the batch, and the cache call it ends in. *)
Lemma storeTrace_run e tid t b c evs ok :
  buf_inv b → t ≠ [] →
  cset (trace_key tid) (Gob.Encode (add_traces (fetchStored e (trace_key tid) b) t)) (cache b) = (c, evs, ok) →
  let b' := evicts e evs (set_cache c b) in
  storeTrace e (tid, t) b = Ok (tt, b') ∧ buf_inv b'.
Proof.
  intros Hb Hne Hset b'. pose proof (fetchStored_ok e tid b (proj2 Hb)) as Hs.
  destruct (cacheSet_trace e tid _ b c evs ok Hb (add_traces_ok _ t Hne Hs) Hset) as [Hrun Hb'].
  split; [|done]. unfold storeTrace. erewrite bind_ok by done.
  erewrite bind_ok by (apply decodeCurrent_ok, Hs). by erewrite bind_ok by exact Hrun.
Qed.

Lemma storeTraceLogs_run e tid l b c evs ok :
  buf_inv b → l ≠ [] →
  cset (trace_key tid) (Gob.Encode (add_logs (fetchStored e (trace_key tid) b) l)) (cache b) = (c, evs, ok) →
  let b' := evicts e evs (set_cache c b) in
  storeTraceLogs e (tid, l) b = Ok (tt, b') ∧ buf_inv b'.
Proof.
  intros Hb Hne Hset b'. pose proof (fetchStored_ok e tid b (proj2 Hb)) as Hs.
  destruct (cacheSet_trace e tid _ b c evs ok Hb (add_logs_ok _ l Hne Hs) Hset) as [Hrun Hb'].
  split; [|done]. unfold storeTraceLogs. erewrite bind_ok by done.
  erewrite bind_ok by (apply decodeCurrent_ok, Hs). by erewrite bind_ok by exact Hrun.
Qed.

(** Keys are only taken out of the indices. *)
Definition unindexed (b b' : B) : Prop := ∀ K k, kmap K b !! k = None → kmap K b' !! k = None.

Lemma evicts_unindexed e evs c b0 b :
  index_inv b → unindexed b0 b → unindexed b0 (evicts e evs (set_cache c b)).
Proof. intros Hi Hu K k H. rewrite evicts_set_cache_kmap by done. case_decide; [done|by apply Hu]. Qed.

Lemma storeTraces_run e sig b :
  buf_inv b → env_ok e → ∃ b', storeTraces e sig b = Ok (None, b') ∧ buf_inv b' ∧ unindexed b b'.
Proof.
  intros Hb He. unfold storeTraces.
  destruct (for_each_inv (λ s, buf_inv s ∧ unindexed b s) (storeTrace e)
    (env_range e (map_to_list (splitTraces (ts_Traces sig)))) b) as (b' & Hrun & Hb' & Hu).
  - intros [tid t] s Hin [Hs Hu].
    assert (t ≠ []) as Hne.
    { rewrite (He _ _ _) in Hin. apply elem_of_map_to_list in Hin. by eapply splitTraces_nonempty. }
    destruct (cset (trace_key tid) (Gob.Encode (add_traces (fetchStored e (trace_key tid) s) t)) (cache s))
      as [[c evs] ok] eqn:Hset.
    destruct (storeTrace_run e tid t s c evs ok Hs Hne Hset) as [Hrun Hs'].
    eexists. split; [exact Hrun|]. split; [done|]. by apply evicts_unindexed; [apply Hs|].
  - split; [done|]. by intros K k.
  - exists b'. by erewrite bind_ok by exact Hrun.
Qed.

Lemma storeTraceLogs_loop e (l : list (TraceID * Logs)) b :
  buf_inv b → (∀ tid t, (tid, t) ∈ l → t ≠ []) → ∃ b', for_each (storeTraceLogs e) l b = Ok (tt, b') ∧ buf_inv b' ∧ unindexed b b'.
Proof.
  intros Hb Hl. apply (for_each_inv (λ s, buf_inv s ∧ unindexed b s)); [|split; [done|by intros K k]].
  intros [tid t] s Hin [Hs Hu]. pose proof (Hl _ _ Hin) as Hne.
  destruct (cset (trace_key tid) (Gob.Encode (add_logs (fetchStored e (trace_key tid) s) t)) (cache s))
    as [[c evs] ok] eqn:Hset.
  destruct (storeTraceLogs_run e tid t s c evs ok Hs Hne Hset) as [Hrun Hs'].
  eexists. split; [exact Hrun|]. split; [done|]. by apply evicts_unindexed; [apply Hs|].
Qed.

(** The key under which a metric (or the time-bound logs) of this call go. *)
Definition new_key (K : Kind) (e : Env) : string :=
  timed_key (kprefix K) (Time.UnixNano (env_now e)) (env_uuid e).

Lemma storeMetric_timed e sig data b :
  marshal (ms_Metrics sig) = Some data →
  storeMetric e sig b =
    (_ ← storeTimed KMetric e (new_key KMetric e) (Time.UnixNano (env_now e)) data; mret None) b.
Proof.
  intros Hm. unfold storeMetric, storeTimed, new_key. rewrite Hm. go_simpl. by destruct cacheSet as [[? ?]| |].
Qed.

Lemma storeTimeLogs_timed e l data b :
  marshal l = Some data →
  storeTimeLogs e l b = storeTimed KLog e (new_key KLog e) (Time.UnixNano (env_now e)) data b.
Proof. intros Hm. unfold storeTimeLogs. by rewrite Hm. Qed.

(** What storing a metric or a batch of logs does, given what the cache does. *)
Lemma storeTimed_new K e data b c evs ok :
  buf_inv b → kmap K b !! new_key K e = None → decodes K data →
  cset (new_key K e) data (cache b) = (c, evs, ok) →
  let b1 := evicts e evs (set_cache c b) in
  let b' := if ok then index_key K (new_key K e) (Time.UnixNano (env_now e)) b1 else b1 in
  storeTimed K e (new_key K e) (Time.UnixNano (env_now e)) data b = Ok (tt, b') ∧ buf_inv b'.
Proof. intros Hb Hn Hd Hset. apply storeTimed_spec; [done| |done..]. apply timed_key_prefix. Qed.

Lemma storeTimed_exists K e data b :
  buf_inv b → kmap K b !! new_key K e = None → decodes K data →
  ∃ b', storeTimed K e (new_key K e) (Time.UnixNano (env_now e)) data b = Ok (tt, b') ∧ buf_inv b'.
Proof.
  intros Hb Hn Hd. destruct (cset (new_key K e) data (cache b)) as [[c evs] ok] eqn:Hset.
  eexists. by eapply storeTimed_new.
Qed.

Lemma marshal_decodes_metric (x : Metrics) data : marshal x = Some data → decodes KMetric data.
Proof. intros H. eexists. by eapply unmarshal_marshal. Qed.

Lemma marshal_decodes_log (x : Logs) data : marshal x = Some data → decodes KLog data.
Proof. intros H. eexists. by eapply unmarshal_marshal. Qed.

Lemma split_logs_env e rls tid t :
  env_ok e → (tid, t) ∈ env_range e (map_to_list (splitLogs rls).1) → t ≠ [].
Proof. intros He Hin. rewrite (He _ _ _) in Hin. apply elem_of_map_to_list in Hin. by eapply splitLogs_nonempty. Qed.

Lemma Store_run e sig b :
  buf_inv b → env_ok e → store_fresh e b → ∃ err b', Store e sig b = Ok (err, b') ∧ buf_inv b'.
Proof.
  intros Hb He Hf. destruct sig as [s|s|s|]; cbn [Store].
  - destruct (storeTraces_run e s b Hb He) as (b' & ? & ? & _). eauto.
  - destruct (marshal (ms_Metrics s)) as [data|] eqn:Hm.
    + destruct (storeTimed_exists KMetric e data b Hb (Hf KMetric)) as (b' & Hrun & Hb').
      { by eapply marshal_decodes_metric. }
      exists None, b'. by erewrite storeMetric_timed, bind_ok by done.
    + exists (Some ErrMarshal), b. unfold storeMetric. by rewrite Hm.
  - unfold storeSplitLogs. pose proof (λ tid t, split_logs_env e (ls_Logs s) tid t He) as Hne.
    destruct (splitLogs (ls_Logs s)) as [tl rest]. cbn [fst] in Hne.
    destruct (storeTraceLogs_loop e (env_range e (map_to_list tl)) b Hb Hne) as (b1 & Hrun & Hb1 & Hu).
    assert (∃ b', (match rest with Some l => storeTimeLogs e l | None => mret tt end) b1 = Ok (tt, b')
                  ∧ buf_inv b') as (b' & Hrun' & Hb').
    { destruct rest as [l|]; [|by exists b1].
      destruct (marshal l) as [data|] eqn:Hm; [|exists b1; unfold storeTimeLogs; by rewrite Hm].
      erewrite storeTimeLogs_timed by done.
      apply storeTimed_exists; [done|apply Hu, (Hf KLog)|by eapply marshal_decodes_log]. }
    exists None, b'. erewrite bind_ok by exact Hrun. by erewrite bind_ok by exact Hrun'.
  - by exists None, b.
Qed.

(** ** Removing *)

(** Deleting a series of keys, whatever their hashes. *)
Lemma deletes_return e (keys : list string) b :
  buf_inv b → ∃ b', for_each (cacheDelete e) keys b = Ok (tt, b') ∧ buf_inv b'.
Proof.
  intros Hb. apply (for_each_inv buf_inv); [|done]. intros key s _ Hs.
  destruct (cacheDelete_returns e key s Hs) as (s' & ? & ? & _). eauto.
Qed.

(** Keys that meet no other key of their hash are deleted, and nothing else. *)
Lemma deletes_run e (keys : list string) b :
  buf_inv b → (∀ key, key ∈ keys → lone key (cache b)) →
  ∃ b', for_each (cacheDelete e) keys b = Ok (tt, b') ∧ buf_inv b'
    ∧ (∀ k, cview (cache b') !! k = if decide (k ∈ keys) then None else cview (cache b) !! k)
    ∧ (∀ K k, kmap K b' !! k =
         if decide (k ∈ keys ∧ is_Some (cview (cache b) !! k)) then None else kmap K b !! k)
    ∧ evictedChan b' = evictedChan b ∧ cfg b' = cfg b.
Proof.
  revert b. induction keys as [|key keys IH]; intros b Hb Hlone.
  - exists b. split_and!; try done; intros; rewrite decide_False; try done; set_solver.
  - destruct (cacheDelete_spec e key b Hb (Hlone key (list_elem_of_here _ _))) as (b1 & Hrun & Hb1 & Hv1 & Hk1 & Hc1 & Hf1).
    destruct (IH b1 Hb1) as (b' & Hrun' & Hb' & Hv' & Hk' & Hc' & Hf').
    { intros k Hk. eapply lone_mono; [|by apply Hlone, list_elem_of_further]. intros k' v. rewrite Hv1, lookup_delete_Some.
      intros [_ ?]. by eexists. }
    exists b'. cbn. erewrite bind_ok by exact Hrun. split_and!; try done; try congruence.
    + intros k. rewrite Hv', Hv1, lookup_delete. repeat case_decide; try done; set_solver.
    + intros K k. rewrite Hk', Hk1, Hv1, lookup_delete.
      destruct (decide (k = key)) as [->|Hne].
      * destruct (cview (cache b) !! key) eqn:E; cbn.
        -- rewrite (decide_True (P := key = key ∧ _)) by eauto.
           repeat case_decide; try done; set_solver.
        -- repeat case_decide; destruct_and?; try done; exfalso; by eapply is_Some_None.
      * rewrite (decide_False (P := k = key ∧ _)) by (intros [? _]; done).
        rewrite (decide_False (P := key = k)) by congruence.
        repeat case_decide; try done; set_solver.
Qed.

(** No key of an index has the hash of another key of the cache. *)
Definition distinct (b : B) : Prop := ∀ K k, is_Some (kmap K b !! k) → lone k (cache b).

(** The cache has every key that is indexed: then there is none. *)
Definition backed (b : B) : Prop := ∀ K k, is_Some (kmap K b !! k) → is_Some (cview (cache b) !! k).

Lemma backed_distinct b : backed b → distinct b.
Proof. intros H K k Hk. destruct (H K k Hk) as [v Hv]. by eapply lone_cached. Qed.

Lemma backed_evicts e evs c b :
  index_inv b → backed b → (∀ k, k ∉ rem_key <$> evs → is_Some (cview (cache b) !! k) → is_Some (cview c !! k)) →
  backed (evicts e evs (set_cache c b)).
Proof.
  intros Hi Hb Hc K k. rewrite evicts_set_cache_kmap, evicts_set_cache_cache by done.
  case_decide as Hk; [by intros [??]|]. intros Hs. by apply Hc, (Hb K).
Qed.

Lemma backed_cacheDelete e key : keeps (λ b, index_inv b ∧ backed b) (cacheDelete e key).
Proof.
  intros b [] b' [Hi Hb] Hrun. destruct (cdelete key (cache b)) as [c evs] eqn:Hd.
  rewrite (cacheDelete_run e key b c evs) in Hrun by (apply Hi || done). injection Hrun as <-.
  split; [by apply evicts_set_cache_inv|]. apply backed_evicts; [done..|]. intros k Hk [v Hv]. exists v.
  rewrite (cdelete_view _ _ _ _ Hd), map_lookup_filter_Some. split; [done|]. intros Hh. apply Hk.
  apply list_elem_of_fmap. exists (k, v, Deleted). split; [done|]. by apply (cdelete_removals _ _ _ _ Hd).
Qed.

Lemma backed_cacheClean e : keeps (λ b, index_inv b ∧ backed b) (cacheClean e).
Proof.
  intros b [] b' [Hi Hb] Hrun. destruct (cclean (env_now e) (cache b)) as [c evs] eqn:Hc.
  rewrite (cacheClean_run e b c evs) in Hrun by (apply Hi || done). injection Hrun as <-.
  split; [by apply evicts_set_cache_inv|]. apply backed_evicts; [done..|]. intros k Hk [v Hv]. exists v.
  by rewrite (cclean_view _ _ _ _ _ Hc), decide_False.
Qed.

Lemma distinct_mono b b' :
  (∀ k v, cview (cache b') !! k = Some v → cview (cache b) !! k = Some v) →
  (∀ K k ts, kmap K b' !! k = Some ts → kmap K b !! k = Some ts) → distinct b → distinct b'.
Proof.
  intros Hv Hk Hd K k [ts Hts]. eapply lone_mono; [|by eapply Hd; eexists; eapply Hk].
  intros k' v H. eexists. by eapply Hv.
Qed.

Lemma deletes_distinct e (keys : list string) b b' :
  buf_inv b → distinct b → for_each (cacheDelete e) keys b = Ok (tt, b') → distinct b'.
Proof.
  intros Hb Hd Hrun. assert (buf_inv b' ∧ distinct b') as [_ ?]; [|done]. revert Hrun.
  generalize (conj Hb Hd). apply (keeps_for_each (λ b, buf_inv b ∧ distinct b)). intros key _ b1 [] b2 [Hb1 Hd1] Hrun.
  destruct (cacheDelete_returns e key b1 Hb1) as (b3 & Hrun' & Hb3 & Hv & Hk & _).
  rewrite Hrun in Hrun'. injection Hrun' as <-. split; [done|]. by eapply distinct_mono.
Qed.

(** *** Range queries *)

Lemma Less_empty_key k : Str.Less k "" = false.
Proof. by destruct k. Qed.

(** The query bounds select exactly the closed interval of times. *)
Lemma range_bounds start stop x :
  (Time.UnixNano stop < max_int64)%Z →
  (Less x (range_lo start) = false ∧ Less x (range_hi stop) = true) ↔ in_range start stop (Timestamp x).
Proof.
  intros Hstop. pose proof (wrap64_range stop) as Hr. unfold int64, Time.UnixNano in *.
  rewrite <- not_true_iff_false, !Less_true. unfold range_lo, range_hi, in_range, Time.UnixNano.
  cbn [Timestamp Key]. rewrite !Less_empty_key, (wrap64_id (_ + 1)) by (unfold int64; lia).
  split; [intros [H1 [H2|[_ H2]]]; [|done]; split; [|lia]; destruct (Z.le_gt_cases (wrap64 start) (Timestamp x)); tauto|].
  intros [? ?]. split; [|left; lia]. intros [?|[_ ?]]; [lia|done].
Qed.

Definition range_items (K : Kind) (b : B) (start stop : Z) : list TimeKey :=
  AscendRange (range_lo start) (range_hi stop) (kindex K b).

Lemma elem_of_range_items K b start stop x :
  index_inv b → (Time.UnixNano stop < max_int64)%Z →
  x ∈ range_items K b start stop ↔ kmap K b !! Key x = Some (Timestamp x) ∧ in_range start stop (Timestamp x).
Proof.
  intros Hi Hstop. unfold range_items. rewrite bt_ascend, list_elem_of_filter, range_bounds by done.
  destruct x as [ts k]. rewrite (inv_index _ Hi). cbn. tauto.
Qed.

Lemma range_items_sorted K b start stop : StronglySorted (λ x y, Less x y = true) (range_items K b start stop).
Proof.
  unfold range_items. rewrite bt_ascend. pose proof (bt_items_sorted (kindex K b)) as Hs.
  induction Hs as [|x l Hl IH Hx]; cbn; [constructor|]. case_decide; [|done].
  constructor; [done|]. apply Forall_forall. intros y [_ Hy]%list_elem_of_filter.
  by eapply Forall_forall in Hx.
Qed.

Lemma GetMetricsInRange_run start stop b :
  mu b = Unlocked →
  GetMetricsInRange start stop b = Ok (omap (λ tk,
      m ← (cview (cache b) !! Key tk) ≫= unmarshal;
      Some (MkMetricSignal m (MkContext (Timestamp tk) ""))) (range_items KMetric b start stop), b).
Proof.
  intros Hmu. unfold GetMetricsInRange. rewrite withRLock_read by done. cbn. do 2 f_equal.
  apply list_omap_ext, Forall_Forall2_diag, Forall_true. intros x.
  rewrite cget_view. by destruct (cview (cache b) !! Key x).
Qed.

Lemma GetLogsInRange_run start stop b :
  mu b = Unlocked →
  GetLogsInRange start stop b = Ok (omap (λ tk,
      l ← (cview (cache b) !! Key tk) ≫= unmarshal;
      Some (MkLogSignal l (MkContext (Timestamp tk) ""))) (range_items KLog b start stop), b).
Proof.
  intros Hmu. unfold GetLogsInRange. rewrite withRLock_read by done. cbn. do 2 f_equal.
  apply list_omap_ext, Forall_Forall2_diag, Forall_true. intros x.
  rewrite cget_view. by destruct (cview (cache b) !! Key x).
Qed.

(** Removing a range, for both kinds. *)
Definition RemoveKindInRange (K : Kind) (e : Env) (start stop : Z) : Go B unit :=
  match K with KMetric => RemoveMetricsInRange e start stop | KLog => RemoveLogsInRange e start stop end.

Lemma RemoveKindInRange_run K e start stop b :
  mu b = Unlocked →
  RemoveKindInRange K e start stop b = for_each (cacheDelete e) (map Key (range_items K b start stop)) b.
Proof.
  intros Hmu. destruct K; cbn; unfold RemoveMetricsInRange, RemoveLogsInRange;
    by erewrite bind_ok by by apply withRLock_read.
Qed.

Lemma elem_of_range_keys K b start stop k :
  index_inv b → (Time.UnixNano stop < max_int64)%Z →
  k ∈ map Key (range_items K b start stop) ↔ ∃ ts, kmap K b !! k = Some ts ∧ in_range start stop ts.
Proof.
  intros Hi Hstop. rewrite list_elem_of_In, in_map_iff. setoid_rewrite <- list_elem_of_In.
  setoid_rewrite elem_of_range_items; [|done..]. split.
  - intros (x & <- & ?). eauto.
  - intros (ts & ? & ?). by exists (MkTimeKey ts k).
Qed.

(** The keys of one kind are not trace keys nor keys of the other kind. *)
Lemma live_other K K' b k ts ts' :
  index_inv b → kmap K b !! k = Some ts → kmap K' b !! k = Some ts' → K = K'.
Proof.
  intros Hi H1 H2. eapply (prefix_disjoint _ _ k); by eapply inv_prefix.
Qed.

Lemma trace_key_unindexed K b tid : index_inv b → kmap K b !! trace_key tid = None.
Proof. intros Hi. apply kmap_no_prefix; [done|apply trace_key_prefix]. Qed.

(** What removing a set [keys] of indexed keys leaves. *)
Lemma deletes_live e K (keys : list string) b :
  buf_inv b → distinct b → (∀ k, k ∈ keys → is_Some (kmap K b !! k)) →
  ∃ b', for_each (cacheDelete e) keys b = Ok (tt, b') ∧ buf_inv b'
    ∧ (∀ k, live K b' !! k = if decide (k ∈ keys) then None else live K b !! k)
    ∧ (∀ K' , K' ≠ K → live K' b' = live K' b)
    ∧ (∀ tid, trace_at b' tid = trace_at b tid)
    ∧ evictedChan b' = evictedChan b ∧ distinct b'.
Proof.
  intros Hb Hd Hkeys. pose proof (proj1 Hb) as Hi.
  destruct (deletes_run e keys b Hb) as (b' & Hrun & Hb' & Hv & Hk & Hc & _); [intros k Hin; apply (Hd K), Hkeys, Hin|].
  exists b'. split_and!; try done; [| | |exact (deletes_distinct e keys b b' Hb Hd Hrun)].
  - intros k. unfold live. rewrite !map_lookup_imap, Hk, Hv.
    destruct (decide (k ∈ keys)) as [Hin|Hin].
    + case_decide; [done|]. destruct (kmap K b !! k); [|done]. done.
    + rewrite (decide_False (P := k ∈ keys ∧ _)) by tauto. done.
  - intros K' Hne. apply map_eq. intros k. unfold live. rewrite !map_lookup_imap, Hk, Hv.
    destruct (decide (k ∈ keys)) as [Hin|Hin].
    + destruct (Hkeys k Hin) as [ts Hts].
      destruct (kmap K' b !! k) as [ts'|] eqn:E; [|by case_decide].
      destruct Hne. by eapply live_other.
    + by rewrite (decide_False (P := k ∈ keys ∧ _)) by tauto.
  - intros tid. unfold trace_at. rewrite Hv. case_decide as Hin; [|done].
    destruct (Hkeys _ Hin) as [ts Hts]. by rewrite trace_key_unindexed in Hts.
Qed.

Lemma RemoveKindInRange_spec K e start stop b :
  buf_inv b → distinct b → (Time.UnixNano stop < max_int64)%Z →
  ∃ b', RemoveKindInRange K e start stop b = Ok (tt, b') ∧ buf_inv b'
    ∧ (∀ k ts v, live K b' !! k = Some (ts, v) ↔ live K b !! k = Some (ts, v) ∧ ¬ in_range start stop ts)
    ∧ (∀ K' , K' ≠ K → live K' b' = live K' b)
    ∧ (∀ tid, trace_at b' tid = trace_at b tid)
    ∧ evictedChan b' = evictedChan b ∧ distinct b'.
Proof.
  intros Hb Hd Hstop. rewrite RemoveKindInRange_run by apply Hb.
  pose proof (λ k, elem_of_range_keys K b start stop k (proj1 Hb) Hstop) as Hin.
  destruct (deletes_live e K (map Key (range_items K b start stop)) b Hb Hd) as (b' & Hrun & Hb' & Hl & Ho).
  { intros k (ts & ? & _)%Hin. eauto. }
  exists b'. split; [done|]. split; [done|]. split; [|done].
  intros k ts v. rewrite Hl. destruct (decide (k ∈ _)) as [Hk|Hk]; rewrite Hin in Hk.
  - split; [done|]. intros [(Hts & _)%live_lookup Hn]. destruct Hk as (ts' & ? & ?). by simplify_eq.
  - split; [|by intros [? _]]. intros H. split; [done|]. apply live_lookup in H as [? _]. naive_solver.
Qed.

(** ** Clean-up *)

Lemma cacheClean_spec e b :
  buf_inv b →
  ∃ c evs, cclean (env_now e) (cache b) = (c, evs)
    ∧ cacheClean e b = Ok (tt, evicts e evs (set_cache c b)) ∧ buf_inv (evicts e evs (set_cache c b)).
Proof.
  intros Hb. destruct (cclean (env_now e) (cache b)) as [c evs] eqn:Hc.
  exists c, evs. split; [done|]. split; [apply cacheClean_run; [apply Hb|done]|].
  split; [apply evicts_set_cache_inv, Hb|].
  apply (cache_inv_on_all (λ _, True)); [done|].
  apply evicts_cached; [apply Hb|apply cache_inv_on_any, Hb|].
  intros k v _. rewrite (cclean_view _ _ _ _ _ Hc). case_decide; done.
Qed.

(** ** Every operation returns and keeps the invariant *)

Lemma New_inv config dbg b : New config dbg = Some b → buf_inv b.
Proof.
  unfold New. destruct (cnew _) as [c|] eqn:E; cbn; [|done]. intros [= <-].
  pose proof (cnew_view _ _ E) as Hv. split; split; cbn.
  - done.
  - intros K ts k. destruct K; cbn; rewrite bt_items_new, elem_of_nil, lookup_empty; naive_solver.
  - intros K k ts. by destruct K.
  - unfold Chan.wf. cbn. lia.
  - by intros sig ?%elem_of_nil.
  - intros K k v. by rewrite Hv, lookup_empty.
  - intros tid v. by rewrite Hv, lookup_empty.
Qed.

Lemma New_empty config dbg b : New config dbg = Some b → cview (cache b) = ∅ ∧ ∀ K, kmap K b = ∅.
Proof.
  unfold New. destruct (cnew _) as [c|] eqn:E; cbn; [|done]. intros [= <-].
  split; [by eapply cnew_view|by intros []].
Qed.

Lemma GetTrace_run tid b :
  buf_inv b →
  GetTrace tid b = Ok (match decodeStored (cview (cache b) !! trace_key tid) with
    | Some s => match st_TracesData s with
                | [] => None
                | d => Some (MkTraceSignal (decoded d) (MkContext (st_ReceivedAt s) ""))
                end
    | None => None end, b).
Proof.
  intros Hb. unfold GetTrace. erewrite bind_ok by done. rewrite cget_view.
  destruct (decodeStored _) as [s|] eqn:E; [|done].
  apply decodeStored_inv in E; [|apply Hb]. destruct E as (_ & Ht & _).
  destruct (st_TracesData s) as [|x d] eqn:Ed; [done|].
  by rewrite (bind_ok _ _ _ _ _ (decodeCurrent_ok (A := ResourceGroup Span) _ b Ht)).
Qed.

Lemma GetTraceLogs_run tid b :
  buf_inv b →
  GetTraceLogs tid b = Ok (match decodeStored (cview (cache b) !! trace_key tid) with
    | Some s => match st_LogsData s with
                | [] => None
                | d => Some (MkLogSignal (decoded d) (MkContext (st_ReceivedAt s) ""))
                end
    | None => None end, b).
Proof.
  intros Hb. unfold GetTraceLogs. erewrite bind_ok by done. rewrite cget_view.
  destruct (decodeStored _) as [s|] eqn:E; [|done].
  apply decodeStored_inv in E; [|apply Hb]. destruct E as (_ & _ & Ht).
  destruct (st_LogsData s) as [|x d] eqn:Ed; [done|].
  by rewrite (bind_ok _ _ _ _ _ (decodeCurrent_ok (A := ResourceGroup LogRecord) _ b Ht)).
Qed.

Lemma discard_ok {A} (m : Go B A) b (r : A) b' : m b = Ok (r, b') → discard m b = Ok (tt, b').
Proof. intros H. unfold discard. by erewrite bind_ok by exact H. Qed.

Lemma run_op_ok op b : buf_inv b → op_fresh op b → ∃ b', run_op op b = Ok (tt, b') ∧ buf_inv b'.
Proof.
  intros Hb Hf. pose proof (inv_mu _ (proj1 Hb)) as Hmu.
  destruct op as [e sig|e tid|e s t|e s t|e|e|tid|tid|s t|s t| |e]; cbn [run_op].
  - destruct Hf as [He Hf]. destruct (Store_run e sig b Hb He Hf) as (err & b' & Hrun & Hb'). exists b'.
    split; [by eapply discard_ok|done].
  - destruct (cacheDelete_returns e (trace_key tid) b Hb) as (b' & ? & ? & _). eauto.
  - change (RemoveMetricsInRange e s t) with (RemoveKindInRange KMetric e s t).
    rewrite RemoveKindInRange_run by done. by apply (deletes_return e (map Key (range_items KMetric b s t))).
  - change (RemoveLogsInRange e s t) with (RemoveKindInRange KLog e s t).
    rewrite RemoveKindInRange_run by done. by apply (deletes_return e (map Key (range_items KLog b s t))).
  - unfold ClearMetrics. erewrite bind_ok by by apply withLock_read.
    by apply (deletes_return e (env_range e (map_to_list (metricKeyMap b))).*1).
  - unfold ClearLogs. erewrite bind_ok by by apply withLock_read.
    by apply (deletes_return e (env_range e (map_to_list (logKeyMap b))).*1).
  - exists b. split; [|done]. eapply discard_ok. by apply GetTrace_run.
  - exists b. split; [|done]. eapply discard_ok. by apply GetTraceLogs_run.
  - exists b. split; [|done]. eapply discard_ok. by apply GetMetricsInRange_run.
  - exists b. split; [|done]. eapply discard_ok. by apply GetLogsInRange_run.
  - by exists b.
  - destruct (cacheClean_spec e b Hb) as (c & evs & _ & ? & ?). eauto.
Qed.

Lemma reachable_inv b0 b : buf_inv b0 → reachable b0 b → buf_inv b.
Proof.
  intros H0. induction 1 as [|b op b' Hr IH Hf Hrun]; [done|].
  destruct (run_op_ok op b IH Hf) as (b'' & Hrun' & Hb'').
  rewrite Hrun in Hrun'. by injection Hrun' as <-.
Qed.
End BufferSpec.
