(* ===== verification/BufferTypes.v ===== *)
(** Induction over the operations of the buffer by what they do to the cache,
    and with it the typing of the cache: the key of an entry says what kind of
    value is kept under it. *)
From S2P Require Import Prelude GoStd PData Signals Config Cache Gob Buffer BufferLemmas Split BufferSpec.

Section BufferTypes.
Context {C T : Type} `{!BigCache C, !BigCacheLaws C} `{!BTree T, !BTreeLaws T}.
Context `{!Codec Traces, !CodecLaws Traces} `{!Codec Metrics, !CodecLaws Metrics} `{!Codec Logs, !CodecLaws Logs}.

Abbreviation B := (InMemoryBuffer C T).
Implicit Types (b : B) (e : Env).

(** ** What every call of the cache keeps, every operation keeps *)
Section by_calls.
Context (P : B → Prop) (writable : string → Prop).
Hypothesis P_set : ∀ e key v, writable key → keeps P (cacheSet e key v).
Hypothesis P_delete : ∀ e key, keeps P (cacheDelete e key).
Hypothesis P_clean : ∀ e, keeps P (cacheClean e).
Hypothesis P_index : ∀ K e b, P b → writable (new_key K e) → kmap K b !! new_key K e = None →
  P (index_key K (new_key K e) (Time.UnixNano (env_now e)) b).
Hypothesis P_inv : ∀ b, P b → index_inv b.
Hypothesis P_fresh : ∀ K e b, P b → store_fresh e b → writable (new_key K e).
Hypothesis trace_writable : ∀ tid, writable (trace_key tid).
Hint Resolve P_delete P_clean P_set trace_writable : sampler.

Lemma keeps_decodeCurrent {A} `{!Codec (list A)} data : keeps P (decodeCurrent (A := A) data).
Proof. unfold decodeCurrent. repeat case_match; auto with sampler. Qed.
Hint Resolve keeps_decodeCurrent : sampler.

Lemma keeps_storeTrace e x : keeps P (storeTrace e x).
Proof. destruct x as [tid t]. unfold storeTrace. auto 8 with sampler. Qed.

Lemma keeps_storeTraceLogs e x : keeps P (storeTraceLogs e x).
Proof. destruct x as [tid l]. unfold storeTraceLogs. auto 8 with sampler. Qed.
Hint Resolve keeps_storeTrace keeps_storeTraceLogs : sampler.

Lemma storeTimed_keeps K e data b b' :
  P b → writable (new_key K e) → kmap K b !! new_key K e = None →
  storeTimed K e (new_key K e) (Time.UnixNano (env_now e)) data b = Ok (tt, b') → P b'.
Proof.
  intros Hp Hw Hn Hrun. unfold storeTimed in Hrun.
  destruct (cset (new_key K e) data (cache b)) as [[c evs] ok] eqn:Hs.
  pose proof (cacheSet_run e _ data b c evs ok (inv_mu _ (P_inv _ Hp)) Hs) as Hset.
  pose proof (P_set e _ data Hw _ _ _ Hp Hset) as Hp1.
  erewrite bind_ok in Hrun by exact Hset. destruct ok; [|by injection Hrun as <-].
  rewrite indexKind_run in Hrun by apply (P_inv _ Hp1). injection Hrun as <-.
  apply P_index; [done..|]. rewrite evicts_set_cache_kmap by by apply P_inv. by case_decide.
Qed.

Lemma Store_keeps e sig b r b' :
  buf_inv b → P b → env_ok e → store_fresh e b → Store e sig b = Ok (r, b') → P b'.
Proof.
  intros Hb Hp He Hf Hrun. destruct sig as [s|s|s|]; cbn [Store] in Hrun.
  - revert Hp Hrun. apply keeps_bind; auto with sampler.
  - destruct (marshal (ms_Metrics s)) as [data|] eqn:Hm; [|unfold storeMetric in Hrun; rewrite Hm in Hrun; by injection Hrun as <- <-].
    rewrite (storeMetric_timed _ _ _ _ Hm) in Hrun. unfold mbind, Go_bind, mret, Go_ret in Hrun.
    destruct (storeTimed _ _ _ _ _ _) as [[[] b1]| |] eqn:E; [|done..]. injection Hrun as <- <-.
    eapply (storeTimed_keeps KMetric); [done|by apply (P_fresh _ _ b)|apply (Hf KMetric)|done].
  - unfold storeSplitLogs in Hrun. pose proof (λ tid t, split_logs_env e (ls_Logs s) tid t He) as Hne.
    destruct (splitLogs (ls_Logs s)) as [tl rest].
    destruct (storeTraceLogs_loop e (env_range e (map_to_list tl)) b Hb Hne) as (b1 & E1 & _ & Hu).
    erewrite bind_ok in Hrun by exact E1.
    assert (P b1) as Hp1 by (revert Hp E1; apply keeps_for_each; auto with sampler).
    destruct rest as [l|]; [|by injection Hrun as <- <-].
    unfold mbind, Go_bind, mret, Go_ret in Hrun.
    destruct (storeTimeLogs e l b1) as [[[] b2]| |] eqn:E2; [|done..]. injection Hrun as <- <-.
    destruct (marshal l) as [data|] eqn:Hm; [|unfold storeTimeLogs in E2; rewrite Hm in E2; by injection E2 as <-].
    rewrite (storeTimeLogs_timed _ _ _ _ Hm) in E2.
    eapply (storeTimed_keeps KLog); [done|by apply (P_fresh _ _ b)|apply Hu, (Hf KLog)|done].
  - by injection Hrun as <- <-.
Qed.

Lemma discard_inv {A} (m : Go B A) b b' : discard m b = Ok (tt, b') → ∃ r, m b = Ok (r, b').
Proof.
  unfold discard, mbind, Go_bind, mret, Go_ret. destruct (m b) as [[r b1]| |]; [|done..].
  intros [= ->]. eauto.
Qed.

Lemma run_op_keeps op b b' :
  buf_inv b → P b → op_fresh op b → run_op op b = Ok (tt, b') → P b'.
Proof.
  intros Hb Hp Hf Hrun. pose proof (inv_mu _ (proj1 Hb)) as Hmu.
  assert (∀ e keys, for_each (cacheDelete e) keys b = Ok (tt, b') → P b') as Hdel.
  { intros e keys. revert Hp. apply keeps_for_each. auto with sampler. }
  destruct op as [e sig|e tid|e s t|e s t|e|e|tid|tid|s t|s t| |e]; cbn [run_op] in Hrun.
  - apply discard_inv in Hrun as [r Hrun]. destruct Hf as [He Hf]. by eapply Store_keeps.
  - by eapply P_delete.
  - apply (Hdel e (map Key (range_items KMetric b s t))). by rewrite <- (RemoveKindInRange_run KMetric).
  - apply (Hdel e (map Key (range_items KLog b s t))). by rewrite <- (RemoveKindInRange_run KLog).
  - unfold ClearMetrics in Hrun. erewrite bind_ok in Hrun by by apply withLock_read. by eapply Hdel.
  - unfold ClearLogs in Hrun. erewrite bind_ok in Hrun by by apply withLock_read. by eapply Hdel.
  - apply discard_inv in Hrun as [r Hrun]. rewrite GetTrace_run in Hrun by done. by injection Hrun as <- <-.
  - apply discard_inv in Hrun as [r Hrun]. rewrite GetTraceLogs_run in Hrun by done. by injection Hrun as <- <-.
  - apply discard_inv in Hrun as [r Hrun]. rewrite GetMetricsInRange_run in Hrun by done. by injection Hrun as <- <-.
  - apply discard_inv in Hrun as [r Hrun]. rewrite GetLogsInRange_run in Hrun by done. by injection Hrun as <- <-.
  - by injection Hrun as <-.
  - by eapply P_clean.
Qed.

Lemma reachable_keeps b0 b : buf_inv b0 → P b0 → reachable b0 b → P b.
Proof.
  intros Hb Hp Hr. induction Hr as [|b op b' Hr IH Hf Hrun]; [done|].
  eapply run_op_keeps; [by eapply reachable_inv|done..].
Qed.
End by_calls.

(** ** The typing of the cache *)

(** The keys of the cache: the hexadecimal trace id, or a prefix, a time and a
    UUID. *)
Definition entry_key (k : string) : Prop :=
  (∃ tid, k = trace_key tid) ∨ ∃ K ts u, k = timed_key (kprefix K) ts u.

Record keyed (b : B) : Prop := {
  keyed_inv : index_inv b;
  keyed_map K k ts : kmap K b !! k = Some ts → ∃ u, k = timed_key (kprefix K) ts u;
  keyed_cache k v : cview (cache b) !! k = Some v → entry_key k }.

Lemma keyed_evicts e evs c b :
  keyed b → (∀ k v, cview c !! k = Some v → entry_key k) → keyed (evicts e evs (set_cache c b)).
Proof.
  intros [Hi Hm Hc] Hc'. split; [by apply evicts_set_cache_inv| |by rewrite evicts_set_cache_cache].
  intros K k ts. rewrite evicts_set_cache_kmap by done. case_decide; [done|apply Hm].
Qed.

Lemma keyed_cacheSet e key v : entry_key key → keeps keyed (cacheSet e key v).
Proof.
  intros Hkey b r b' Hb Hrun. destruct (cset key v (cache b)) as [[c evs] ok] eqn:Hs.
  rewrite (cacheSet_run e key v b c evs ok) in Hrun by (apply Hb || done). injection Hrun as _ <-.
  apply keyed_evicts; [done|]. intros k w Hw. destruct (decide (k = key)) as [->|Hne]; [done|].
  eapply (keyed_cache _ Hb). by eapply cset_shrinks.
Qed.

Lemma keyed_cacheDelete e key : keeps keyed (cacheDelete e key).
Proof.
  intros b r b' Hb Hrun. destruct (cdelete key (cache b)) as [c evs] eqn:Hd.
  rewrite (cacheDelete_run e key b c evs) in Hrun by (apply Hb || done). injection Hrun as _ <-.
  apply keyed_evicts; [done|]. intros k w Hw. eapply (keyed_cache _ Hb). by eapply cdelete_shrinks.
Qed.

Lemma keyed_cacheClean e : keeps keyed (cacheClean e).
Proof.
  intros b r b' Hb Hrun. destruct (cclean (env_now e) (cache b)) as [c evs] eqn:Hc.
  rewrite (cacheClean_run e b c evs) in Hrun by (apply Hb || done). injection Hrun as _ <-.
  apply keyed_evicts; [done|]. intros k w. rewrite (cclean_view _ _ _ _ _ Hc). case_decide; [done|].
  apply (keyed_cache _ Hb).
Qed.

Lemma keyed_index K e b :
  keyed b → kmap K b !! new_key K e = None → keyed (index_key K (new_key K e) (Time.UnixNano (env_now e)) b).
Proof.
  intros [Hi Hm Hc] Hn. split; [|intros K' k ts|by rewrite index_key_cache].
  - apply index_key_inv; [done..|apply timed_key_prefix].
  - destruct (decide (K' = K)) as [->|]; [|rewrite index_key_kmap_other by done; apply Hm].
    rewrite index_key_kmap, lookup_insert_Some. intros [[<- <-]|[_ ?]]; [by eexists|by apply Hm].
Qed.

Lemma keyed_run op b b' : buf_inv b → keyed b → op_fresh op b → run_op op b = Ok (tt, b') → keyed b'.
Proof.
  apply (run_op_keeps keyed entry_key); auto using keyed_cacheSet, keyed_cacheDelete, keyed_cacheClean, keyed_index, keyed_inv.
  - intros K e b1 _ _. right. by eexists _, _, _.
  - intros tid. left. by eexists.
Qed.

Lemma reachable_keyed b0 b : buf_inv b0 → keyed b0 → reachable b0 b → keyed b.
Proof.
  intros Hb Hk Hr. induction Hr as [|b op b' Hr IH Hf Hrun]; [done|].
  eapply keyed_run; [by eapply reachable_inv|done..].
Qed.

(** What may be kept under a key. *)
Inductive well_typed : string → bytes → Prop :=
| typed_trace tid s : stored_ok s → well_typed (trace_key tid) (Gob.Encode s)
| typed_metric ts u m v : unmarshal v = Some (m : Metrics) → well_typed (timed_key metric_prefix ts u) v
| typed_log ts u l v : unmarshal v = Some (l : Logs) → well_typed (timed_key log_prefix ts u) v.

(** C12: in every state of a buffer the cache is well typed: an entry is a trace
    record that can be decoded, under the hexadecimal id of the trace, or the
    encoding of a metric or of logs, under a key that says which and when. An
    index lists the time that is in the key, a key is never in both indices nor
    that of a trace, and every metric and every log of the cache is indexed. *)
Theorem cache_well_typed config dbg b0 b :
  New config dbg = Some b0 → reachable b0 b →
  (∀ k v, cview (cache b) !! k = Some v → well_typed k v)
  ∧ (∀ k v ts u, cview (cache b) !! k = Some v → k = timed_key metric_prefix ts u → is_Some (metricKeyMap b !! k))
  ∧ (∀ k v ts u, cview (cache b) !! k = Some v → k = timed_key log_prefix ts u → is_Some (logKeyMap b !! k))
  ∧ (∀ ts k, MkTimeKey ts k ∈ bt_items (metricTimeIndex b) → ∃ u, k = timed_key metric_prefix ts u)
  ∧ (∀ ts k, MkTimeKey ts k ∈ bt_items (logTimeIndex b) → ∃ u, k = timed_key log_prefix ts u)
  ∧ (∀ k tid, k = trace_key tid ∨ is_Some (logKeyMap b !! k) → metricKeyMap b !! k = None).
Proof.
  intros Hn Hr. pose proof (New_inv config dbg b0 Hn) as Hb0.
  assert (keyed b0) as Hk0.
  { destruct (New_empty config dbg b0 Hn) as [Hv Hk]. split; [apply Hb0|intros K k ts; by rewrite Hk|intros k v; by rewrite Hv]. }
  pose proof (reachable_inv _ _ Hb0 Hr) as [Hi Hc]. pose proof (reachable_keyed _ _ Hb0 Hk0 Hr) as [_ Hm He].
  assert (∀ K k ts, MkTimeKey ts k ∈ bt_items (kindex K b) → ∃ u, k = timed_key (kprefix K) ts u) as Hidx.
  { intros K k ts. rewrite (inv_index _ Hi). apply Hm. }
  assert (∀ K k v ts u, cview (cache b) !! k = Some v → k = timed_key (kprefix K) ts u → is_Some (kmap K b !! k)) as Hin.
  { intros K k v ts u Hv ->. by eapply (inv_cached _ Hc K); [|apply timed_key_prefix]. }
  split_and!; [|apply (Hin KMetric)|apply (Hin KLog)|apply (λ ts k, Hidx KMetric k ts)|apply (λ ts k, Hidx KLog k ts)|].
  - intros k v Hv. destruct (He _ _ Hv) as [[tid ->]|(K & ts & u & ->)].
    + destruct (inv_trace _ Hc _ _ Hv) as (s & -> & Hs). by constructor.
    + destruct (inv_cached _ Hc K _ _ Hv (timed_key_prefix K ts u)) as [_ Hd]. destruct K, Hd as [x Hx]; by econstructor.
  - intros k tid Hk. apply eq_None_not_Some. intros [ts Hts]. pose proof (inv_prefix _ Hi KMetric _ _ Hts) as Hp.
    destruct Hk as [->|[ts' Hl]]; [by rewrite trace_key_prefix in Hp|].
    by pose proof (prefix_disjoint _ _ _ Hp (inv_prefix _ Hi KLog _ _ Hl)).
Qed.
End BufferTypes.
