(* ===== verification/BufferLocks.v ===== *)
(** The mutexes of a node, and who takes them while holding which: the buffer's
    [mu], those of BigCache's shards, the log's, the processor's and the
    rollup's (internal/buffer, internal/wal, internal/processor,
    internal/rollup). *)
From S2P Require Import Prelude Locks GoStd PData Signals Config Cache Gob Buffer BufferLemmas Split BufferSpec.

(** ** The mutexes *)
Inductive ProcessLock := WalMu | ShardMu (s : N) | BufferMu | EvictedMu | RollupMu.

#[global] Instance ProcessLock_eq_dec : EqDecision ProcessLock.
Proof. solve_decision. Defined.

(** A piece of code that takes mutexes and releases them. [removed] counts the
    entries that a call of the cache removes, each with a call of the hook. *)
Inductive Crit :=
| CGet (key : string)
| CUpdate (key : string) (removed : nat)
| CCleanShard (s : N) (removed : nat)
| CShardLen (s : N)
| CIndexRead
| CIndexWrite
| CQuery (keys : list string)
| CWal
| CEvicted
| CLevelRead
| CLevelWrite.

(** What [Store] asks of the cache: per trace a key and the number of entries
    its [Set] evicts; for metrics, and for logs without a trace, also whether
    [Set] succeeds. *)
Inductive StoreCalls :=
| CallsTraces (traces : list (string * nat))
| CallsLogs (traces : list (string * nat)) (timed : option (string * nat * bool))
| CallsMetric (timed : option (string * nat * bool)).

(** What the goroutines of a node do, with the keys they meet on the way. *)
Inductive Task :=
| TWrite
| TReplay (stores : list StoreCalls)
| TStore (calls : StoreCalls)
| TGetTrace (key : string)
| TRemoveTrace (key : string) (removed : nat)
| TCount (shards : list N)
| TGetRange (keys : list string)
| TRemoveRange (calls : list (string * nat))
| TClear (calls : list (string * nat))
| TCleanUp (shards : list (N * nat))
| THandleEvicted
| TTakeEvicted
| TSetLevel
| TRollup.

Section BufferLocks.
(** BigCache's choice of a shard, and whether it calls the removal hook before
    it releases the shard. *)
Context (shard : string → N) (inside : bool).

Abbreviation Act := (Act ProcessLock).

(** The removal hook: [b.mu.Lock(); defer b.mu.Unlock()]. *)
Definition hook_locks : list Act := [Lock BufferMu; Unlock BufferMu].
Definition hooks (removed : nat) : list Act := concat (replicate removed hook_locks).

Definition shard_update (s : N) (removed : nat) : list Act :=
  if inside then Lock (ShardMu s) :: hooks removed ++ [Unlock (ShardMu s)]
  else Lock (ShardMu s) :: Unlock (ShardMu s) :: hooks removed.

Definition shard_read (s : N) : list Act := [RLock (ShardMu s); RUnlock (ShardMu s)].

Definition crit_locks (c : Crit) : list Act :=
  match c with
  | CGet key => shard_read (shard key)
  | CUpdate key removed => shard_update (shard key) removed
  | CCleanShard s removed => shard_update s removed
  | CShardLen s => shard_read s
  | CIndexRead => [RLock BufferMu; RUnlock BufferMu]
  | CIndexWrite => [Lock BufferMu; Unlock BufferMu]
  | CQuery keys => RLock BufferMu :: concat (map (λ k, shard_read (shard k)) keys) ++ [RUnlock BufferMu]
  | CWal => [Lock WalMu; Unlock WalMu]
  | CEvicted => [Lock EvictedMu; Unlock EvictedMu]
  | CLevelRead => [RLock RollupMu; RUnlock RollupMu]
  | CLevelWrite => [Lock RollupMu; Unlock RollupMu]
  end.

Definition crits_locks (cs : list Crit) : list Act := concat (map crit_locks cs).

(** *** The operations *)

(** [cache.Get] and then [cache.Set], for each trace of a batch. *)
Definition storeEntries_crits (traces : list (string * nat)) : list Crit :=
  concat (map (λ x, [CGet x.1; CUpdate x.1 x.2]) traces).

(** [cache.Set], and the index if that succeeds. *)
Definition storeTimed_crits (timed : option (string * nat * bool)) : list Crit :=
  match timed with
  | None => []
  | Some (key, removed, ok) => CUpdate key removed :: if ok : bool then [CIndexWrite] else []
  end.

Definition Store_crits (calls : StoreCalls) : list Crit :=
  match calls with
  | CallsTraces traces => storeEntries_crits traces
  | CallsLogs traces timed => storeEntries_crits traces ++ storeTimed_crits timed
  | CallsMetric timed => storeTimed_crits timed
  end.

Definition GetInRange_crits (keys : list string) : list Crit := [CQuery keys].

Definition deletes_crits (calls : list (string * nat)) : list Crit := map (λ x, CUpdate x.1 x.2) calls.
Definition RemoveInRange_crits (calls : list (string * nat)) : list Crit := CIndexRead :: deletes_crits calls.
Definition Clear_crits (calls : list (string * nat)) : list Crit := CIndexWrite :: deletes_crits calls.

(** [Replay] holds the log's mutex while it stores. *)
Definition task_locks (t : Task) : list Act :=
  match t with
  | TWrite => crits_locks [CWal]
  | TReplay stores => Lock WalMu :: crits_locks (concat (map Store_crits stores)) ++ [Unlock WalMu]
  | TStore calls => crits_locks (Store_crits calls)
  | TGetTrace key => crits_locks [CGet key]
  | TRemoveTrace key removed => crits_locks [CUpdate key removed]
  | TCount shards => crits_locks (map CShardLen shards)
  | TGetRange keys => crits_locks (GetInRange_crits keys)
  | TRemoveRange calls => crits_locks (RemoveInRange_crits calls)
  | TClear calls => crits_locks (Clear_crits calls)
  | TCleanUp shards => crits_locks (map (λ x, CCleanShard x.1 x.2) shards)
  | THandleEvicted | TTakeEvicted => crits_locks [CEvicted]
  | TSetLevel => crits_locks [CLevelWrite]
  | TRollup => crits_locks [CLevelRead]
  end.

(** A goroutine that does these tasks one after the other. *)
Definition run_tasks (ts : list Task) : Goroutine ProcessLock := spawn (concat (map task_locks ts)).

(** A range query that reads the cache: it holds [b.mu] and takes a shard. *)
Definition queries (t : Task) : bool := match t with TGetRange (_ :: _) => true | _ => false end.

(** *** The order of the mutexes *)
Definition lock_rank (l : ProcessLock) : nat :=
  match l with
  | WalMu => 0
  | ShardMu _ => if inside then 1 else 2
  | BufferMu => if inside then 2 else 1
  | EvictedMu | RollupMu => 3
  end.

Lemma lock_rank_top l : lock_rank l ≤ 3.
Proof. destruct l; cbn; destruct inside; lia. Qed.

Definition crit_fine (c : Crit) : Prop := inside = false ∨ match c with CQuery (_ :: _) => False | _ => True end.

(** What is ordered on its own stays so above a mutex of lower rank. *)
Lemma ordered_around l m p :
  ordered lock_rank [] p →
  Forall (λ a, match a with RLock l' | Lock l' => lock_rank l < lock_rank l' | _ => True end) p →
  ordered lock_rank [] (match m with Reading => RLock l | Writing => Lock l end :: p
    ++ [match m with Reading => RUnlock l | Writing => Unlock l end]).
Proof.
  intros Ho Hf. pose proof (ordered_under lock_rank m l [] p Ho Hf (not_elem_of_nil _)) as H.
  destruct m; cbn in *; (split; [by constructor|done]).
Qed.

Lemma ordered_read l : ordered lock_rank [] [RLock l; RUnlock l].
Proof. apply (ordered_around l Reading []); [done|constructor]. Qed.
Lemma ordered_write l : ordered lock_rank [] [Lock l; Unlock l].
Proof. apply (ordered_around l Writing []); [done|constructor]. Qed.
Hint Resolve ordered_read ordered_write : core.

Lemma ordered_hooks n : ordered lock_rank [] (hooks n).
Proof. apply ordered_concat. apply Forall_replicate. apply ordered_write. Qed.

Lemma hooks_acts (P : Act → Prop) n : P (Lock BufferMu) → P (Unlock BufferMu) → Forall P (hooks n).
Proof. intros. unfold hooks. apply Forall_concat, Forall_replicate. by repeat constructor. Qed.

Lemma ordered_update s n : ordered lock_rank [] (shard_update s n).
Proof.
  unfold shard_update. destruct inside eqn:E.
  - apply (ordered_around (ShardMu s) Writing); [apply ordered_hooks|]. apply hooks_acts; [|done]. cbn. rewrite E. lia.
  - apply (ordered_app lock_rank [] [Lock (ShardMu s); Unlock (ShardMu s)]); [done|apply ordered_hooks].
Qed.
Hint Resolve ordered_update : core.

Lemma ordered_crit c : crit_fine c → ordered lock_rank [] (crit_locks c).
Proof.
  intros Hc. destruct c as [| | | | | |keys| | | |]; cbn [crit_locks]; unfold shard_read; try done.
  apply (ordered_around BufferMu Reading).
  - apply ordered_concat, Forall_map, Forall_true. intros k. apply ordered_read.
  - destruct Hc as [E|Hc]; [|by destruct keys; [constructor|]].
    apply Forall_concat, Forall_map, Forall_true. intros k. repeat constructor. cbn. rewrite E. lia.
Qed.

Lemma ordered_crits cs : Forall crit_fine cs → ordered lock_rank [] (crits_locks cs).
Proof. intros H. apply ordered_concat, Forall_map. eapply Forall_impl; [exact H|]. apply ordered_crit. Qed.

(** The calls of [Store] take no other mutex than the shards' and the buffer's. *)
Definition cache_crit (c : Crit) : Prop := match c with CGet _ | CUpdate _ _ | CIndexWrite => True | _ => False end.

Lemma Store_cache_crits calls : Forall cache_crit (Store_crits calls).
Proof.
  assert (∀ l, Forall cache_crit (storeEntries_crits l)) as He.
  { intros l. apply Forall_concat, Forall_map, Forall_true. by repeat constructor. }
  assert (∀ o, Forall cache_crit (storeTimed_crits o)) as Ht.
  { intros [[[k n] []]|]; repeat constructor. }
  destruct calls; cbn; [done| |done]. by apply Forall_app.
Qed.

Lemma cache_crit_fine c : cache_crit c → crit_fine c.
Proof. intros H. right. by destruct c. Qed.

Lemma cache_crit_above c :
  cache_crit c →
  Forall (λ a, match a with RLock l' | Lock l' => lock_rank WalMu < lock_rank l' | _ => True end) (crit_locks c).
Proof.
  intros H. destruct c; try done; cbn [crit_locks]; unfold shard_read, shard_update.
  - repeat constructor. cbn. destruct inside; lia.
  - assert (0 < lock_rank BufferMu ∧ 0 < lock_rank (ShardMu (shard key))) as [? ?] by (cbn; destruct inside; lia).
    pose proof (hooks_acts (λ a, match a with RLock l' | Lock l' => lock_rank WalMu < lock_rank l' | _ => True end) removed).
    destruct inside; repeat constructor; try done; [apply Forall_app; split; [auto|by repeat constructor]|auto].
  - repeat constructor. cbn. destruct inside; lia.
Qed.

Lemma ordered_task t : inside = false ∨ queries t = false → ordered lock_rank [] (task_locks t).
Proof.
  assert (∀ calls, Forall crit_fine (deletes_crits calls)) as Hd.
  { intros calls. apply Forall_map, Forall_true. intros x. by right. }
  intros Ht. destruct t as [|stores|calls| | |shards|keys|calls|calls|shards| | | |]; cbn [task_locks].
  all: try (apply ordered_crits; repeat constructor; by right).
  - apply (ordered_around WalMu Writing).
    + apply ordered_crits, Forall_concat, Forall_map, Forall_true. intros x.
      eapply Forall_impl; [apply Store_cache_crits|]. apply cache_crit_fine.
    + apply Forall_concat, Forall_map, Forall_concat, Forall_map, Forall_true. intros x.
      eapply Forall_impl; [apply Store_cache_crits|]. apply cache_crit_above.
  - apply ordered_crits. eapply Forall_impl; [apply Store_cache_crits|]. apply cache_crit_fine.
  - apply ordered_crits, Forall_map, Forall_true. intros x. by right.
  - apply ordered_crits. constructor; [|constructor]. destruct Ht as [Ht|Ht]; [by left|right]. by destruct keys.
  - apply ordered_crits. constructor; [by right|done].
  - apply ordered_crits. constructor; [by right|done].
  - apply ordered_crits, Forall_map, Forall_true. intros x. by right.
Qed.

Lemma run_tasks_good ts : (∀ t, t ∈ ts → inside = false ∨ queries t = false) → good lock_rank (run_tasks ts).
Proof.
  intros H. apply spawn_good, ordered_concat, Forall_map, Forall_forall. intros t Hin. by apply ordered_task, H.
Qed.

(** C8: goroutines that store, fetch and remove traces, remove and clear metrics
    and logs, clean up, write to the log and replay it, hand over evicted
    signals and switch the level, any number of them in any order, never
    deadlock: under every schedule each takes as many steps as it has lock
    operations and comes to its end. The same holds for range queries if the
    cache releases a shard before it calls the removal hook. *)
Theorem goroutines_finish (gs : list (list Task)) n s :
  (∀ ts t, ts ∈ gs → t ∈ ts → inside = false ∨ queries t = false) →
  moves n (map run_tasks gs) s →
  n ≤ work (map run_tasks gs) ∧ ¬ deadlocked s ∧ (finished s ↔ n = work (map run_tasks gs)).
Proof.
  intros Hgs. apply (ordered_finish lock_rank 3 lock_rank_top).
  apply Forall_map, Forall_forall. intros ts Hin. apply run_tasks_good. intros t. by apply Hgs.
Qed.
End BufferLocks.

(** ** What the operations meet in a given buffer *)
Section InBuffer.
Context {C T : Type} `{!BigCache C, !BigCacheLaws C} `{!BTree T, !BTreeLaws T}.
Context `{!Codec Traces, !CodecLaws Traces} `{!Codec Metrics, !CodecLaws Metrics} `{!Codec Logs, !CodecLaws Logs}.

Abbreviation B := (InMemoryBuffer C T).
Implicit Types (b : B) (e : Env).

(** The keys a range query visits. *)
Definition range_keys (index : B → T) (start stop : Z) (b : B) : list string :=
  map Key (AscendRange (range_lo start) (range_hi stop) (index b)).

(** Deleting keys one after the other: how many entries each call removes. *)
Fixpoint delete_calls (e : Env) (keys : list string) (b : B) : list (string * nat) :=
  match keys with
  | [] => []
  | key :: keys' =>
      (key, length (cdelete key (cache b)).2) ::
      match cacheDelete e key b with Ok (_, b') => delete_calls e keys' b' | _ => [] end
  end.

(** [GetMetricsInRange] and [RemoveMetricsInRange], and the same for logs: the
    index is [metricTimeIndex] or [logTimeIndex]. *)
Definition GetInRange_task (index : B → T) (start stop : Z) (b : B) : Task := TGetRange (range_keys index start stop b).
Definition RemoveInRange_task (index : B → T) (e : Env) (start stop : Z) (b : B) : Task :=
  TRemoveRange (delete_calls e (range_keys index start stop b) b).

(** Two goroutines: the first has the index and needs a shard, the second has the
    shard and waits for the index. *)
Lemma crossed_deadlocked (x : N) p q :
  deadlocked [MkGoroutine [(BufferMu, Reading)] false (RLock (ShardMu x) :: p);
              MkGoroutine [(ShardMu x, Writing)] true (Lock BufferMu :: q)].
Proof.
  split; [|by intros [? _]%Forall_cons]. intros [|[|i]]; unfold step; cbn [lookup list_lookup mbind option_bind]; [| |done].
  - unfold advance. cbn [todo]. rewrite decide_True; [done|]. right. left. left. by apply list_elem_of_singleton.
  - unfold advance. cbn [todo waiting]. rewrite decide_True; [done|]. left. by apply list_elem_of_singleton.
Qed.

(** They get there when the second takes the shard after the first has the index. *)
Lemma crossed_schedule (x : N) p q :
  run_schedule [1; 1; 0; 1; 1; 1]
    [spawn (RLock BufferMu :: RLock (ShardMu x) :: p);
     spawn (RLock BufferMu :: RUnlock BufferMu :: Lock (ShardMu x) :: Lock BufferMu :: q)]
  = Some [MkGoroutine [(BufferMu, Reading)] false (RLock (ShardMu x) :: p);
          MkGoroutine [(ShardMu x, Writing)] true (Lock BufferMu :: q)].
Proof.
  assert (∀ (l : ProcessLock) (g1 g2 : Goroutine ProcessLock), ((l, Writing) ∉ holds g1 ∧ ¬ announced l g1) → ((l, Writing) ∉ holds g2 ∧ ¬ announced l g2) →
    ¬ writer l [g1; g2]) as Hw.
  { intros l g1 g2 H1 H2 H. unfold writer in H. rewrite !Exists_cons, Exists_nil in H. tauto. }
  assert (∀ (l : ProcessLock) (g1 g2 : Goroutine ProcessLock), (l, Reading) ∉ holds g1 → (l, Reading) ∉ holds g2 → ¬ reader l [g1; g2]) as Hr.
  { intros l g1 g2 H1 H2 H. unfold reader in H. rewrite !Exists_cons, Exists_nil in H. tauto. }
  assert (∀ (l : ProcessLock) (g : Goroutine ProcessLock), waiting g = false → ¬ announced l g) as Ha by (by intros l g Hg [? _]; congruence).
  cbn [run_schedule]. unfold step, spawn. cbn [lookup list_lookup mbind option_bind].
  repeat (first
    [ rewrite decide_False by (first [apply Hw|apply Hr]; try split; try (by apply Ha); cbn; set_solver)
    | rewrite decide_True by (cbn; set_solver)
    | progress cbn [advance todo waiting holds mbind option_bind insert list_insert lookup list_lookup release] ]).
  done.
Qed.

(** C9: two goroutines of a node can block each other for ever: the decision loop
    asks for the metrics (or the logs) of a range while the rollup loop removes
    those of the same range. The query holds [b.mu] and needs the shard of the
    first of them; the removal holds that shard, since the cache runs the
    removal hook inside it, and the hook needs [b.mu]. *)
Theorem query_removal_deadlock shard index e start stop b key keys v :
  range_keys index start stop b = key :: keys → cview (cache b) !! key = Some v →
  ∃ sched s,
    run_schedule sched [run_tasks shard true [GetInRange_task index start stop b];
                        run_tasks shard true [RemoveInRange_task index e start stop b]] = Some s
    ∧ deadlocked s.
Proof.
  intros Hk Hv. unfold GetInRange_task, RemoveInRange_task. rewrite Hk. cbn [delete_calls].
  destruct (cdelete key (cache b)) as [c evs] eqn:Ed. cbn [snd].
  destruct (cdelete_lone _ _ _ _ (lone_cached _ _ _ Hv) Ed) as [_ ->]. rewrite Hv.
  exists [1; 1; 0; 1; 1; 1]. eexists. split; [|apply (crossed_deadlocked (shard key))].
  unfold run_tasks. cbn [map concat task_locks crits_locks RemoveInRange_crits GetInRange_crits deletes_crits crit_locks
    shard_update shard_read hooks hook_locks replicate app length fst snd].
  apply crossed_schedule.
Qed.
End InBuffer.
