(* ===== verification/Samples.v ===== *)
(** Concrete parameters and small concrete data, on which the witnesses evaluate
    the definitions. *)
From S2P Require Import Prelude GoStd PData Signals Config Cache Gob WireCodec Buffer BufferLemmas BufferSpec.

#[export] Instance sample_pdata : PData := AssocMap.instance.
#[export] Instance sample_pdata_laws : PDataLaws := AssocMap.assoc_laws.

(** A 64-bit hash of strings, with collisions as any: FNV-1a. *)
Definition fnv1a (s : string) : Z :=
  foldl (λ h c, (Z.lxor h (Z.of_N (Ascii.N_of_ascii c)) * 1099511628211) `mod` two64)%Z 14695981039346656037%Z
    (String.list_ascii_of_string s).

#[export] Instance sample_cache : BigCache QueueCache.cache := QueueCache.instance fnv1a.
#[export] Instance sample_cache_laws : BigCacheLaws QueueCache.cache := QueueCache.queue_laws fnv1a.

#[export] Instance sample_tree : BTree (list TimeKey) := ListTree.instance.
#[export] Instance sample_tree_laws : BTreeLaws (list TimeKey) := ListTree.tree_laws.
#[export] Instance sample_traces : Codec Traces := WireCodec.instance.
#[export] Instance sample_traces_laws : CodecLaws Traces := WireCodec.wire_laws.
#[export] Instance sample_metrics : Codec Metrics := WireCodec.instance.
#[export] Instance sample_metrics_laws : CodecLaws Metrics := WireCodec.wire_laws.
#[export] Instance sample_logs : Codec Logs := WireCodec.instance.
#[export] Instance sample_logs_laws : CodecLaws Logs := WireCodec.wire_laws.

Definition sample_tid (x : byte) : TraceID := MkTraceID (replicate 16 x) I.
Definition tidA : TraceID := sample_tid "001"%byte.
Definition tidB : TraceID := sample_tid "002"%byte.
Definition tid0 : TraceID := sample_tid "000"%byte.

Definition sample_resource : Resource := MkResource [("service.name", VStr "shop")] "".
Definition sample_scope : Scope := MkScope "lib" "1.0" "".

Definition sample_span (t : TraceID) (name : string) (st en : Z) (c : StatusCode) : Span :=
  MkSpan t name st en c [("user.tier", VStr "gold")] "".
Definition sample_group {A} (xs : list A) : ResourceGroup A :=
  MkRG sample_resource [MkSG sample_scope xs ""] "".
Definition sample_traces_sig (xs : list Span) : TraceSignal :=
  MkTraceSignal [sample_group xs] (MkContext 0 "").

Definition sample_point (z : Z) (a : Map) : NumberDataPoint := MkDP a (NVInt z) "".
Definition sample_sum (name : string) (dps : list NumberDataPoint) : Metric :=
  MkMetric name "" "1" [] (MDSum true 2 dps).
Definition sample_metric_sig (ms : list Metric) : MetricSignal :=
  MkMetricSignal [sample_group ms] (MkContext 0 "").

Definition sample_log (t : TraceID) (body : string) : LogRecord :=
  MkLR t 17 (VStr body) [("request_id", VStr "r1")] "".
Definition sample_log_sig (ls : list LogRecord) : LogSignal :=
  MkLogSignal [sample_group ls] (MkContext 0 "").

(** A call at the time [t], with a UUID of its own. *)
Definition sample_env (t : Z) (uuid : string) : Env := MkEnv t (λ _, t) uuid (λ _ _ l, l).

Lemma sample_env_ok t uuid : env_ok (sample_env t uuid).
Proof. by intros K A l. Qed.

Definition sample_config : BufferConfig := MkBufferConfig 4 30 5000.

Abbreviation SampleBuffer := (InMemoryBuffer QueueCache.cache (list TimeKey)).

(** A new buffer with room for four entries. *)
Definition sample_buffer : SampleBuffer :=
  MkBuffer sample_config (QueueCache.MkCache [] 4) Unlocked false (Chan.make Signal 1000) [] [] ∅ ∅.

Lemma sample_buffer_new : New sample_config false = Some sample_buffer.
Proof. reflexivity. Qed.

Lemma sample_buffer_inv : buf_inv sample_buffer.
Proof. exact (New_inv _ _ _ sample_buffer_new). Qed.

(** The buffer after a series of operations; [None] when one does not return. *)
Fixpoint sample_run (ops : list BufferOp) (b : SampleBuffer) : option SampleBuffer :=
  match ops with
  | [] => Some b
  | op :: ops' => match run_op op b with Ok (_, b') => sample_run ops' b' | _ => None end
  end.

Definition op_freshb (op : BufferOp) (b : SampleBuffer) : bool :=
  match op with
  | OpStore e _ => forallb (λ K, bool_decide (kmap K b !! timed_key (kprefix K) (Time.UnixNano (env_now e)) (env_uuid e) = None)) [KMetric; KLog]
  | _ => true
  end.

Fixpoint sample_freshb (ops : list BufferOp) (b : SampleBuffer) : bool :=
  match ops with
  | [] => true
  | op :: ops' => op_freshb op b && match run_op op b with Ok (_, b') => sample_freshb ops' b' | _ => true end
  end.

(** The operations use environments that visit every entry of a map. *)
Definition op_env_ok (op : BufferOp) : Prop := match op with OpStore e _ => env_ok e | _ => True end.

Lemma op_freshb_spec op b : op_env_ok op → op_freshb op b = true → op_fresh op b.
Proof.
  destruct op; try done. cbn -[bool_decide]. rewrite andb_true_r, andb_true_iff, !bool_decide_eq_true.
  intros He [? ?]. split; [done|]. by intros [].
Qed.

Lemma sample_run_reachable ops b0 b b' :
  Forall op_env_ok ops → reachable b0 b → sample_freshb ops b = true → sample_run ops b = Some b' → reachable b0 b'.
Proof.
  intros Hok. revert b. induction Hok as [|op ops He Hok IH]; intros b Hr Hf Hrun; cbn in *; [by simplify_eq|].
  apply andb_true_iff in Hf as [Hf Hf'].
  destruct (run_op op b) as [[[] b1]| |] eqn:E; [|done..].
  eapply IH; [|exact Hf'|exact Hrun]. eapply reach_op; [done| |exact E]. by apply op_freshb_spec.
Qed.

(** The cache of a sample has every key that is indexed. *)
Definition backedb (b : SampleBuffer) : bool :=
  forallb (λ K, bool_decide (map_Forall (λ k _, is_Some (cview (cache b) !! k)) (kmap K b))) [KMetric; KLog].

Lemma backedb_spec b : backedb b = true → backed b.
Proof.
  unfold backedb. cbn -[bool_decide]. rewrite andb_true_r, andb_true_iff, !bool_decide_eq_true.
  intros [Hm Hl] [] k [ts Hk]; [exact (Hm k ts Hk)|exact (Hl k ts Hk)].
Qed.
