(* ===== verification/BufferTheorems.v ===== *)
(** The properties of [InMemoryBuffer]. *)
From S2P Require Import Prelude GoStd PData Signals Config Cache Gob Buffer BufferLemmas Split BufferSpec.

(** C20: [storeTraces] sorts the spans of a batch by trace: the spans of a trace
    are kept in order, each in a resource and scope group of its own; spans
    without a trace id are dropped. *)
Theorem splitTraces_spec rss tid :
  splitTraces rss !! tid =
  if IsEmpty tid then None
  else match alone_of sp_trace_id tid (flat rss) with [] => None | gs => Some gs end.
Proof. rewrite splitTraces_fold. apply split_fold. Qed.

(** [storeSplitLogs] sorts the records of a batch by trace, and keeps those
    without a trace id together in order: no record is lost. *)
Theorem splitLogs_spec rls tid :
  (splitLogs rls).1 !! tid =
    (if IsEmpty tid then None
     else match alone_of lr_trace_id tid (flat rls) with [] => None | gs => Some gs end)
  ∧ (splitLogs rls).2 =
    match map alone (filter (λ x, IsEmpty (lr_trace_id x.2) = true) (flat rls)) with
    | [] => None
    | gs => Some gs
    end.
Proof.
  rewrite splitLogs_fold, log_steps. split; [apply split_fold|]. cbn. by case_match.
Qed.

Section BufferTheorems.
Context {C T : Type} `{!BigCache C, !BigCacheLaws C} `{!BTree T, !BTreeLaws T}.
Context `{!Codec Traces, !CodecLaws Traces} `{!Codec Metrics, !CodecLaws Metrics} `{!Codec Logs, !CodecLaws Logs}.

Abbreviation B := (InMemoryBuffer C T).
Implicit Types (b : B) (e : Env).

(** ** Observations after one call of the cache *)

Lemma decodeStored_encode s : stored_ok s → decodeStored (Some (Gob.Encode s)) = Some s.
Proof. intros (Hwf & _). cbn. by apply Gob.Decode_Encode. Qed.

Lemma decoded_marshal {A} `{!Codec (list A), !CodecLaws (list A)} (x : list A) d :
  marshal x = Some d → decoded d = x.
Proof.
  intros H. unfold decoded. destruct d as [|y d].
  - symmetry. by apply marshal_nil.
  - by rewrite (unmarshal_marshal _ _ H).
Qed.

(** What the entry of a trace is before it is added to. *)
Definition old_entry (e : Env) (b : B) (tid : TraceID) : TraceEntry :=
  default (MkEntry (Time.UnixNano (env_now_at e (trace_key tid))) [] []) (trace_at b tid).

Lemma fetchStored_entry e b tid :
  cache_inv b → entry_of (fetchStored e (trace_key tid) b) = old_entry e b tid.
Proof.
  intros Hc. unfold old_entry, trace_at, fetchStored. rewrite cget_view.
  destruct (cview (cache b) !! trace_key tid) as [v|] eqn:E; [|done].
  destruct (inv_trace _ Hc _ _ E) as (s & -> & Hs).
  rewrite decodeStored_encode by done. by rewrite Gob.Decode_Encode by apply Hs.
Qed.

Lemma live_set_cache_trace K b c tid v :
  index_inv b → cview c = <[trace_key tid := v]> (cview (cache b)) → live K (set_cache c b) = live K b.
Proof.
  intros Hi Hc. apply map_eq. intros k. unfold live. rewrite !map_lookup_imap, kmap_set_cache.
  cbn [cache set_cache]. rewrite Hc, lookup_insert. case_decide as Hk; [subst|done].
  by rewrite trace_key_unindexed.
Qed.

Lemma metrics_at_live b b' : live KMetric b' = live KMetric b → metrics_at b' = metrics_at b.
Proof. unfold metrics_at. by intros ->. Qed.

Lemma logs_at_live b b' : live KLog b' = live KLog b → logs_at b' = logs_at b.
Proof. unfold logs_at. by intros ->. Qed.

Lemma metrics_at_lookup b k ts m :
  metrics_at b !! k = Some (ts, m) ↔ ∃ v, live KMetric b !! k = Some (ts, v) ∧ unmarshal v = Some m.
Proof.
  unfold metrics_at. rewrite lookup_omap. destruct (live KMetric b !! k) as [[ts' v]|]; cbn.
  - split.
    + intros H. destruct (unmarshal v) eqn:E; cbn in H; [|done]. simplify_eq. eauto.
    + intros (? & ? & E). simplify_eq. by rewrite E.
  - split; [done|]. by intros (? & ? & ?).
Qed.

Lemma logs_at_lookup b k ts l :
  logs_at b !! k = Some (ts, l) ↔ ∃ v, live KLog b !! k = Some (ts, v) ∧ unmarshal v = Some l.
Proof.
  unfold logs_at. rewrite lookup_omap. destruct (live KLog b !! k) as [[ts' v]|]; cbn.
  - split.
    + intros H. destruct (unmarshal v) eqn:E; cbn in H; [|done]. simplify_eq. eauto.
    + intros (? & ? & E). simplify_eq. by rewrite E.
  - split; [done|]. by intros (? & ? & ?).
Qed.

(** ** Range queries *)

(** A query's answer: the entries of a table whose time is in the range, each
    once, ordered by time and then by key. *)
Record range_answer {A} (m : gmap string (Z * A)) (start stop : Z) (l : list (TimeKey * A)) : Prop := {
  ra_sorted : StronglySorted (λ x y, Less x.1 y.1 = true) l;
  ra_elem k ts a : (MkTimeKey ts k, a) ∈ l ↔ m !! k = Some (ts, a) ∧ in_range start stop ts
}.

(** What a query reads for one item of the index. *)
Definition read_item {A} `{!Codec A} (b : B) (x : TimeKey) : option (TimeKey * A) :=
  pair x <$> ((cview (cache b) !! Key x) ≫= unmarshal).

Lemma read_item_key {A} `{!Codec A} b x (y : TimeKey * A) : read_item b x = Some y → y.1 = x.
Proof. unfold read_item. destruct (cview (cache b) !! Key x ≫= unmarshal); cbn; naive_solver. Qed.

Lemma read_items_answer {A} `{!Codec A} K b start stop (m : gmap string (Z * A)) :
  index_inv b → (Time.UnixNano stop < max_int64)%Z →
  (∀ k ts a, m !! k = Some (ts, a) ↔ ∃ v, live K b !! k = Some (ts, v) ∧ unmarshal v = Some a) →
  range_answer m start stop (omap (read_item b) (range_items K b start stop)).
Proof.
  intros Hi Hstop Hm. split.
  - pose proof (range_items_sorted K b start stop) as Hs.
    induction Hs as [|x l Hl IH Hx]; cbn; [constructor|].
    destruct (read_item b x) as [y|] eqn:E; [|done]. constructor; [done|].
    assert (y.1 = x) as Hy by by eapply read_item_key.
    apply Forall_forall. intros z (z' & Hz' & Ez)%list_elem_of_omap.
    assert (z.1 = z') as Hz by by eapply read_item_key.
    rewrite Hy, Hz. by eapply Forall_forall in Hx.
  - intros k ts a. rewrite list_elem_of_omap, Hm. setoid_rewrite live_lookup. split.
    + intros (x & Hx & E). apply elem_of_range_items in Hx as [Hk Hr]; [|done..].
      unfold read_item in E. destruct (cview (cache b) !! Key x) as [v|] eqn:Ev; [|done]. cbn in E.
      destruct (unmarshal v) eqn:Eu; cbn in E; [|done]. simplify_eq. naive_solver.
    + intros [(v & [Hk Hv] & Hu) Hr]. exists (MkTimeKey ts k). split; [by apply elem_of_range_items|].
      unfold read_item. cbn. rewrite Hv. cbn. by rewrite Hu.
Qed.

(** The signals a query returns. *)
Definition metric_at (x : TimeKey * Metrics) : MetricSignal := MkMetricSignal x.2 (MkContext (Timestamp x.1) "").
Definition log_at (x : TimeKey * Logs) : LogSignal := MkLogSignal x.2 (MkContext (Timestamp x.1) "").

Lemma omap_map {X Y Z'} (f : X → option Y) (g : Y → Z') (h : X → option Z') l :
  (∀ x, h x = g <$> f x) → omap h l = map g (omap f l).
Proof. intros H. induction l as [|x l IH]; [done|]. cbn. rewrite H. destruct (f x); cbn; by rewrite IH. Qed.

Lemma GetMetricsInRange_answer b start stop :
  buf_inv b → (Time.UnixNano stop < max_int64)%Z →
  ∃ l, GetMetricsInRange start stop b = Ok (map metric_at l, b) ∧ range_answer (metrics_at b) start stop l.
Proof.
  intros [Hi _] Hstop. eexists. split.
  - rewrite GetMetricsInRange_run by apply Hi. f_equal. f_equal.
    apply (omap_map (read_item b) metric_at). intros x. unfold read_item. by destruct (cview (cache b) !! Key x ≫= unmarshal).
  - apply read_items_answer; [done..|]. apply metrics_at_lookup.
Qed.

Lemma GetLogsInRange_answer b start stop :
  buf_inv b → (Time.UnixNano stop < max_int64)%Z →
  ∃ l, GetLogsInRange start stop b = Ok (map log_at l, b) ∧ range_answer (logs_at b) start stop l.
Proof.
  intros [Hi _] Hstop. eexists. split.
  - rewrite GetLogsInRange_run by apply Hi. f_equal. f_equal.
    apply (omap_map (read_item b) log_at). intros x. unfold read_item. by destruct (cview (cache b) !! Key x ≫= unmarshal).
  - apply read_items_answer; [done..|]. apply logs_at_lookup.
Qed.

(** C18: a query for metrics returns exactly the stored metrics whose time is in
    the closed range, in the order of time, and does not change the buffer; so
    does a query for the logs without a trace. *)
Theorem GetInRange_exact b start stop :
  buf_inv b → (Time.UnixNano stop < max_int64)%Z →
  (∃ l, GetMetricsInRange start stop b = Ok (map metric_at l, b) ∧ range_answer (metrics_at b) start stop l)
  ∧ ∃ l, GetLogsInRange start stop b = Ok (map log_at l, b) ∧ range_answer (logs_at b) start stop l.
Proof. intros Hb Hstop. split; [by apply GetMetricsInRange_answer|by apply GetLogsInRange_answer]. Qed.

(** ** Removing *)

Lemma out_of_range_metrics b b' start stop :
  (∀ k ts v, live KMetric b' !! k = Some (ts, v) ↔ live KMetric b !! k = Some (ts, v) ∧ ¬ in_range start stop ts) →
  metrics_at b' = filter (λ x, ¬ in_range start stop x.2.1) (metrics_at b).
Proof.
  intros H. apply map_eq. intros k. apply option_eq. intros [ts m].
  rewrite map_lookup_filter_Some, !metrics_at_lookup. setoid_rewrite H. cbn. naive_solver.
Qed.

Lemma out_of_range_logs b b' start stop :
  (∀ k ts v, live KLog b' !! k = Some (ts, v) ↔ live KLog b !! k = Some (ts, v) ∧ ¬ in_range start stop ts) →
  logs_at b' = filter (λ x, ¬ in_range start stop x.2.1) (logs_at b).
Proof.
  intros H. apply map_eq. intros k. apply option_eq. intros [ts m].
  rewrite map_lookup_filter_Some, !logs_at_lookup. setoid_rewrite H. cbn. naive_solver.
Qed.

Lemma RemoveMetricsInRange_filter e b start stop :
  buf_inv b → distinct b → (Time.UnixNano stop < max_int64)%Z →
  ∃ b', RemoveMetricsInRange e start stop b = Ok (tt, b') ∧ buf_inv b'
    ∧ metrics_at b' = filter (λ x, ¬ in_range start stop x.2.1) (metrics_at b)
    ∧ logs_at b' = logs_at b ∧ (∀ tid, trace_at b' tid = trace_at b tid) ∧ evictedChan b' = evictedChan b ∧ distinct b'.
Proof.
  intros Hb Hd Hstop. destruct (RemoveKindInRange_spec KMetric e start stop b Hb Hd Hstop) as (b' & Hrun & Hb' & Hl & Ho & Ht & Hc & Hd').
  exists b'. split_and!; try done; [by apply out_of_range_metrics|by apply logs_at_live, Ho].
Qed.

Lemma RemoveLogsInRange_filter e b start stop :
  buf_inv b → distinct b → (Time.UnixNano stop < max_int64)%Z →
  ∃ b', RemoveLogsInRange e start stop b = Ok (tt, b') ∧ buf_inv b'
    ∧ logs_at b' = filter (λ x, ¬ in_range start stop x.2.1) (logs_at b)
    ∧ metrics_at b' = metrics_at b ∧ (∀ tid, trace_at b' tid = trace_at b tid) ∧ evictedChan b' = evictedChan b ∧ distinct b'.
Proof.
  intros Hb Hd Hstop. destruct (RemoveKindInRange_spec KLog e start stop b Hb Hd Hstop) as (b' & Hrun & Hb' & Hl & Ho & Ht & Hc & Hd').
  exists b'. split_and!; try done; [by apply out_of_range_logs|by apply metrics_at_live, Ho].
Qed.

(** C19: removing a range of metrics returns; unless a key of an index has the hash
    of another key of the cache, it takes away the metrics a query for the range
    would return and nothing else: no other metric, no log, no trace, and
    nothing is sent for rollup; so does removing a range of logs. *)
Theorem RemoveInRange_exact e b start stop :
  buf_inv b → (Time.UnixNano stop < max_int64)%Z →
  (∃ b', RemoveMetricsInRange e start stop b = Ok (tt, b') ∧ buf_inv b' ∧ (distinct b →
    metrics_at b' = filter (λ x, ¬ in_range start stop x.2.1) (metrics_at b)
    ∧ logs_at b' = logs_at b ∧ (∀ tid, trace_at b' tid = trace_at b tid) ∧ evictedChan b' = evictedChan b))
  ∧ ∃ b', RemoveLogsInRange e start stop b = Ok (tt, b') ∧ buf_inv b' ∧ (distinct b →
    logs_at b' = filter (λ x, ¬ in_range start stop x.2.1) (logs_at b)
    ∧ metrics_at b' = metrics_at b ∧ (∀ tid, trace_at b' tid = trace_at b tid) ∧ evictedChan b' = evictedChan b).
Proof.
  intros Hb Hstop. split.
  - destruct (run_op_ok (OpRemoveMetrics e start stop) b Hb I) as (b' & Hr & Hb'). exists b'. split_and!; [done..|].
    intros Hd. destruct (RemoveMetricsInRange_filter e b start stop Hb Hd Hstop) as (b1 & Hr' & _ & Hspec).
    cbn in Hr. rewrite Hr in Hr'. injection Hr' as <-. tauto.
  - destruct (run_op_ok (OpRemoveLogs e start stop) b Hb I) as (b' & Hr & Hb'). exists b'. split_and!; [done..|].
    intros Hd. destruct (RemoveLogsInRange_filter e b start stop Hb Hd Hstop) as (b1 & Hr' & _ & Hspec).
    cbn in Hr. rewrite Hr in Hr'. injection Hr' as <-. tauto.
Qed.

Lemma RemoveTrace_spec e b tid :
  buf_inv b → lone (trace_key tid) (cache b) →
  ∃ b', RemoveTrace e tid b = Ok (tt, b') ∧ buf_inv b'
    ∧ (∀ tid', trace_at b' tid' = if decide (tid' = tid) then None else trace_at b tid')
    ∧ (∀ K, live K b' = live K b) ∧ evictedChan b' = evictedChan b ∧ (distinct b → distinct b').
Proof.
  intros Hb Hl. destruct (cacheDelete_spec e (trace_key tid) b Hb Hl) as (b' & Hrun & Hb' & Hv & Hk & Hc & _).
  exists b'. split_and!; try done.
  - intros tid'. unfold trace_at. rewrite Hv, lookup_delete.
    destruct (decide (tid' = tid)) as [->|Hne]; [by rewrite decide_True|].
    rewrite decide_False; [done|]. intros Heq. apply Hne. by apply (inj trace_key).
  - intros K. apply map_eq. intros k. unfold live. rewrite !map_lookup_imap, Hk, Hv, lookup_delete.
    destruct (decide (k = trace_key tid)) as [->|Hne].
    + rewrite (trace_key_unindexed K b tid) by apply Hb. by destruct (decide (_ ∧ _)).
    + rewrite (decide_False (P := k = _ ∧ _)) by tauto. by rewrite (decide_False (P := trace_key tid = k)) by congruence.
  - apply distinct_mono.
    + intros k v. rewrite Hv, lookup_delete_Some. by intros [_ ?].
    + intros K k ts. rewrite Hk. by case_decide.
Qed.

Lemma trace_at_lone b tid : is_Some (trace_at b tid) → lone (trace_key tid) (cache b).
Proof.
  unfold trace_at. intros [x Hx]. destruct (cview (cache b) !! trace_key tid) as [v|] eqn:E; [|done]. by eapply lone_cached.
Qed.

(** [RemoveTrace] removes the spans of a trace that is there and, with them, its
    logs; it touches nothing else and sends nothing for rollup. *)
Theorem RemoveTrace_exact e b tid :
  buf_inv b → is_Some (trace_at b tid) →
  ∃ b', RemoveTrace e tid b = Ok (tt, b') ∧ buf_inv b'
    ∧ (∀ tid', trace_at b' tid' = if decide (tid' = tid) then None else trace_at b tid')
    ∧ metrics_at b' = metrics_at b ∧ logs_at b' = logs_at b ∧ evictedChan b' = evictedChan b.
Proof.
  intros Hb Ht. destruct (RemoveTrace_spec e b tid Hb (trace_at_lone b tid Ht)) as (b' & ? & ? & ? & Hl & ? & _).
  exists b'. split_and!; try done; [by apply metrics_at_live|by apply logs_at_live].
Qed.

(** ** Reading a trace *)

(** What a buffer answers about a trace, given the trace's entry. *)
Definition trace_answer (o : option TraceEntry) : option TraceSignal :=
  o ← o; match te_spans o with [] => None | t => Some (MkTraceSignal t (MkContext (te_received o) "")) end.
Definition logs_answer (o : option TraceEntry) : option LogSignal :=
  o ← o; match te_logs o with [] => None | l => Some (MkLogSignal l (MkContext (te_received o) "")) end.

Lemma GetTrace_answer b tid : buf_inv b → GetTrace tid b = Ok (trace_answer (trace_at b tid), b).
Proof.
  intros Hb. unfold trace_at. rewrite GetTrace_run by done.
  destruct (decodeStored (cview (cache b) !! trace_key tid)) as [s|] eqn:E; [|done].
  apply decodeStored_inv in E as (_ & Ht & _); [|apply Hb]. unfold trace_answer. cbn -[decoded].
  pose proof (decoded_nil _ Ht) as Hn. destruct (st_TracesData s) as [|x d] eqn:Ed; [done|].
  destruct (decoded (x :: d)) eqn:Edec; [|done]. by destruct Hn as [Hn _]; specialize (Hn eq_refl).
Qed.

Lemma GetTraceLogs_answer b tid : buf_inv b → GetTraceLogs tid b = Ok (logs_answer (trace_at b tid), b).
Proof.
  intros Hb. unfold trace_at. rewrite GetTraceLogs_run by done.
  destruct (decodeStored (cview (cache b) !! trace_key tid)) as [s|] eqn:E; [|done].
  apply decodeStored_inv in E as (_ & _ & Ht); [|apply Hb]. unfold logs_answer. cbn -[decoded].
  pose proof (decoded_nil _ Ht) as Hn. destruct (st_LogsData s) as [|x d] eqn:Ed; [done|].
  destruct (decoded (x :: d)) eqn:Edec; [|done]. by destruct Hn as [Hn _]; specialize (Hn eq_refl).
Qed.

(** What was stored for a trace can be fetched: its spans with the time the
    trace was first seen, its logs likewise; nothing is found for a trace
    without spans, or without logs; and reading does not change the buffer. *)
Theorem GetTrace_entry b tid :
  buf_inv b →
  GetTrace tid b = Ok (trace_answer (trace_at b tid), b)
  ∧ GetTraceLogs tid b = Ok (logs_answer (trace_at b tid), b).
Proof. intros Hb. split; [by apply GetTrace_answer|by apply GetTraceLogs_answer]. Qed.

(** ** The operations of the buffer return *)

(** C6: in every state a new buffer can come to, every operation that runs
    alone returns: it does not panic, it does not block on the mutex that the
    removal hook takes, and the indices, the key maps and the cache still agree. *)
Theorem run_op_safe config dbg b0 b op :
  New config dbg = Some b0 → reachable b0 b → op_fresh op b →
  ∃ b', run_op op b = Ok (tt, b') ∧ buf_inv b'.
Proof. intros Hn Hr Hf. apply run_op_ok; [|done]. eapply reachable_inv; [by eapply New_inv|done]. Qed.

(** ** Eviction *)

Lemma evict_chan e r b :
  Chan.wf (evictedChan b) → r.2 ≠ Deleted →
  evictedChan (evict e r b) =
    Chan (take (chan_cap (evictedChan b))
      (chan_buf (evictedChan b) ++ option_list (evictedSignal e r.1.1 r.1.2))) (chan_cap (evictedChan b)).
Proof.
  intros Hwf Hr. unfold evict, sendEvicted. rewrite decide_True by (destruct r.2; tauto).
  destruct (evictedSignal e r.1.1 r.1.2) as [sig|]; cbn; rewrite cleanupIndex_chan.
  - by rewrite Chan.try_send_take.
  - rewrite app_nil_r, take_ge by exact Hwf. by destruct (evictedChan b).
Qed.

(** The hook sends the evicted signals in order, as many as fit. *)
Lemma evicts_chan e evs b :
  Chan.wf (evictedChan b) → (∀ r, r ∈ evs → r.2 ≠ Deleted) →
  evictedChan (evicts e evs b) =
    Chan (take (chan_cap (evictedChan b))
      (chan_buf (evictedChan b) ++ omap (λ r, evictedSignal e r.1.1 r.1.2) evs)) (chan_cap (evictedChan b)).
Proof.
  revert b. induction evs as [|r evs IH]; intros b Hwf Hr; cbn.
  - rewrite app_nil_r, take_ge by exact Hwf. by destruct (evictedChan b).
  - fold (evicts e evs (evict e r b)).
    assert (evictedChan (evict e r b) = _) as Hc by by apply evict_chan; [|apply Hr, list_elem_of_here].
    rewrite IH.
    + rewrite Hc. cbn. f_equal. rewrite take_app_take, <- app_assoc. f_equal. f_equal.
      by destruct (evictedSignal e r.1.1 r.1.2).
    + rewrite Hc. unfold Chan.wf. cbn. rewrite length_take. lia.
    + intros r' ?. by apply Hr, list_elem_of_further.
Qed.

Lemma evictedSignal_trace e tid v : evictedSignal e (trace_key tid) v = None.
Proof.
  unfold evictedSignal. pose proof (trace_key_prefix KMetric tid) as Hm.
  pose proof (trace_key_prefix KLog tid) as Hl. cbn [kprefix] in *. by rewrite Hm, Hl.
Qed.

(** C22: when BigCache expires entries, the metrics and time-bound logs among them
    go to the eviction channel in order, as many as fit in it; the entries of
    traces, with the logs bound to them, are dropped; the indices follow. *)
Theorem cacheClean_forwards e b :
  buf_inv b →
  ∃ evs b', cacheClean e b = Ok (tt, b') ∧ buf_inv b'
    ∧ (∀ k v r, (k, v, r) ∈ evs → r = Expired ∧ cview (cache b) !! k = Some v)
    ∧ (∀ k, cview (cache b') !! k = if decide (k ∈ rem_key <$> evs) then None else cview (cache b) !! k)
    ∧ (∀ K k, kmap K b' !! k = if decide (k ∈ rem_key <$> evs) then None else kmap K b !! k)
    ∧ chan_buf (evictedChan b') =
        take (chan_cap (evictedChan b))
          (chan_buf (evictedChan b) ++ omap (λ r, evictedSignal e r.1.1 r.1.2) evs)
    ∧ (∀ tid v r, (trace_key tid, v, r) ∈ evs → evictedSignal e (trace_key tid) v = None ∧ trace_at b' tid = None).
Proof.
  intros Hb. destruct (cacheClean_spec e b Hb) as (c & evs & Hc & Hrun & Hb').
  destruct (cclean_removals _ _ _ _ Hc) as [[_ Hev] Hexp].
  exists evs, (evicts e evs (set_cache c b)). rewrite evicts_set_cache_cache. split_and!; try done.
  - intros k v r Hin. split; [by eapply Hexp|by eapply Hev].
  - intros k. by apply (cclean_view _ _ _ _ _ Hc).
  - intros K k. apply evicts_set_cache_kmap, Hb.
  - rewrite evicts_chan; [done|apply Hb|]. intros [[k v] r] Hin. by eapply Hev.
  - intros tid v r Hin. split; [apply evictedSignal_trace|]. unfold trace_at.
    rewrite evicts_set_cache_cache, (cclean_view _ _ _ _ _ Hc), decide_True; [done|].
    apply list_elem_of_fmap. by exists (trace_key tid, v, r).
Qed.

(** ** When the cache accepts what is stored *)

(** The call of [cset] for one trace of a batch: [add] adds to its entry. *)
Definition entry_write {X} (add : StoredTraceData → X → StoredTraceData) (e : Env) (b : B) (x : TraceID * X) : string * bytes :=
  (trace_key x.1, Gob.Encode (add (fetchStored e (trace_key x.1) b) x.2)).

(** The calls of [cset] that [Store] makes, in order. *)
Definition trace_writes (e : Env) (sig : TraceSignal) (b : B) : list (string * bytes) :=
  map (entry_write add_traces e b) (env_range e (map_to_list (splitTraces (ts_Traces sig)))).
Definition metric_writes (e : Env) (sig : MetricSignal) : list (string * bytes) :=
  match marshal (ms_Metrics sig) with Some data => [(new_key KMetric e, data)] | None => [] end.
Definition log_writes (e : Env) (sig : LogSignal) (b : B) : list (string * bytes) :=
  map (entry_write add_logs e b) (env_range e (map_to_list (splitLogs (ls_Logs sig)).1))
  ++ match (splitLogs (ls_Logs sig)).2 ≫= marshal with Some data => [(new_key KLog e, data)] | None => [] end.

Definition with_spans (o : TraceEntry) (t : Traces) : TraceEntry := MkEntry (te_received o) (te_spans o ++ t) (te_logs o).
Definition with_logs (o : TraceEntry) (l : Logs) : TraceEntry := MkEntry (te_received o) (te_spans o) (te_logs o ++ l).

(** What a step of the loops of [storeTraces] and [storeSplitLogs] does when the
    cache accepts it and then [kvs]. *)
Definition adds_to {X} (upd : TraceEntry → X → TraceEntry) kvs (e : Env) (tid : TraceID) (x : X) (b b' : B) : Prop :=
  buf_inv b' ∧ accepts kvs (cache b')
  ∧ (∀ k, k ≠ trace_key tid → cview (cache b') !! k = cview (cache b) !! k)
  ∧ trace_at b' tid = Some (upd (old_entry e b tid) x)
  ∧ (∀ K, live K b' = live K b) ∧ evictedChan b' = evictedChan b ∧ (backed b → backed b').

Lemma fetchStored_same e k b b' :
  cview (cache b') !! k = cview (cache b) !! k → fetchStored e k b' = fetchStored e k b.
Proof. intros H. unfold fetchStored. by rewrite !cget_view, H. Qed.

Lemma trace_at_same b b' tid :
  cview (cache b') !! trace_key tid = cview (cache b) !! trace_key tid → trace_at b' tid = trace_at b tid.
Proof. unfold trace_at. by intros ->. Qed.

(** A trace entry that the cache accepts. *)
Lemma set_entry_accepted tid s kvs b :
  buf_inv b → stored_ok s → accepts ((trace_key tid, Gob.Encode s) :: kvs) (cache b) →
  ∃ c, cset (trace_key tid) (Gob.Encode s) (cache b) = (c, [], true) ∧ accepts kvs c
    ∧ (∀ k, k ≠ trace_key tid → cview c !! k = cview (cache b) !! k)
    ∧ trace_at (set_cache c b) tid = Some (entry_of s)
    ∧ (∀ K, live K (set_cache c b) = live K b) ∧ (backed b → backed (set_cache c b)).
Proof.
  intros Hb Hs Ha. destruct (accepts_cons _ _ _ _ Ha) as (c & Hset & Ha' & Hv). exists c. split_and!; try done.
  - intros k Hk. by rewrite Hv, lookup_insert_ne.
  - unfold trace_at. cbn [cache set_cache]. by rewrite Hv, lookup_insert_eq, decodeStored_encode.
  - intros K. eapply live_set_cache_trace; [apply Hb|done].
  - intros Hk K k. rewrite kmap_set_cache. cbn [cache set_cache]. rewrite Hv. intros Hs'. apply lookup_insert_is_Some'. right. by apply (Hk K).
Qed.

Lemma storeTrace_accepted kvs e tid t b :
  buf_inv b → accepts (entry_write add_traces e b (tid, t) :: kvs) (cache b) →
  (t ≠ [] ∧ is_Some (marshal (te_spans (old_entry e b tid) ++ t))) →
  ∃ b', storeTrace e (tid, t) b = Ok (tt, b') ∧ adds_to with_spans kvs e tid t b b'.
Proof.
  intros Hb Ha [Hne [d Hd]]. pose proof (fetchStored_ok e tid b (proj2 Hb)) as Hs.
  pose proof (fetchStored_entry e b tid (proj2 Hb)) as Hent. unfold entry_write in Ha. cbn [fst snd] in Ha.
  set (s := fetchStored e (trace_key tid) b) in *.
  destruct (set_entry_accepted tid (add_traces s t) kvs b Hb (add_traces_ok _ t Hne Hs) Ha) as (c & Hset & Ha' & Ho & Ht & Hl & Hk).
  destruct (storeTrace_run e tid t b c [] true Hb Hne Hset) as [Hrun Hb'].
  exists (set_cache c b). split; [done|]. split_and!; try done.
  rewrite Ht. rewrite <- Hent in Hd |- *. unfold entry_of, with_spans in *. cbn in *.
  rewrite Hd. cbn. by rewrite (decoded_marshal _ _ Hd).
Qed.

Lemma storeTraceLogs_accepted kvs e tid l b :
  buf_inv b → accepts (entry_write add_logs e b (tid, l) :: kvs) (cache b) →
  (l ≠ [] ∧ is_Some (marshal (te_logs (old_entry e b tid) ++ l))) →
  ∃ b', storeTraceLogs e (tid, l) b = Ok (tt, b') ∧ adds_to with_logs kvs e tid l b b'.
Proof.
  intros Hb Ha [Hne [d Hd]]. pose proof (fetchStored_ok e tid b (proj2 Hb)) as Hs.
  pose proof (fetchStored_entry e b tid (proj2 Hb)) as Hent. unfold entry_write in Ha. cbn [fst snd] in Ha.
  set (s := fetchStored e (trace_key tid) b) in *.
  destruct (set_entry_accepted tid (add_logs s l) kvs b Hb (add_logs_ok _ l Hne Hs) Ha) as (c & Hset & Ha' & Ho & Ht & Hl & Hk).
  destruct (storeTraceLogs_run e tid l b c [] true Hb Hne Hset) as [Hrun Hb'].
  exists (set_cache c b). split; [done|]. split_and!; try done.
  rewrite Ht. rewrite <- Hent in Hd |- *. unfold entry_of, with_logs in *. cbn in *.
  rewrite Hd. cbn. by rewrite (decoded_marshal _ _ Hd).
Qed.

(** A loop over distinct traces adds to each of them. *)
Section entry_loop.
Context {X : Type} (step : TraceID * X → Go B unit) (add : StoredTraceData → X → StoredTraceData).
Context (upd : TraceEntry → X → TraceEntry) (okay : TraceEntry → X → Prop) (e : Env).
Hypothesis step_adds : ∀ kvs tid x b,
  buf_inv b → accepts (entry_write add e b (tid, x) :: kvs) (cache b) → okay (old_entry e b tid) x →
  ∃ b', step (tid, x) b = Ok (tt, b') ∧ adds_to upd kvs e tid x b b'.

Lemma entry_loop kvs (l : list (TraceID * X)) b :
  buf_inv b → accepts (map (entry_write add e b) l ++ kvs) (cache b) → NoDup l.*1 →
  (∀ tid x, (tid, x) ∈ l → okay (old_entry e b tid) x) →
  ∃ b', for_each step l b = Ok (tt, b') ∧ buf_inv b' ∧ accepts kvs (cache b')
    ∧ (∀ tid x, (tid, x) ∈ l → trace_at b' tid = Some (upd (old_entry e b tid) x))
    ∧ (∀ tid, tid ∉ l.*1 → trace_at b' tid = trace_at b tid)
    ∧ (∀ K, live K b' = live K b) ∧ evictedChan b' = evictedChan b ∧ (backed b → backed b').
Proof.
  revert b. induction l as [|[tid t] l IH]; intros b Hb Ha Hnd Hm.
  - exists b. split_and!; try done. by intros ?? ?%elem_of_nil.
  - cbn in Hnd. apply NoDup_cons in Hnd as [Hn Hnd]. cbn [map app] in Ha.
    destruct (step_adds _ tid t b Hb Ha (Hm tid t (list_elem_of_here _ _)))
      as (b1 & Hrun & Hb1 & Ha1 & Hv1 & Ht1 & Hl1 & Hc1 & Hk1).
    assert (∀ tid', tid' ≠ tid → cview (cache b1) !! trace_key tid' = cview (cache b) !! trace_key tid') as Hsame.
    { intros tid' Hne. apply Hv1. by intros ?%(inj trace_key). }
    assert (∀ tid', tid' ≠ tid → old_entry e b1 tid' = old_entry e b tid') as Ho.
    { intros tid' Hne. unfold old_entry. by rewrite (trace_at_same b b1 tid') by auto. }
    assert (∀ tid' t', (tid', t') ∈ l → tid' ≠ tid) as Hother.
    { intros tid' t' Hin ->. apply Hn. apply list_elem_of_fmap. by exists (tid, t'). }
    destruct (IH b1 Hb1) as (b' & Hrun' & Hb' & Ha' & Ht' & Hn' & Hl' & Hc' & Hk'); [|done| |].
    { replace (map (entry_write add e b1) l) with (map (entry_write add e b) l); [done|].
      apply map_ext_in. intros [tid' t'] Hin%list_elem_of_In. unfold entry_write. cbn.
      rewrite (fetchStored_same e _ b b1); [done|]. by eapply Hsame, Hother. }
    { intros tid' t' Hin. rewrite Ho by by eapply Hother. by apply Hm, list_elem_of_further. }
    exists b'. cbn. erewrite bind_ok by exact Hrun. split_and!; try done; try congruence; [| |by auto].
    + intros tid' t' [[= -> ->]|Hin]%elem_of_cons; [by rewrite Hn'|].
      rewrite (Ht' _ _ Hin). by rewrite Ho by by eapply Hother.
    + intros tid' Hni. cbn in Hni. apply not_elem_of_cons in Hni as [Hne Hni].
      rewrite Hn' by done. apply trace_at_same. auto.
Qed.

(** The same loop over a Go map, in whatever order Go takes. *)
Lemma entry_map_loop kvs (m : gmap TraceID X) b :
  env_ok e → buf_inv b → accepts (map (entry_write add e b) (env_range e (map_to_list m)) ++ kvs) (cache b) →
  (∀ tid x, m !! tid = Some x → okay (old_entry e b tid) x) →
  ∃ b', for_each step (env_range e (map_to_list m)) b = Ok (tt, b') ∧ buf_inv b' ∧ accepts kvs (cache b')
    ∧ (∀ tid, trace_at b' tid = match m !! tid with
                               | Some x => Some (upd (old_entry e b tid) x)
                               | None => trace_at b tid end)
    ∧ (∀ K, live K b' = live K b) ∧ evictedChan b' = evictedChan b ∧ (backed b → backed b').
Proof.
  intros He Hb Ha Hok. pose proof (He _ _ (map_to_list m)) as Hp.
  destruct (entry_loop kvs (env_range e (map_to_list m)) b Hb Ha) as (b' & ? & ? & ? & Ht & Hn & ? & ? & ?).
  - rewrite Hp. apply NoDup_fst_map_to_list.
  - intros tid x Hin. rewrite Hp in Hin. by apply Hok, elem_of_map_to_list.
  - exists b'. split_and!; try done. intros tid. destruct (m !! tid) as [x|] eqn:E.
    + apply Ht. by rewrite Hp, elem_of_map_to_list.
    + apply Hn. rewrite Hp. intros ([? ?] & ? & Hin)%list_elem_of_fmap. cbn in *. subst. rewrite elem_of_map_to_list in Hin. congruence.
Qed.
End entry_loop.

(** The spans of a batch that go to the entry of [tid]. *)
Definition spans_of (sig : TraceSignal) (tid : TraceID) : Traces :=
  if IsEmpty tid then [] else alone_of sp_trace_id tid (flat (ts_Traces sig)).
Definition records_of (sig : LogSignal) (tid : TraceID) : Logs :=
  if IsEmpty tid then [] else alone_of lr_trace_id tid (flat (ls_Logs sig)).

Lemma storeTraces_accepted e sig b :
  buf_inv b → env_ok e → accepts (trace_writes e sig b) (cache b) →
  (∀ tid, spans_of sig tid ≠ [] → is_Some (marshal (te_spans (old_entry e b tid) ++ spans_of sig tid))) →
  ∃ b', storeTraces e sig b = Ok (None, b') ∧ buf_inv b'
    ∧ (∀ tid, trace_at b' tid =
         if decide (spans_of sig tid = []) then trace_at b tid
         else Some (with_spans (old_entry e b tid) (spans_of sig tid)))
    ∧ metrics_at b' = metrics_at b ∧ logs_at b' = logs_at b ∧ evictedChan b' = evictedChan b ∧ (backed b → backed b').
Proof.
  intros Hb He Ha Hm.
  assert (∀ tid, splitTraces (ts_Traces sig) !! tid = match spans_of sig tid with [] => None | t => Some t end) as Hsplit.
  { intros tid. rewrite splitTraces_fold, split_fold. unfold spans_of. by destruct (IsEmpty tid). }
  destruct (entry_map_loop (storeTrace e) add_traces with_spans (λ o t, t ≠ [] ∧ is_Some (marshal (te_spans o ++ t))) e
    (λ kvs tid t b, storeTrace_accepted kvs e tid t b) [] (splitTraces (ts_Traces sig)) b)
    as (b' & Hrun & Hb' & _ & Ht & Hl & Hc & Hk); try done.
  - by rewrite app_nil_r.
  - intros tid x Hx. rewrite Hsplit in Hx. specialize (Hm tid). destruct (spans_of sig tid); [done|].
    injection Hx as <-. split; [done|by apply Hm].
  - exists b'. unfold storeTraces. erewrite bind_ok by exact Hrun.
    split_and!; try done; [|by apply metrics_at_live|by apply logs_at_live].
    intros tid. rewrite Ht, Hsplit. by destruct (spans_of sig tid).
Qed.

(** C13: when the cache accepts what is written, storing a batch of traces appends
    to the entry of each trace the batch's spans of that trace, in order, keeps
    the time the trace was first seen and its logs, and leaves every other
    trace, the metrics and the logs alone. The cache accepts a write when [Set]
    succeeds without evicting and no other key has the hash of its key. *)
Theorem storeTraces_appends e sig b :
  buf_inv b → env_ok e → accepts (trace_writes e sig b) (cache b) →
  (∀ tid, spans_of sig tid ≠ [] → is_Some (marshal (te_spans (old_entry e b tid) ++ spans_of sig tid))) →
  ∃ b', storeTraces e sig b = Ok (None, b') ∧ buf_inv b'
    ∧ (∀ tid, trace_at b' tid =
         if decide (spans_of sig tid = []) then trace_at b tid
         else Some (with_spans (old_entry e b tid) (spans_of sig tid)))
    ∧ metrics_at b' = metrics_at b ∧ logs_at b' = logs_at b ∧ evictedChan b' = evictedChan b.
Proof.
  intros Hb He Ha Hm. destruct (storeTraces_accepted e sig b Hb He Ha Hm) as (b' & ? & ? & ? & ? & ? & ? & _). by exists b'.
Qed.

Lemma storeTimed_accepted K e data b :
  buf_inv b → kmap K b !! new_key K e = None → decodes K data → accepts [(new_key K e, data)] (cache b) →
  ∃ b', storeTimed K e (new_key K e) (Time.UnixNano (env_now e)) data b = Ok (tt, b') ∧ buf_inv b'
    ∧ live K b' = <[new_key K e := (Time.UnixNano (env_now e), data)]> (live K b)
    ∧ (∀ K', K' ≠ K → live K' b' = live K' b)
    ∧ (∀ tid, trace_at b' tid = trace_at b tid) ∧ evictedChan b' = evictedChan b ∧ (backed b → backed b').
Proof.
  intros Hb Hn Hd Ha. destruct (accepts_cons _ _ _ _ Ha) as (c & Hset & _ & Hv).
  destruct (storeTimed_new K e data b c [] true Hb Hn Hd Hset) as [Hrun Hb'].
  eexists. split; [exact Hrun|]. cbn [evicts foldl] in *.
  split_and!; [done| | | |by destruct K|].
  - apply map_eq. intros k. unfold live. rewrite map_lookup_imap, index_key_kmap, index_key_cache, kmap_set_cache.
    cbn [cache set_cache]. rewrite Hv, !lookup_insert. case_decide; [done|]. by rewrite map_lookup_imap.
  - intros K' Hne. apply map_eq. intros k. unfold live.
    rewrite !map_lookup_imap, index_key_kmap_other, index_key_cache, kmap_set_cache by done.
    cbn [cache set_cache]. rewrite Hv, lookup_insert. case_decide as Hk; [subst k|done].
    destruct (kmap K' b !! new_key K e) as [ts|] eqn:E; [|done]. exfalso. apply Hne.
    eapply prefix_disjoint; [eapply inv_prefix; [apply Hb|exact E]|apply timed_key_prefix].
  - intros tid. unfold trace_at. rewrite index_key_cache. cbn [cache set_cache]. rewrite Hv, lookup_insert.
    rewrite decide_False; [done|]. apply timed_key_not_trace.
  - intros Hk K' k. rewrite index_key_cache. cbn [cache set_cache]. rewrite Hv, lookup_insert_is_Some'.
    destruct (decide (K' = K)) as [->|Hne].
    + rewrite index_key_kmap, kmap_set_cache, lookup_insert_is_Some'. intros [?|?]; [by left|right; by apply (Hk K)].
    + rewrite index_key_kmap_other, kmap_set_cache by done. intros ?. right. by apply (Hk K').
Qed.

Lemma storeMetric_accepted e sig b :
  buf_inv b → store_fresh e b → accepts (metric_writes e sig) (cache b) →
  match marshal (ms_Metrics sig) with
  | None => storeMetric e sig b = Ok (Some ErrMarshal, b)
  | Some _ =>
      ∃ b', storeMetric e sig b = Ok (None, b') ∧ buf_inv b'
        ∧ metrics_at b' = <[new_key KMetric e := (Time.UnixNano (env_now e), ms_Metrics sig)]> (metrics_at b)
        ∧ logs_at b' = logs_at b ∧ (∀ tid, trace_at b' tid = trace_at b tid) ∧ evictedChan b' = evictedChan b ∧ (backed b → backed b')
  end.
Proof.
  unfold metric_writes. intros Hb Hf Ha. destruct (marshal (ms_Metrics sig)) as [data|] eqn:Hm.
  - destruct (storeTimed_accepted KMetric e data b Hb (Hf KMetric) (marshal_decodes_metric _ _ Hm) Ha)
      as (b' & Hrun & Hb' & Hl & Ho & Ht & Hc & Hk).
    exists b'. erewrite storeMetric_timed, bind_ok by done. split_and!; try done; [|by apply logs_at_live, Ho].
    unfold metrics_at. rewrite Hl, (omap_insert_Some _ _ _ _ (Time.UnixNano (env_now e), ms_Metrics sig)); [done|].
    cbn. by rewrite (unmarshal_marshal _ _ Hm).
  - unfold storeMetric. by rewrite Hm.
Qed.

(** When the cache accepts it, a metric signal is stored under its own key with
    the time of the call; when it cannot be marshaled the caller gets the error
    and the buffer stays as it was. *)
Theorem storeMetric_inserts e sig b :
  buf_inv b → store_fresh e b → accepts (metric_writes e sig) (cache b) →
  match marshal (ms_Metrics sig) with
  | None => storeMetric e sig b = Ok (Some ErrMarshal, b)
  | Some _ =>
      ∃ b', storeMetric e sig b = Ok (None, b') ∧ buf_inv b'
        ∧ metrics_at b' = <[new_key KMetric e := (Time.UnixNano (env_now e), ms_Metrics sig)]> (metrics_at b)
        ∧ logs_at b' = logs_at b ∧ (∀ tid, trace_at b' tid = trace_at b tid) ∧ evictedChan b' = evictedChan b
  end.
Proof.
  intros Hb Hf Ha. pose proof (storeMetric_accepted e sig b Hb Hf Ha) as H. case_match; [|done].
  destruct H as (b' & ? & ? & ? & ? & ? & ? & _). by exists b'.
Qed.

Lemma storeSplitLogs_accepted e sig b :
  buf_inv b → env_ok e → store_fresh e b → accepts (log_writes e sig b) (cache b) →
  (∀ tid, records_of sig tid ≠ [] → is_Some (marshal (te_logs (old_entry e b tid) ++ records_of sig tid))) →
  (∀ l, (splitLogs (ls_Logs sig)).2 = Some l → is_Some (marshal l)) →
  ∃ b', storeSplitLogs e sig b = Ok (None, b') ∧ buf_inv b'
    ∧ (∀ tid, trace_at b' tid =
         if decide (records_of sig tid = []) then trace_at b tid
         else Some (with_logs (old_entry e b tid) (records_of sig tid)))
    ∧ logs_at b' = match (splitLogs (ls_Logs sig)).2 with
                   | None => logs_at b
                   | Some l => <[new_key KLog e := (Time.UnixNano (env_now e), l)]> (logs_at b)
                   end
    ∧ metrics_at b' = metrics_at b ∧ evictedChan b' = evictedChan b ∧ (backed b → backed b').
Proof.
  intros Hb He Hf Ha Hm Hml.
  assert (∀ tid, (splitLogs (ls_Logs sig)).1 !! tid = match records_of sig tid with [] => None | t => Some t end) as Hsplit.
  { intros tid. rewrite splitLogs_fold, log_steps. cbn [fst]. rewrite split_fold. unfold records_of. by destruct (IsEmpty tid). }
  pose proof (λ tid t, split_logs_env e (ls_Logs sig) tid t He) as Hne.
  unfold log_writes in Ha. unfold storeSplitLogs. destruct (splitLogs (ls_Logs sig)) as [tl rest]. cbn [fst snd] in *.
  destruct (entry_map_loop (storeTraceLogs e) add_logs with_logs (λ o t, t ≠ [] ∧ is_Some (marshal (te_logs o ++ t))) e
    (λ kvs tid l b, storeTraceLogs_accepted kvs e tid l b) _ tl b He Hb Ha) as (b1 & Hrun & Hb1 & Ha1 & Ht & Hl & Hc & Hk).
  - intros tid x Hx. rewrite Hsplit in Hx. specialize (Hm tid). destruct (records_of sig tid); [done|].
    injection Hx as <-. split; [done|by apply Hm].
  - assert (∀ tid, trace_at b1 tid = if decide (records_of sig tid = []) then trace_at b tid
         else Some (with_logs (old_entry e b tid) (records_of sig tid))) as Ht1.
    { intros tid. rewrite Ht, Hsplit. by destruct (records_of sig tid). }
    erewrite bind_ok by exact Hrun. destruct rest as [l|].
    + destruct (Hml l eq_refl) as [data Hd]. cbn in Ha1. rewrite Hd in Ha1.
      destruct (storeTimed_accepted KLog e data b1 Hb1) as (b' & Hrun' & Hb' & Hl' & Ho & Ht' & Hc' & Hk');
        [|by eapply marshal_decodes_log|done|].
      { pose proof (storeTraceLogs_loop e (env_range e (map_to_list tl)) b Hb Hne) as (b2 & Hrun2 & _ & Hu).
        rewrite Hrun in Hrun2. injection Hrun2 as <-. apply Hu, (Hf KLog). }
      exists b'. rewrite <- (storeTimeLogs_timed e l data b1 Hd) in Hrun'. erewrite bind_ok by exact Hrun'.
      split_and!; try done; [by intros tid; rewrite Ht', Ht1| |by apply metrics_at_live; rewrite Ho, Hl|by rewrite Hc'|by auto].
      unfold logs_at. rewrite Hl', (omap_insert_Some _ _ _ _ (Time.UnixNano (env_now e), l)); [by rewrite Hl|].
      cbn. by rewrite (unmarshal_marshal _ _ Hd).
    + exists b1. split_and!; try done; [by apply logs_at_live|by apply metrics_at_live].
Qed.

(** C21: when the cache accepts what is written, a batch of logs is split: the
    records of a trace are appended to the entry of that trace, those without a
    trace are stored together with the time of the call; nothing of the batch
    is lost. *)
Theorem storeSplitLogs_splits e sig b :
  buf_inv b → env_ok e → store_fresh e b → accepts (log_writes e sig b) (cache b) →
  (∀ tid, records_of sig tid ≠ [] → is_Some (marshal (te_logs (old_entry e b tid) ++ records_of sig tid))) →
  (∀ l, (splitLogs (ls_Logs sig)).2 = Some l → is_Some (marshal l)) →
  ∃ b', storeSplitLogs e sig b = Ok (None, b') ∧ buf_inv b'
    ∧ (∀ tid, trace_at b' tid =
         if decide (records_of sig tid = []) then trace_at b tid
         else Some (with_logs (old_entry e b tid) (records_of sig tid)))
    ∧ logs_at b' = match (splitLogs (ls_Logs sig)).2 with
                   | None => logs_at b
                   | Some l => <[new_key KLog e := (Time.UnixNano (env_now e), l)]> (logs_at b)
                   end
    ∧ metrics_at b' = metrics_at b ∧ evictedChan b' = evictedChan b.
Proof.
  intros Hb He Hf Ha Hm Hl. destruct (storeSplitLogs_accepted e sig b Hb He Hf Ha Hm Hl) as (b' & ? & ? & ? & ? & ? & ? & _). by exists b'.
Qed.
End BufferTheorems.
