(* ===== verification/BufferRefinement.v ===== *)
(** The buffer refines a specification: whatever sequence of operations is run on
    an [InMemoryBuffer], with its cache, its two indices, its key maps and its
    encodings, the answers are those of a plain table of traces, metrics and
    logs, as long as the cache accepts what is stored. *)
From S2P Require Import Prelude GoStd PData Signals Config Cache Gob Buffer BufferLemmas Split BufferSpec BufferTypes BufferTheorems.

(** ** The specification *)

(** What a client thinks of when it uses a buffer. *)
Record Table := MkTable {
  tb_traces : TraceID → option TraceEntry;
  tb_metrics : gmap string (Z * Metrics);
  tb_logs : gmap string (Z * Logs) }.

Inductive Answer :=
| ADone
| AStored (err : option BufferError)
| ATrace (t : option TraceSignal)
| ATraceLogs (l : option LogSignal)
| AMetrics (l : list MetricSignal)
| ALogs (l : list LogSignal)
| ACount (n : nat).

Section Spec.
Context `{!Codec Traces} `{!Codec Metrics} `{!Codec Logs}.
Implicit Types (a : Table).

(** The entry that what comes for [tid] is added to. *)
Definition entry_in (e : Env) a (tid : TraceID) : TraceEntry :=
  default (MkEntry (Time.UnixNano (env_now_at e (trace_key tid))) [] []) (tb_traces a tid).

(** What each operation may answer, and the table afterwards. *)
Inductive spec : BufferOp → Table → Answer → Table → Prop :=
| spec_store_traces e s a a' :
    (∀ tid, tb_traces a' tid =
       if decide (spans_of s tid = []) then tb_traces a tid else Some (with_spans (entry_in e a tid) (spans_of s tid))) →
    tb_metrics a' = tb_metrics a → tb_logs a' = tb_logs a →
    spec (OpStore e (SigTrace s)) a (AStored None) a'
| spec_store_metric e s a a' :
    is_Some (marshal (ms_Metrics s)) →
    tb_metrics a' = <[new_key KMetric e := (Time.UnixNano (env_now e), ms_Metrics s)]> (tb_metrics a) →
    (∀ tid, tb_traces a' tid = tb_traces a tid) → tb_logs a' = tb_logs a →
    spec (OpStore e (SigMetric s)) a (AStored None) a'
| spec_store_metric_fails e s a :
    marshal (ms_Metrics s) = None → spec (OpStore e (SigMetric s)) a (AStored (Some ErrMarshal)) a
| spec_store_logs e s a a' :
    (∀ tid, tb_traces a' tid =
       if decide (records_of s tid = []) then tb_traces a tid else Some (with_logs (entry_in e a tid) (records_of s tid))) →
    tb_logs a' = match (splitLogs (ls_Logs s)).2 with
                 | None => tb_logs a
                 | Some l => <[new_key KLog e := (Time.UnixNano (env_now e), l)]> (tb_logs a)
                 end →
    tb_metrics a' = tb_metrics a →
    spec (OpStore e (SigLog s)) a (AStored None) a'
| spec_store_other e ty ctx a : spec (OpStore e (OtherSignal ty ctx)) a (AStored None) a
| spec_remove_trace e tid a a' :
    (∀ tid', tb_traces a' tid' = if decide (tid' = tid) then None else tb_traces a tid') →
    tb_metrics a' = tb_metrics a → tb_logs a' = tb_logs a →
    spec (OpRemoveTrace e tid) a ADone a'
| spec_remove_metrics e start stop a a' :
    tb_metrics a' = filter (λ x, ¬ in_range start stop x.2.1) (tb_metrics a) →
    (∀ tid, tb_traces a' tid = tb_traces a tid) → tb_logs a' = tb_logs a →
    spec (OpRemoveMetrics e start stop) a ADone a'
| spec_remove_logs e start stop a a' :
    tb_logs a' = filter (λ x, ¬ in_range start stop x.2.1) (tb_logs a) →
    (∀ tid, tb_traces a' tid = tb_traces a tid) → tb_metrics a' = tb_metrics a →
    spec (OpRemoveLogs e start stop) a ADone a'
| spec_clear_metrics e a a' :
    tb_metrics a' = ∅ → (∀ tid, tb_traces a' tid = tb_traces a tid) → tb_logs a' = tb_logs a →
    spec (OpClearMetrics e) a ADone a'
| spec_clear_logs e a a' :
    tb_logs a' = ∅ → (∀ tid, tb_traces a' tid = tb_traces a tid) → tb_metrics a' = tb_metrics a →
    spec (OpClearLogs e) a ADone a'
| spec_get_trace tid a : spec (OpGetTrace tid) a (ATrace (trace_answer (tb_traces a tid))) a
| spec_get_trace_logs tid a : spec (OpGetTraceLogs tid) a (ATraceLogs (logs_answer (tb_traces a tid))) a
| spec_get_metrics start stop l a :
    range_answer (tb_metrics a) start stop l → spec (OpGetMetrics start stop) a (AMetrics (map metric_at l)) a
| spec_get_logs start stop l a :
    range_answer (tb_logs a) start stop l → spec (OpGetLogs start stop) a (ALogs (map log_at l)) a
| spec_count tids a :
    NoDup tids → (∀ tid, tid ∈ tids ↔ is_Some (tb_traces a tid)) →
    spec OpCount a (ACount (length tids + size (tb_metrics a) + size (tb_logs a))) a
| spec_clean e a a' :
    (∀ tid x, tb_traces a' tid = Some x → tb_traces a tid = Some x) →
    tb_metrics a' ⊆ tb_metrics a → tb_logs a' ⊆ tb_logs a →
    spec (OpClean e) a ADone a'.

Inductive specs : list BufferOp → Table → list Answer → Table → Prop :=
| specs_nil a : specs [] a [] a
| specs_cons op ops a ans a1 answers a2 :
    spec op a ans a1 → specs ops a1 answers a2 → specs (op :: ops) a (ans :: answers) a2.

(** ** What the code relies on *)

(** What is stored can be encoded, times are before the year 2262, and Go visits
    every entry of a map. *)
Definition op_fits (op : BufferOp) a : Prop :=
  match op with
  | OpStore e (SigTrace s) =>
      ∀ tid, spans_of s tid ≠ [] → is_Some (marshal (te_spans (entry_in e a tid) ++ spans_of s tid))
  | OpStore e (SigLog s) =>
      (∀ tid, records_of s tid ≠ [] → is_Some (marshal (te_logs (entry_in e a tid) ++ records_of s tid)))
      ∧ ∀ l, (splitLogs (ls_Logs s)).2 = Some l → is_Some (marshal l)
  | OpRemoveMetrics _ _ stop | OpRemoveLogs _ _ stop | OpGetMetrics _ stop | OpGetLogs _ stop =>
      (Time.UnixNano stop < max_int64)%Z
  | OpClearMetrics e | OpClearLogs e => env_ok e
  | _ => True
  end.
End Spec.

Section Refinement.
Context {C T : Type} `{!BigCache C, !BigCacheLaws C} `{!BTree T, !BTreeLaws T} .
Context `{!Codec Traces, !CodecLaws Traces} `{!Codec Metrics, !CodecLaws Metrics} `{!Codec Logs, !CodecLaws Logs}.

Abbreviation B := (InMemoryBuffer C T).
Implicit Types (b : B) (e : Env).

(** An operation of the code with its answer. *)
Definition answer_op (op : BufferOp) : Go B Answer :=
  match op with
  | OpStore e sig => r ← Store e sig; mret (AStored r)
  | OpGetTrace tid => r ← GetTrace tid; mret (ATrace r)
  | OpGetTraceLogs tid => r ← GetTraceLogs tid; mret (ATraceLogs r)
  | OpGetMetrics start stop => r ← GetMetricsInRange start stop; mret (AMetrics r)
  | OpGetLogs start stop => r ← GetLogsInRange start stop; mret (ALogs r)
  | OpCount => r ← GetTraceCount; mret (ACount r)
  | op => _ ← run_op op; mret ADone
  end.

Fixpoint answer_ops (ops : list BufferOp) : Go B (list Answer) :=
  match ops with
  | [] => mret []
  | op :: ops' => r ← answer_op op; rs ← answer_ops ops'; mret (r :: rs)
  end.

(** The table a buffer stands for. *)
Definition table_of (b : B) : Table := MkTable (trace_at b) (metrics_at b) (logs_at b).

(** The cache accepts what the operation stores; the key of a trace that is to be
    removed does not have the hash of another key. *)
Definition op_accepted (op : BufferOp) (b : B) : Prop :=
  match op with
  | OpStore e (SigTrace s) => accepts (trace_writes e s b) (cache b)
  | OpStore e (SigMetric s) => accepts (metric_writes e s) (cache b)
  | OpStore e (SigLog s) => accepts (log_writes e s b) (cache b)
  | OpRemoveTrace _ tid => lone (trace_key tid) (cache b)
  | _ => True
  end.

(** Each operation of the sequence has what it relies on when its turn comes. *)
Fixpoint ops_fit (ops : list BufferOp) (b : B) : Prop :=
  match ops with
  | [] => True
  | op :: ops' => op_fresh op b ∧ op_fits op (table_of b) ∧ op_accepted op b
      ∧ ∀ ans b', answer_op op b = Ok (ans, b') → ops_fit ops' b'
  end.

(** *** The states of a buffer whose cache has accepted what was stored *)
Record sound (b : B) : Prop := { sound_inv : buf_inv b; sound_keyed : keyed b; sound_backed : backed b }.

Lemma sound_deletes e keys b b' :
  sound b → for_each (cacheDelete e) keys b = Ok (tt, b') → sound b'.
Proof.
  intros Hb. assert (keeps sound (for_each (cacheDelete e) keys)) as H; [|by eapply H].
  apply keeps_for_each. intros key _ b1 [] b2 [Hi Hk Hs] Hrun. split.
  - destruct (cacheDelete_returns e key b1 Hi) as (b3 & Hrun' & ? & _). rewrite Hrun in Hrun'. by injection Hrun' as <-.
  - by eapply keyed_cacheDelete.
  - by destruct (backed_cacheDelete e key b1 tt b2 (conj (proj1 Hi) Hs) Hrun).
Qed.

(** The keys that are not of a metric or of logs are those of traces. *)
Lemma trace_keys (keys : list string) b :
  keyed b → (∀ k, k ∈ keys → is_Some (cview (cache b) !! k) ∧ ∀ K, Str.HasPrefix k (kprefix K) = false) →
  ∃ tids, keys = trace_key <$> tids.
Proof.
  intros Hk. induction keys as [|k keys IH]; intros Hall; [by exists []|].
  destruct IH as [tids ->]; [intros k' ?; by apply Hall, list_elem_of_further|].
  destruct (Hall k (list_elem_of_here _ _)) as [[v Hv] Hp].
  destruct (keyed_cache _ Hk k v Hv) as [[tid ->]|(K & ts & u & ->)]; [by exists (tid :: tids)|].
  specialize (Hp K). by rewrite timed_key_prefix in Hp.
Qed.

Lemma dom_metrics_at b k :
  buf_inv b → is_Some (metrics_at b !! k) ↔ is_Some (cview (cache b) !! k) ∧ Str.HasPrefix k metric_prefix = true.
Proof.
  intros [Hi Hc]. split.
  - intros [[ts m] (v & [Hk Hv]%live_lookup & _)%metrics_at_lookup]. split; [by eexists|by apply (inv_prefix _ Hi KMetric k ts)].
  - intros [[v Hv] Hp]. destruct (inv_cached _ Hc KMetric k v Hv Hp) as [[ts Hts] [m Hm]]. exists (ts, m).
    apply metrics_at_lookup. exists v. split; [by apply live_lookup|done].
Qed.

Lemma dom_logs_at b k :
  buf_inv b → is_Some (logs_at b !! k) ↔ is_Some (cview (cache b) !! k) ∧ Str.HasPrefix k log_prefix = true.
Proof.
  intros [Hi Hc]. split.
  - intros [[ts m] (v & [Hk Hv]%live_lookup & _)%logs_at_lookup]. split; [by eexists|by apply (inv_prefix _ Hi KLog k ts)].
  - intros [[v Hv] Hp]. destruct (inv_cached _ Hc KLog k v Hv Hp) as [[ts Hts] [m Hm]]. exists (ts, m).
    apply logs_at_lookup. exists v. split; [by apply live_lookup|done].
Qed.

Lemma trace_at_cached b tid : buf_inv b → is_Some (trace_at b tid) ↔ is_Some (cview (cache b) !! trace_key tid).
Proof.
  intros [_ Hc]. unfold trace_at. rewrite fmap_is_Some. split.
  - intros [s Hs]. destruct (cview (cache b) !! trace_key tid); [by eexists|done].
  - intros [v Hv]. destruct (inv_trace _ Hc _ _ Hv) as (s & -> & Hs). exists s. by rewrite Hv, decodeStored_encode.
Qed.

(** The cache counts the traces, the metrics and the logs together. *)
Lemma count_entries b :
  buf_inv b → keyed b →
  ∃ tids, NoDup tids ∧ (∀ tid, tid ∈ tids ↔ is_Some (trace_at b tid))
    ∧ size (cview (cache b)) = length tids + size (metrics_at b) + size (logs_at b).
Proof.
  intros Hb Hk. set (D := dom (cview (cache b))). set (M := dom (metrics_at b)). set (L := dom (logs_at b)).
  assert (∀ k, k ∈ M ↔ k ∈ D ∧ Str.HasPrefix k metric_prefix = true) as HM.
  { intros k. unfold M, D. rewrite !elem_of_dom. by apply dom_metrics_at. }
  assert (∀ k, k ∈ L ↔ k ∈ D ∧ Str.HasPrefix k log_prefix = true) as HL.
  { intros k. unfold L, D. rewrite !elem_of_dom. by apply dom_logs_at. }
  destruct (trace_keys (elements (D ∖ (M ∪ L))) b Hk) as [tids Htids].
  { intros k. rewrite elem_of_elements, elem_of_difference, elem_of_union, HM, HL. intros [HD Hn].
    split; [by apply elem_of_dom|]. intros K. apply not_true_is_false. destruct K; cbn; tauto. }
  exists tids. split_and!.
  - apply (NoDup_fmap_1 trace_key). rewrite <- Htids. apply NoDup_elements.
  - intros tid. rewrite trace_at_cached, <- elem_of_dom by done. fold D. transitivity (trace_key tid ∈ trace_key <$> tids).
    + rewrite list_elem_of_fmap. split; [intros ?; by exists tid|]. by intros (? & ->%(inj trace_key) & ?).
    + rewrite <- Htids, elem_of_elements, elem_of_difference, elem_of_union, HM, HL.
      pose proof (trace_key_prefix KMetric tid) as H1. pose proof (trace_key_prefix KLog tid) as H2. cbn in H1, H2.
      rewrite H1, H2. naive_solver.
  - transitivity (size D); [unfold D; by rewrite size_dom|].
    assert (M ## L) as Hdis.
    { intros k [_ H1]%HM [_ H2]%HL. by pose proof (prefix_disjoint KMetric KLog k H1 H2). }
    assert (length tids = size (D ∖ (M ∪ L))) as ->.
    { transitivity (length (trace_key <$> tids)); [by rewrite length_fmap|by rewrite <- Htids]. }
    rewrite <- (size_dom (metrics_at b)), <- (size_dom (logs_at b)). fold M L.
    rewrite <- Nat.add_assoc, <- (size_union M L), <- size_union by set_solver. f_equal. apply set_eq. intros k.
    rewrite elem_of_union, elem_of_difference. destruct (decide (k ∈ M ∪ L)) as [H|H]; [|tauto].
    split; [by right|]. intros _. set_solver.
Qed.

(** *** Clearing *)
Lemma clear_kind K e (keys : list string) b :
  buf_inv b → distinct b → (∀ k, k ∈ keys ↔ is_Some (kmap K b !! k)) →
  ∃ b', for_each (cacheDelete e) keys b = Ok (tt, b') ∧ live K b' = ∅
    ∧ (∀ K', K' ≠ K → live K' b' = live K' b) ∧ (∀ tid, trace_at b' tid = trace_at b tid).
Proof.
  intros Hb Hd Hkeys. destruct (deletes_live e K keys b Hb Hd) as (b' & Hrun & _ & Hl & Ho & Ht & _); [by intros k ?%Hkeys|].
  exists b'. split_and!; try done. apply map_empty. intros k. rewrite Hl. case_decide as Hk; [done|].
  rewrite Hkeys in Hk. unfold live. rewrite map_lookup_imap. destruct (kmap K b !! k); [|done]. destruct Hk. by eexists.
Qed.

Lemma map_keys_elem e (m : gmap string Z) k : env_ok e → k ∈ (env_range e (map_to_list m)).*1 ↔ is_Some (m !! k).
Proof.
  intros He. rewrite (He _ _ _), list_elem_of_fmap. split.
  - intros ([k' ts] & -> & Hin%elem_of_map_to_list). by eexists.
  - intros [ts Hts]. exists (k, ts). split; [done|]. by apply elem_of_map_to_list.
Qed.

(** *** One operation *)

(** The operation of the code ends in [b'] with the answer the table gives. *)
Definition refines (op : BufferOp) (b : B) : Prop :=
  ∃ ans b', answer_op op b = Ok (ans, b') ∧ sound b' ∧ spec op (table_of b) ans (table_of b').

Lemma answer_run op b ans b' : answer_op op b = Ok (ans, b') → run_op op b = Ok (tt, b').
Proof.
  assert (∀ A (m : Go B A) (f : A → Answer), (r ← m; mret (f r)) b = Ok (ans, b') → discard m b = Ok (tt, b')) as H.
  { intros A m f. unfold discard, mbind, Go_bind, mret, Go_ret. destruct (m b) as [[? ?]| |]; [|done..]. by intros [= _ ->]. }
  assert (∀ m : Go B unit, (_ ← m; mret ADone) b = Ok (ans, b') → m b = Ok (tt, b')) as H'.
  { intros m. unfold mbind, Go_bind, mret, Go_ret. destruct (m b) as [[[] ?]| |]; [|done..]. by intros [= _ ->]. }
  destruct op; cbn [answer_op run_op]; first [apply H'|apply H].
Qed.

Lemma refines_run op b ans b' :
  sound b → op_fresh op b → answer_op op b = Ok (ans, b') → (backed b → backed b') →
  spec op (table_of b) ans (table_of b') → refines op b.
Proof.
  intros [Hi Hk Hb] Hf Hrun Hb' Hspec. exists ans, b'. split; [done|]. split; [|done]. apply answer_run in Hrun as Hr.
  split; [|by eapply keyed_run|by auto].
  destruct (run_op_ok op b Hi Hf) as (b1 & Hr1 & ?). rewrite Hr in Hr1. by injection Hr1 as <-.
Qed.

Lemma store_refines e sig b :
  sound b → op_fresh (OpStore e sig) b → op_fits (OpStore e sig) (table_of b) → op_accepted (OpStore e sig) b →
  refines (OpStore e sig) b.
Proof.
  intros Hb Hfr Hfit Ha. pose proof (sound_inv _ Hb) as Hi. destruct Hfr as [He Hf] eqn:Hfr'. clear Hfr'.
  destruct sig as [s|s|s|ty ctx]; cbn [op_accepted] in Ha.
  - destruct (storeTraces_accepted e s b Hi He Ha Hfit) as (b' & Hrun & _ & Ht & Hm & Hl & _ & Hk).
    eapply (refines_run _ _ (AStored None) b'); [done..| |done|by constructor]. cbn. by erewrite bind_ok by exact Hrun.
  - pose proof (storeMetric_accepted e s b Hi Hf Ha) as H. destruct (marshal (ms_Metrics s)) as [d|] eqn:Em.
    + destruct H as (b' & Hrun & _ & Hm & Hl & Ht & _ & Hk).
      eapply (refines_run _ _ (AStored None) b'); [done..| |done|constructor; [by rewrite Em|done..]].
      cbn. by erewrite bind_ok by exact Hrun.
    + eapply (refines_run _ _ (AStored (Some ErrMarshal)) b); [done..| |done|by constructor].
      cbn. by erewrite bind_ok by exact H.
  - destruct Hfit as [Hfit Hfl].
    destruct (storeSplitLogs_accepted e s b Hi He Hf Ha Hfit Hfl) as (b' & Hrun & _ & Ht & Hl & Hm & _ & Hk).
    eapply (refines_run _ _ (AStored None) b'); [done..| |done|by constructor]. cbn. by erewrite bind_ok by exact Hrun.
  - by eapply (refines_run _ _ (AStored None) b); [..|constructor].
Qed.

(** An operation that ends in deletions. *)
Lemma deletes_refine op e keys b b' :
  sound b → op_fresh op b → run_op op b = Ok (tt, b') → run_op op b = for_each (cacheDelete e) keys b →
  answer_op op b = (_ ← run_op op; mret ADone) b → spec op (table_of b) ADone (table_of b') → refines op b.
Proof.
  intros Hb Hf Hrun Hdel Hans Hspec. eapply refines_run; [done..| | |done].
  - rewrite Hans. by erewrite bind_ok by exact Hrun.
  - intros _. rewrite Hdel in Hrun. by apply (sound_deletes e keys b).
Qed.

Lemma remove_refines op b :
  match op with OpRemoveTrace _ _ | OpRemoveMetrics _ _ _ | OpRemoveLogs _ _ _ => True | _ => False end →
  sound b → op_fresh op b → op_fits op (table_of b) → op_accepted op b → refines op b.
Proof.
  intros Hop Hb Hfr Hfit Ha. pose proof (sound_inv _ Hb) as Hi. pose proof (inv_mu _ (proj1 Hi)) as Hmu.
  pose proof (backed_distinct _ (sound_backed _ Hb)) as Hd.
  destruct op as [|e tid|e start stop|e start stop| | | | | | | |]; try done; cbn [op_fits op_accepted] in *.
  - destruct (RemoveTrace_spec e b tid Hi Ha) as (b' & Hrun & _ & Ht & Hl & _).
    apply (deletes_refine _ e [trace_key tid] b b'); try done.
    + cbn. unfold RemoveTrace, mbind, Go_bind. by destruct cacheDelete as [[[] ?]| |].
    + constructor; [done|by apply metrics_at_live|by apply logs_at_live].
  - destruct (RemoveMetricsInRange_filter e b start stop Hi Hd Hfit) as (b' & Hrun & _ & Hm & Hl & Ht & _).
    apply (deletes_refine _ e (map Key (range_items KMetric b start stop)) b b'); try done; [|by constructor].
    by apply (RemoveKindInRange_run KMetric).
  - destruct (RemoveLogsInRange_filter e b start stop Hi Hd Hfit) as (b' & Hrun & _ & Hm & Hl & Ht & _).
    apply (deletes_refine _ e (map Key (range_items KLog b start stop)) b b'); try done; [|by constructor].
    by apply (RemoveKindInRange_run KLog).
Qed.

Lemma clear_refines op b :
  match op with OpClearMetrics _ | OpClearLogs _ => True | _ => False end →
  sound b → op_fresh op b → op_fits op (table_of b) → refines op b.
Proof.
  intros Hop Hb Hfr Hfit. pose proof (sound_inv _ Hb) as Hi. pose proof (inv_mu _ (proj1 Hi)) as Hmu.
  pose proof (backed_distinct _ (sound_backed _ Hb)) as Hd.
  destruct op as [| | | |e|e| | | | | |]; try done; cbn [op_fits] in *.
  - set (keys := (env_range e (map_to_list (metricKeyMap b))).*1).
    destruct (clear_kind KMetric e keys b Hi Hd) as (b' & Hrun & Hl & Ho & Ht); [by intros k; apply map_keys_elem|].
    assert (ClearMetrics e b = for_each (cacheDelete e) keys b) as Hc.
    { unfold ClearMetrics. by erewrite bind_ok by by apply withLock_read. }
    apply (deletes_refine _ e keys b b'); try done; [cbn; by rewrite Hc|].
    constructor; [|done|by apply logs_at_live, Ho]. cbn. unfold metrics_at. by rewrite Hl, omap_empty.
  - set (keys := (env_range e (map_to_list (logKeyMap b))).*1).
    destruct (clear_kind KLog e keys b Hi Hd) as (b' & Hrun & Hl & Ho & Ht); [by intros k; apply map_keys_elem|].
    assert (ClearLogs e b = for_each (cacheDelete e) keys b) as Hc.
    { unfold ClearLogs. by erewrite bind_ok by by apply withLock_read. }
    apply (deletes_refine _ e keys b b'); try done; [cbn; by rewrite Hc|].
    constructor; [|done|by apply metrics_at_live, Ho]. cbn. unfold logs_at. by rewrite Hl, omap_empty.
Qed.

(** What a clean-up run leaves was there before. *)
Lemma clean_refines e b : sound b → refines (OpClean e) b.
Proof.
  intros Hb. pose proof (sound_inv _ Hb) as Hi. destruct (cacheClean_spec e b Hi) as (c & evs & Ec & Hrun & _).
  set (b' := evicts e evs (set_cache c b)) in *.
  assert (cache b' = c) as Hc by apply evicts_set_cache_cache.
  assert (∀ k v, cview c !! k = Some v → cview (cache b) !! k = Some v) as Hview.
  { intros k v Hv. rewrite (cclean_view _ _ _ _ _ Ec) in Hv. by case_decide. }
  assert (∀ K k x, live K b' !! k = Some x → live K b !! k = Some x) as Hlive.
  { intros K k [ts v] [Hk Hv]%live_lookup. apply live_lookup. rewrite Hc in Hv. split; [|by apply Hview].
    unfold b' in Hk. rewrite evicts_set_cache_kmap in Hk by apply Hi. by case_decide. }
  apply (refines_run _ _ ADone b'); [done..| | |].
  - cbn [answer_op run_op]. by erewrite bind_ok by exact Hrun.
  - intros Hk. by destruct (backed_cacheClean e b tt b' (conj (proj1 Hi) Hk) Hrun).
  - constructor; cbn.
    + intros tid x. unfold trace_at. rewrite Hc. destruct (cview c !! trace_key tid) eqn:E; [|done].
      by rewrite (Hview _ _ E).
    + apply map_subseteq_spec. intros k [ts m] (v & Hv & Hu)%metrics_at_lookup. apply metrics_at_lookup. eauto.
    + apply map_subseteq_spec. intros k [ts m] (v & Hv & Hu)%logs_at_lookup. apply logs_at_lookup. eauto.
Qed.

Lemma op_refines op b :
  sound b → op_fresh op b → op_fits op (table_of b) → op_accepted op b → refines op b.
Proof.
  intros Hb Hf Hfit Ha. pose proof (sound_inv _ Hb) as Hi.
  destruct op as [e sig|e tid|e s t|e s t|e|e|tid|tid|s t|s t| |e];
    try (by apply remove_refines); try (by apply clear_refines); try (by apply store_refines); try (by apply clean_refines).
  - eapply refines_run; [done..| |done|constructor]. cbn. by rewrite (bind_ok _ _ _ _ _ (GetTrace_answer b tid Hi)).
  - eapply refines_run; [done..| |done|constructor]. cbn. by rewrite (bind_ok _ _ _ _ _ (GetTraceLogs_answer b tid Hi)).
  - destruct (GetMetricsInRange_answer b s t Hi Hfit) as (l & Hrun & Hl).
    eapply refines_run; [done..| |done|by constructor]. cbn. by rewrite (bind_ok _ _ _ _ _ Hrun).
  - destruct (GetLogsInRange_answer b s t Hi Hfit) as (l & Hrun & Hl).
    eapply refines_run; [done..| |done|by constructor]. cbn. by rewrite (bind_ok _ _ _ _ _ Hrun).
  - destruct (count_entries b Hi (sound_keyed _ Hb)) as (tids & Hnd & Htids & Hn).
    apply (refines_run _ _ (ACount (clen (cache b))) b); [done..|]. rewrite clen_view, Hn. by constructor.
Qed.

(** *** Every sequence of operations *)

Lemma ops_refine ops b :
  sound b → ops_fit ops b →
  ∃ answers b', answer_ops ops b = Ok (answers, b') ∧ specs ops (table_of b) answers (table_of b').
Proof.
  revert b. induction ops as [|op ops IH]; intros b Hb Hfit.
  - exists [], b. split; [done|constructor].
  - destruct Hfit as (Hf & Hfit & Ha & Hrest).
    destruct (op_refines op b Hb Hf Hfit Ha) as (ans & b1 & Hrun & Hb1 & Hspec).
    destruct (IH b1 Hb1 (Hrest _ _ Hrun)) as (answers & b' & Hrun' & Hspecs).
    exists (ans :: answers), b'. cbn. erewrite bind_ok by exact Hrun. erewrite bind_ok by exact Hrun'.
    split; [done|]. by econstructor.
Qed.

Lemma New_sound config dbg b : New config dbg = Some b → sound b.
Proof.
  intros Hn. pose proof (New_inv config dbg b Hn) as Hi. destruct (New_empty config dbg b Hn) as [Hv Hk].
  split; [done|split; [apply Hi|intros K k ts; by rewrite Hk|intros k v; by rewrite Hv]|].
  intros K k. rewrite Hk, lookup_empty. by intros [? ?].
Qed.

(** C4: refinement. Any sequence of operations on a new buffer returns and gives the
    answers of a plain table of traces, metrics and logs that starts empty and
    changes as the specification of each operation says; only a clean-up run
    may take entries away unasked. It is so as long as the cache accepts what
    is stored: each [Set] succeeds without evicting, and neither a key that is
    stored nor that of a trace to be removed has the hash of another key. The
    count of traces is that of all the entries. *)
Theorem buffer_refines config dbg b0 ops :
  New config dbg = Some b0 → ops_fit ops b0 →
  (∀ tid, tb_traces (table_of b0) tid = None) ∧ tb_metrics (table_of b0) = ∅ ∧ tb_logs (table_of b0) = ∅
  ∧ ∃ answers b', answer_ops ops b0 = Ok (answers, b') ∧ specs ops (table_of b0) answers (table_of b').
Proof.
  intros Hn Hfit. destruct (New_empty config dbg b0 Hn) as [Hv Hk].
  assert (∀ K, live K b0 = ∅) as Hl.
  { intros K. apply map_empty. intros k. unfold live. by rewrite map_lookup_imap, Hk, lookup_empty. }
  split_and!.
  - intros tid. cbn. unfold trace_at. by rewrite Hv, lookup_empty.
  - cbn. unfold metrics_at. by rewrite Hl, omap_empty.
  - cbn. unfold logs_at. by rewrite Hl, omap_empty.
  - apply ops_refine; [by eapply New_sound|done].
Qed.
End Refinement.
