(* ===== verification/Manager.v ===== *)
(** The interface [buffer.Manager] (internal/buffer/buffer.go): what the rest of
    the program may call, what it may rely on, and that [InMemoryBuffer] keeps
    to it. *)
From S2P Require Import Prelude GoStd PData Signals Config Cache Gob Buffer BufferLemmas Split BufferSpec BufferTheorems.

(** ** The operations *)
Class BufferManager (B : Type) := {
  bm_Start : Go B unit;
  bm_Stop : Go B unit;
  bm_Store : Env → Signal → Go B (option BufferError);
  bm_GetTrace : TraceID → Go B (option TraceSignal);
  bm_GetTraceLogs : TraceID → Go B (option LogSignal);
  bm_RemoveTrace : Env → TraceID → Go B unit;
  bm_GetTraceCount : Go B nat;
  bm_GetMetricsInRange : Z → Z → Go B (list MetricSignal);
  bm_GetLogsInRange : Z → Z → Go B (list LogSignal);
  bm_RemoveMetricsInRange : Env → Z → Z → Go B unit;
  bm_RemoveLogsInRange : Env → Z → Z → Go B unit;
  bm_recvEvicted : Go B (option Signal);
  bm_ClearMetrics : Env → Go B unit;
  bm_ClearLogs : Env → Go B unit;
  (** What the buffer's own goroutines do: a clean-up run of its cache. *)
  bm_background : Env → Go B unit
}.

(** ** The laws *)

(** What a client sees of a buffer: its traces, its metrics and logs with their
    times, and the evicted signals that wait. In a [bm_distinct] buffer a removal
    takes nothing else away: the keys it removes have hashes of their own. *)
Class BufferView (B : Type) := {
  bm_ok : B → Prop;
  bm_fresh : Env → B → Prop;
  bm_distinct : B → Prop;
  bm_trace : B → TraceID → option TraceEntry;
  bm_metrics : B → gmap string (Z * Metrics);
  bm_logs : B → gmap string (Z * Logs);
  bm_evicted : B → list Signal
}.

(** Everything but the metrics (the logs, the trace [tid]) is as before. *)
Definition same_traces {B} `{!BufferView B} (b b' : B) : Prop := ∀ tid, bm_trace b' tid = bm_trace b tid.

Class BufferManagerLaws (B : Type) `{!BufferManager B, !BufferView B} : Prop := {
  bm_start b : bm_ok b → ∃ b', bm_Start b = Ok (tt, b') ∧ bm_ok b';
  bm_stop b : ∃ b', bm_Stop b = Ok (tt, b');
  bm_store e sig b :
    bm_ok b → env_ok e → bm_fresh e b → ∃ r b', bm_Store e sig b = Ok (r, b') ∧ bm_ok b';
  bm_store_source e sig b : bm_Store e (without_source sig) b = bm_Store e sig b;
  bm_get_trace tid b : bm_ok b → bm_GetTrace tid b = Ok (trace_answer (bm_trace b tid), b);
  bm_get_trace_logs tid b : bm_ok b → bm_GetTraceLogs tid b = Ok (logs_answer (bm_trace b tid), b);
  bm_remove_trace e tid b :
    bm_ok b → is_Some (bm_trace b tid) →
    ∃ b', bm_RemoveTrace e tid b = Ok (tt, b') ∧ bm_ok b' ∧ (bm_distinct b → bm_distinct b')
      ∧ (∀ tid', bm_trace b' tid' = if decide (tid' = tid) then None else bm_trace b tid')
      ∧ bm_metrics b' = bm_metrics b ∧ bm_logs b' = bm_logs b ∧ bm_evicted b' = bm_evicted b;
  bm_count b : ∃ n, bm_GetTraceCount b = Ok (n, b);
  bm_get_metrics start stop b :
    bm_ok b → (Time.UnixNano stop < max_int64)%Z →
    ∃ l, bm_GetMetricsInRange start stop b = Ok (map metric_at l, b) ∧ range_answer (bm_metrics b) start stop l;
  bm_get_logs start stop b :
    bm_ok b → (Time.UnixNano stop < max_int64)%Z →
    ∃ l, bm_GetLogsInRange start stop b = Ok (map log_at l, b) ∧ range_answer (bm_logs b) start stop l;
  bm_remove_metrics e start stop b :
    bm_ok b → bm_distinct b → (Time.UnixNano stop < max_int64)%Z →
    ∃ b', bm_RemoveMetricsInRange e start stop b = Ok (tt, b') ∧ bm_ok b' ∧ bm_distinct b'
      ∧ bm_metrics b' = filter (λ x, ¬ in_range start stop x.2.1) (bm_metrics b)
      ∧ bm_logs b' = bm_logs b ∧ same_traces b b' ∧ bm_evicted b' = bm_evicted b;
  bm_remove_logs e start stop b :
    bm_ok b → bm_distinct b → (Time.UnixNano stop < max_int64)%Z →
    ∃ b', bm_RemoveLogsInRange e start stop b = Ok (tt, b') ∧ bm_ok b' ∧ bm_distinct b'
      ∧ bm_logs b' = filter (λ x, ¬ in_range start stop x.2.1) (bm_logs b)
      ∧ bm_metrics b' = bm_metrics b ∧ same_traces b b' ∧ bm_evicted b' = bm_evicted b;
  bm_get_metrics_returns start stop b : bm_ok b → ∃ l, bm_GetMetricsInRange start stop b = Ok (l, b);
  bm_get_logs_returns start stop b : bm_ok b → ∃ l, bm_GetLogsInRange start stop b = Ok (l, b);
  bm_remove_metrics_returns e start stop b :
    bm_ok b → ∃ b', bm_RemoveMetricsInRange e start stop b = Ok (tt, b') ∧ bm_ok b';
  bm_remove_logs_returns e start stop b :
    bm_ok b → ∃ b', bm_RemoveLogsInRange e start stop b = Ok (tt, b') ∧ bm_ok b';
  bm_background_returns e b : bm_ok b → ∃ b', bm_background e b = Ok (tt, b') ∧ bm_ok b';
  bm_recv b :
    bm_ok b →
    ∃ b', bm_recvEvicted b = Ok (head (bm_evicted b), b') ∧ bm_ok b' ∧ bm_evicted b' = tail (bm_evicted b)
      ∧ (∀ sig, sig ∈ bm_evicted b → evictable sig)
      ∧ bm_metrics b' = bm_metrics b ∧ bm_logs b' = bm_logs b ∧ same_traces b b'
}.

(** ** The in-memory buffer keeps to the interface *)
Section InMemory.
Context {C T : Type} `{!BigCache C} `{!BTree T}.
Context `{!Codec Traces} `{!Codec Metrics} `{!Codec Logs}.

(** [GetEvictedSignals] and one receive from the channel. *)
Definition recvEvicted : Go (InMemoryBuffer C T) (option Signal) :=
  b ← getS;
  match Chan.recv (evictedChan b) with
  | None => mret None
  | Some (sig, c) => _ ← putS (set_evictedChan c b); mret (Some sig)
  end.

#[global] Instance in_memory_manager : BufferManager (InMemoryBuffer C T) := {|
  bm_Start := Start; bm_Stop := Stop; bm_Store := Store;
  bm_GetTrace := GetTrace; bm_GetTraceLogs := GetTraceLogs; bm_RemoveTrace := RemoveTrace;
  bm_GetTraceCount := GetTraceCount;
  bm_GetMetricsInRange := GetMetricsInRange; bm_GetLogsInRange := GetLogsInRange;
  bm_RemoveMetricsInRange := RemoveMetricsInRange; bm_RemoveLogsInRange := RemoveLogsInRange;
  bm_recvEvicted := recvEvicted; bm_ClearMetrics := ClearMetrics; bm_ClearLogs := ClearLogs;
  bm_background := cacheClean
|}.

#[global] Instance in_memory_view : BufferView (InMemoryBuffer C T) := {|
  bm_ok := buf_inv; bm_fresh := store_fresh; bm_distinct := distinct; bm_trace := trace_at; bm_metrics := metrics_at;
  bm_logs := logs_at; bm_evicted := λ b, chan_buf (evictedChan b)
|}.

Context `{!BigCacheLaws C} `{!BTreeLaws T}.
Context `{!CodecLaws Traces} `{!CodecLaws Metrics} `{!CodecLaws Logs}.
Abbreviation B := (InMemoryBuffer C T).

Lemma set_evictedChan_inv c (b : B) :
  buf_inv b → Chan.wf c → (∀ sig, sig ∈ chan_buf c → sig ∈ chan_buf (evictedChan b)) → buf_inv (set_evictedChan c b).
Proof.
  intros [Hi Hc] Hwf Hsub. split; split.
  - apply Hi.
  - intros K. destruct K; [apply (inv_index _ Hi KMetric)|apply (inv_index _ Hi KLog)].
  - intros K. destruct K; [apply (inv_prefix _ Hi KMetric)|apply (inv_prefix _ Hi KLog)].
  - done.
  - intros sig Hin. apply (inv_chan_kinds _ Hi), Hsub, Hin.
  - intros K. destruct K; [apply (inv_cached _ Hc KMetric)|apply (inv_cached _ Hc KLog)].
  - intros tid. apply (inv_trace _ Hc).
Qed.

Lemma recvEvicted_spec (b : B) :
  buf_inv b →
  ∃ b', recvEvicted b = Ok (head (chan_buf (evictedChan b)), b') ∧ buf_inv b'
    ∧ chan_buf (evictedChan b') = tail (chan_buf (evictedChan b)) ∧ cache b' = cache b
    ∧ ∀ K, kmap K b' = kmap K b.
Proof.
  intros Hb. unfold recvEvicted. erewrite bind_ok by done. unfold Chan.recv.
  destruct (chan_buf (evictedChan b)) as [|sig l] eqn:E; [by exists b|].
  eexists. split; [done|]. split; [|by split_and!; [..|intros []]].
  apply set_evictedChan_inv; [done| |].
  - pose proof (inv_chan _ (proj1 Hb)) as Hwf. unfold Chan.wf in *. rewrite E in Hwf. cbn in *. lia.
  - intros s Hs. rewrite E. by apply list_elem_of_further.
Qed.

Lemma live_same (b b' : B) K : cache b' = cache b → kmap K b' = kmap K b → live K b' = live K b.
Proof. unfold live. by intros -> ->. Qed.

#[global] Instance in_memory_laws : BufferManagerLaws B.
Proof.
  split.
  - intros b Hb. by exists b.
  - intros b. by eexists.
  - intros e sig b Hb He Hf. destruct (Store_run e sig b Hb He Hf) as (r & b' & ? & ?). eauto.
  - by intros e [[]|[]|[]|] b.
  - intros tid b Hb. by apply GetTrace_answer.
  - intros tid b Hb. by apply GetTraceLogs_answer.
  - intros e tid b Hb Ht. destruct (RemoveTrace_spec e b tid Hb (trace_at_lone b tid Ht)) as (b' & ? & ? & ? & Hl & Hc & ?).
    exists b'. split_and!; try done; cbn; [by apply metrics_at_live|by apply logs_at_live|by rewrite Hc].
  - intros b. by eexists.
  - intros start stop b. apply GetMetricsInRange_answer.
  - intros start stop b. apply GetLogsInRange_answer.
  - intros e start stop b Hb Hd Hs. destruct (RemoveMetricsInRange_filter e b start stop Hb Hd Hs) as (b' & ? & ? & ? & ? & ? & Hc & ?).
    exists b'. split_and!; try done. cbn. by rewrite Hc.
  - intros e start stop b Hb Hd Hs. destruct (RemoveLogsInRange_filter e b start stop Hb Hd Hs) as (b' & ? & ? & ? & ? & ? & Hc & ?).
    exists b'. split_and!; try done. cbn. by rewrite Hc.
  - intros start stop b Hb. eexists. apply GetMetricsInRange_run, Hb.
  - intros start stop b Hb. eexists. apply GetLogsInRange_run, Hb.
  - intros e start stop b Hb. exact (run_op_ok (OpRemoveMetrics e start stop) b Hb I).
  - intros e start stop b Hb. exact (run_op_ok (OpRemoveLogs e start stop) b Hb I).
  - intros e b Hb. exact (run_op_ok (OpClean e) b Hb I).
  - intros b Hb. destruct (recvEvicted_spec b Hb) as (b' & ? & ? & ? & Hc & Hk). exists b'. cbn.
    split_and!; try done; [apply (inv_chan_kinds _ (proj1 Hb))|by apply metrics_at_live, live_same|by apply logs_at_live, live_same|].
    intros tid. cbn. unfold trace_at. by rewrite Hc.
Qed.
End InMemory.
