(* ===== verification/BufferRaces.v ===== *)
(** Goroutines that interleave inside [Store]: it calls the cache and takes the
    mutex for the index afterwards, so the removal hook for the new entry may
    run in between; and it reads and writes the entry of a trace in two calls of
    the cache, so another [Store] for that trace may run in between. *)
From S2P Require Import Prelude GoStd PData Signals Config Cache Gob Buffer BufferLemmas Split BufferSpec BufferTypes BufferTheorems.

Section BufferRaces.
Context {C T : Type} `{!BigCache C, !BigCacheLaws C} `{!BTree T, !BTreeLaws T}.
Context `{!Codec Traces, !CodecLaws Traces} `{!Codec Metrics, !CodecLaws Metrics} `{!Codec Logs, !CodecLaws Logs}.

Abbreviation B := (InMemoryBuffer C T).
Implicit Types (b : B) (e : Env).

(** An entry of the index whose key is not in the cache. *)
Definition ghost (K : Kind) (k : string) (ts : Z) (b : B) : Prop :=
  kmap K b !! k = Some ts ∧ cview (cache b) !! k = None.

(** What another goroutine may do to the cache meanwhile: a clean-up run, or
    the [Set] of a trace, which evicts when the cache is full. *)
Inductive cache_step (b : B) : B → Prop :=
| step_clean e b' : cacheClean e b = Ok (tt, b') → cache_step b b'
| step_set e tid s ok b' :
    stored_ok s → cacheSet e (trace_key tid) (Gob.Encode s) b = Ok (ok, b') → cache_step b b'.

Section ghost.
Context (K : Kind) (k : string) (ts : Z).

Definition ghostly (b : B) : Prop := index_inv b ∧ ghost K k ts b.

Lemma ghostly_evicts e evs c b :
  ghostly b → k ∉ rem_key <$> evs → cview c !! k = None → ghostly (evicts e evs (set_cache c b)).
Proof.
  intros [Hi [Hk Hv]] Hn Hc. split; [by apply evicts_set_cache_inv|].
  split; [by rewrite evicts_set_cache_kmap, decide_False|by rewrite evicts_set_cache_cache].
Qed.

Lemma ghostly_prefix b : ghostly b → Str.HasPrefix k (kprefix K) = true.
Proof. intros [Hi [Hk _]]. by eapply inv_prefix. Qed.

Lemma removals_absent (m : gmap string bytes) evs key : removals_ok m evs → m !! key = None → key ∉ rem_key <$> evs.
Proof. intros [_ H] Hk ([[k' v] r] & -> & [? _]%H)%list_elem_of_fmap. unfold rem_key in *. cbn in *. congruence. Qed.

Lemma keeps_cacheSet e key v : key ≠ k → keeps ghostly (cacheSet e key v).
Proof.
  intros Hne b r b' Hg Hrun. destruct (cset key v (cache b)) as [[c evs] ok] eqn:Hs.
  rewrite (cacheSet_run e key v b c evs ok) in Hrun by (apply Hg || done). injection Hrun as <- <-.
  apply ghostly_evicts; [done| |].
  - eapply removals_absent; [by eapply cset_removals|apply Hg].
  - destruct (cview c !! k) as [w|] eqn:E; [|done].
    destruct Hg as [_ [_ Hv]]. assert (cview (cache b) !! k = Some w); [|congruence].
    by eapply cset_shrinks.
Qed.

Lemma keeps_cacheDelete e key : keeps ghostly (cacheDelete e key).
Proof.
  intros b r b' Hg Hrun. destruct (cdelete key (cache b)) as [c evs] eqn:Hd.
  rewrite (cacheDelete_run e key b c evs) in Hrun by (apply Hg || done). injection Hrun as <- <-.
  destruct Hg as [Hi [Hk Hv]]. apply ghostly_evicts; [done| |].
  - intros ([[k' v] r] & -> & (Hv' & _)%(cdelete_removals _ _ _ _ Hd))%list_elem_of_fmap. unfold rem_key in Hv. cbn in *. congruence.
  - destruct (cview c !! k) as [v|] eqn:E; [|done]. apply (cdelete_shrinks _ _ _ _ _ _ Hd) in E as [? _]. congruence.
Qed.

Lemma keeps_cacheClean e : keeps ghostly (cacheClean e).
Proof.
  intros b r b' Hg Hrun. destruct (cclean (env_now e) (cache b)) as [c evs] eqn:Hc.
  rewrite (cacheClean_run e b c evs) in Hrun by (apply Hg || done). injection Hrun as <- <-.
  destruct Hg as [Hi [Hk Hv]].
  assert (k ∉ rem_key <$> evs) as Hn by by eapply removals_absent; [eapply cclean_removals|].
  apply ghostly_evicts; [done..|]. by rewrite (cclean_view _ _ _ _ _ Hc), decide_False.
Qed.

Lemma ghostly_fresh e b K' : ghostly b → store_fresh e b → new_key K' e ≠ k.
Proof.
  intros Hg Hf Heq. pose proof (ghostly_prefix b Hg) as Hp. rewrite <- Heq in Hp.
  pose proof (prefix_disjoint _ _ _ (timed_key_prefix K' _ _) Hp) as ->.
  destruct Hg as [_ [Hk _]]. specialize (Hf K). unfold new_key in Heq. congruence.
Qed.

Lemma ghostly_index K' e b :
  ghostly b → new_key K' e ≠ k → kmap K' b !! new_key K' e = None →
  ghostly (index_key K' (new_key K' e) (Time.UnixNano (env_now e)) b).
Proof.
  intros [Hi [Hk Hv]] Hne Hn. split; [apply index_key_inv; [done..|apply timed_key_prefix]|].
  split; [|by rewrite index_key_cache].
  destruct (decide (K = K')) as [<-|]; [|by rewrite index_key_kmap_other].
  by rewrite index_key_kmap, lookup_insert_ne.
Qed.

(** Whatever the buffer does, the entry stays. *)
Lemma ghost_forever b0 b : buf_inv b0 → ghostly b0 → reachable b0 b → ghost K k ts b.
Proof.
  intros Hb Hg Hr. pose proof (ghostly_prefix b0 Hg) as Hp.
  eapply (reachable_keeps ghostly (λ key, key ≠ k)) in Hr as [_ ?];
    eauto using keeps_cacheSet, keeps_cacheDelete, keeps_cacheClean, ghostly_index.
  - by intros b1 [? _].
  - intros K' e b1. apply ghostly_fresh.
  - intros tid <-. by rewrite trace_key_prefix in Hp.
Qed.
End ghost.

(** *** The window between [cache.Set] and the index *)

Definition all_but (key : string) : string → Prop := λ k, k ≠ key.

Lemma cset_all_but e key v b c evs ok (P : string → Prop) :
  index_inv b → cache_inv_on P b → cset key v (cache b) = (c, evs, ok) →
  cache_inv_on (λ k, P k ∧ k ≠ key) (evicts e evs (set_cache c b)).
Proof.
  intros Hi Hc Hs. apply evicts_cached; [done| |].
  - destruct Hc as [H1 H2]. split; [intros K k w [? _]; by eapply H1|intros tid w [? _]; by eapply H2].
  - intros k w [_ Hne] Hw. by eapply cset_kept.
Qed.

Lemma cache_step_inv key b b' :
  Str.HasPrefix key (kprefix KMetric) = true → cache_step b b' →
  index_inv b → cache_inv_on (all_but key) b → kmap KMetric b !! key = None →
  index_inv b' ∧ cache_inv_on (all_but key) b' ∧ kmap KMetric b' !! key = None.
Proof.
  intros Hp Hst Hi Hc Hn. destruct Hst as [e b' Hrun|e tid s ok b' Hok Hrun].
  - destruct (cclean (env_now e) (cache b)) as [c evs] eqn:Ec.
    rewrite (cacheClean_run e b c evs) in Hrun by (apply Hi || done). injection Hrun as <-.
    split_and!; [by apply evicts_set_cache_inv| |by rewrite evicts_set_cache_kmap; [case_decide|]].
    apply evicts_cached; [done..|]. intros k v _. rewrite (cclean_view _ _ _ _ _ Ec). by case_decide.
  - destruct (cset (trace_key tid) (Gob.Encode s) (cache b)) as [[c evs] ok'] eqn:Ec.
    rewrite (cacheSet_run e _ _ b c evs ok') in Hrun by (apply Hi || done). injection Hrun as -> <-.
    split_and!; [by apply evicts_set_cache_inv| |by rewrite evicts_set_cache_kmap; [case_decide|]].
    destruct (cset_all_but e _ _ _ _ _ _ _ Hi Hc Ec) as [H1 H2]. split.
    + intros K k v HP Hv Hpk. eapply H1; [|done..]. split; [done|]. intros ->. by rewrite trace_key_prefix in Hpk.
    + intros tid' v HP Hv. destruct (decide (trace_key tid' = trace_key tid)) as [Heq|Hne]; [|by eapply H2].
      apply (inj _) in Heq as ->. rewrite evicts_set_cache_cache in Hv. destruct ok.
      * erewrite cset_same in Hv by done. simplify_eq. eauto.
      * destruct (cset_fail _ _ _ _ _ Ec) as [H|H]; rewrite H in Hv; [done|]. by eapply Hc.
Qed.

(** C40: a metric that is evicted after [cache.Set] has returned and before it is
    indexed leaves an index entry behind that no operation of the buffer ever
    takes away, since all of them go through the cache's removal hook. *)
Theorem late_index_leaks e data b b1 b2 :
  let key := new_key KMetric e in
  let ts := Time.UnixNano (env_now e) in
  buf_inv b → store_fresh e b →
  cacheSet e key data b = Ok (true, b1) → cache_step b1 b2 → cview (cache b2) !! key = None →
  ∃ b3, indexMetric key ts b2 = Ok (tt, b3)
    ∧ ∀ b', reachable b3 b' → metricKeyMap b' !! key = Some ts ∧ cview (cache b') !! key = None.
Proof.
  intros key ts Hb Hf Hset Hst Hgone. destruct (cset key data (cache b)) as [[c evs] ok] eqn:Ec.
  destruct (cacheSet_rest e _ _ b c evs ok Hb Ec) as (Hrun & Hi & H1 & H2).
  rewrite Hset in Hrun. injection Hrun as <- Hb1. rewrite <- Hb1 in Hi, H1, H2.
  pose proof (timed_key_prefix KMetric ts (env_uuid e)) as Hp.
  destruct (cache_step_inv key b1 b2 Hp Hst Hi) as (Hi2 & Hc2 & Hn2).
  - by split; [intros; eapply H1|intros; eapply H2].
  - rewrite Hb1, evicts_set_cache_kmap by apply Hb. case_decide; [done|]. apply (Hf KMetric).
  - exists (index_key KMetric key ts b2). split; [apply (indexKind_run KMetric), Hi2|].
    assert (index_inv (index_key KMetric key ts b2)) as Hi3 by by apply index_key_inv.
    intros b' Hr. eapply (ghost_forever KMetric); [| |done].
    + split; [done|]. apply (cache_inv_on_all (all_but key)).
      { intros k v Hv ->. rewrite index_key_cache in Hv. congruence. }
      destruct Hc2 as [G1 G2]. split; [|by rewrite index_key_cache].
      intros K k v HP Hv Hpk. rewrite index_key_cache in Hv. destruct (G1 K k v HP Hv Hpk) as [? ?]. split; [|done].
      destruct (decide (K = KMetric)) as [->|]; [|by rewrite index_key_kmap_other].
      rewrite index_key_kmap. by apply lookup_insert_is_Some'; right.
    + split; [done|]. split; [|by rewrite index_key_cache]. by rewrite index_key_kmap, lookup_insert_eq.
Qed.

(** *** Between [cache.Get] and [cache.Set] *)

(** One round of the loops of [storeTraces] and [storeSplitLogs] up to the call of
    [Set]: the bytes to be stored. *)
Definition fetchTrace (e : Env) (tid : TraceID) (newTraces : Traces) : Go B bytes :=
  b ← getS;
  let stored := fetchStored e (trace_key tid) b in
  currentTraces ← decodeCurrent (st_TracesData stored);
  let data := default [] (marshal (currentTraces ++ newTraces)) in
  mret (Gob.Encode (MkStored (st_ReceivedAt stored) data (st_LogsData stored))).

Definition fetchTraceLogs (e : Env) (tid : TraceID) (logs : Logs) : Go B bytes :=
  b ← getS;
  let stored := fetchStored e (trace_key tid) b in
  currentLogs ← decodeCurrent (st_LogsData stored);
  let data := default [] (marshal (currentLogs ++ logs)) in
  mret (Gob.Encode (MkStored (st_ReceivedAt stored) (st_TracesData stored) data)).

(** The rest of the round. *)
Definition setEntry (e : Env) (tid : TraceID) (bytes : bytes) : Go B unit :=
  _ ← cacheSet e (trace_key tid) bytes; mret tt.

Lemma storeTrace_split e tid t b :
  storeTrace e (tid, t) b = (x ← fetchTrace e tid t; setEntry e tid x) b.
Proof.
  unfold storeTrace, fetchTrace, setEntry. go_simpl.
  by destruct (decodeCurrent (st_TracesData (fetchStored e (trace_key tid) b)) b) as [[x b']| |].
Qed.

Lemma storeTraceLogs_split e tid l b :
  storeTraceLogs e (tid, l) b = (x ← fetchTraceLogs e tid l; setEntry e tid x) b.
Proof.
  unfold storeTraceLogs, fetchTraceLogs, setEntry. go_simpl.
  by destruct (decodeCurrent (st_LogsData (fetchStored e (trace_key tid) b)) b) as [[x b']| |].
Qed.

Lemma fetchTrace_run e tid t b :
  buf_inv b → fetchTrace e tid t b = Ok (Gob.Encode (add_traces (fetchStored e (trace_key tid) b) t), b).
Proof.
  intros Hb. pose proof (fetchStored_ok e tid b (proj2 Hb)) as Hs. unfold fetchTrace.
  erewrite bind_ok by done. by erewrite bind_ok by (apply decodeCurrent_ok, Hs).
Qed.

Lemma fetchTraceLogs_run e tid l b :
  buf_inv b → fetchTraceLogs e tid l b = Ok (Gob.Encode (add_logs (fetchStored e (trace_key tid) b) l), b).
Proof.
  intros Hb. pose proof (fetchStored_ok e tid b (proj2 Hb)) as Hs. unfold fetchTraceLogs.
  erewrite bind_ok by done. by erewrite bind_ok by (apply decodeCurrent_ok, Hs).
Qed.

(** The write of an entry, and what it leaves when [Set] succeeds. *)
Lemma setEntry_ok e tid s b :
  buf_inv b → stored_ok s →
  ∃ b', setEntry e tid (Gob.Encode s) b = Ok (tt, b') ∧ buf_inv b' ∧ cache b' = (cset (trace_key tid) (Gob.Encode s) (cache b)).1.1
    ∧ ((cset (trace_key tid) (Gob.Encode s) (cache b)).2 = true → trace_at b' tid = Some (entry_of s)).
Proof.
  intros Hb Hs. destruct (cset (trace_key tid) (Gob.Encode s) (cache b)) as [[c evs] ok] eqn:Hset.
  destruct (cacheSet_trace e tid s b c evs ok Hb Hs Hset) as [Hrun Hb'].
  exists (evicts e evs (set_cache c b)). split; [unfold setEntry; by erewrite bind_ok by exact Hrun|]. split; [done|].
  rewrite evicts_set_cache_cache. split; [done|]. cbn. intros ->. unfold trace_at.
  rewrite evicts_set_cache_cache. erewrite cset_same by done. by rewrite decodeStored_encode.
Qed.

(** What the first of two goroutines brings: spans or logs. *)
Definition fetchFirst (e : Env) (tid : TraceID) (x : Traces + Logs) : Go B bytes :=
  match x with inl t => fetchTrace e tid t | inr l => fetchTraceLogs e tid l end.
Definition storeFirst (e : Env) (tid : TraceID) (x : Traces + Logs) : Go B unit :=
  match x with inl t => storeTrace e (tid, t) | inr l => storeTraceLogs e (tid, l) end.

(** C10: two goroutines that store for the same trace at the same time lose what the
    first of them brings. Each on its own is [Get] and then [Set]; when both
    call [Get] before either calls [Set], and the second [Set] succeeds, the
    entry ends up as if the spans or the logs of the first had never come. *)
Theorem concurrent_store_lost e1 e2 tid x t b :
  buf_inv b → t ≠ [] → match x with inl t1 => t1 ≠ [] | inr l1 => l1 ≠ [] end →
  is_Some (marshal (te_spans (old_entry e2 b tid) ++ t)) →
  storeFirst e1 tid x b = (y ← fetchFirst e1 tid x; setEntry e1 tid y) b
  ∧ storeTrace e2 (tid, t) b = (y ← fetchTrace e2 tid t; setEntry e2 tid y) b
  ∧ ∃ y1 y2 b', fetchFirst e1 tid x b = Ok (y1, b) ∧ fetchTrace e2 tid t b = Ok (y2, b)
      ∧ (_ ← setEntry e1 tid y1; setEntry e2 tid y2) b = Ok (tt, b') ∧ buf_inv b'
      ∧ ((cset (trace_key tid) y2 (cset (trace_key tid) y1 (cache b)).1.1).2 = true →
          trace_at b' tid = Some (with_spans (old_entry e2 b tid) t)).
Proof.
  intros Hb Ht Hx [d Hd]. split; [destruct x; [apply storeTrace_split|apply storeTraceLogs_split]|].
  split; [apply storeTrace_split|].
  pose proof (fetchStored_ok e1 tid b (proj2 Hb)) as Hs1. pose proof (fetchStored_ok e2 tid b (proj2 Hb)) as Hs2.
  assert (∃ s1, fetchFirst e1 tid x b = Ok (Gob.Encode s1, b) ∧ stored_ok s1) as (s1 & Hf1 & Hok1).
  { destruct x as [t1|l1]; eexists; (split; [by first [apply fetchTrace_run|apply fetchTraceLogs_run]|]).
    - by apply add_traces_ok. - by apply add_logs_ok. }
  destruct (setEntry_ok e1 tid s1 b Hb Hok1) as (b1 & Hset1 & Hb1 & Hc1 & _).
  destruct (setEntry_ok e2 tid (add_traces (fetchStored e2 (trace_key tid) b) t) b1 Hb1 (add_traces_ok _ t Ht Hs2))
    as (b' & Hset2 & Hb' & _ & Htr).
  eexists _, _, b'. split; [exact Hf1|]. split; [by apply fetchTrace_run|].
  erewrite bind_ok by exact Hset1. split; [done|]. split; [done|]. rewrite <- Hc1. intros ->%Htr. f_equal.
  rewrite <- (fetchStored_entry e2 b tid (proj2 Hb)) in Hd |- *. unfold entry_of, with_spans in *. cbn in *.
  rewrite Hd. cbn. by rewrite (decoded_marshal _ _ Hd).
Qed.
End BufferRaces.
