(* ===== verification/Grouping.v ===== *)
(** Slices indexed by a Go map: the loops that look an element up by its key,
    append a new one when there is none, and update it; and what they compute,
    which is a grouping of the input by key. *)
From S2P Require Import Prelude GoStd.

(** A loop whose body can panic. *)
Fixpoint fold_opt {A B} (f : A → B → option A) (a : A) (l : list B) : option A :=
  match l with
  | [] => Some a
  | b :: l' => a' ← f a b; fold_opt f a' l'
  end.

(** The map from the key of each element of a slice to its place; a later
    element with the same key replaces an earlier one. *)
Fixpoint index_from {A} (key : A → string) (i : nat) (l : list A) (m : gmap string nat) : gmap string nat :=
  match l with
  | [] => m
  | x :: l' => index_from key (S i) l' (<[key x := i]> m)
  end.
Definition index_by {A} (key : A → string) (l : list A) : gmap string nat := index_from key 0 l ∅.

(** A slice and the map that indexes it. *)
Abbreviation indexed A := (list A * gmap string nat)%type.

Definition update_at {A} (f : A → option A) (i : nat) (l : list A) : option (list A) :=
  x ← l !! i; y ← f x; Some (<[i := y]> l).

(** [if existing, ok := m[key]; ok { update existing } else { append a new one }] *)
Definition upsert {A B} (key : B → string) (init : B → option A) (f : A → B → option A)
    (st : indexed A) (b : B) : option (indexed A) :=
  match st.2 !! key b with
  | Some i => l ← update_at (λ a, f a b) i st.1; Some (l, st.2)
  | None => a ← init b; Some (st.1 ++ [a], <[key b := length st.1]> st.2)
  end.

(** [dest, ok := m[key]; if !ok { append an empty one }; update dest] *)
Definition merge_into {A B} (key : B → string) (empty : B → A) (f : A → B → option A)
    (st : indexed A) (b : B) : option (indexed A) :=
  let st' := match st.2 !! key b with
             | Some _ => st
             | None => (st.1 ++ [empty b], <[key b := length st.1]> st.2)
             end in
  i ← st'.2 !! key b; l ← update_at (λ a, f a b) i st'.1; Some (l, st'.2).

(** The keys of a list in the order of their first occurrence. *)
Fixpoint first_keys (l : list string) : list string :=
  match l with
  | [] => []
  | k :: l' => k :: filter (λ k', k' ≠ k) (first_keys l')
  end.

(** The elements of a list grouped by key. *)
Definition group {B} (key : B → string) (bs : list B) (k : string) : list B := filter (λ b, key b = k) bs.
Definition groups {B} (key : B → string) (bs : list B) : list (list B) :=
  map (group key bs) (first_keys (map key bs)).

(** What becomes of one group. *)
Definition fold_group {A B} (init : B → option A) (f : A → B → option A) (g : list B) : option A :=
  match g with
  | [] => None
  | b :: g' => a ← init b; fold_opt f a g'
  end.

(** ** Lemmas *)

Lemma fold_opt_app {A B} (f : A → B → option A) a l1 l2 :
  fold_opt f a (l1 ++ l2) = a' ← fold_opt f a l1; fold_opt f a' l2.
Proof. revert a. induction l1 as [|b l1 IH]; intros a; [done|]. cbn. destruct (f a b); cbn; [apply IH|done]. Qed.

Lemma fold_opt_some {A B} (f : A → B → A) a l : fold_opt (λ a b, Some (f a b)) a l = Some (foldl f a l).
Proof. revert a. induction l as [|b l IH]; intros a; [done|]. cbn. apply IH. Qed.

Lemma fold_opt_concat {A B X} (f : A → B → option A) (sub : X → list B) a xs :
  fold_opt (λ a x, fold_opt f a (sub x)) a xs = fold_opt f a (flat_map sub xs).
Proof.
  revert a. induction xs as [|x xs IH]; intros a; [done|]. cbn. rewrite fold_opt_app.
  destruct (fold_opt f a (sub x)); cbn; [apply IH|done].
Qed.

Lemma mapM_snoc {A B} (f : A → option B) l x :
  mapM f (l ++ [x]) = k ← mapM f l; y ← f x; Some (k ++ [y]).
Proof.
  induction l as [|z l IH]; cbn; [by destruct (f x)|]. destruct (f z); cbn; [|done].
  rewrite IH. destruct (mapM f l); cbn; [|done]. by destruct (f x).
Qed.

Lemma mapM_none {A B} (f : A → option B) l : mapM f l = None ↔ ∃ x, x ∈ l ∧ f x = None.
Proof.
  induction l as [|x l IH]; cbn.
  - split; [done|]. by intros (? & ?%elem_of_nil & _).
  - setoid_rewrite elem_of_cons. destruct (f x) eqn:E; cbn; [|naive_solver].
    destruct (mapM f l); cbn; naive_solver.
Qed.

Lemma elem_of_first_keys l k : k ∈ first_keys l ↔ k ∈ l.
Proof.
  induction l as [|k' l IH]; cbn; [done|]. rewrite !elem_of_cons, list_elem_of_filter, IH.
  destruct (decide (k = k')); naive_solver.
Qed.

Lemma first_keys_NoDup l : NoDup (first_keys l).
Proof.
  induction l as [|k l IH]; cbn; [constructor|]. constructor; [by intros [? _]%list_elem_of_filter|].
  by apply NoDup_filter.
Qed.

Lemma first_keys_snoc l k : first_keys (l ++ [k]) = first_keys l ++ (if decide (k ∈ l) then [] else [k]).
Proof.
  induction l as [|k' l IH]; cbn; [done|]. rewrite IH, filter_app. f_equal. f_equal.
  destruct (decide (k ∈ l)) as [Hin|Hn]; cbn.
  - rewrite decide_True; [done|]. by apply list_elem_of_further.
  - destruct (decide (k = k')) as [->|Hne].
    + rewrite decide_False by auto. rewrite decide_True; [done|]. apply list_elem_of_here.
    + rewrite decide_True by done. rewrite decide_False; [done|]. by intros [?|?]%elem_of_cons.
Qed.

Lemma index_from_lookup {A} (key : A → string) i l m k :
  NoDup (map key l) →
  index_from key i l m !! k =
  match list_find (λ x, key x = k) l with Some (j, _) => Some (i + j) | None => m !! k end.
Proof.
  revert i m. induction l as [|x l IH]; intros i m Hnd; cbn in *; [done|].
  apply NoDup_cons in Hnd as [Hn Hnd]. rewrite IH by done. case_decide as Hk.
  - subst k. assert (list_find (λ y, key y = key x) l = None) as ->.
    { apply list_find_None, Forall_forall. intros y Hy Heq. apply Hn. rewrite <- Heq.
      by apply list_elem_of_In, in_map, list_elem_of_In. }
    by rewrite lookup_insert_eq, Nat.add_0_r.
  - destruct (list_find (λ y, key y = k) l) as [[j y]|]; cbn; [f_equal; lia|].
    by rewrite lookup_insert_ne.
Qed.

(** The place of a key in a list of distinct keys. *)
Lemma index_by_lookup {A} (key : A → string) l k i :
  NoDup (map key l) → index_by key l !! k = Some i ↔ key <$> l !! i = Some k.
Proof.
  intros Hnd. unfold index_by. rewrite index_from_lookup by done. cbn.
  destruct (list_find (λ x, key x = k) l) as [[j x]|] eqn:E.
  - apply list_find_Some in E as (Hj & Hk & _). split.
    + intros [= <-]. by rewrite Hj; cbn; rewrite Hk.
    + intros Hi. f_equal. eapply NoDup_lookup; [exact Hnd| |].
      * change (map key l) with (key <$> l). rewrite list_lookup_fmap, Hj. cbn. by rewrite Hk.
      * change (map key l) with (key <$> l). by rewrite list_lookup_fmap.
  - rewrite lookup_empty. split; [done|]. intros Hi. destruct (l !! i) as [x|] eqn:Hx; [|done]. cbn in Hi.
    apply list_find_None in E. eapply Forall_lookup_1 in E; [|done]. by simplify_eq.
Qed.

Lemma index_by_ext {A} (key : A → string) l (m : gmap string nat) :
  NoDup (map key l) → (∀ k i, m !! k = Some i ↔ key <$> l !! i = Some k) → m = index_by key l.
Proof.
  intros Hnd Hm. apply map_eq. intros k. apply option_eq. intros i.
  by rewrite index_by_lookup, Hm by done.
Qed.

Section upsert.
Context {A B : Type} (akey : A → string) (key : B → string).
Context (init : B → option A) (f : A → B → option A).
Hypothesis init_key : ∀ b a, init b = Some a → akey a = key b.
Hypothesis f_key : ∀ a b a', akey a = key b → f a b = Some a' → akey a' = akey a.

Abbreviation step := (upsert key init f).
Abbreviation F := (fold_group init f).

Lemma mapM_update {X} (G : X → option A) (xs : list X) i x x' (h : A → option A) :
  xs !! i = Some x → G x' = G x ≫= h →
  mapM G (<[i := x']> xs) = l ← mapM G xs; update_at h i l.
Proof.
  intros Hx Hx'. revert i Hx. induction xs as [|y xs IH]; intros [|i] Hx; cbn in Hx; [done..| |].
  - injection Hx as ->. cbn. rewrite Hx'. destruct (G x) as [a|]; cbn; [|done].
    destruct (mapM G xs) as [l|]; cbn; unfold update_at; cbn; [by destruct (h a)|].
    by destruct (h a).
  - change (<[S i := x']> (y :: xs)) with (y :: <[i := x']> xs).
    change (mapM G (y :: <[i:=x']> xs)) with (a ← G y; l ← mapM G (<[i:=x']> xs); mret (M := option) (a :: l)).
    rewrite (IH i Hx). cbn. destruct (G y) as [a|]; cbn; [|done].
    destruct (mapM G xs) as [l|]; cbn; [|done]. unfold update_at. cbn.
    destruct (l !! i) as [z|]; cbn; [|done]. by destruct (h z).
Qed.

Lemma group_snoc bs b k : group key (bs ++ [b]) k = group key bs k ++ (if decide (key b = k) then [b] else []).
Proof. unfold group. rewrite filter_app. cbn. by case_decide. Qed.

Lemma group_nil bs k : k ∉ map key bs → group key bs k = [].
Proof.
  intros Hn. destruct (group key bs k) as [|b g] eqn:E; [done|]. destruct Hn.
  assert (b ∈ group key bs k) as Hb by (rewrite E; apply list_elem_of_here).
  apply list_elem_of_filter in Hb as [<- Hb]. by apply list_elem_of_In, in_map, list_elem_of_In.
Qed.

Lemma group_cons bs k : k ∈ map key bs → ∃ b g, group key bs k = b :: g.
Proof.
  intros (b & Hb & Hin)%list_elem_of_fmap. destruct (group key bs k) as [|b' g] eqn:E; [|eauto].
  assert (b ∈ group key bs k) as Hb' by by apply list_elem_of_filter. by rewrite E, elem_of_nil in Hb'.
Qed.

Lemma groups_snoc_new bs b : key b ∉ map key bs → groups key (bs ++ [b]) = groups key bs ++ [[b]].
Proof.
  intros Hn. unfold groups. rewrite map_app. change (map key [b]) with [key b]. rewrite first_keys_snoc. rewrite decide_False by done.
  rewrite map_app. cbn. rewrite group_snoc, decide_True, (group_nil bs) by done. f_equal.
  apply map_ext_in. intros k Hk. rewrite <- list_elem_of_In, elem_of_first_keys in Hk.
  rewrite group_snoc, decide_False by by intros <-. apply app_nil_r.
Qed.

Lemma groups_snoc_old bs b i :
  first_keys (map key bs) !! i = Some (key b) →
  groups key (bs ++ [b]) = <[i := group key bs (key b) ++ [b]]> (groups key bs).
Proof.
  intros Hi. unfold groups. rewrite map_app. change (map key [b]) with [key b]. rewrite first_keys_snoc.
  rewrite decide_True by by apply elem_of_first_keys, list_elem_of_lookup; eauto.
  rewrite app_nil_r. change (map ?g ?l) with (g <$> l). apply list_eq. intros j.
  rewrite list_lookup_fmap. destruct (decide (j = i)) as [->|Hne].
  - rewrite Hi. cbn. rewrite group_snoc, decide_True by done.
    rewrite list_lookup_insert_eq; [done|]. rewrite length_fmap. by eapply lookup_lt_Some.
  - change (map key bs) with (key <$> bs) in *. rewrite list_lookup_insert_ne, list_lookup_fmap by done.
    destruct (first_keys (key <$> bs) !! j) as [k|] eqn:Hj; cbn; [|done].
    rewrite group_snoc, decide_False, app_nil_r; [done|]. intros <-. apply Hne.
    eapply NoDup_lookup; [apply first_keys_NoDup|exact Hj|exact Hi].
Qed.

Lemma groups_lookup bs i k :
  first_keys (map key bs) !! i = Some k → groups key bs !! i = Some (group key bs k).
Proof.
  intros Hi. unfold groups.
  change (map (group key bs) (first_keys (map key bs))) with (group key bs <$> first_keys (map key bs)).
  by rewrite list_lookup_fmap, Hi.
Qed.

Lemma fold_group_snoc g b : g ≠ [] → F (g ++ [b]) = F g ≫= λ a, f a b.
Proof.
  destruct g as [|b' g]; [done|]. intros _. cbn. destruct (init b') as [a|]; cbn; [|done].
  rewrite fold_opt_app. destruct (fold_opt f a g) as [a'|]; cbn; [|done]. by destruct (f a' b).
Qed.

Lemma fold_group_key g k a : Forall (λ b, key b = k) g → F g = Some a → akey a = k.
Proof.
  destruct g as [|b g]; [done|]. cbn. intros [Hb Hg]%Forall_cons Ha.
  destruct (init b) as [a0|] eqn:E0; [|done]. cbn in Ha. apply init_key in E0. rewrite Hb in E0. clear Hb.
  revert a0 E0 Ha. induction Hg as [|b' g Hb' Hg IH]; intros a0 E0 Ha; cbn in Ha; [by simplify_eq|].
  destruct (f a0 b') as [a1|] eqn:E1; [|done]. cbn in Ha. eapply IH; [|exact Ha].
  rewrite <- E0. eapply f_key; [|exact E1]. congruence.
Qed.

Lemma mapM_keys ks bs l :
  mapM F (map (group key bs) ks) = Some l → map akey l = ks.
Proof.
  intros H. apply mapM_Some_1 in H. revert l H. induction ks as [|k ks IH]; intros l H; cbn in H.
  - by apply Forall2_nil_inv_l in H as ->.
  - apply Forall2_cons_inv_l in H as (a & l' & Ha & Hl & ->). cbn. f_equal; [|by apply IH].
    eapply fold_group_key; [|exact Ha]. apply Forall_forall. by intros b [? _]%list_elem_of_filter.
Qed.

(** The index of a slice with distinct keys is determined by those keys. *)
Lemma index_by_same_keys (l l' : list A) :
  NoDup (map akey l) → map akey l' = map akey l → index_by akey l' = index_by akey l.
Proof.
  intros Hnd Hmap. symmetry. apply index_by_ext; [by rewrite Hmap|]. intros k j.
  rewrite index_by_lookup, <- !list_lookup_fmap by done.
  change (fmap (M := list) akey) with (map akey). by rewrite Hmap.
Qed.

(** The step for a key that is already there. *)
Lemma upsert_old l b i :
  NoDup (map akey l) → map akey l !! i = Some (key b) →
  step (l, index_by akey l) b = (λ l', (l', index_by akey l')) <$> update_at (λ a, f a b) i l.
Proof.
  intros Hnd Hi. unfold upsert. cbn [fst snd].
  assert (index_by akey l !! key b = Some i) as ->.
  { apply index_by_lookup; [done|]. by rewrite <- list_lookup_fmap. }
  unfold update_at. change (map akey l) with (akey <$> l) in Hi. rewrite list_lookup_fmap in Hi.
  destruct (l !! i) as [a|] eqn:Ea; cbn in *; [|done]. injection Hi as Hk.
  destruct (f a b) as [a'|] eqn:Ef; cbn; [|done]. do 2 f_equal. symmetry.
  apply index_by_same_keys; [done|]. change (map akey) with (fmap (M := list) akey).
  rewrite list_fmap_insert, (f_key _ _ _ Hk Ef). apply list_insert_id. by rewrite list_lookup_fmap, Ea.
Qed.

(** The step for a new key. *)
Lemma upsert_new l b :
  NoDup (map akey l) → key b ∉ map akey l →
  step (l, index_by akey l) b = (λ a, (l ++ [a], index_by akey (l ++ [a]))) <$> init b.
Proof.
  intros Hnd Hn. unfold upsert. cbn [fst snd].
  destruct (index_by akey l !! key b) as [i|] eqn:Ei.
  { destruct Hn. apply index_by_lookup in Ei; [|done]. rewrite <- list_lookup_fmap in Ei.
    apply list_elem_of_lookup. eauto. }
  destruct (init b) as [a|] eqn:Ea; cbn; [|done]. do 2 f_equal.
  assert (map akey (l ++ [a]) = map akey l ++ [key b]) as Hmap.
  { rewrite map_app. cbn. by rewrite (init_key _ _ Ea). }
  assert (NoDup (map akey (l ++ [a]))) as Hnd'.
  { rewrite Hmap. apply NoDup_app. split_and!; [done| |apply NoDup_singleton].
    by intros k Hk ->%list_elem_of_singleton. }
  apply index_by_ext; [done|]. intros k i. rewrite <- list_lookup_fmap.
  change (fmap (M := list) akey) with (map akey). rewrite Hmap, lookup_snoc_Some, lookup_insert.
  change (map akey l) with (akey <$> l) in *. rewrite length_fmap, list_lookup_fmap. case_decide as Hk.
  - subst k. split; [intros [= <-]; by right|]. intros [[_ Hi]|[-> _]]; [|done].
    destruct Hn. rewrite <- list_lookup_fmap in Hi. apply list_elem_of_lookup. eauto.
  - rewrite index_by_lookup by done. split; [|by intros [[_ ?]|[_ ?]]].
    intros Hi. left. split; [|done]. destruct (l !! i) eqn:E; [|done]. by eapply lookup_lt_Some.
Qed.

(** The loop computes the grouping. *)
Lemma upserts_groups bs :
  fold_opt step ([], ∅) bs = (λ l, (l, index_by akey l)) <$> mapM F (groups key bs).
Proof.
  induction bs as [|b bs IH] using rev_ind; [done|].
  rewrite fold_opt_app, IH.
  assert (∀ l, mapM F (groups key bs) = Some l → NoDup (map akey l) ∧ map akey l = first_keys (map key bs)) as Hkeys.
  { intros l Hl. apply mapM_keys in Hl. split; [rewrite Hl; apply first_keys_NoDup|done]. }
  destruct (decide (key b ∈ map key bs)) as [Hin|Hn].
  - apply elem_of_first_keys, list_elem_of_lookup in Hin as [i Hi].
    rewrite (groups_snoc_old bs b i Hi).
    rewrite (mapM_update F (groups key bs) i (group key bs (key b)) _ (λ a, f a b)).
    + destruct (mapM F (groups key bs)) as [l|]; [|done]. cbn.
      destruct (Hkeys l eq_refl) as [Hnd Hmap]. rewrite (upsert_old l b i) by (done || by rewrite Hmap).
      by destruct (update_at (λ a, f a b) i l).
    + by apply groups_lookup.
    + apply fold_group_snoc. destruct (group_cons bs (key b)) as (? & ? & ->); [|done].
      apply elem_of_first_keys, list_elem_of_lookup. eauto.
  - rewrite groups_snoc_new, mapM_snoc by done.
    destruct (mapM F (groups key bs)) as [l|]; [|done]. cbn.
    destruct (Hkeys l eq_refl) as [Hnd Hmap].
    rewrite upsert_new by (done || by rewrite Hmap, elem_of_first_keys). by destruct (init b).
Qed.

(** A slice built by the loop can be indexed again and added to. *)
Lemma upserts_resume bs bs' l m :
  fold_opt step ([], ∅) bs = Some (l, m) →
  fold_opt step (l, index_by akey l) bs' = fold_opt step ([], ∅) (bs ++ bs').
Proof.
  intros H. rewrite fold_opt_app, H. cbn. rewrite upserts_groups in H.
  destruct (mapM F (groups key bs)) as [l'|]; cbn in H; [|done]. by simplify_eq.
Qed.

(** Several rounds of the loop, the map being built anew in each, are one. *)
Lemma upserts_rounds {X} (sub : X → list B) (xs : list X) :
  fold_opt (λ l x, fst <$> fold_opt step (l, index_by akey l) (sub x)) [] xs =
  fst <$> fold_opt step ([], ∅) (flat_map sub xs).
Proof.
  assert (∀ bs l m, fold_opt step ([], ∅) bs = Some (l, m) →
    fold_opt (λ l x, fst <$> fold_opt step (l, index_by akey l) (sub x)) l xs =
    fst <$> fold_opt step ([], ∅) (bs ++ flat_map sub xs)) as H; [|by apply (H [] [] ∅)].
  induction xs as [|x xs IH]; intros bs l m Hl; cbn.
  - by rewrite app_nil_r, Hl.
  - rewrite (upserts_resume _ _ _ _ Hl). rewrite app_assoc.
    destruct (fold_opt step ([], ∅) (bs ++ sub x)) as [[l' m']|] eqn:E; cbn; [by eapply IH|].
    by rewrite fold_opt_app, E.
Qed.
End upsert.

(** Appending an empty element and updating it is appending the update. *)
Lemma merge_into_upsert {A B} (key : B → string) (empty : B → A) f st b :
  merge_into key empty f st b = upsert key (λ b, f (empty b) b) f st b.
Proof.
  unfold merge_into, upsert. destruct st as [l m]. cbn [fst snd].
  destruct (m !! key b) as [i|] eqn:E; cbn [fst snd]; [by rewrite E|].
  rewrite lookup_insert_eq. cbn. unfold update_at.
  rewrite lookup_app_r, Nat.sub_diag by done. cbn.
  destruct (f (empty b) b) as [a|]; cbn; [|done]. f_equal. f_equal.
  by rewrite insert_app_r_alt, Nat.sub_diag by done.
Qed.

Lemma fold_opt_ext {A B} (f g : A → B → option A) a l :
  (∀ a b, b ∈ l → f a b = g a b) → fold_opt f a l = fold_opt g a l.
Proof.
  revert a. induction l as [|b l IH]; intros a H; [done|]. cbn. rewrite H by apply list_elem_of_here.
  destruct (g a b); cbn; [|done]. apply IH. intros. by apply H, list_elem_of_further.
Qed.

(** A container whose slice is built in rounds. *)
Lemma rounds_into {D A B X} (akey : A → string) (stp : indexed A → B → option (indexed A))
    (get : D → list A) (set : D → list A → D) (sub : X → list B) d xs :
  (∀ d l, get (set d l) = l) → (∀ d l l', set (set d l) l' = set d l') → set d (get d) = d →
  fold_opt (λ d x, '(l, _) ← fold_opt stp (get d, index_by akey (get d)) (sub x); Some (set d l)) d xs =
  set d <$> fold_opt (λ l x, fst <$> fold_opt stp (l, index_by akey l) (sub x)) (get d) xs.
Proof.
  intros Hgs Hss. revert d. induction xs as [|x xs IH]; intros d Hsg; cbn; [by rewrite Hsg|].
  destruct (fold_opt stp (get d, index_by akey (get d)) (sub x)) as [[l m]|]; cbn; [|done].
  rewrite IH by by rewrite Hss, Hgs. rewrite Hgs.
  destruct (fold_opt _ l xs); cbn; [by rewrite Hss|done].
Qed.

(** Merging the elements of a group is merging them into an empty element. *)
Lemma fold_group_merge {A B} (empty : B → A) (f : A → B → option A) g :
  fold_group (λ b, f (empty b) b) f g = match g with [] => None | b :: _ => fold_opt f (empty b) g end.
Proof. by destruct g. Qed.

Lemma mapM_ext_in {A B} (f g : A → option B) l : (∀ x, x ∈ l → f x = g x) → mapM f l = mapM g l.
Proof.
  induction l as [|x l IH]; intros H; cbn; [done|]. rewrite H by apply list_elem_of_here.
  rewrite IH; [done|]. intros. by apply H, list_elem_of_further.
Qed.

(** Merging in rounds into the slice of an empty container is grouping. *)
Lemma merge_rounds {D A B X} (akey : A → string) (key : B → string) (empty : B → A) (f : A → B → option A)
    (get : D → list A) (set : D → list A → D) (sub : X → list B) (merged : list B → option A) d xs :
  (∀ b a, f (empty b) b = Some a → akey a = key b) →
  (∀ a b a', akey a = key b → f a b = Some a' → akey a' = akey a) →
  (∀ g, merged g = match g with [] => None | b :: _ => fold_opt f (empty b) g end) →
  (∀ d l, get (set d l) = l) → (∀ d l l', set (set d l) l' = set d l') → set d [] = d → get d = [] →
  fold_opt (λ d x, '(l, _) ← fold_opt (merge_into key empty f) (get d, index_by akey (get d)) (sub x); Some (set d l)) d xs =
  set d <$> mapM merged (groups key (flat_map sub xs)).
Proof.
  intros Hi Hf Hm Hgs Hss Hsg Hd.
  rewrite (rounds_into akey (merge_into key empty f) get set sub d xs) by (done || by rewrite Hd).
  erewrite fold_opt_ext; [rewrite Hd, (upserts_rounds akey key _ f Hi Hf sub xs)|].
  - rewrite (upserts_groups akey key _ f Hi Hf).
    rewrite (mapM_ext_in _ merged) by (intros g _; by rewrite Hm, fold_group_merge).
    by destruct (mapM merged _).
  - intros l x _. cbn. f_equal. apply fold_opt_ext. intros st b _. apply merge_into_upsert.
Qed.

(** Merging into an empty slice, in one round. *)
Lemma merge_groups {A B} (akey : A → string) (key : B → string) (empty : B → A) (f : A → B → option A)
    (merged : list B → option A) bs :
  (∀ b a, f (empty b) b = Some a → akey a = key b) →
  (∀ a b a', akey a = key b → f a b = Some a' → akey a' = akey a) →
  (∀ g, merged g = match g with [] => None | b :: _ => fold_opt f (empty b) g end) →
  fst <$> fold_opt (merge_into key empty f) ([], ∅) bs = mapM merged (groups key bs).
Proof.
  intros Hi Hf Hm. erewrite fold_opt_ext by (intros; apply merge_into_upsert).
  rewrite (upserts_groups akey key _ f Hi Hf).
  rewrite (mapM_ext_in _ merged) by (intros g _; by rewrite Hm, fold_group_merge).
  by destruct (mapM merged _).
Qed.

Lemma groups_elem {B} (key : B → string) bs g b : g ∈ groups key bs → b ∈ g → b ∈ bs.
Proof.
  unfold groups. intros (k & <- & _)%list_elem_of_In%in_map_iff Hb.
  by apply list_elem_of_filter in Hb as [_ ?].
Qed.

(** No group is empty. *)
Lemma groups_cons_nonempty {B} (key : B → string) bs g : g ∈ groups key bs → g ≠ [].
Proof.
  unfold groups. intros (k & <- & Hk)%list_elem_of_In%in_map_iff.
  rewrite <- list_elem_of_In, elem_of_first_keys in Hk. by destruct (group_cons key bs k Hk) as (? & ? & ->).
Qed.

(** ** What the loops keep *)
Section keep.
Context {A B : Type} (key : B → string) (init : B → option A) (f : A → B → option A).
Abbreviation step := (upsert key init f).

(** A step appends a new element or replaces one. *)
Lemma upsert_cases l m b l' m' :
  step (l, m) b = Some (l', m') →
  (∃ a, init b = Some a ∧ l' = l ++ [a])
  ∨ ∃ l1 a a' l2, l = l1 ++ a :: l2 ∧ f a b = Some a' ∧ l' = l1 ++ a' :: l2.
Proof.
  unfold upsert. cbn [fst snd]. destruct (m !! key b) as [i|].
  - unfold update_at. destruct (l !! i) as [a|] eqn:Ea; cbn; [|done].
    destruct (f a b) as [a'|] eqn:Ef; cbn; [|done]. intros [= <- <-]. right.
    apply list_elem_of_split_length in Ea as (l1 & l2 & -> & ->). exists l1, a, a', l2.
    split_and!; [done..|]. by rewrite insert_app_r_alt, Nat.sub_diag by done.
  - destruct (init b) as [a|] eqn:Ea; cbn; [|done]. intros [= <- <-]. left. eauto.
Qed.

Lemma fold_opt_inv {S} (g : S → B → option S) (P : S → Prop) s bs s' :
  (∀ s b s', b ∈ bs → P s → g s b = Some s' → P s') → P s → fold_opt g s bs = Some s' → P s'.
Proof.
  revert s. induction bs as [|b bs IH]; intros s Hg HP H; cbn in H; [by simplify_eq|].
  destruct (g s b) as [s1|] eqn:E; cbn in H; [|done]. eapply IH; [| |exact H].
  - intros ?? b' ?. by apply Hg, list_elem_of_further.
  - eapply Hg; [apply list_elem_of_here|done..].
Qed.

Lemma upserts_Forall (Q : A → Prop) l m bs l' m' :
  (∀ b a, b ∈ bs → init b = Some a → Q a) → (∀ a b a', b ∈ bs → Q a → f a b = Some a' → Q a') →
  Forall Q l → fold_opt step (l, m) bs = Some (l', m') → Forall Q l'.
Proof.
  intros Hi Hf Hl H. apply (fold_opt_inv step (λ st, Forall Q st.1) (l, m) bs (l', m')); [|done..].
  intros [l1 m1] b [l2 m2] Hb HQ Hs. cbn in *.
  apply upsert_cases in Hs as [(a & Ha & ->)|(l3 & a & a' & l4 & -> & Ha & ->)].
  - apply Forall_app. split; [done|]. apply Forall_singleton. by eapply Hi.
  - apply Forall_app in HQ as [H3 [Ha1 H4]%Forall_cons]. apply Forall_app. split; [done|].
    constructor; [by eapply Hf|done].
Qed.

(** The map points at elements that are related to their key. *)
Definition idx_ok (R : A → string → Prop) (st : indexed A) : Prop :=
  ∀ k i, st.2 !! k = Some i → ∃ a, st.1 !! i = Some a ∧ R a k.

Lemma idx_ok_nil R : idx_ok R ([], ∅).
Proof. intros k i Hk. cbn in Hk. by rewrite lookup_empty in Hk. Qed.

Lemma idx_ok_snoc (R : A → string → Prop) l m k a : idx_ok R (l, m) → R a k → idx_ok R (l ++ [a], <[k := length l]> m).
Proof.
  intros Hok Ha k' i Hi. cbn in *. rewrite lookup_insert in Hi. case_decide as Hd.
  - simplify_eq. exists a. split; [|done]. rewrite lookup_app_r by done. by rewrite Nat.sub_diag.
  - destruct (Hok _ _ Hi) as (a' & Ha' & ?). exists a'. split; [|done]. by apply lookup_app_l_Some.
Qed.

Lemma idx_ok_insert (R : A → string → Prop) l m i a a' :
  idx_ok R (l, m) → l !! i = Some a → (∀ k, R a k → R a' k) → idx_ok R (<[i := a']> l, m).
Proof.
  intros Hok Ha Hk k' j Hj. destruct (Hok _ _ Hj) as (a2 & Ha2 & HR). cbn in *.
  destruct (decide (j = i)) as [->|Hne].
  - exists a'. rewrite list_lookup_insert_eq by by eapply lookup_lt_Some. split; [done|]. apply Hk. congruence.
  - exists a2. by rewrite list_lookup_insert_ne by done.
Qed.

Lemma idx_ok_mono (R R' : A → string → Prop) st : (∀ a k, R a k → R' a k) → idx_ok R st → idx_ok R' st.
Proof. intros HR H k i Hi. destruct (H _ _ Hi) as (a & ? & ?). eauto. Qed.

Lemma idx_ok_index_by (akey : A → string) l : idx_ok (λ a k, akey a = k) (l, index_by akey l).
Proof.
  unfold index_by. set (R := λ a k, akey a = k).
  assert (∀ l1 l2 m, idx_ok R (l1, m) → idx_ok R (l1 ++ l2, index_from akey (length l1) l2 m)) as H.
  { intros l1 l2. revert l1. induction l2 as [|a l2 IH]; intros l1 m Hok; cbn; [by rewrite app_nil_r|].
    specialize (IH (l1 ++ [a]) (<[akey a := length l1]> m)). rewrite length_app, Nat.add_1_r, <- app_assoc in IH.
    apply IH, idx_ok_snoc; [|done]. done. }
  apply (H [] l ∅), idx_ok_nil.
Qed.

(** Totals are kept, in arithmetic modulo 2^64. *)
Lemma upserts_total (R : A → string → Prop) (w : A → Z) (v : B → Z) l m bs l' m' :
  (∀ b a, b ∈ bs → init b = Some a → R a (key b) ∧ eq64 (w a) (v b)) →
  (∀ a b a', b ∈ bs → R a (key b) → f a b = Some a' → (∀ k, R a k → R a' k) ∧ eq64 (w a') (w a + v b)) →
  idx_ok R (l, m) →
  fold_opt step (l, m) bs = Some (l', m') → eq64 (sumZ w l') (sumZ w l + sumZ v bs).
Proof.
  intros Hi Hf. revert l m. induction bs as [|b bs IH]; intros l m Hok H; cbn in H.
  - simplify_eq. cbn. by rewrite Z.add_0_r.
  - destruct (step (l, m) b) as [[l1 m1]|] eqn:E; cbn in H; [|done].
    assert (idx_ok R (l1, m1) ∧ eq64 (sumZ w l1) (sumZ w l + v b)) as [Hok1 Hl1].
    { unfold upsert in E. cbn [fst snd] in E. destruct (m !! key b) as [i|] eqn:Em.
      - destruct (Hok _ _ Em) as (a & Ha & Hk). cbn in Ha. unfold update_at in E. rewrite Ha in E. cbn in E.
        destruct (f a b) as [a'|] eqn:Ef; cbn in E; [|done]. injection E as <- <-.
        destruct (Hf a b a' (list_elem_of_here _ _) Hk Ef) as [Hk' Hw].
        split; [by eapply idx_ok_insert|]. apply list_elem_of_split_length in Ha as (l2 & l3 & -> & ->).
        rewrite insert_app_r_alt, Nat.sub_diag by done. cbn. rewrite !sumZ_app, !sumZ_cons, Hw. apply eq64_eq. lia.
      - destruct (init b) as [a|] eqn:Ea; cbn in E; [|done]. injection E as <- <-.
        destruct (Hi b a (list_elem_of_here _ _) Ea) as [Hk Hw]. split; [by apply idx_ok_snoc|].
        rewrite sumZ_app. cbn. by rewrite Hw, Z.add_0_r. }
    rewrite (IH (λ b' a Hb, Hi b' a (list_elem_of_further _ _ _ Hb))
      (λ a b' a' Hb, Hf a b' a' (list_elem_of_further _ _ _ Hb)) l1 m1 Hok1 H), Hl1.
    apply eq64_eq. rewrite sumZ_cons. lia.
Qed.

(** Totals of elements that satisfy [Q] are kept exactly when they stay in the
    range of the integers. *)
Lemma upserts_total_exact (Q : A → Prop) (w : A → Z) (v : B → Z) l m bs l' m' :
  (∀ a, Q a → 0 ≤ w a)%Z → (∀ b, 0 ≤ v b)%Z →
  (∀ b a, b ∈ bs → (v b ≤ max_int64)%Z → init b = Some a → Q a ∧ w a = v b) →
  (∀ a b a', b ∈ bs → Q a → (w a + v b ≤ max_int64)%Z → f a b = Some a' → Q a' ∧ w a' = w a + v b)%Z →
  Forall Q l → (sumZ w l + sumZ v bs ≤ max_int64)%Z →
  fold_opt step (l, m) bs = Some (l', m') → Forall Q l' ∧ (sumZ w l' = sumZ w l + sumZ v bs)%Z.
Proof.
  intros Hw Hv Hi Hf. revert l m. induction bs as [|b bs IH]; intros l m HQ Hle H; cbn in H.
  - simplify_eq. cbn. split; [done|lia].
  - destruct (step (l, m) b) as [[l1 m1]|] eqn:E; cbn in H; [|done].
    rewrite sumZ_cons in Hle |- *. pose proof (sumZ_nonneg v bs Hv) as Hbs.
    pose proof (sumZ_Forall_nonneg w Q l Hw HQ) as Hwl.
    assert (Forall Q l1 ∧ sumZ w l1 = sumZ w l + v b)%Z as [HQ1 Hl1].
    + apply upsert_cases in E as [(a & Ha & ->)|(l3 & a & a' & l4 & -> & Ha & ->)].
      * destruct (Hi b a (list_elem_of_here _ _) ltac:(lia) Ha) as [Hqa Hwa]. rewrite sumZ_app, sumZ_cons, Hwa. cbn.
        split; [by apply Forall_app; split; [|constructor]|lia].
      * apply Forall_app in HQ as [H3 [Ha1 H4]%Forall_cons]. rewrite !sumZ_app, !sumZ_cons in *.
        pose proof (sumZ_Forall_nonneg w Q l3 Hw H3). pose proof (sumZ_Forall_nonneg w Q l4 Hw H4).
        destruct (Hf a b a' (list_elem_of_here _ _) Ha1 ltac:(lia) Ha) as [Hqa Hwa]. rewrite Hwa.
        split; [by apply Forall_app; split; [|constructor]|lia].
    + destruct (IH (λ b' a Hb, Hi b' a (list_elem_of_further _ _ _ Hb)) (λ a b' a' Hb, Hf a b' a' (list_elem_of_further _ _ _ Hb))
        l1 m1 HQ1 ltac:(lia) H) as [? ->]. split; [done|lia].
Qed.

(** A loop whose parts cannot panic does not panic. *)
Lemma upserts_defined (l : list A) m bs :
  (∀ b, is_Some (init b)) → (∀ a b, is_Some (f a b)) → (∀ k i, m !! k = Some i → i < length l) →
  is_Some (fold_opt step (l, m) bs).
Proof.
  intros Hi Hf. revert l m. induction bs as [|b bs IH]; intros l m Hm; cbn; [done|].
  unfold upsert at 2. cbn [fst snd]. destruct (m !! key b) as [i|] eqn:E.
  - destruct (lookup_lt_is_Some_2 l i (Hm _ _ E)) as [a Ha]. unfold update_at. rewrite Ha. cbn.
    destruct (Hf a b) as [a' ->]. cbn. apply IH. intros k j. rewrite length_insert. apply Hm.
  - destruct (Hi b) as [a ->]. cbn. apply IH. intros k j. rewrite length_app, lookup_insert. cbn.
    case_decide; [intros [= <-]; lia|]. intros Hj%Hm. lia.
Qed.

Lemma index_by_range (akey : A → string) l k i : index_by akey l !! k = Some i → i < length l.
Proof. intros H. destruct (idx_ok_index_by akey l k i H) as (a & Ha & _). by eapply lookup_lt_Some. Qed.
End keep.
