(* ===== verification/Rollup.v ===== *)
(** Package [rollup]: merging the metrics and logs that were not sampled
    (internal/rollup/rollup.go).

    The maps from a key to a pdata handle are maps to a place in the slice the
    handle points into. [None] is the panic of a handle that points nowhere. *)
From S2P Require Import Prelude GoStd PData Signals Config Grouping.

Module Rollup.

Inductive CardinalityLevel := LevelFine | LevelMedium | LevelCoarse.

#[global] Instance CardinalityLevel_eq_dec : EqDecision CardinalityLevel.
Proof. solve_decision. Defined.

Record Processor := MkProcessor { cfg : RollupConfig; mu : RWMutex; currentLevel : CardinalityLevel }.

Definition New (config : RollupConfig) : Processor := MkProcessor config Unlocked LevelFine.

Definition set_mu (m : RWMutex) (p : Processor) : Processor := MkProcessor (cfg p) m (currentLevel p).
Definition set_level (l : CardinalityLevel) (p : Processor) : Processor := MkProcessor (cfg p) (mu p) l.

Definition SetLevel (level : CardinalityLevel) : Go Processor unit :=
  _ ← zoom mu set_mu Mutex.Lock;
  _ ← modifyS (set_level level);
  zoom mu set_mu Mutex.Unlock.

(** [p.mu.RLock(); level := p.currentLevel; p.mu.RUnlock()] *)
Definition readLevel : Go Processor CardinalityLevel :=
  _ ← zoom mu set_mu Mutex.RLock;
  p ← getS;
  _ ← zoom mu set_mu Mutex.RUnlock;
  mret (currentLevel p).

Section Rollup.
Context `{!PData}.

(** ** Keys *)

(** [fmt.Sprintf("%s=%s;", k, v.AsString())] *)
Definition attr_text (kv : string * Value) : string := kv.1 +:+ "=" +:+ as_string kv.2 +:+ ";".

Definition attrKey (attrs : Map) : string := foldl (λ res kv, res +:+ attr_text kv) "" attrs.

Definition allowed (k : string) : bool := bool_decide (k ∈ ["http.method"; "http.status_code"; "error"]).

Definition filterAttributesKey (attrs : Map) (level : CardinalityLevel) : string :=
  match level with
  | LevelCoarse => ""
  | _ => foldl (λ result kv, if allowed kv.1 then result +:+ attr_text kv else result) "" attrs
  end.

Definition applyFilteredAttributes (dest src : Map) (level : CardinalityLevel) : Map :=
  match level with
  | LevelCoarse => dest
  | _ => foldl (λ dest kv, if allowed kv.1 then map_put kv.1 kv.2 dest else dest) dest src
  end.

Definition scopeKey (s : Scope) : string := sc_name s +:+ sc_version s.

(** [body[:20]] cuts bytes. *)
Definition logKey (lr : LogRecord) (level : CardinalityLevel) : string :=
  let body := as_string (lr_body lr) in
  let body := if decide (20 < String.length body ∧ level = LevelCoarse) then Str.take 20 body +:+ "..." else body in
  pretty (lr_severity lr) +:+ ":" +:+ body.

(** ** Metrics *)

Definition aggregate (existing src : NumberDataPoint) : NumberDataPoint :=
  match dp_value src with
  | NVInt _ => MkDP (dp_attrs existing) (NVInt (wrap64 (IntValue existing + IntValue src))) (dp_rest existing)
  | _ => MkDP (dp_attrs existing) (NVDouble (float64_add (DoubleValue existing) (DoubleValue src))) (dp_rest existing)
  end.

Definition newPoint (level : CardinalityLevel) (src : NumberDataPoint) : NumberDataPoint :=
  MkDP (applyFilteredAttributes [] (dp_attrs src) level) (dp_value src) (dp_rest src).

Definition rollupDataPoints (dest src : list NumberDataPoint) (level : CardinalityLevel)
    : option (list NumberDataPoint) :=
  fst <$> fold_opt
    (upsert (λ srcDP, filterAttributesKey (dp_attrs srcDP) level)
       (λ srcDP, Some (newPoint level srcDP)) (λ existing srcDP, Some (aggregate existing srcDP)))
    (dest, index_by (λ dp, attrKey (dp_attrs dp)) dest) src.

Definition set_data (m : Metric) (d : MetricData) : Metric :=
  MkMetric (m_name m) (m_description m) (m_unit m) (m_metadata m) d.

(** [dest.Sum().DataPoints()] of a metric that is not a sum panics. *)
Definition rollupMetricData (dest src : Metric) (level : CardinalityLevel) : option Metric :=
  match m_data src with
  | MDSum mono temporality srcPoints =>
      let data := match m_data dest with MDEmpty => MDSum mono temporality [] | d => d end in
      match data with
      | MDSum mono' temporality' points =>
          points' ← rollupDataPoints points srcPoints level;
          Some (set_data dest (MDSum mono' temporality' points'))
      | _ => None
      end
  | MDGauge srcPoints =>
      let data := match m_data dest with MDEmpty => MDGauge [] | d => d end in
      match data with
      | MDGauge points =>
          points' ← rollupDataPoints points srcPoints level;
          Some (set_data dest (MDGauge points'))
      | _ => None
      end
  | _ => match m_data dest with MDEmpty => Some src | _ => Some dest end
  end.

Definition newMetric (src : Metric) : Metric := MkMetric (m_name src) (m_description src) (m_unit src) [] MDEmpty.

Definition set_items {A} (g : ScopeGroup A) (l : list A) : ScopeGroup A := MkSG (sg_scope g) l (sg_schema g).
Definition set_scopes {A} (g : ResourceGroup A) (l : list (ScopeGroup A)) : ResourceGroup A :=
  MkRG (rg_resource g) l (rg_schema g).

(** [AppendEmpty] and the copy of the scope or of the resource. *)
Definition newScope {A} (src : ScopeGroup A) : ScopeGroup A := MkSG (sg_scope src) [] "".
Definition newResource {A} (src : ResourceGroup A) : ResourceGroup A := MkRG (rg_resource src) [] "".

Definition mergeMetricsList (destSM srcSM : ScopeGroup Metric) (level : CardinalityLevel) : option (ScopeGroup Metric) :=
  '(ms, _) ← fold_opt (merge_into m_name newMetric (λ destM srcM, rollupMetricData destM srcM level))
    (sg_items destSM, index_by m_name (sg_items destSM)) (sg_items srcSM);
  Some (set_items destSM ms).

Definition mergeScopeMetrics (destRM srcRM : ResourceGroup Metric) (level : CardinalityLevel) : option (ResourceGroup Metric) :=
  '(sms, _) ← fold_opt
    (merge_into (λ sm, scopeKey (sg_scope sm)) newScope (λ destSM srcSM, mergeMetricsList destSM srcSM level))
    (rg_scopes destRM, index_by (λ sm, scopeKey (sg_scope sm)) (rg_scopes destRM)) (rg_scopes srcRM);
  Some (set_scopes destRM sms).

(** [MoveAndAppendTo] of every signal. *)
Definition mergeMetrics (signals : list MetricSignal) : Metrics :=
  foldl (λ out sig, out ++ ms_Metrics sig) [] signals.

(** The loops of [RollupMetrics] above [LevelFine]. *)
Definition rollupMetricsAt (signals : list MetricSignal) (level : CardinalityLevel) : option Metrics :=
  fst <$> fold_opt
    (λ st sig, fold_opt
      (merge_into (λ rm, attrKey (res_attrs (rg_resource rm))) newResource
        (λ destRM rm, mergeScopeMetrics destRM rm level)) st (ms_Metrics sig))
    ([], ∅) signals.

Definition or_panic {S A} (x : option A) : Go S A := match x with Some a => mret a | None => panic end.

Definition RollupMetrics (signals : list MetricSignal) : Go Processor Metrics :=
  level ← readLevel;
  p ← getS;
  if decide (level = LevelFine ∨ Enabled (cfg p) = false) then mret (mergeMetrics signals)
  else or_panic (rollupMetricsAt signals level).

(** ** Logs *)

Definition countRecord (existing : LogRecord) : LogRecord :=
  let count := match map_get "rollup.count" (lr_attrs existing) with
               | Some countAttr => wrap64 (Int countAttr + 1)
               | None => 1%Z
               end in
  MkLR (lr_trace_id existing) (lr_severity existing) (lr_body existing)
    (map_put "rollup.count" (VInt count) (lr_attrs existing)) (lr_rest existing).

Definition newRecord (level : CardinalityLevel) (src : LogRecord) : LogRecord :=
  let attrs := map_put "rollup.count" (VInt 1) (lr_attrs src) in
  MkLR (lr_trace_id src) (lr_severity src) (lr_body src)
    (if decide (level = LevelCoarse) then map_remove "user_id" (map_remove "request_id" attrs) else attrs)
    (lr_rest src).

Definition rollupLogRecords (dest src : list LogRecord) (level : CardinalityLevel) : option (list LogRecord) :=
  fst <$> fold_opt
    (upsert (λ srcLR, logKey srcLR level) (λ srcLR, Some (newRecord level srcLR))
       (λ existing _, Some (countRecord existing)))
    (dest, index_by (λ lr, logKey lr level) dest) src.

Definition mergeScopeLogs (destRL srcRL : ResourceGroup LogRecord) (level : CardinalityLevel) : option (ResourceGroup LogRecord) :=
  '(sls, _) ← fold_opt
    (merge_into (λ sl, scopeKey (sg_scope sl)) newScope
      (λ destSL srcSL, set_items destSL <$> rollupLogRecords (sg_items destSL) (sg_items srcSL) level))
    (rg_scopes destRL, index_by (λ sl, scopeKey (sg_scope sl)) (rg_scopes destRL)) (rg_scopes srcRL);
  Some (set_scopes destRL sls).

Definition mergeLogs (signals : list LogSignal) : Logs :=
  foldl (λ out sig, out ++ ls_Logs sig) [] signals.

Definition rollupLogsAt (signals : list LogSignal) (level : CardinalityLevel) : option Logs :=
  fst <$> fold_opt
    (λ st sig, fold_opt
      (merge_into (λ rl, attrKey (res_attrs (rg_resource rl))) newResource
        (λ destRL rl, mergeScopeLogs destRL rl level)) st (ls_Logs sig))
    ([], ∅) signals.

Definition RollupLogs (signals : list LogSignal) : Go Processor Logs :=
  level ← readLevel;
  p ← getS;
  if decide (level = LevelFine ∨ Enabled (cfg p) = false) then mret (mergeLogs signals)
  else or_panic (rollupLogsAt signals level).
End Rollup.
End Rollup.
