(* ===== verification/RollupTheorems.v ===== *)
(** The properties of package [rollup]: the rolled-up data is the input grouped
    by resource, scope, metric (or record pattern) and attributes; totals and
    counts are kept; when it panics. *)
From S2P Require Import Prelude GoStd PData Signals Config Grouping Rollup.
Import Rollup.

Section RollupTheorems.
Context `{PD : !PData, PDL : !PDataLaws}.
Implicit Types (level : CardinalityLevel).

(** ** The reference: nested grouping *)

Abbreviation res_key := (λ rm, attrKey (res_attrs (rg_resource rm))).
Abbreviation scope_key := (λ sm, scopeKey (sg_scope sm)).
Abbreviation point_key level := (λ dp, filterAttributesKey (dp_attrs dp) level).
Abbreviation log_key level := (λ lr, logKey lr level).

(** The metrics of one name, in one scope. *)
Definition merged_metric level (ms : list Metric) : option Metric :=
  match ms with
  | [] => None
  | m :: _ => fold_opt (λ d s, rollupMetricData d s level) (newMetric m) ms
  end.

(** The scopes with one name and version, in one resource. *)
Definition merged_scope level (sms : list (ScopeGroup Metric)) : option (ScopeGroup Metric) :=
  match sms with
  | [] => None
  | sm :: _ => set_items (newScope sm) <$> mapM (merged_metric level) (groups m_name (flat_map sg_items sms))
  end.

(** The resources with the same attributes. *)
Definition merged_resource level (rms : list (ResourceGroup Metric)) : option (ResourceGroup Metric) :=
  match rms with
  | [] => None
  | rm :: _ => set_scopes (newResource rm) <$> mapM (merged_scope level) (groups scope_key (flat_map rg_scopes rms))
  end.

Definition rolled_metrics level (rms : Metrics) : option Metrics :=
  mapM (merged_resource level) (groups res_key rms).

(** Points with the same kept attributes. *)
Definition rolled_point level (dps : list NumberDataPoint) : option NumberDataPoint :=
  fold_group (λ dp, Some (newPoint level dp)) (λ d s, Some (aggregate d s)) dps.

(** Records with the same severity and text. *)
Definition rolled_record level (lrs : list LogRecord) : option LogRecord :=
  fold_group (λ lr, Some (newRecord level lr)) (λ d _, Some (countRecord d)) lrs.

Definition merged_log_scope level (sls : list (ScopeGroup LogRecord)) : option (ScopeGroup LogRecord) :=
  match sls with
  | [] => None
  | sl :: _ => set_items (newScope sl) <$> mapM (rolled_record level) (groups (log_key level) (flat_map sg_items sls))
  end.

Definition merged_log_resource level (rls : list (ResourceGroup LogRecord)) : option (ResourceGroup LogRecord) :=
  match rls with
  | [] => None
  | rl :: _ => set_scopes (newResource rl) <$> mapM (merged_log_scope level) (groups scope_key (flat_map rg_scopes rls))
  end.

Definition rolled_logs level (rls : Logs) : option Logs :=
  mapM (merged_log_resource level) (groups res_key rls).

(** ** Lemmas on each level *)

Lemma set_items_items {A} (g : ScopeGroup A) l : sg_items (set_items g l) = l.
Proof. done. Qed.

Lemma rollupMetricData_name level d s d' :
  m_name d = m_name s → rollupMetricData d s level = Some d' → m_name d' = m_name d.
Proof.
  unfold rollupMetricData. intros Hn.
  destruct (m_data s), (m_data d); cbn; try (destruct (rollupDataPoints _ _ _); cbn); by intros ?; simplify_eq/=.
Qed.

Abbreviation metric_step level := (upsert m_name (λ m, rollupMetricData (newMetric m) m level) (λ d s, rollupMetricData d s level)).
Abbreviation scope_step level :=
  (upsert scope_key (λ sm, mergeMetricsList (newScope sm) sm level) (λ d s, mergeMetricsList d s level)).
Abbreviation resource_step level :=
  (upsert res_key (λ rm, mergeScopeMetrics (newResource rm) rm level) (λ d s, mergeScopeMetrics d s level)).

Lemma mergeMetricsList_step d s level :
  mergeMetricsList d s level =
  '(ms, _) ← fold_opt (metric_step level) (sg_items d, index_by m_name (sg_items d)) (sg_items s); Some (set_items d ms).
Proof.
  unfold mergeMetricsList. f_equal. apply fold_opt_ext. intros st m _. apply merge_into_upsert.
Qed.

Lemma mergeScopeMetrics_step d s level :
  mergeScopeMetrics d s level =
  '(sms, _) ← fold_opt (scope_step level) (rg_scopes d, index_by scope_key (rg_scopes d)) (rg_scopes s); Some (set_scopes d sms).
Proof.
  unfold mergeScopeMetrics. f_equal. apply fold_opt_ext. intros st m _. apply (merge_into_upsert scope_key).
Qed.

Lemma rollupMetricsAt_step signals level :
  rollupMetricsAt signals level = fst <$> fold_opt (resource_step level) ([], ∅) (flat_map ms_Metrics signals).
Proof.
  unfold rollupMetricsAt. rewrite fold_opt_concat. f_equal. apply fold_opt_ext. intros st m _.
  apply (merge_into_upsert res_key).
Qed.

Lemma mergeMetricsList_scope d s level d' : mergeMetricsList d s level = Some d' → sg_scope d' = sg_scope d.
Proof. rewrite mergeMetricsList_step. intros H. by destruct (fold_opt _ _ _) as [[? ?]|]; simplify_eq/=. Qed.

Lemma mergeScopeMetrics_resource d s level d' : mergeScopeMetrics d s level = Some d' → rg_resource d' = rg_resource d.
Proof. rewrite mergeScopeMetrics_step. intros H. by destruct (fold_opt _ _ _) as [[? ?]|]; simplify_eq/=. Qed.

(** The metrics of several scopes merged into one, and so on upwards. *)
Lemma metric_groups level sms (d : ScopeGroup Metric) :
  sg_items d = [] → set_items d [] = d →
  fold_opt (λ d s, mergeMetricsList d s level) d sms =
  set_items d <$> mapM (merged_metric level) (groups m_name (flat_map sg_items sms)).
Proof.
  intros. apply (merge_rounds m_name m_name newMetric); try done.
  - intros b a Ha. by eapply rollupMetricData_name in Ha.
  - intros a b a' Hab Ha. by eapply rollupMetricData_name.
Qed.

Lemma scope_groups level rms (d : ResourceGroup Metric) :
  rg_scopes d = [] → set_scopes d [] = d →
  fold_opt (λ d s, mergeScopeMetrics d s level) d rms =
  set_scopes d <$> mapM (merged_scope level) (groups scope_key (flat_map rg_scopes rms)).
Proof.
  intros. apply (merge_rounds scope_key scope_key newScope (λ d s, mergeMetricsList d s level)); try done.
  - intros b a Ha. by apply mergeMetricsList_scope in Ha as ->.
  - intros a b a' _ Ha. by apply mergeMetricsList_scope in Ha as ->.
  - intros [|sm g]; [done|]. by rewrite metric_groups.
Qed.

Lemma rollupMetricsAt_merge signals level :
  rollupMetricsAt signals level =
  fst <$> fold_opt (merge_into res_key newResource (λ d s, mergeScopeMetrics d s level)) ([], ∅) (flat_map ms_Metrics signals).
Proof. unfold rollupMetricsAt. by rewrite fold_opt_concat. Qed.

Lemma rollupMetricsAt_nested signals level :
  rollupMetricsAt signals level = rolled_metrics level (flat_map ms_Metrics signals).
Proof.
  rewrite rollupMetricsAt_merge. apply (merge_groups res_key).
  - intros b a Ha. by apply mergeScopeMetrics_resource in Ha as ->.
  - intros a b a' _ Ha. by apply mergeScopeMetrics_resource in Ha as ->.
  - intros [|sm g]; [done|]. by rewrite scope_groups.
Qed.

(** *** Running [RollupMetrics] and [RollupLogs] *)

Lemma readLevel_run p : mu p = Unlocked → readLevel p = Ok (currentLevel p, p).
Proof. intros Hmu. destruct p as [c m l]. cbn in Hmu. by subst m. Qed.

Lemma mergeMetrics_flat signals : mergeMetrics signals = flat_map ms_Metrics signals.
Proof.
  unfold mergeMetrics. rewrite <- (app_nil_l (flat_map _ _)). generalize (@nil (ResourceGroup Metric)).
  induction signals as [|s signals IH]; intros out; cbn; [by rewrite app_nil_r|]. by rewrite IH, app_assoc.
Qed.

Lemma mergeLogs_flat signals : mergeLogs signals = flat_map ls_Logs signals.
Proof.
  unfold mergeLogs. rewrite <- (app_nil_l (flat_map _ _)). generalize (@nil (ResourceGroup LogRecord)).
  induction signals as [|s signals IH]; intros out; cbn; [by rewrite app_nil_r|]. by rewrite IH, app_assoc.
Qed.

(** C34: [RollupMetrics] returns the signals' metrics one after another at
    [LevelFine] or when rollups are disabled; at the other levels it returns
    them grouped by the attributes of the resource, then by scope, then by
    name, each group merged in order into one (the maps that the loops rebuild
    make no difference), or panics when a group cannot be merged. *)
Theorem RollupMetrics_spec p signals :
  mu p = Unlocked →
  RollupMetrics signals p =
  if decide (currentLevel p = LevelFine ∨ Enabled (cfg p) = false) then Ok (flat_map ms_Metrics signals, p)
  else match rolled_metrics (currentLevel p) (flat_map ms_Metrics signals) with
       | Some out => Ok (out, p)
       | None => Panic
       end.
Proof.
  intros Hmu. unfold RollupMetrics. erewrite bind_ok by by apply readLevel_run.
  erewrite bind_ok by done. case_decide; [by rewrite mergeMetrics_flat|].
  rewrite rollupMetricsAt_nested. by destruct (rolled_metrics _ _).
Qed.

(** ** Data points *)

(** The attributes that are kept. *)
Definition kept level (attrs : Map) : Map :=
  match level with LevelCoarse => [] | _ => filter (λ kv, allowed kv.1 = true) attrs end.

Lemma attrKey_app m1 m2 : attrKey (m1 ++ m2) = foldl (λ res kv, res +:+ attr_text kv) (attrKey m1) m2.
Proof. unfold attrKey. by rewrite foldl_app. Qed.

Lemma filterAttributesKey_kept attrs level : filterAttributesKey attrs level = attrKey (kept level attrs).
Proof.
  unfold filterAttributesKey, attrKey, kept. destruct level; [| |done];
    (generalize ""; induction attrs as [|kv attrs IH]; intros s; [done|]; cbn; rewrite IH;
     destruct (allowed kv.1) eqn:E; [by rewrite decide_True|by rewrite decide_False]).
Qed.

Lemma put_allowed attrs dest :
  NoDup (dest ++ attrs).*1 →
  foldl (λ dest kv, if allowed kv.1 then map_put kv.1 kv.2 dest else dest) dest attrs =
  dest ++ filter (λ kv, allowed kv.1 = true) attrs.
Proof.
  revert dest. induction attrs as [|[k v] attrs IH]; intros dest Hnd; cbn; [by rewrite app_nil_r|].
  rewrite fmap_app in Hnd. cbn in Hnd. apply NoDup_app in Hnd as (Hd & Hda & Ha).
  apply NoDup_cons in Ha as [Hn Ha].
  destruct (allowed k) eqn:E.
  - rewrite decide_True by done. rewrite map_put_fresh by (intros ?; by eapply Hda, list_elem_of_here).
    rewrite IH, <- app_assoc; [done|]. rewrite !fmap_app. cbn. rewrite <- app_assoc. apply NoDup_app.
    split_and!; [done|done|by apply NoDup_cons].
  - rewrite decide_False by done. apply IH. rewrite fmap_app. apply NoDup_app. split_and!; [done| |done].
    intros k' Hk' Hin. by eapply Hda, list_elem_of_further.
Qed.

Lemma applyFiltered_kept attrs level : NoDup attrs.*1 → applyFilteredAttributes [] attrs level = kept level attrs.
Proof. intros Hnd. unfold applyFilteredAttributes, kept. destruct level; [by rewrite put_allowed..|done]. Qed.

Lemma rollup_rounds {A} (key akey : A → string) (new : A → A) (upd : A → A → A) (ok : A → Prop) (srcs : list (list A)) :
  (∀ b, ok b → akey (new b) = key b) → (∀ a b, akey (upd a b) = akey a) →
  Forall (Forall ok) srcs →
  fold_opt (λ dest src, fst <$> fold_opt (upsert key (λ b, Some (new b)) (λ a b, Some (upd a b)))
    (dest, index_by akey dest) src) [] srcs =
  mapM (fold_group (λ b, Some (new b)) (λ a b, Some (upd a b))) (groups key (flat_map id srcs)).
Proof.
  intros Hn Hu Hok.
  set (init := λ b, if decide (akey (new b) = key b) then Some (new b) else None).
  assert (∀ b, ok b → init b = Some (new b)) as Hinit by (intros b ?; unfold init; rewrite decide_True; auto).
  assert (∀ b a, init b = Some a → akey a = key b) as Hi by (intros b a; unfold init; case_decide; naive_solver).
  assert (∀ a b a', akey a = key b → Some (upd a b) = Some a' → akey a' = akey a) as Hf by naive_solver.
  rewrite (fold_opt_ext _ (λ l src, fst <$> fold_opt (upsert key init (λ a b, Some (upd a b))) (l, index_by akey l) (id src))).
  2:{ intros l src Hin. f_equal. apply fold_opt_ext. intros st b Hb. unfold upsert.
      rewrite Hinit; [done|]. eapply Forall_forall in Hok; [|done]. by eapply Forall_forall in Hok. }
  rewrite (upserts_rounds akey key _ _ Hi Hf id srcs).
  rewrite (upserts_groups akey key _ _ Hi Hf).
  rewrite (mapM_ext_in _ (fold_group (λ b, Some (new b)) (λ a b, Some (upd a b)))); [by destruct (mapM _ _)|].
  intros g Hg. destruct g as [|b g]; [done|]. cbn. rewrite Hinit; [done|].
  assert (b ∈ flat_map id srcs) as Hin by (eapply groups_elem; [done|apply list_elem_of_here]).
  apply list_elem_of_In, in_flat_map in Hin as (src & Hs & Hb). apply list_elem_of_In in Hs, Hb.
  eapply Forall_forall in Hok; [|done]. by eapply Forall_forall in Hok.
Qed.

(** C35: the data points of a metric, over all the signals it comes in, are
    grouped by the attributes that are kept at the level: each group gives one
    point, the running sum of its points, with the kept attributes. *)
Theorem rollupDataPoints_groups level (srcs : list (list NumberDataPoint)) :
  Forall (Forall (λ dp, NoDup (dp_attrs dp).*1)) srcs →
  fold_opt (λ dest src, rollupDataPoints dest src level) [] srcs =
    mapM (rolled_point level) (groups (point_key level) (flat_map id srcs))
  ∧ ∀ dp, NoDup (dp_attrs dp).*1 → dp_attrs (newPoint level dp) = kept level (dp_attrs dp).
Proof.
  intros Hok. split; [|intros; by apply applyFiltered_kept].
  apply (rollup_rounds (point_key level) (λ dp, attrKey (dp_attrs dp)) _ aggregate (λ dp, NoDup (dp_attrs dp).*1)); [|..|done].
  - intros dp Hnd. cbn. by rewrite applyFiltered_kept, filterAttributesKey_kept.
  - intros a b. unfold aggregate. by destruct (dp_value b).
Qed.

(** ** When a rollup panics *)

(** [pmetric.MetricType] *)
Inductive MetricType := MetricTypeEmpty | MetricTypeGauge | MetricTypeSum | MetricTypeOther (k : OtherKind).

#[local] Instance OtherKind_eq_dec : EqDecision OtherKind.
Proof. solve_decision. Defined.
#[local] Instance MetricType_eq_dec : EqDecision MetricType.
Proof. solve_decision. Defined.

Definition metric_type (m : Metric) : MetricType :=
  match m_data m with
  | MDEmpty => MetricTypeEmpty
  | MDGauge _ => MetricTypeGauge
  | MDSum _ _ _ => MetricTypeSum
  | MDOther k _ => MetricTypeOther k
  end.

Definition has_points (m : Metric) : Prop := metric_type m = MetricTypeGauge ∨ metric_type m = MetricTypeSum.

(** The type that a merged metric gets: the first one that is set. *)
Definition first_type (t : MetricType) (ms : list Metric) : MetricType :=
  foldl (λ t m, if decide (t = MetricTypeEmpty) then metric_type m else t) t ms.

(** A gauge among metrics of its name whose first type is sum, or the other way
    round, and so on. *)
Definition type_conflict (ms : list Metric) : Prop :=
  ∃ m, m ∈ ms ∧ has_points m ∧ metric_type m ≠ first_type MetricTypeEmpty ms.

Lemma rollupDataPoints_total dest src level : is_Some (rollupDataPoints dest src level).
Proof. apply fmap_is_Some, upserts_defined; [by eexists..|apply index_by_range]. Qed.

(** One step panics when the metric has points and the type is another one. *)
Lemma rollupMetricData_type level d s :
  match rollupMetricData d s level with
  | Some d' => metric_type d' = (if decide (metric_type d = MetricTypeEmpty) then metric_type s else metric_type d)
      ∧ (has_points s → metric_type d = MetricTypeEmpty ∨ metric_type d = metric_type s)
  | None => has_points s ∧ metric_type d ≠ MetricTypeEmpty ∧ metric_type d ≠ metric_type s
  end.
Proof.
  unfold rollupMetricData, has_points, metric_type.
  destruct (m_data s) as [|ps|mo te ps|k x] eqn:Es, (m_data d) as [|ps'|mo' te' ps'|k' x'] eqn:Ed; cbn;
    try (match goal with |- context [rollupDataPoints ?a ?b ?c] =>
      destruct (rollupDataPoints_total a b c) as [? ->]; cbn end);
    rewrite ?Es, ?Ed; cbn; split; auto; intros [?|?]; done.
Qed.

Lemma first_type_set t ms : t ≠ MetricTypeEmpty → first_type t ms = t.
Proof. intros Ht. induction ms as [|m ms IH]; [done|]. cbn. by rewrite decide_False. Qed.

Lemma rollupMetricData_panics level d ms :
  fold_opt (λ d s, rollupMetricData d s level) d ms = None ↔
  ∃ m, m ∈ ms ∧ has_points m ∧ metric_type m ≠ first_type (metric_type d) ms.
Proof.
  revert d. induction ms as [|s ms IH]; intros d; cbn.
  - split; [done|]. by intros (? & ?%elem_of_nil & _).
  - pose proof (rollupMetricData_type level d s) as Hs. setoid_rewrite elem_of_cons.
    destruct (rollupMetricData d s level) as [d'|]; cbn.
    + destruct Hs as [Ht Hp]. rewrite IH, <- Ht. split; [intros (m & Hm & ?); exists m; tauto|].
      intros (m & [->|Hm] & Hpm & Hne); [|by exists m]. exfalso. apply Hne. clear IH.
      destruct (decide (metric_type d = MetricTypeEmpty)) as [He|He].
      * rewrite Ht. symmetry. apply first_type_set. by destruct Hpm as [->| ->].
      * destruct (Hp Hpm) as [?|Hd]; [done|]. rewrite Ht, first_type_set by done. done.
    + destruct Hs as (Hp & Hd & Hne). split; [|done]. intros _. exists s. split; [by left|]. split; [done|].
      rewrite decide_False, first_type_set by done. congruence.
Qed.

Lemma merged_metric_none level ms : ms ≠ [] → merged_metric level ms = None ↔ type_conflict ms.
Proof. destruct ms as [|m ms]; [done|]. intros _. apply (rollupMetricData_panics level (newMetric m) (m :: ms)). Qed.

(** C37: a rollup above [LevelFine] panics exactly when, in one scope of one
    resource, a gauge or a sum has another type than the first that is set
    among the metrics of its name; all other input is rolled up. *)
Theorem rollupMetricsAt_panics signals level :
  rollupMetricsAt signals level = None ↔
  ∃ rms sms ms, rms ∈ groups res_key (flat_map ms_Metrics signals)
    ∧ sms ∈ groups scope_key (flat_map rg_scopes rms)
    ∧ ms ∈ groups m_name (flat_map sg_items sms)
    ∧ type_conflict ms.
Proof.
  assert (rollupMetricsAt signals level = rolled_metrics level (flat_map ms_Metrics signals)) as ->.
  { apply rollupMetricsAt_nested. }
  unfold rolled_metrics. rewrite mapM_none. split.
  - intros (rms & Hr & Hn). destruct rms as [|rm rms]; [by apply groups_cons_nonempty in Hr|].
    cbn in Hn. apply fmap_None, mapM_none in Hn as (sms & Hs & Hn).
    destruct sms as [|sm sms]; [by apply groups_cons_nonempty in Hs|].
    cbn in Hn. apply fmap_None, mapM_none in Hn as (ms & Hm & Hn).
    eexists _, _, ms. split_and!; [done..|]. apply (merged_metric_none level); [|done]. by eapply groups_cons_nonempty.
  - intros (rms & sms & ms & Hr & Hs & Hm & Hc). exists rms. split; [done|].
    destruct rms as [|rm rms]; [done|]. cbn. apply fmap_None, mapM_none. exists sms. split; [done|].
    destruct sms as [|sm sms]; [done|]. cbn. apply fmap_None, mapM_none. exists ms. split; [done|].
    apply merged_metric_none; [by eapply groups_cons_nonempty|done].
Qed.

(** ** Totals *)

(** The points that are merged: the number data points of a sum or a gauge. The
    other metrics, histograms and summaries, have none of these. *)
Definition points_of (m : Metric) : list NumberDataPoint :=
  match m_data m with MDGauge dps | MDSum _ _ dps => dps | _ => [] end.

(** The sum of the integer points of the metrics called [n]. *)
Definition metric_total (n : string) (m : Metric) : Z :=
  if decide (m_name m = n) then sumZ IntValue (points_of m) else 0%Z.
Definition scope_total (n : string) (sm : ScopeGroup Metric) : Z := sumZ (metric_total n) (sg_items sm).
Definition resource_total (n : string) (rm : ResourceGroup Metric) : Z := sumZ (scope_total n) (rg_scopes rm).

Definition is_int (dp : NumberDataPoint) : Prop := match dp_value dp with NVInt _ => True | _ => False end.
Definition int_metric (m : Metric) : Prop := Forall is_int (points_of m).

Lemma resource_total_items n (rms : Metrics) : sumZ (resource_total n) rms = sumZ (metric_total n) (items rms).
Proof.
  unfold items. rewrite sumZ_flat_map. apply sumZ_ext. intros rm _. by rewrite sumZ_flat_map.
Qed.

Lemma aggregate_int d s : is_int s → eq64 (IntValue (aggregate d s)) (IntValue d + IntValue s).
Proof. unfold is_int, aggregate, IntValue. destruct (dp_value s) eqn:E; [done| |done]. intros _. cbn. apply wrap64_eq64. Qed.

Lemma rollupDataPoints_int dest src level dest' :
  Forall is_int src → rollupDataPoints dest src level = Some dest' →
  eq64 (sumZ IntValue dest') (sumZ IntValue dest + sumZ IntValue src).
Proof.
  unfold rollupDataPoints. intros Hsrc H.
  destruct (fold_opt _ _ _) as [[l m]|] eqn:E; [|done]. injection H as ->.
  apply (upserts_total _ _ _ (λ _ _, True) IntValue IntValue) in E; [done|..].
  - by intros b a _ [= <-].
  - intros a b a' Hb _ [= <-]. split; [done|]. apply aggregate_int. by eapply Forall_forall in Hsrc.
  - by eapply idx_ok_mono; [|apply idx_ok_index_by].
Qed.

Lemma rollupMetricData_int n d s level d' :
  int_metric s → m_name d = m_name s → rollupMetricData d s level = Some d' →
  eq64 (metric_total n d') (metric_total n d + metric_total n s).
Proof.
  intros Hs Hn Hr. pose proof (rollupMetricData_name _ _ _ _ Hn Hr) as Hn'.
  unfold metric_total. rewrite Hn', <- Hn. case_decide; [|done].
  unfold int_metric, rollupMetricData, points_of in *.
  destruct (m_data s) as [|ps|mo te ps|k x] eqn:Es, (m_data d) as [|ps'|mo' te' ps'|k' x'] eqn:Ed; cbn in *; simplify_eq;
    rewrite ?Es, ?Ed; cbn; rewrite ?Z.add_0_r; try done;
    (match type of Hr with context [rollupDataPoints ?a ?b ?c] =>
      destruct (rollupDataPoints a b c) as [q|] eqn:Eq; cbn in Hr; [|done] end);
    simplify_eq; cbn; by eapply rollupDataPoints_int in Eq.
Qed.

Lemma mergeMetricsList_int n d s level d' :
  Forall int_metric (sg_items s) → mergeMetricsList d s level = Some d' →
  eq64 (scope_total n d') (scope_total n d + scope_total n s).
Proof.
  intros Hs. rewrite mergeMetricsList_step. intros H.
  destruct (fold_opt _ _ _) as [[l m]|] eqn:E; [|done]. injection H as <-.
  apply (upserts_total _ _ _ (λ m k, m_name m = k) (metric_total n) (metric_total n)) in E; [done|..].
  - intros b a Hb Ha. rewrite Forall_forall in Hs.
    split; [by eapply rollupMetricData_name in Ha|].
    apply (rollupMetricData_int n) in Ha; [|by apply Hs|done]. rewrite Ha. apply eq64_eq.
    unfold metric_total at 1. cbn. by case_decide.
  - intros a b a' Hb Hn Ha. rewrite Forall_forall in Hs. split; [|by apply (rollupMetricData_int n) in Ha; [|apply Hs|]].
    intros k <-. by eapply rollupMetricData_name.
  - apply idx_ok_index_by.
Qed.

Lemma mergeScopeMetrics_int n d s level d' :
  Forall (λ sm, Forall int_metric (sg_items sm)) (rg_scopes s) → mergeScopeMetrics d s level = Some d' →
  eq64 (resource_total n d') (resource_total n d + resource_total n s).
Proof.
  intros Hs. rewrite mergeScopeMetrics_step. intros H.
  destruct (fold_opt _ _ _) as [[l m]|] eqn:E; [|done]. injection H as <-.
  apply (upserts_total _ _ _ (λ _ _, True) (scope_total n) (scope_total n)) in E; [done|..].
  - intros b a Hb Ha. split; [done|]. rewrite Forall_forall in Hs. by apply (mergeMetricsList_int n) in Ha; [|apply Hs].
  - intros a b a' Hb _ Ha. split; [done|]. rewrite Forall_forall in Hs. by eapply mergeMetricsList_int; [apply Hs|].
  - by eapply idx_ok_mono; [|apply idx_ok_index_by].
Qed.

Lemma Forall_items {A} (P : A → Prop) (rms : list (ResourceGroup A)) :
  Forall P (items rms) ↔ Forall (λ rm, Forall (λ sm, Forall P (sg_items sm)) (rg_scopes rm)) rms.
Proof.
  unfold items. rewrite Forall_flat_map. apply Forall_iff. intros rm. by rewrite Forall_flat_map.
Qed.

(** C16: a rollup keeps the totals of integer metrics: for each name, the points
    of the result add up to what the points of the input add up to, in the
    arithmetic of 64-bit integers. *)
Theorem rollupMetricsAt_total n signals level out :
  Forall int_metric (items (flat_map ms_Metrics signals)) →
  rollupMetricsAt signals level = Some out →
  eq64 (sumZ (metric_total n) (items out)) (sumZ (metric_total n) (items (flat_map ms_Metrics signals))).
Proof.
  intros Hint Hout. rewrite Forall_items, Forall_forall in Hint.
  rewrite rollupMetricsAt_step in Hout. destruct (fold_opt _ _ _) as [[l m]|] eqn:E; [|done]. injection Hout as ->.
  rewrite <- !resource_total_items.
  apply (upserts_total _ _ _ (λ _ _, True) (resource_total n) (resource_total n)) in E; [done|..].
  - intros b a Hb Ha. split; [done|]. by apply (mergeScopeMetrics_int n) in Ha; [|apply Hint].
  - intros a b a' Hb _ Ha. split; [done|]. by eapply mergeScopeMetrics_int; [apply Hint|].
  - apply idx_ok_nil.
Qed.

(** ** Cardinality *)

(** No point, or one that has no attributes. *)
Definition one_point (dps : list NumberDataPoint) : Prop :=
  dps = [] ∨ ∃ dp, dps = [dp] ∧ dp_attrs dp = [].

(** What becomes of the metrics [input] at [LevelCoarse]: a sum or a gauge has at
    most one point; any other metric is one of the input, with all its points. *)
Definition coarse_metric (input : list Metric) (m : Metric) : Prop :=
  match m_data m with
  | MDSum _ _ dps | MDGauge dps => one_point dps
  | MDOther _ _ => m ∈ input
  | MDEmpty => True
  end.

Lemma rollupDataPoints_coarse dest src dest' :
  one_point dest → rollupDataPoints dest src LevelCoarse = Some dest' → one_point dest'.
Proof.
  intros Hd H. unfold rollupDataPoints in H. destruct (fold_opt _ _ _) as [[l m]|] eqn:E; [|done]. injection H as ->.
  set (P := λ st : indexed NumberDataPoint,
    st = ([], ∅) ∨ ∃ dp, st = ([dp], {["" := 0]}) ∧ dp_attrs dp = []).
  assert (P (dest', m)) as [[= -> _]|(dp & [= -> _] & ?)]; [|by left|right; by exists dp].
  refine (fold_opt_inv _ P _ _ _ _ _ E).
  - intros st b st' _ [->|(dp & -> & Hdp)].
    + intros [= <-]. right. eexists. split; [done|done].
    + intros [= <-]. right. eexists. split; [done|]. unfold aggregate. by destruct (dp_value b).
  - destruct Hd as [->|(dp & -> & Hdp)]; [by left|right]. exists dp. split; [|done].
    unfold index_by. cbn. by rewrite Hdp.
Qed.

Section coarse.
Context (input : list Metric).
Abbreviation coarse := (coarse_metric input).

Lemma rollupMetricData_coarse d s d' :
  s ∈ input → coarse d → rollupMetricData d s LevelCoarse = Some d' → coarse d'.
Proof.
  unfold coarse_metric, rollupMetricData. intros Hs Hd Hr. assert (one_point []) as Hnil by by left.
  destruct (m_data s) as [|ps|mo te ps|k x] eqn:Es, (m_data d) as [|ps'|mo' te' ps'|k' x'] eqn:Ed; cbn in *; simplify_eq;
    rewrite ?Es, ?Ed; auto;
    (match type of Hr with context [rollupDataPoints ?a ?b ?c] =>
      destruct (rollupDataPoints a b c) as [q|] eqn:Eq; cbn in Hr; [|done] end);
    simplify_eq; cbn; eapply rollupDataPoints_coarse in Eq; auto.
Qed.

Lemma mergeMetricsList_coarse d s d' :
  Forall (.∈ input) (sg_items s) → Forall coarse (sg_items d) → mergeMetricsList d s LevelCoarse = Some d' →
  Forall coarse (sg_items d').
Proof.
  intros Hs Hd. rewrite Forall_forall in Hs. rewrite mergeMetricsList_step. intros H.
  destruct (fold_opt _ _ _) as [[l m]|] eqn:E; [|done]. injection H as <-. cbn.
  eapply upserts_Forall; [| |exact Hd|exact E].
  - intros b a Hb Ha. eapply rollupMetricData_coarse; [by apply Hs| |exact Ha]. done.
  - intros a b a' Hb Ha Hf. exact (rollupMetricData_coarse _ _ _ (Hs b Hb) Ha Hf).
Qed.

Lemma mergeScopeMetrics_coarse d s d' :
  Forall (λ sm, Forall (.∈ input) (sg_items sm)) (rg_scopes s) →
  Forall (λ sm, Forall coarse (sg_items sm)) (rg_scopes d) → mergeScopeMetrics d s LevelCoarse = Some d' →
  Forall (λ sm, Forall coarse (sg_items sm)) (rg_scopes d').
Proof.
  intros Hs Hd. rewrite Forall_forall in Hs. rewrite mergeScopeMetrics_step. intros H.
  destruct (fold_opt _ _ _) as [[l m]|] eqn:E; [|done]. injection H as <-.
  eapply upserts_Forall; [| |exact Hd|exact E].
  - intros b a Hb Ha. eapply mergeMetricsList_coarse; [by apply Hs| |exact Ha]. constructor.
  - intros a b a' Hb Ha Hf. exact (mergeMetricsList_coarse _ _ _ (Hs b Hb) Ha Hf).
Qed.
End coarse.

(** C36: at [LevelCoarse] every sum and every gauge of the result has at most one
    data point, without attributes. A histogram or a summary of the result is
    one of the input, with all its points and attributes. *)
Theorem rollupMetricsAt_coarse signals out :
  rollupMetricsAt signals LevelCoarse = Some out →
  Forall (coarse_metric (items (flat_map ms_Metrics signals))) (items out).
Proof.
  rewrite rollupMetricsAt_step. intros Hout.
  destruct (fold_opt _ _ _) as [[l m]|] eqn:E; [|done]. injection Hout as ->.
  set (input := items (flat_map ms_Metrics signals)).
  assert (Forall (.∈ input) input) as Hin by by apply Forall_forall.
  unfold input at 2 in Hin. rewrite Forall_items, Forall_forall in Hin.
  apply Forall_items. eapply upserts_Forall; [| | |exact E]; [| |constructor].
  - intros b a Hb Ha. eapply mergeScopeMetrics_coarse; [by apply Hin| |exact Ha]. constructor.
  - intros a b a' Hb Ha Hf. exact (mergeScopeMetrics_coarse _ _ _ _ (Hin b Hb) Ha Hf).
Qed.

(** ** Logs *)

Abbreviation record_step level := (upsert (log_key level) (λ lr, Some (newRecord level lr)) (λ d _, Some (countRecord d))).
Abbreviation log_scope_step level :=
  (upsert scope_key (λ sl, set_items (newScope sl) <$> rollupLogRecords (sg_items (newScope sl)) (sg_items sl) level)
    (λ d s, set_items d <$> rollupLogRecords (sg_items d) (sg_items s) level)).
Abbreviation log_resource_step level :=
  (upsert res_key (λ rl, mergeScopeLogs (newResource rl) rl level) (λ d s, mergeScopeLogs d s level)).

Lemma mergeScopeLogs_step d s level :
  mergeScopeLogs d s level =
  '(sls, _) ← fold_opt (log_scope_step level) (rg_scopes d, index_by scope_key (rg_scopes d)) (rg_scopes s); Some (set_scopes d sls).
Proof.
  unfold mergeScopeLogs. f_equal. apply fold_opt_ext. intros st m _.
  apply (merge_into_upsert scope_key newScope (λ d s, set_items d <$> rollupLogRecords (sg_items d) (sg_items s) level)).
Qed.

Lemma rollupLogsAt_merge signals level :
  rollupLogsAt signals level =
  fst <$> fold_opt (merge_into res_key newResource (λ d s, mergeScopeLogs d s level)) ([], ∅) (flat_map ls_Logs signals).
Proof. unfold rollupLogsAt. by rewrite fold_opt_concat. Qed.

Lemma rollupLogsAt_step signals level :
  rollupLogsAt signals level = fst <$> fold_opt (log_resource_step level) ([], ∅) (flat_map ls_Logs signals).
Proof.
  rewrite rollupLogsAt_merge. f_equal. apply fold_opt_ext. intros st m _. apply (merge_into_upsert res_key).
Qed.

(** *** The result as a grouping *)

Lemma logKey_attrs lr attrs level :
  logKey (MkLR (lr_trace_id lr) (lr_severity lr) (lr_body lr) attrs (lr_rest lr)) level = logKey lr level.
Proof. done. Qed.

Lemma record_groups level (sls : list (ScopeGroup LogRecord)) d :
  sg_items d = [] → set_items d [] = d →
  fold_opt (λ d s, set_items d <$> rollupLogRecords (sg_items d) (sg_items s) level) d sls =
  set_items d <$> mapM (rolled_record level) (groups (log_key level) (flat_map sg_items sls)).
Proof.
  intros Hd Hs.
  assert (∀ sls d, fold_opt (λ d s, set_items d <$> rollupLogRecords (sg_items d) (sg_items s) level) d sls =
    set_items d <$> fold_opt (λ l x, rollupLogRecords l x level) (sg_items d) (map sg_items sls)) as ->.
  { clear. induction sls as [|s sls IH]; intros d; cbn; [by destruct d|].
    destruct (rollupLogRecords (sg_items d) (sg_items s) level) as [l|]; cbn; [|done].
    rewrite IH. cbn. by destruct (fold_opt _ _ _). }
  rewrite Hd. f_equal. unfold rollupLogRecords.
  pose proof (rollup_rounds (log_key level) (log_key level) (newRecord level) (λ d _, countRecord d) (λ _, True)
    (map sg_items sls)) as H. cbn beta in H.
  rewrite (flat_map_concat_map id), map_id, <- flat_map_concat_map in H. apply H; [done..|].
  apply Forall_true. intros. by apply Forall_true.
Qed.

Lemma log_scope_groups level rls (d : ResourceGroup LogRecord) :
  rg_scopes d = [] → set_scopes d [] = d →
  fold_opt (λ d s, mergeScopeLogs d s level) d rls =
  set_scopes d <$> mapM (merged_log_scope level) (groups scope_key (flat_map rg_scopes rls)).
Proof.
  intros. apply (merge_rounds scope_key scope_key newScope
    (λ d s, set_items d <$> rollupLogRecords (sg_items d) (sg_items s) level)); try done.
  - intros b a Ha. by destruct (rollupLogRecords _ _ _); simplify_eq/=.
  - intros a b a' _ Ha. by destruct (rollupLogRecords _ _ _); simplify_eq/=.
  - intros [|sm g]; [done|]. by rewrite record_groups.
Qed.

Lemma mergeScopeLogs_resource d s level d' : mergeScopeLogs d s level = Some d' → rg_resource d' = rg_resource d.
Proof. rewrite mergeScopeLogs_step. intros H. by destruct (fold_opt _ _ _) as [[? ?]|]; simplify_eq/=. Qed.

Lemma rollupLogsAt_nested signals level :
  rollupLogsAt signals level = rolled_logs level (flat_map ls_Logs signals).
Proof.
  rewrite rollupLogsAt_merge. apply (merge_groups res_key).
  - intros b a Ha. by apply mergeScopeLogs_resource in Ha as ->.
  - intros a b a' _ Ha. by apply mergeScopeLogs_resource in Ha as ->.
  - intros [|sm g]; [done|]. by rewrite log_scope_groups.
Qed.

(** *** Log rollups do not panic *)

Lemma rollupLogRecords_total dest src level : is_Some (rollupLogRecords dest src level).
Proof. apply fmap_is_Some, upserts_defined; [by eexists..|apply index_by_range]. Qed.

Lemma mergeScopeLogs_total d s level : is_Some (mergeScopeLogs d s level).
Proof.
  rewrite mergeScopeLogs_step.
  destruct (upserts_defined scope_key
    (λ sl, set_items (newScope sl) <$> rollupLogRecords (sg_items (newScope sl)) (sg_items sl) level)
    (λ d s, set_items d <$> rollupLogRecords (sg_items d) (sg_items s) level)
    (rg_scopes d) (index_by scope_key (rg_scopes d)) (rg_scopes s)) as [[l m] ->].
  - intros b. apply fmap_is_Some, rollupLogRecords_total.
  - intros a b. apply fmap_is_Some, rollupLogRecords_total.
  - apply index_by_range.
  - by eexists.
Qed.

Lemma rollupLogsAt_defined signals level : is_Some (rollupLogsAt signals level).
Proof.
  rewrite rollupLogsAt_step. apply fmap_is_Some, upserts_defined.
  - intros b. apply mergeScopeLogs_total.
  - intros a b. apply mergeScopeLogs_total.
  - intros k i Hk. by rewrite lookup_empty in Hk.
Qed.

(** [RollupLogs] never panics. It returns the signals' logs one after
    another at [LevelFine] or when rollups are disabled; at the other levels it
    returns them grouped by the attributes of the resource, then by scope, then
    by severity and text, with one record for each group. *)
Theorem RollupLogs_spec p signals :
  mu p = Unlocked →
  ∃ out, RollupLogs signals p = Ok (out, p) ∧
    (if decide (currentLevel p = LevelFine ∨ Enabled (cfg p) = false) then out = flat_map ls_Logs signals
     else rolled_logs (currentLevel p) (flat_map ls_Logs signals) = Some out).
Proof.
  intros Hmu. unfold RollupLogs. erewrite bind_ok by by apply readLevel_run.
  erewrite bind_ok by done. case_decide; [rewrite mergeLogs_flat; eauto|].
  destruct (rollupLogsAt_defined signals (currentLevel p)) as [out Hout]. exists out.
  rewrite <- rollupLogsAt_nested. by rewrite Hout.
Qed.

(** *** Counts *)

(** What a record of the result says it stands for. *)
Definition count_of (lr : LogRecord) : Z :=
  match map_get "rollup.count" (lr_attrs lr) with Some v => Int v | None => 0%Z end.

Definition counted (lr : LogRecord) : Prop :=
  ∃ c, map_get "rollup.count" (lr_attrs lr) = Some (VInt c) ∧ (0 ≤ c)%Z.

Lemma counted_nonneg lr : counted lr → (0 ≤ count_of lr)%Z.
Proof. intros (c & H & ?). unfold count_of. by rewrite H. Qed.

(** At [LevelCoarse] attributes are removed, and [Remove] is specified for keys that
    occur once. *)
Definition keys_ok (level : CardinalityLevel) (lr : LogRecord) : Prop :=
  level = LevelCoarse → NoDup (lr_attrs lr).*1.

Lemma newRecord_count level lr :
  keys_ok level lr → counted (newRecord level lr) ∧ count_of (newRecord level lr) = 1%Z.
Proof.
  intros Hk. assert (map_get "rollup.count" (lr_attrs (newRecord level lr)) = Some (VInt 1)) as H.
  { unfold newRecord. cbn. case_decide as Hl; [|apply map_get_put].
    pose proof (map_put_NoDup "rollup.count" (VInt 1) _ (Hk Hl)) as Hnd.
    rewrite !map_get_remove_ne by (done || by apply map_remove_keys). apply map_get_put. }
  unfold counted, count_of. rewrite H. split; [by exists 1%Z|done].
Qed.

Lemma countRecord_count lr :
  counted lr → (count_of lr + 1 ≤ max_int64)%Z →
  counted (countRecord lr) ∧ count_of (countRecord lr) = (count_of lr + 1)%Z.
Proof.
  intros (c & Hc & Hnn) Hmax. unfold count_of in *. rewrite Hc in *. cbn in Hmax.
  assert (map_get "rollup.count" (lr_attrs (countRecord lr)) = Some (VInt (c + 1))) as H.
  { unfold countRecord. cbn. rewrite Hc, map_get_put. cbn. rewrite wrap64_id; [done|].
    unfold int64, min_int64. lia. }
  unfold counted. rewrite H. split; [exists (c + 1)%Z; split; [done|lia]|done].
Qed.

Definition counted_scope (sl : ScopeGroup LogRecord) : Prop := Forall counted (sg_items sl).
Definition counted_resource (rl : ResourceGroup LogRecord) : Prop := Forall counted_scope (rg_scopes rl).
Definition scope_count (sl : ScopeGroup LogRecord) : Z := sumZ count_of (sg_items sl).
Definition resource_count (rl : ResourceGroup LogRecord) : Z := sumZ scope_count (rg_scopes rl).
Definition scope_size (sl : ScopeGroup LogRecord) : Z := sumZ (λ _, 1%Z) (sg_items sl).
Definition resource_size (rl : ResourceGroup LogRecord) : Z := sumZ scope_size (rg_scopes rl).

Lemma scope_size_nonneg sl : (0 ≤ scope_size sl)%Z.
Proof. by apply sumZ_nonneg. Qed.

Lemma scope_count_nonneg sl : counted_scope sl → (0 ≤ scope_count sl)%Z.
Proof. apply sumZ_Forall_nonneg, counted_nonneg. Qed.

Lemma rollupLogRecords_count level d s d' :
  Forall (keys_ok level) s → Forall counted d → (sumZ count_of d + sumZ (λ _, 1) s ≤ max_int64)%Z → rollupLogRecords d s level = Some d' →
  Forall counted d' ∧ (sumZ count_of d' = sumZ count_of d + sumZ (λ _, 1) s)%Z.
Proof.
  intros Hs Hd Hle H. rewrite Forall_forall in Hs. unfold rollupLogRecords in H.
  destruct (fold_opt _ _ _) as [[l m]|] eqn:E; [|done]. injection H as ->.
  eapply upserts_total_exact; [| | | |exact Hd|exact Hle|exact E].
  - apply counted_nonneg.
  - done.
  - intros b a Hb _ [= <-]. by apply newRecord_count, Hs.
  - intros a b a' _ Ha Hm [= <-]. by apply countRecord_count.
Qed.

Lemma merged_scope_count level d s d' :
  Forall (keys_ok level) (sg_items s) → counted_scope d → (scope_count d + scope_size s ≤ max_int64)%Z →
  set_items d <$> rollupLogRecords (sg_items d) (sg_items s) level = Some d' →
  counted_scope d' ∧ scope_count d' = (scope_count d + scope_size s)%Z.
Proof.
  intros Hs Hd Hle H. destruct (rollupLogRecords _ _ _) as [l|] eqn:E; [|done]. injection H as <-.
  by eapply rollupLogRecords_count.
Qed.

Lemma mergeScopeLogs_count level d s d' :
  Forall (λ sl, Forall (keys_ok level) (sg_items sl)) (rg_scopes s) → counted_resource d → (resource_count d + resource_size s ≤ max_int64)%Z →
  mergeScopeLogs d s level = Some d' →
  counted_resource d' ∧ resource_count d' = (resource_count d + resource_size s)%Z.
Proof.
  intros Hs Hd Hle. rewrite Forall_forall in Hs. rewrite mergeScopeLogs_step. intros H.
  destruct (fold_opt _ _ _) as [[l m]|] eqn:E; [|done]. injection H as <-.
  eapply upserts_total_exact; [| | | |exact Hd|exact Hle|exact E].
  - apply scope_count_nonneg.
  - apply scope_size_nonneg.
  - intros b a Hin Hb Ha. eapply merged_scope_count in Ha; [exact Ha|by apply Hs|constructor|exact Hb].
  - intros a b a' Hin Ha Hm Hf. eapply merged_scope_count; [by apply Hs|exact Ha|exact Hm|exact Hf].
Qed.

Lemma resource_count_items rls : sumZ resource_count rls = sumZ count_of (items rls).
Proof. unfold items. rewrite sumZ_flat_map. apply sumZ_ext. intros rl _. by rewrite sumZ_flat_map. Qed.

Lemma resource_size_items (rls : Logs) : sumZ resource_size rls = Z.of_nat (length (items rls)).
Proof.
  transitivity (sumZ (λ _, 1%Z) (items rls)).
  - unfold items. rewrite sumZ_flat_map. apply sumZ_ext. intros rl _. by rewrite sumZ_flat_map.
  - rewrite (sumZ_const _ 1) by done. lia.
Qed.

(** C17: a log rollup counts every record once: the counts of the result add up
    to the number of records of the input. (At [LevelCoarse] the keys of a
    record's attributes have to be unique, as OTLP asks.) *)
Theorem rollupLogsAt_counts signals level :
  Forall (keys_ok level) (items (flat_map ls_Logs signals)) →
  (Z.of_nat (length (items (flat_map ls_Logs signals))) ≤ max_int64)%Z →
  ∃ out, rollupLogsAt signals level = Some out
    ∧ Forall counted (items out)
    ∧ sumZ count_of (items out) = Z.of_nat (length (items (flat_map ls_Logs signals))).
Proof.
  intros Hk Hle. rewrite Forall_items, Forall_forall in Hk. destruct (rollupLogsAt_defined signals level) as [out Hout]. exists out. split; [done|].
  rewrite rollupLogsAt_step in Hout. destruct (fold_opt _ _ _) as [[l m]|] eqn:E; [|done]. injection Hout as ->.
  rewrite <- resource_size_items in Hle |- *. rewrite <- resource_count_items.
  eapply (upserts_total_exact _ _ _ counted_resource resource_count resource_size) in E as [HQ ->]; [| | | | |constructor|done].
  - split; [|done]. unfold items. rewrite Forall_flat_map. eapply Forall_impl; [exact HQ|].
    intros rl Hrl. by rewrite Forall_flat_map.
  - intros rl Hrl. eapply sumZ_Forall_nonneg; [apply scope_count_nonneg|exact Hrl].
  - intros rl. apply sumZ_nonneg, scope_size_nonneg.
  - intros b a Hin Hb Ha. eapply mergeScopeLogs_count in Ha; [exact Ha|by apply Hk|constructor|exact Hb].
  - intros a b a' Hin Ha Hm Hf. by eapply mergeScopeLogs_count; [apply Hk| | |].
Qed.
End RollupTheorems.
