(* ===== verification/Discovery.v ===== *)
(** Package [discovery]: finding the peers of the cluster
    (internal/discovery/discovery.go). *)
From Stdlib Require Import Ascii.
From S2P Require Import Prelude GoStd PData Config.

(** [net.SRV]; the port is a [uint16]. *)
Record SRV := MkSRV { Target : string; SRVPort : Z }.

(** The interface [Resolver]; [None] is an error. *)
Record Resolver := MkResolver {
  LookupHost : string → option (list string);
  LookupSRV : string → option (list SRV) }.

Inductive DiscoveryError := ErrUnknownType (t : string) | ErrLookup (host : string).

(** The implementations of the interface [Discoverer]. *)
Inductive Discoverer :=
| StaticDiscovery (peers : list string)
| DNSDiscovery (serviceName : string) (resolver : Resolver).

Definition NewDNSDiscovery (defaultResolver : Resolver) (serviceName : string) : Discoverer :=
  DNSDiscovery serviceName defaultResolver.

Module Discovery.
Definition New (defaultResolver : Resolver) (config : DiscoveryConfig) : DiscoveryError + Discoverer :=
  if decide (Discovery_Type config = "static") then inr (StaticDiscovery (Peers config))
  else if decide (Discovery_Type config = "dns") then inr (NewDNSDiscovery defaultResolver (ServiceName config))
  else inl (ErrUnknownType (Discovery_Type config)).
End Discovery.

Definition last_char (s : string) : option Ascii.ascii := String.get (String.length s - 1) s.

(** [if len(target) > 0 && target[len(target)-1] == '.' { target = target[:len(target)-1] }] *)
Definition trimDot (target : string) : string :=
  if decide (last_char target = Some "."%char) then Str.take (String.length target - 1) target else target.

(** [fmt.Sprintf("%s:%d", target, srv.Port)] *)
Definition srvPeer (srv : SRV) : string := trimDot (Target srv) +:+ ":" +:+ pretty (SRVPort srv).

Definition GetPeers (d : Discoverer) : DiscoveryError + list string :=
  match d with
  | StaticDiscovery peers => inr peers
  | DNSDiscovery serviceName resolver =>
      match LookupSRV resolver serviceName with
      | Some (srv :: srvs) => inr (Str.Strings (map srvPeer (srv :: srvs)))
      | _ =>
          match LookupHost resolver serviceName with
          | None => inl (ErrLookup serviceName)
          | Some addrs => inr (Str.Strings addrs)
          end
      end
  end.

(** ** Properties *)

Lemma Strings_perm l : Str.Strings l ≡ₚ l.
Proof. apply merge_sort_Permutation. Qed.

Lemma Strings_sorted l : Sorted String.le (Str.Strings l).
Proof. apply Sorted_merge_sort. apply _. Qed.

Lemma take_all_app s t : Str.take (String.length s) (s +:+ t) = s.
Proof.
  unfold Str.take. induction s as [|c s IH]; cbn; [by destruct t|].
  change (String.append (String c s) t) with (String c (s +:+ t)). cbn. by f_equal.
Qed.

Lemma get_app_last s c : String.get (String.length s) (s +:+ String c "") = Some c.
Proof.
  induction s as [|c' s IH]; [done|]. exact IH.
Qed.

Lemma length_snoc s c : String.length (s +:+ String c "") = S (String.length s).
Proof. induction s as [|c' s IH]; [done|]. exact (f_equal S IH). Qed.

Lemma trimDot_dot s : trimDot (s +:+ ".") = s.
Proof.
  unfold trimDot, last_char. rewrite length_snoc. replace (S (String.length s) - 1) with (String.length s) by lia.
  rewrite decide_True by apply get_app_last. apply take_all_app.
Qed.

Lemma trimDot_other s : last_char s ≠ Some "."%char → trimDot s = s.
Proof. intros H. unfold trimDot. by rewrite decide_False. Qed.

(** DNS discovery gives the SRV records, without the dot that ends a target
    and with the port, in the order of strings; without SRV records it gives the
    addresses of the name in the order of strings, and the error of that lookup
    when it fails too. *)
Theorem GetPeers_dns name r :
  match LookupSRV r name with
  | Some (srv :: srvs) =>
      ∃ peers, GetPeers (DNSDiscovery name r) = inr peers ∧ Sorted String.le peers
        ∧ peers ≡ₚ map srvPeer (srv :: srvs)
  | _ =>
      match LookupHost r name with
      | None => GetPeers (DNSDiscovery name r) = inl (ErrLookup name)
      | Some addrs => ∃ peers, GetPeers (DNSDiscovery name r) = inr peers ∧ Sorted String.le peers ∧ peers ≡ₚ addrs
      end
  end
  ∧ ∀ host port,
      srvPeer (MkSRV (host +:+ ".") port) = host +:+ ":" +:+ pretty port
      ∧ (last_char host ≠ Some "."%char → srvPeer (MkSRV host port) = host +:+ ":" +:+ pretty port).
Proof.
  split.
  - unfold GetPeers. destruct (LookupSRV r name) as [[|srv srvs]|].
    + destruct (LookupHost r name); [|done]. eexists. split; [done|]. split; [apply Strings_sorted|apply Strings_perm].
    + eexists. split; [done|]. split; [apply Strings_sorted|apply Strings_perm].
    + destruct (LookupHost r name); [|done]. eexists. split; [done|]. split; [apply Strings_sorted|apply Strings_perm].
  - intros host port. unfold srvPeer. cbn [Target SRVPort]. split; [by rewrite trimDot_dot|].
    intros H. by rewrite trimDot_other.
Qed.
