(* ===== verification/Gossip.v ===== *)
(** Package [gossip]: sampling decisions and triggers that the nodes of a
    cluster send each other (internal/gossip/gossip.go, messages.go).

    Protobuf, its timestamps, memberlist and its queue of broadcasts are
    third-party code: parameters, with the laws this package relies on. *)
From S2P Require Import Prelude GoStd PData Config Discovery.

(** ** Messages *)

Inductive MessageType := MsgSamplingDecision | MsgTriggerEvent.

Record SamplingDecision := MkDecision {
  sd_TraceID : string;
  sd_Reason : string;
  sd_DecidedAt : Z;
  sd_DecidedBy : string;
  sd_EventStart : Z;
  sd_EventEnd : Z }.

Record TriggerEvent := MkTrigger {
  te_Name : string;
  te_Value : float64;
  te_Threshold : float64;
  te_StartedAt : Z }.

(** [timestamppb.New] and [AsTime] (of a pointer that may be nil). *)
Class Timestamps := {
  Timestamp_pb : Type;
  ts_New : Z → Timestamp_pb;
  ts_AsTime : option Timestamp_pb → Z
}.

Class TimestampsLaws `{Timestamps} : Prop := {
  ts_AsTime_New t : ts_AsTime (Some (ts_New t)) = t;
  ts_AsTime_nil : ts_AsTime None = 0%Z
}.

(** The generated message types of gossip.proto. *)
Record pb_SamplingDecision `{Timestamps} := Mk_pb_SamplingDecision {
  pb_TraceId : string;
  pb_Reason : string;
  pb_DecidedAt : option Timestamp_pb;
  pb_DecidedBy : string;
  pb_EventStart : option Timestamp_pb;
  pb_EventEnd : option Timestamp_pb }.

Record pb_TriggerEvent `{Timestamps} := Mk_pb_TriggerEvent {
  pb_Name : string;
  pb_Value : float64;
  pb_Threshold : float64;
  pb_StartedAt : option Timestamp_pb }.

(** The [oneof] of a message; [NoPayload] is an unset one. *)
Inductive GossipMessage `{Timestamps} :=
| NoPayload
| GossipMessage_SamplingDecision (sd : pb_SamplingDecision)
| GossipMessage_TriggerEvent (te : pb_TriggerEvent).

Arguments Mk_pb_SamplingDecision {_} _ _ _ _ _ _.
Arguments Mk_pb_TriggerEvent {_} _ _ _ _.
Arguments NoPayload {_}.
Arguments GossipMessage_SamplingDecision {_} sd.
Arguments GossipMessage_TriggerEvent {_} te.

#[global] Instance gossip_message_empty `{Timestamps} : Empty GossipMessage := NoPayload.

(** [memberlist.TransmitLimitedQueue]: what is queued, and taking messages out
    of it to send. [Invalidates] is false for every broadcast of this package,
    so nothing queued is replaced. *)
Class TransmitQueue (Q : Type) := {
  tq_new : Q;
  tq_view : Q → list bytes;
  tq_queue : bytes → Q → Q;
  tq_get : Z → Z → Q → list bytes * Q
}.

Class TransmitQueueLaws (Q : Type) `{!TransmitQueue Q} : Prop := {
  tq_view_new : tq_view tq_new = [];
  tq_view_queue b q : tq_view (tq_queue b q) ≡ₚ b :: tq_view q;
  tq_get_elem overhead limit q b : b ∈ (tq_get overhead limit q).1 → b ∈ tq_view q;
  tq_get_rest overhead limit q b : b ∈ tq_view (tq_get overhead limit q).2 → b ∈ tq_view q
}.

(** The memberlist handle. *)
Class Memberlist (L : Type) := {
  ml_create : GossipConfig → option L;
  ml_num_members : L → Z;
  ml_members : L → list string;
  ml_join : list string → L → option Z * L;
  ml_leave : L → L
}.

Inductive GossipError := ErrCreate | ErrGossipMarshal.

Module Gossip.

Record Manager (L Q : Type) := MkManager {
  cfg : GossipConfig;
  discoverer : Discoverer;
  mlist : option L;
  debug : bool;
  broadcasts : option Q;
  decisionChan : chan SamplingDecision;
  triggerChan : chan TriggerEvent }.
Arguments MkManager {L Q} _ _ _ _ _ _ _.
Arguments cfg {L Q} _.
Arguments discoverer {L Q} _.
Arguments mlist {L Q} _.
Arguments debug {L Q} _.
Arguments broadcasts {L Q} _.
Arguments decisionChan {L Q} _.
Arguments triggerChan {L Q} _.

(** A message on its way out; nobody asks to be notified of its end. *)
Record broadcast := MkBroadcast { msg : bytes }.
Definition Invalidates (b other : broadcast) : bool := false.
Definition Message (b : broadcast) : bytes := msg b.

Section Gossip.
Context {L Q : Type} `{!Memberlist L} `{!TransmitQueue Q} `{TS : Timestamps} `{!Codec GossipMessage}.

Abbreviation M := (Manager L Q).

Definition set_mlist (l : option L) (m : M) : M :=
  MkManager (cfg m) (discoverer m) l (debug m) (broadcasts m) (decisionChan m) (triggerChan m).
Definition set_broadcasts (q : option Q) (m : M) : M :=
  MkManager (cfg m) (discoverer m) (mlist m) (debug m) q (decisionChan m) (triggerChan m).
Definition set_decisionChan (c : chan SamplingDecision) (m : M) : M :=
  MkManager (cfg m) (discoverer m) (mlist m) (debug m) (broadcasts m) c (triggerChan m).
Definition set_triggerChan (c : chan TriggerEvent) (m : M) : M :=
  MkManager (cfg m) (discoverer m) (mlist m) (debug m) (broadcasts m) (decisionChan m) c.

Definition New (config : GossipConfig) (disc : Discoverer) (dbg : bool) : M :=
  MkManager config disc None dbg None (Chan.make SamplingDecision 100) (Chan.make TriggerEvent 100).

(** The ticker of [joinLoop]. [time.NewTicker] panics unless its interval is
    positive; the [Reset] for an interval of 0 comes after it. *)
Definition joinTicker (c : GossipConfig) : option Z :=
  let d := wrap64 (Interval c * Time.Millisecond) in
  if (d <=? 0)%Z then None else Some (if (Interval c =? 0)%Z then (5 * Time.Second)%Z else d).

(** [Start], and the start of [joinLoop]: a panic of a goroutine ends the process. *)
Definition Start : Go M (option GossipError) :=
  m ← getS;
  match ml_create (cfg m) with
  | None => mret (Some ErrCreate)
  | Some l =>
      _ ← modifyS (set_mlist (Some l));
      _ ← modifyS (set_broadcasts (Some tq_new));
      match joinTicker (cfg m) with None => panic | Some _ => mret None end
  end.

Definition Stop : Go M unit := modifyS (λ m, match mlist m with Some l => set_mlist (Some (ml_leave l)) m | None => m end).

(** [m.broadcasts.QueueBroadcast]: a method call on a nil pointer panics. *)
Definition QueueBroadcast (data : bytes) : Go M unit :=
  m ← getS;
  match broadcasts m with
  | None => panic
  | Some q => putS (set_broadcasts (Some (tq_queue (Message (MkBroadcast data)) q)) m)
  end.

(** The rest of memberlist's delegate: no meta data and no state is exchanged. *)
Definition NodeMeta (limit : Z) : Go M bytes := mret [].
Definition LocalState (join : bool) : Go M bytes := mret [].
Definition MergeRemoteState (state : bytes) (join : bool) : Go M unit := mret tt.

(** [select { case m.decisionChan <- decision: default: ... }] *)
Definition deliverDecision (d : SamplingDecision) : M → M := λ m,
  set_decisionChan (Chan.try_send d (decisionChan m)).2 m.
Definition deliverTrigger (t : TriggerEvent) : M → M := λ m,
  set_triggerChan (Chan.try_send t (triggerChan m)).2 m.

Definition decisionMessage (d : SamplingDecision) : GossipMessage :=
  GossipMessage_SamplingDecision (Mk_pb_SamplingDecision (sd_TraceID d) (sd_Reason d)
    (Some (ts_New (sd_DecidedAt d))) (sd_DecidedBy d)
    (Some (ts_New (sd_EventStart d))) (Some (ts_New (sd_EventEnd d)))).

Definition BroadcastDecision (d : SamplingDecision) : Go M (option GossipError) :=
  match marshal (decisionMessage d) with
  | None => mret (Some ErrGossipMarshal)
  | Some data =>
      _ ← QueueBroadcast data;
      _ ← modifyS (deliverDecision d);
      mret None
  end.

Definition triggerMessage (t : TriggerEvent) : GossipMessage :=
  GossipMessage_TriggerEvent (Mk_pb_TriggerEvent (te_Name t) (te_Value t) (te_Threshold t)
    (Some (ts_New (te_StartedAt t)))).

Definition BroadcastTrigger (t : TriggerEvent) : Go M (option GossipError) :=
  match marshal (triggerMessage t) with
  | None => mret (Some ErrGossipMarshal)
  | Some data =>
      _ ← QueueBroadcast data;
      _ ← modifyS (deliverTrigger t);
      mret None
  end.

Definition NotifyMsg (b : bytes) : Go M unit :=
  match b with
  | [] => mret tt
  | _ =>
      match unmarshal b with
      | None => mret tt
      | Some (GossipMessage_SamplingDecision sd) =>
          modifyS (deliverDecision (MkDecision (pb_TraceId sd) (pb_Reason sd) (ts_AsTime (pb_DecidedAt sd))
            (pb_DecidedBy sd) (ts_AsTime (pb_EventStart sd)) (ts_AsTime (pb_EventEnd sd))))
      | Some (GossipMessage_TriggerEvent te) =>
          modifyS (deliverTrigger (MkTrigger (pb_Name te) (pb_Value te) (pb_Threshold te) (ts_AsTime (pb_StartedAt te))))
      | Some NoPayload => mret tt
      end
  end.

Definition GetBroadcasts (overhead limit : Z) : Go M (list bytes) :=
  m ← getS;
  match broadcasts m with
  | None => panic
  | Some q => let '(msgs, q') := tq_get overhead limit q in
      _ ← putS (set_broadcasts (Some q') m); mret msgs
  end.

Definition tryJoin : Go M unit :=
  m ← getS;
  match GetPeers (discoverer m) with
  | inl _ => mret tt
  | inr [] => mret tt
  | inr peers =>
      match mlist m with
      | None => panic
      | Some l => putS (set_mlist (Some (ml_join peers l).2) m)
      end
  end.

(** One tick of [joinLoop]. *)
Definition joinTick : Go M unit :=
  m ← getS;
  match mlist m with
  | None => panic
  | Some l => if (ml_num_members l <=? 1)%Z then tryJoin else mret tt
  end.

Definition Members : Go M (list string) :=
  m ← getS; mret (match mlist m with None => [] | Some l => ml_members l end).

(** Receiving from the channels, for [decisionLoop] and [triggerLoop]. *)
Definition recvDecision : Go M (option SamplingDecision) :=
  m ← getS;
  match Chan.recv (decisionChan m) with
  | None => mret None
  | Some (d, c) => _ ← putS (set_decisionChan c m); mret (Some d)
  end.
Definition recvTrigger : Go M (option TriggerEvent) :=
  m ← getS;
  match Chan.recv (triggerChan m) with
  | None => mret None
  | Some (t, c) => _ ← putS (set_triggerChan c m); mret (Some t)
  end.

(** ** Properties *)
Context `{!TransmitQueueLaws Q} `{!TimestampsLaws} `{!CodecLaws GossipMessage}.

Lemma deliver_decision_message d data node :
  marshal (decisionMessage d) = Some data → NotifyMsg data node = Ok (tt, deliverDecision d node).
Proof.
  intros Hm. unfold NotifyMsg. destruct data as [|x data].
  - by apply marshal_nil in Hm.
  - rewrite (unmarshal_marshal _ _ Hm). unfold decisionMessage. cbn [pb_TraceId pb_Reason pb_DecidedAt pb_DecidedBy pb_EventStart pb_EventEnd].
    rewrite !ts_AsTime_New. by destruct d.
Qed.

Lemma deliver_trigger_message t data node :
  marshal (triggerMessage t) = Some data → NotifyMsg data node = Ok (tt, deliverTrigger t node).
Proof.
  intros Hm. unfold NotifyMsg. destruct data as [|x data].
  - by apply marshal_nil in Hm.
  - rewrite (unmarshal_marshal _ _ Hm). unfold triggerMessage. cbn [pb_Name pb_Value pb_Threshold pb_StartedAt].
    rewrite !ts_AsTime_New. by destruct t.
Qed.

Lemma BroadcastDecision_run d data q m :
  broadcasts m = Some q → marshal (decisionMessage d) = Some data →
  BroadcastDecision d m = Ok (None, deliverDecision d (set_broadcasts (Some (tq_queue data q)) m)).
Proof. intros Hq Hm. unfold BroadcastDecision, QueueBroadcast. rewrite Hm. go_simpl. by rewrite Hq. Qed.

Lemma BroadcastTrigger_run t data q m :
  broadcasts m = Some q → marshal (triggerMessage t) = Some data →
  BroadcastTrigger t m = Ok (None, deliverTrigger t (set_broadcasts (Some (tq_queue data q)) m)).
Proof. intros Hq Hm. unfold BroadcastTrigger, QueueBroadcast. rewrite Hm. go_simpl. by rewrite Hq. Qed.

(** C32: a decision (or a trigger) broadcast by a started node is queued for the
    cluster and delivered to the node's own channel if that has room; every node
    that receives the queued bytes delivers the very same decision (trigger). *)
Theorem Broadcast_roundtrip d t m q :
  broadcasts m = Some q →
  (is_Some (marshal (decisionMessage d)) →
    ∃ data m' q', BroadcastDecision d m = Ok (None, m')
      ∧ broadcasts m' = Some q' ∧ tq_view q' ≡ₚ data :: tq_view q
      ∧ decisionChan m' = (Chan.try_send d (decisionChan m)).2 ∧ triggerChan m' = triggerChan m
      ∧ ∀ node, NotifyMsg data node = Ok (tt, deliverDecision d node))
  ∧ (is_Some (marshal (triggerMessage t)) →
    ∃ data m' q', BroadcastTrigger t m = Ok (None, m')
      ∧ broadcasts m' = Some q' ∧ tq_view q' ≡ₚ data :: tq_view q
      ∧ triggerChan m' = (Chan.try_send t (triggerChan m)).2 ∧ decisionChan m' = decisionChan m
      ∧ ∀ node, NotifyMsg data node = Ok (tt, deliverTrigger t node)).
Proof.
  intros Hq. split; intros [data Hm]; eexists data, _, _.
  - split; [by eapply BroadcastDecision_run|]. split_and!; [done|apply tq_view_queue|done|done|].
    intros node. by apply deliver_decision_message.
  - split; [by eapply BroadcastTrigger_run|]. split_and!; [done|apply tq_view_queue|done|done|].
    intros node. by apply deliver_trigger_message.
Qed.

(** The channels of a node. *)
Definition chans_wf (m : M) : Prop := Chan.wf (decisionChan m) ∧ Chan.wf (triggerChan m).

Lemma deliverDecision_wf d m : chans_wf m → chans_wf (deliverDecision d m).
Proof. intros [? ?]. split; [by apply Chan.try_send_wf|done]. Qed.

Lemma deliverTrigger_wf t m : chans_wf m → chans_wf (deliverTrigger t m).
Proof. intros [? ?]. split; [done|by apply Chan.try_send_wf]. Qed.

Lemma NotifyMsg_run b m :
  chans_wf m →
  ∃ m', NotifyMsg b m = Ok (tt, m') ∧ chans_wf m'
    ∧ (∃ ds ts, chan_buf (decisionChan m') = chan_buf (decisionChan m) ++ ds
         ∧ chan_buf (triggerChan m') = chan_buf (triggerChan m) ++ ts ∧ length ds + length ts ≤ 1)
    ∧ (b = [] ∨ unmarshal b = None ∨ unmarshal b = Some NoPayload → m' = m).
Proof.
  intros Hwf.
  assert (∃ ds ts, chan_buf (decisionChan m) = chan_buf (decisionChan m) ++ ds
         ∧ chan_buf (triggerChan m) = chan_buf (triggerChan m) ++ ts ∧ length ds + length ts ≤ 1) as Hsame.
  { exists [], []. rewrite !app_nil_r. split_and!; [done..|cbn; lia]. }
  unfold NotifyMsg. destruct b as [|x b]; [by exists m|].
  destruct (unmarshal (x :: b)) as [[|sd|te]|]; [by exists m| | |by exists m]; eexists; (split; [reflexivity|]).
  - split; [by apply deliverDecision_wf|]. split; [|by intros [?|[?|?]]].
    destruct (Chan.try_send_prefix (MkDecision (pb_TraceId sd) (pb_Reason sd) (ts_AsTime (pb_DecidedAt sd))
            (pb_DecidedBy sd) (ts_AsTime (pb_EventStart sd)) (ts_AsTime (pb_EventEnd sd))) (decisionChan m)) as (l & Hl & Hc).
    exists l, []. cbn. rewrite app_nil_r. split_and!; [done..|]. destruct Hc as [-> | ->]; cbn; lia.
  - split; [by apply deliverTrigger_wf|]. split; [|by intros [?|[?|?]]].
    destruct (Chan.try_send_prefix (MkTrigger (pb_Name te) (pb_Value te) (pb_Threshold te) (ts_AsTime (pb_StartedAt te)))
      (triggerChan m)) as (l & Hl & Hc).
    exists [], l. cbn. rewrite app_nil_r. split_and!; [done..|]. destruct Hc as [-> | ->]; cbn; lia.
Qed.

(** A node that was started: it can broadcast, and its channels are in order. *)
Definition started (m : M) : Prop :=
  is_Some (broadcasts m) ∧ is_Some (mlist m) ∧ chans_wf m
  ∧ 0 < chan_cap (decisionChan m) ∧ 0 < chan_cap (triggerChan m).

Lemma started_deliverDecision d m : started m → started (deliverDecision d m).
Proof. intros (? & ? & ? & ? & ?). split_and!; [done|done|by apply deliverDecision_wf|by cbn; rewrite Chan.try_send_cap|done]. Qed.

Lemma started_deliverTrigger t m : started m → started (deliverTrigger t m).
Proof. intros (? & ? & ? & ? & ?). split_and!; [done|done|by apply deliverTrigger_wf|done|by cbn; rewrite Chan.try_send_cap]. Qed.

Lemma started_queue q m : started m → started (set_broadcasts (Some q) m).
Proof. intros (? & ? & ? & ? & ?). by split_and!. Qed.

Lemma BroadcastDecision_started d m : started m → ∃ r m', BroadcastDecision d m = Ok (r, m') ∧ started m'.
Proof.
  intros Hm. destruct (marshal (decisionMessage d)) as [data|] eqn:E.
  - destruct (proj1 Hm) as [q Hq]. eexists _, _. split; [by eapply BroadcastDecision_run|].
    by apply started_deliverDecision, started_queue.
  - exists (Some ErrGossipMarshal), m. unfold BroadcastDecision. by rewrite E.
Qed.

Lemma BroadcastTrigger_started t m : started m → ∃ r m', BroadcastTrigger t m = Ok (r, m') ∧ started m'.
Proof.
  intros Hm. destruct (marshal (triggerMessage t)) as [data|] eqn:E.
  - destruct (proj1 Hm) as [q Hq]. eexists _, _. split; [by eapply BroadcastTrigger_run|].
    by apply started_deliverTrigger, started_queue.
  - exists (Some ErrGossipMarshal), m. unfold BroadcastTrigger. by rewrite E.
Qed.

Lemma NotifyMsg_started b m : started m → ∃ m', NotifyMsg b m = Ok (tt, m') ∧ started m'.
Proof.
  intros Hm. unfold NotifyMsg. destruct b as [|x b]; [by exists m|].
  destruct (unmarshal (x :: b)) as [[|sd|te]|]; [by exists m| | |by exists m]; eexists; (split; [reflexivity|]).
  - by apply started_deliverDecision.
  - by apply started_deliverTrigger.
Qed.

Lemma recvDecision_started m :
  started m → ∃ m', recvDecision m = Ok (head (chan_buf (decisionChan m)), m') ∧ started m'
    ∧ chan_buf (decisionChan m') = tail (chan_buf (decisionChan m)).
Proof.
  intros (Hb & Hl & [Hd Ht] & Hc & Hc'). unfold recvDecision. erewrite bind_ok by done. unfold Chan.recv.
  destruct (chan_buf (decisionChan m)) as [|d l] eqn:E; [by exists m|].
  eexists. split; [reflexivity|]. split; [|done]. split_and!; [done|done| |done|done]. split; [|done].
  unfold Chan.wf in *. rewrite E in Hd. cbn in *. lia.
Qed.

Lemma recvTrigger_started m :
  started m → ∃ m', recvTrigger m = Ok (head (chan_buf (triggerChan m)), m') ∧ started m'
    ∧ chan_buf (triggerChan m') = tail (chan_buf (triggerChan m)).
Proof.
  intros (Hb & Hl & [Hd Ht] & Hc & Hc'). unfold recvTrigger. erewrite bind_ok by done. unfold Chan.recv.
  destruct (chan_buf (triggerChan m)) as [|d l] eqn:E; [by exists m|].
  eexists. split; [reflexivity|]. split; [|done]. split_and!; [done|done| |done|done]. split; [done|].
  unfold Chan.wf in *. rewrite E in Ht. cbn in *. lia.
Qed.

(** Whatever bytes arrive, [NotifyMsg] returns: it neither panics nor blocks.
    It adds at most one element at the end of one channel, never beyond the
    channel's capacity, and it changes nothing for bytes that are not a message
    or carry no payload. *)
Theorem NotifyMsg_total b m :
  chans_wf m →
  ∃ m', NotifyMsg b m = Ok (tt, m') ∧ chans_wf m'
    ∧ (∃ ds ts, chan_buf (decisionChan m') = chan_buf (decisionChan m) ++ ds
         ∧ chan_buf (triggerChan m') = chan_buf (triggerChan m) ++ ts ∧ length ds + length ts ≤ 1)
    ∧ (b = [] ∨ unmarshal b = None ∨ unmarshal b = Some NoPayload → m' = m).
Proof. apply NotifyMsg_run. Qed.

Lemma joinTick_started m : started m → ∃ m', joinTick m = Ok (tt, m') ∧ started m'.
Proof.
  intros Hm. pose proof Hm as (Hb & [l Hl] & [? ?] & ? & ?). unfold joinTick. erewrite bind_ok by done. rewrite Hl.
  destruct (_ <=? _)%Z; [|by exists m]. unfold tryJoin. erewrite bind_ok by done.
  destruct (GetPeers (discoverer m)) as [|[|peer peers]]; [by exists m..|]. rewrite Hl.
  eexists. split; [reflexivity|]. by split_and!.
Qed.

Lemma GetBroadcasts_started overhead limit m : started m → ∃ r m', GetBroadcasts overhead limit m = Ok (r, m') ∧ started m'.
Proof.
  intros Hm. destruct (proj1 Hm) as [q Hq]. unfold GetBroadcasts. erewrite bind_ok by done. rewrite Hq.
  destruct (tq_get overhead limit q) as [msgs q']. eexists _, _. split; [reflexivity|]. by apply started_queue.
Qed.

Lemma Start_run m :
  Start m = match ml_create (cfg m) with
    | None => Ok (Some ErrCreate, m)
    | Some l => match joinTicker (cfg m) with
        | None => Panic
        | Some _ => Ok (None, set_broadcasts (Some tq_new) (set_mlist (Some l) m))
        end
    end.
Proof.
  unfold Start. erewrite bind_ok by done. destruct (ml_create (cfg m)); [|done].
  do 2 erewrite bind_ok by done. by destruct (joinTicker (cfg m)).
Qed.

Lemma Start_New config disc dbg m' : Start (New config disc dbg) = Ok (None, m') → started m'.
Proof.
  rewrite Start_run. cbn [cfg New]. destruct (ml_create config); [|done]. destruct (joinTicker config); [|done].
  intros [= <-]. split_and!; [by eexists|by eexists| |cbn; lia..]. split; cbn; unfold Chan.wf; cbn; lia.
Qed.

(** C33: a new node cannot broadcast: it panics until it is started, and a started
    node broadcasts. Starting fails when memberlist cannot be created, and it
    crashes the process unless the interval in nanoseconds is a positive 64-bit
    number: the fall-back to five seconds for an interval of 0 is never
    reached. *)
Theorem Start_spec config disc dbg d t :
  let m := New config disc dbg in
  is_Some (marshal (decisionMessage d)) → is_Some (marshal (triggerMessage t)) →
  BroadcastDecision d m = Panic ∧ BroadcastTrigger t m = Panic
  ∧ (Interval config = 0%Z → is_Some (ml_create config) → Start m = Panic)
  ∧ match ml_create config with
    | None => Start m = Ok (Some ErrCreate, m)
    | Some l =>
        if decide (0 < wrap64 (Interval config * Time.Millisecond))%Z then
          ∃ m', Start m = Ok (None, m')
            ∧ (∃ md, BroadcastDecision d m' = Ok (None, md)) ∧ ∃ mt, BroadcastTrigger t m' = Ok (None, mt)
        else Start m = Panic
    end.
Proof.
  intros m [bd Hd] [bt Ht]. split_and!.
  - unfold BroadcastDecision. by rewrite Hd.
  - unfold BroadcastTrigger. by rewrite Ht.
  - intros H0 [l Hl]. rewrite Start_run. cbn [cfg m New]. rewrite Hl. unfold joinTicker. by rewrite H0.
  - rewrite Start_run. cbn [cfg m New]. destruct (ml_create config) as [l|]; [|done].
    unfold joinTicker. cbv zeta. destruct (Z.leb_spec (wrap64 (Interval config * Time.Millisecond)) 0).
    + by rewrite decide_False by lia.
    + rewrite decide_True by lia. eexists. split; [reflexivity|].
      split; eexists; [by eapply BroadcastDecision_run|by eapply BroadcastTrigger_run].
Qed.
End Gossip.
End Gossip.
