(* ===== verification/Decision.v ===== *)
(** Package [decision]: the sampling policies (internal/decision/engine.go). *)
From S2P Require Import Prelude GoStd PData Signals Config Discovery Gossip.

(** The interface [Broadcaster]: the code that broadcasts a decision, run on a
    state [S]. *)
Class Broadcaster (S : Type) := { broadcast_decision : SamplingDecision → Go S (option GossipError) }.

(** The gossip manager is a broadcaster. *)
#[global] Instance gossip_broadcaster {L Q} `{!TransmitQueue Q} `{TS : Timestamps} `{!Codec GossipMessage} :
    Broadcaster (Gossip.Manager L Q) := {| broadcast_decision := Gossip.BroadcastDecision |}.

Module Decision.

(** [broadcaster] says whether the field is set. *)
Record Engine := MkEngine { cfg : DecisionConfig; broadcaster : bool; debug : bool }.

Definition New (config : DecisionConfig) (b : bool) (dbg : bool) : Engine := MkEngine config b dbg.

Section Decision.
Context `{PD : !PData}.

(** The three nested loops over spans that return at the first match. *)
Definition any_span (p : Span → bool) (t : Traces) : bool :=
  existsb (λ rs, existsb (λ ils, existsb p (sg_items ils)) (rg_scopes rs)) t.

Definition checkError (trace : TraceSignal) : bool :=
  any_span (λ span, bool_decide (sp_status span = StatusCodeError)) (ts_Traces trace).

Definition duration (span : Span) : Z := Time.Sub (as_time (sp_end span)) (as_time (sp_start span)).

Definition checkLatency (trace : TraceSignal) (threshold : Z) : bool :=
  let thresholdNs := wrap64 (threshold * 1000000) in
  any_span (λ span, (thresholdNs <? duration span)%Z) (ts_Traces trace).

Definition checkAttribute (trace : TraceSignal) (key value : string) : bool :=
  any_span (λ span, match map_get key (sp_attrs span) with
                    | Some v => bool_decide (Str v = value)
                    | None => false
                    end) (ts_Traces trace).

(** [switch policy.Type] *)
Definition matches (trace : TraceSignal) (policy : PolicyConfig) : bool :=
  if decide (Policy_Type policy = "error") then checkError trace
  else if decide (Policy_Type policy = "latency") then checkLatency trace (LatencyThresholdMS policy)
  else if decide (Policy_Type policy = "attribute") then
    checkAttribute trace (AttributeKey policy) (AttributeValue policy)
  else false.

(** The body of the loop of [triggerDecision]. *)
Record Window := MkWindow { w_traceID : string; w_start : Z; w_end : Z }.

Definition scanSpan (w : Window) (span : Span) : Window :=
  let traceID := if decide (w_traceID w = "" ∧ IsEmpty (sp_trace_id span) = false)
                 then Hex.EncodeToString (tid_bytes (sp_trace_id span)) else w_traceID w in
  let s := as_time (sp_start span) in
  let start := if Time.IsZero (w_start w) || Time.Before s (w_start w) then s else w_start w in
  let e := as_time (sp_end span) in
  let stop := if Time.IsZero (w_end w) || Time.After e (w_end w) then e else w_end w in
  MkWindow traceID start stop.

Definition scanSpans (t : Traces) : Window :=
  foldl (λ w rs, foldl (λ w sls, foldl scanSpan w (sg_items sls)) w (rg_scopes rs))
    (MkWindow "" Time.zero_time Time.zero_time) t.

Section engine.
Context {S : Type} `{!Broadcaster S}.

(** [now] is the reading of the clock. *)
Definition triggerDecision (now : Z) (e : Engine) (trace : TraceSignal) (reason : string) : Go S unit :=
  let w := scanSpans (ts_Traces trace) in
  if decide (w_traceID w = "") then mret tt
  else
    let d := MkDecision (w_traceID w) reason now "local" (w_start w) (w_end w) in
    if broadcaster e then _ ← broadcast_decision d; mret tt else mret tt.

Fixpoint evaluate (now : Z) (e : Engine) (trace : TraceSignal) (policies : list PolicyConfig) : Go S unit :=
  match policies with
  | [] => mret tt
  | policy :: rest =>
      if matches trace policy then triggerDecision now e trace (Policy_Name policy)
      else evaluate now e trace rest
  end.

Definition EvaluateTrace (now : Z) (e : Engine) (trace : TraceSignal) : Go S unit :=
  evaluate now e trace (Policies (cfg e)).
End engine.

(** ** Properties *)

Abbreviation spans t := (items (A := Span) t).

Lemma any_span_existsb p t : any_span p t = existsb p (spans t).
Proof.
  unfold any_span, items. induction t as [|rs t IH]; [done|]. cbn [existsb flat_map].
  rewrite existsb_app, IH. f_equal. induction (rg_scopes rs) as [|s ss IHs]; [done|].
  cbn [existsb flat_map]. by rewrite existsb_app, IHs.
Qed.

Lemma any_span_true p t : any_span p t = true ↔ ∃ sp, sp ∈ spans t ∧ p sp = true.
Proof. rewrite any_span_existsb, existsb_exists. setoid_rewrite list_elem_of_In. done. Qed.

Lemma scanSpans_foldl t : scanSpans t = foldl scanSpan (MkWindow "" Time.zero_time Time.zero_time) (spans t).
Proof.
  unfold scanSpans, items. generalize (MkWindow "" Time.zero_time Time.zero_time).
  induction t as [|rs t IH]; intros w; [done|]. cbn [foldl flat_map]. rewrite foldl_app, <- IH. f_equal.
  generalize w. induction (rg_scopes rs) as [|s ss IHs]; intros w'; [done|].
  cbn [foldl flat_map]. by rewrite foldl_app, <- IHs.
Qed.

(** The trace of the first span that has a trace id. *)
Definition first_trace (l : list Span) : string :=
  match list_find (λ sp, IsEmpty (sp_trace_id sp) = false) l with
  | Some (_, sp) => Hex.EncodeToString (tid_bytes (sp_trace_id sp))
  | None => ""
  end.

Definition trace_key_of (sp : Span) : string := Hex.EncodeToString (tid_bytes (sp_trace_id sp)).

Lemma encode_tid_nonempty tid : Hex.EncodeToString (tid_bytes tid) ≠ "".
Proof.
  intros H. apply (f_equal String.length) in H. rewrite Hex.EncodeToString_length, tid_length in H. done.
Qed.

Lemma scan_trace l w : w_traceID (foldl scanSpan w l) = if decide (w_traceID w = "") then first_trace l else w_traceID w.
Proof.
  revert w. induction l as [|sp l IH]; intros w; cbn; [by case_decide|]. rewrite IH. cbn. unfold first_trace. cbn.
  destruct (decide (w_traceID w = "")) as [Hw|Hw].
  - destruct (IsEmpty (sp_trace_id sp)) eqn:E.
    + rewrite (decide_False (P := _ ∧ _)) by (intros [_ ?]; done). rewrite decide_True by done.
      rewrite (decide_False (P := true = false)) by done. by destruct (list_find _ l) as [[? ?]|].
    + rewrite (decide_True (P := _ ∧ _)) by done. rewrite decide_False by apply encode_tid_nonempty.
      by rewrite decide_True.
  - rewrite (decide_False (P := _ ∧ _)) by tauto. by rewrite decide_False.
Qed.

(** Timestamps that [AsTime] keeps: not after the year 2262. *)
Definition time_ok (sp : Span) : Prop := (0 ≤ sp_start sp ≤ max_int64)%Z ∧ (0 ≤ sp_end sp ≤ max_int64)%Z.

Context `{PDL : !PDataLaws}.

Lemma scan_window l w :
  Forall time_ok l → (0 ≤ w_start w)%Z → (0 ≤ w_end w)%Z →
  w_start (foldl scanSpan w l) = foldl Z.min (w_start w) (map sp_start l)
  ∧ w_end (foldl scanSpan w l) = foldl Z.max (w_end w) (map sp_end l).
Proof.
  intros Hl. revert w. induction Hl as [|sp l [Hs He] Hl IH]; intros w Hws Hwe; [done|]. cbn.
  assert (w_start (scanSpan w sp) = Z.min (w_start w) (sp_start sp)) as H1.
  { cbn. rewrite as_time_id by done. unfold Time.IsZero, Time.Before. rewrite bool_decide_false by (unfold Time.zero_time; lia).
    cbn. destruct (Z.ltb_spec (sp_start sp) (w_start w)); lia. }
  assert (w_end (scanSpan w sp) = Z.max (w_end w) (sp_end sp)) as H2.
  { cbn. rewrite as_time_id by done. unfold Time.IsZero, Time.After. rewrite bool_decide_false by (unfold Time.zero_time; lia).
    cbn. destruct (Z.ltb_spec (w_end w) (sp_end sp)); lia. }
  destruct (IH (scanSpan w sp)) as [-> ->]; [rewrite H1; lia|rewrite H2; lia|]. by rewrite H1, H2.
Qed.

Lemma scan_first w sp :
  w_start w = Time.zero_time → w_end w = Time.zero_time → time_ok sp →
  w_start (scanSpan w sp) = sp_start sp ∧ w_end (scanSpan w sp) = sp_end sp.
Proof.
  intros Hs He [? ?]. unfold scanSpan. cbn [w_start w_end]. rewrite Hs, He, !as_time_id by done.
  by change (Time.IsZero Time.zero_time) with true.
Qed.

(** The first and the last instant of a batch. *)
Definition window_of (l : list Span) : Z * Z :=
  match l with
  | [] => (Time.zero_time, Time.zero_time)
  | sp :: l' => (foldl Z.min (sp_start sp) (map sp_start l'), foldl Z.max (sp_end sp) (map sp_end l'))
  end.

Lemma scanSpans_spec t :
  Forall time_ok (spans t) →
  scanSpans t = MkWindow (first_trace (spans t)) (window_of (spans t)).1 (window_of (spans t)).2.
Proof.
  intros Hok. rewrite scanSpans_foldl. destruct (foldl scanSpan _ _) as [tid s e] eqn:E.
  pose proof (scan_trace (spans t) (MkWindow "" Time.zero_time Time.zero_time)) as Ht. rewrite E in Ht. cbn in Ht. subst tid.
  destruct (spans t) as [|sp l]; [by injection E as <- <-|]. cbn [foldl] in E.
  apply Forall_cons in Hok as [[Hs He] Hl].
  destruct (scan_first (MkWindow "" Time.zero_time Time.zero_time) sp) as [F1 F2]; [done..|].
  destruct (scan_window l (scanSpan (MkWindow "" Time.zero_time Time.zero_time) sp) Hl) as [H1 H2]; [lia..|].
  rewrite E, F1 in H1. rewrite E, F2 in H2. cbn in H1, H2 |- *. by rewrite H1, H2.
Qed.

Lemma foldl_min_spec a l : (foldl Z.min a l ≤ a)%Z ∧ (∀ x, x ∈ l → foldl Z.min a l ≤ x)%Z ∧ (foldl Z.min a l = a ∨ foldl Z.min a l ∈ l).
Proof.
  revert a. induction l as [|x l IH]; intros a; cbn; [split_and!; [lia|by intros ? ?%elem_of_nil|by left]|].
  destruct (IH (Z.min a x)) as (H1 & H2 & H3). split_and!; [lia| |].
  - intros y [->|Hy]%elem_of_cons; [lia|by apply H2].
  - rewrite elem_of_cons. destruct H3 as [->|?]; [|by auto]. destruct (Z.min_spec a x) as [[_ ->]|[_ ->]]; auto.
Qed.

Lemma foldl_max_spec a l : (a ≤ foldl Z.max a l)%Z ∧ (∀ x, x ∈ l → x ≤ foldl Z.max a l)%Z ∧ (foldl Z.max a l = a ∨ foldl Z.max a l ∈ l).
Proof.
  revert a. induction l as [|x l IH]; intros a; cbn; [split_and!; [lia|by intros ? ?%elem_of_nil|by left]|].
  destruct (IH (Z.max a x)) as (H1 & H2 & H3). split_and!; [lia| |].
  - intros y [->|Hy]%elem_of_cons; [lia|by apply H2].
  - rewrite elem_of_cons. destruct H3 as [->|?]; [|by auto]. destruct (Z.max_spec a x) as [[_ ->]|[_ ->]]; auto.
Qed.

(** The window is the smallest that holds every span. *)
Lemma window_of_tight l :
  l ≠ [] →
  (∀ sp, sp ∈ l → (window_of l).1 ≤ sp_start sp ∧ sp_end sp ≤ (window_of l).2)%Z
  ∧ (∃ sp, sp ∈ l ∧ (window_of l).1 = sp_start sp) ∧ ∃ sp, sp ∈ l ∧ (window_of l).2 = sp_end sp.
Proof.
  destruct l as [|sp l]; [done|]. intros _. cbn.
  destruct (foldl_min_spec (sp_start sp) (map sp_start l)) as (A1 & A2 & A3).
  destruct (foldl_max_spec (sp_end sp) (map sp_end l)) as (B1 & B2 & B3).
  setoid_rewrite elem_of_cons. split_and!.
  - intros sp' [->|Hin]; [done|].
    split; [apply A2|apply B2]; apply list_elem_of_In, in_map, list_elem_of_In, Hin.
  - destruct A3 as [Heq|Hin]; [eauto|]. apply list_elem_of_In, in_map_iff in Hin as (sp' & <- & Hin).
    apply list_elem_of_In in Hin. eauto.
  - destruct B3 as [Heq|Hin]; [eauto|]. apply list_elem_of_In, in_map_iff in Hin as (sp' & <- & Hin).
    apply list_elem_of_In in Hin. eauto.
Qed.

(** *** Policies *)

Lemma evaluate_find {S} `{!Broadcaster S} now e trace policies (s : S) :
  evaluate now e trace policies s =
  match list_find (λ p, matches trace p = true) policies with
  | Some (_, p) => triggerDecision now e trace (Policy_Name p) s
  | None => Ok (tt, s)
  end.
Proof.
  induction policies as [|p policies IH]; [done|]. cbn. destruct (matches trace p); [by rewrite decide_True|].
  rewrite decide_False by done. rewrite IH. by destruct (list_find _ policies) as [[? ?]|].
Qed.

Lemma EvaluateTrace_run {S} `{!Broadcaster S} now e trace (s : S) :
  Forall time_ok (spans (ts_Traces trace)) →
  let l := spans (ts_Traces trace) in
  EvaluateTrace now e trace s =
    match list_find (λ p, matches trace p = true) (Policies (cfg e)) with
    | Some (_, p) =>
        if decide (first_trace l = "" ∨ broadcaster e = false) then Ok (tt, s)
        else (_ ← broadcast_decision (MkDecision (first_trace l) (Policy_Name p) now "local" (window_of l).1 (window_of l).2);
              mret tt) s
    | None => Ok (tt, s)
    end.
Proof.
  intros Hok l. unfold EvaluateTrace. rewrite evaluate_find.
  destruct (list_find _ _) as [[i p]|]; [|done]. unfold triggerDecision. rewrite scanSpans_spec by done.
  fold l. cbn [w_traceID w_start w_end].
  destruct (decide (first_trace l = "")) as [Hf|Hf]; [by rewrite decide_True by auto|].
  destruct (broadcaster e); [|by rewrite decide_True by auto]. rewrite decide_False; [done|]. by intros [?|?].
Qed.

(** Whatever the batch, a broadcaster that returns and keeps [I] is called at
    most once. *)
Lemma EvaluateTrace_returns {S} `{!Broadcaster S} (I : S → Prop) now e trace (s : S) :
  I s → (∀ d, ∃ r s', broadcast_decision d s = Ok (r, s') ∧ I s') →
  ∃ s', EvaluateTrace now e trace s = Ok (tt, s') ∧ I s'.
Proof.
  intros Hs Hb. unfold EvaluateTrace. rewrite evaluate_find.
  destruct (list_find _ _) as [[i p]|]; [|by exists s]. unfold triggerDecision. case_decide; [by exists s|].
  destruct (broadcaster e); [|by exists s]. set (d := MkDecision _ _ _ _ _ _).
  destruct (Hb d) as (r & s' & Hr & ?). exists s'. split; [by erewrite bind_ok by exact Hr|done].
Qed.

(** C26: a batch of traces is decided on at most once, by the first policy of the
    configuration that matches; a batch that no policy matches, or without any
    trace id, causes nothing. The decision names the first trace of the batch
    and the smallest window that holds all of the batch's spans. *)
Theorem EvaluateTrace_spec {S} `{!Broadcaster S} now e trace (s : S) :
  Forall time_ok (spans (ts_Traces trace)) →
  let l := spans (ts_Traces trace) in
  EvaluateTrace now e trace s =
    match list_find (λ p, matches trace p = true) (Policies (cfg e)) with
    | Some (_, p) =>
        if decide (first_trace l = "" ∨ broadcaster e = false) then Ok (tt, s)
        else (_ ← broadcast_decision (MkDecision (first_trace l) (Policy_Name p) now "local" (window_of l).1 (window_of l).2);
              mret tt) s
    | None => Ok (tt, s)
    end
  ∧ (l ≠ [] →
      (∀ sp, sp ∈ l → (window_of l).1 ≤ sp_start sp ∧ sp_end sp ≤ (window_of l).2)%Z
      ∧ (∃ sp, sp ∈ l ∧ (window_of l).1 = sp_start sp) ∧ ∃ sp, sp ∈ l ∧ (window_of l).2 = sp_end sp).
Proof.
  intros Hok l. split; [by apply EvaluateTrace_run|apply window_of_tight].
Qed.

Lemma checkLatency_run trace threshold :
  Forall time_ok (spans (ts_Traces trace)) →
  checkLatency trace threshold = true ↔
  ∃ sp, sp ∈ spans (ts_Traces trace) ∧ (wrap64 (threshold * 1000000) < sp_end sp - sp_start sp)%Z.
Proof.
  intros Hok.
  assert (∀ sp, sp ∈ spans (ts_Traces trace) → duration sp = sp_end sp - sp_start sp)%Z as Hd.
  { intros sp Hin. eapply Forall_forall in Hok as [Hs He]; [|exact Hin]. unfold duration, Time.Sub, min_int64, max_int64 in *.
    rewrite !as_time_id by (unfold max_int64; lia). lia. }
  unfold checkLatency. rewrite any_span_true.
  split; intros (sp & Hin & H); exists sp; (split; [done|]); rewrite ?Hd in * by done; by apply Z.ltb_lt.
Qed.

Lemma checkError_run trace :
  checkError trace = true ↔ ∃ sp, sp ∈ spans (ts_Traces trace) ∧ sp_status sp = StatusCodeError.
Proof. unfold checkError. rewrite any_span_true. by setoid_rewrite bool_decide_eq_true. Qed.

Lemma checkAttribute_run trace key value :
  checkAttribute trace key value = true ↔
  ∃ sp v, sp ∈ spans (ts_Traces trace) ∧ map_get key (sp_attrs sp) = Some v ∧ Str v = value.
Proof.
  unfold checkAttribute. rewrite any_span_true. split.
  - intros (sp & Hin & H). destruct (map_get key (sp_attrs sp)) as [v|] eqn:E; [|done].
    apply bool_decide_eq_true in H. eauto 6.
  - intros (sp & v & Hin & Hg & H). exists sp. split; [done|]. rewrite Hg. by apply bool_decide_eq_true.
Qed.

(** C27: a policy matches a batch exactly when some span of it satisfies the
    policy: an error status, a duration above the threshold, or the attribute
    with the given text (a value that is not a string counts as the empty
    text); a policy of another type matches nothing. The threshold is the
    configured number of milliseconds if that fits in 64 bits of nanoseconds,
    and another number if it does not: 10^13 ms (317 years) becomes a negative
    threshold, of about -268 years, and 2*10^13 ms one of about 49 years. *)
Theorem policy_matching trace policy :
  Forall time_ok (spans (ts_Traces trace)) →
  let ms := LatencyThresholdMS policy in
  let threshold := wrap64 (ms * 1000000) in
  (matches trace policy = true ↔
    ∃ sp, sp ∈ spans (ts_Traces trace) ∧
      (Policy_Type policy = "error" ∧ sp_status sp = StatusCodeError
       ∨ Policy_Type policy = "latency" ∧ (threshold < sp_end sp - sp_start sp)%Z
       ∨ Policy_Type policy = "attribute"
         ∧ ∃ v, map_get (AttributeKey policy) (sp_attrs sp) = Some v ∧ Str v = AttributeValue policy))
  ∧ (threshold = (ms * 1000000)%Z ↔ int64 (ms * 1000000))
  ∧ (ms = 10000000000000%Z → threshold = (-8446744073709551616)%Z)
  ∧ (ms = 20000000000000%Z → threshold = 1553255926290448384%Z).
Proof.
  intros Hok ms threshold. split_and!; [| |by unfold threshold; intros ->..].
  - unfold matches. case_decide as He; [|case_decide as Hl; [|case_decide as Ha]].
    + rewrite checkError_run, He. naive_solver.
    + rewrite checkLatency_run, Hl by done. fold ms threshold. naive_solver.
    + rewrite checkAttribute_run, Ha. naive_solver.
    + naive_solver.
  - split; [intros <-; apply wrap64_range|apply wrap64_id].
Qed.

(** With the default configuration every batch with a trace id and with a span
    that does not end a millisecond or more before it starts is sampled, for the
    reason "sample-all". *)
Theorem sample_all_default {S} `{!Broadcaster S} now dbg trace (s : S) :
  Forall time_ok (spans (ts_Traces trace)) →
  (∃ sp, sp ∈ spans (ts_Traces trace) ∧ (sp_start sp - 1000000 < sp_end sp)%Z) →
  first_trace (spans (ts_Traces trace)) ≠ "" →
  let w := window_of (spans (ts_Traces trace)) in
  EvaluateTrace now (New (Config.Decision Config.DefaultConfig) true dbg) trace s =
    (_ ← broadcast_decision (MkDecision (first_trace (spans (ts_Traces trace))) "sample-all" now "local" w.1 w.2); mret tt) s.
Proof.
  intros Hok (sp & Hin & Hd) Hf w. unfold EvaluateTrace. cbn [Policies cfg New Config.Decision Config.DefaultConfig].
  rewrite evaluate_find. cbn [list_find].
  assert (matches trace (MkPolicyConfig "sample-all" "latency" (-1) "" "" float64_zero) = true) as Hm.
  { unfold matches. cbn [Policy_Type LatencyThresholdMS]. rewrite decide_False by done. rewrite decide_True by done.
    unfold checkLatency. apply any_span_true. exists sp. split; [done|]. apply Z.ltb_lt.
    eapply Forall_forall in Hok as [Hs He]; [|exact Hin]. unfold duration, Time.Sub, min_int64, max_int64 in *.
    rewrite !as_time_id by (unfold max_int64; lia). replace (wrap64 (-1 * 1000000)) with (-1000000)%Z by done. lia. }
  rewrite decide_True by done. unfold triggerDecision. rewrite scanSpans_spec by done. cbn [w_traceID w_start w_end].
  by rewrite decide_False.
Qed.

(** C39: the decision names the first trace of the batch even when only the spans
    of another trace match the policy: the trace with the error is not sampled,
    the one without is. *)
Theorem decision_names_other_trace {S} `{!Broadcaster S} now name ms spA spB rest (s : S) :
  let l := spA :: spB :: rest in
  let e := New (MkDecisionConfig [MkPolicyConfig name "error" ms "" "" float64_zero]) true false in
  let trace := MkTraceSignal (map (λ sp, singleton_group (MkResource [] "") (MkScope "" "" "") sp) l) (MkContext now "") in
  Forall time_ok l →
  IsEmpty (sp_trace_id spA) = false → sp_trace_id spA ≠ sp_trace_id spB →
  sp_status spA ≠ StatusCodeError → sp_status spB = StatusCodeError →
  trace_key_of spA ≠ trace_key_of spB
  ∧ EvaluateTrace now e trace s =
    (_ ← broadcast_decision (MkDecision (trace_key_of spA) name now "local" (window_of l).1 (window_of l).2); mret tt) s.
Proof.
  intros l e trace Hok HA Hne HsA HsB. split.
  { intros Heq. apply Hne, tid_eq. by apply (inj Hex.EncodeToString). }
  assert (spans (ts_Traces trace) = l) as Hl.
  { unfold trace, items. cbn [ts_Traces]. clear. induction l as [|sp l IH]; [done|]. cbn. by rewrite <- IH at 2. }
  unfold EvaluateTrace. rewrite evaluate_find. cbn [Policies cfg e New list_find].
  rewrite decide_True.
  2:{ unfold matches. cbn [Policy_Type]. rewrite decide_True by done. apply any_span_true. exists spB.
      rewrite Hl. split; [by right; left|by apply bool_decide_eq_true]. }
  unfold triggerDecision. rewrite scanSpans_spec by by rewrite Hl. rewrite Hl.
  assert (first_trace l = trace_key_of spA) as Hf by (unfold first_trace; cbn; by rewrite HA).
  cbn [w_traceID w_start w_end]. rewrite Hf, decide_False by apply encode_tid_nonempty. done.
Qed.
End Decision.
End Decision.
