(* ===== verification/Wal.v ===== *)
(** Package [wal]: the write-ahead log (internal/wal/manager.go).

    The log file is [github.com/tidwall/wal], a third-party package, and the
    records are protobuf messages: parameters, with the documented laws. *)
From S2P Require Import Prelude GoStd PData Signals Gossip.

(** [pb.WALRecord], generated from wal.proto; the type is an open enum. *)
Definition WALRecord_TRACE : Z := 0.
Definition WALRecord_METRIC : Z := 1.
Definition WALRecord_LOG : Z := 2.

Record WALRecord `{Timestamps} := MkWALRecord {
  wr_Type : Z;
  wr_Data : bytes;
  wr_Timestamp : option Timestamp_pb }.
Arguments MkWALRecord {_} _ _ _.
#[global] Instance wal_record_empty `{Timestamps} : Empty WALRecord := MkWALRecord 0 [] None.

(** [tidwall/wal]. [wl_view] is the index of the first entry and the entries.
    Indices count from 1; an operation that fails gives [None]. *)
Class WalFile (F : Type) := {
  wl_open : string → option F;
  wl_view : F → Z * list bytes;
  wl_FirstIndex : F → option Z;
  wl_LastIndex : F → option Z;
  wl_Read : Z → F → option bytes;
  wl_Write : Z → bytes → F → option F;
  wl_TruncateFront : Z → F → option F;
  wl_Close : F → F
}.

(** "FirstIndex returns the index of the first entry in the log. Returns zero
    when log has no entries"; [Write]: "the index must be equal to the current
    last index plus one"; [TruncateFront] "truncates the front of the log by
    removing all entries that are before the provided index. In other words the
    entry at `index` becomes the first entry in the log", and an index beyond
    the last is out of range. *)
Class WalFileLaws (F : Type) `{!WalFile F} : Prop := {
  wl_view_ok f : (1 ≤ (wl_view f).1)%Z;
  wl_first f : wl_FirstIndex f = Some (match (wl_view f).2 with [] => 0%Z | _ => (wl_view f).1 end);
  wl_last f : wl_LastIndex f =
    Some (match (wl_view f).2 with [] => 0 | es => (wl_view f).1 + Z.of_nat (length es) - 1 end)%Z;
  wl_empty f : (wl_view f).2 = [] → (wl_view f).1 = 1%Z;
  wl_read f i : wl_Read i f =
    if decide ((wl_view f).1 ≤ i)%Z then (wl_view f).2 !! Z.to_nat (i - (wl_view f).1) else None;
  wl_write f i b f' :
    wl_Write i b f = Some f' →
    i = ((wl_view f).1 + Z.of_nat (length (wl_view f).2))%Z ∧ wl_view f' = ((wl_view f).1, (wl_view f).2 ++ [b]);
  wl_truncate f i f' :
    wl_TruncateFront i f = Some f' →
    ((wl_view f).1 ≤ i < (wl_view f).1 + Z.of_nat (length (wl_view f).2))%Z
    ∧ wl_view f' = (i, drop (Z.to_nat (i - (wl_view f).1)) (wl_view f).2);
  wl_truncate_ok f n :
    n < length (wl_view f).2 → is_Some (wl_TruncateFront ((wl_view f).1 + Z.of_nat n) f)
}.

Inductive WalError := ErrUnknownSignal | ErrMarshalPdata | ErrMarshalRecord | ErrWalFile.

Module Wal.

Record Log (F : Type) := MkLog { mu : RWMutex; log : F; path : string }.
Arguments MkLog {F} _ _ _.
Arguments mu {F} _.
Arguments log {F} _.
Arguments path {F} _.

Section Wal.
Context {F : Type} `{!WalFile F} `{TS : Timestamps} `{!Codec WALRecord}.
Context `{!Codec Traces} `{!Codec Metrics} `{!Codec Logs}.

Abbreviation L := (Log F).

Definition set_mu (m : RWMutex) (l : L) : L := MkLog m (log l) (path l).
Definition set_log (f : F) (l : L) : L := MkLog (mu l) f (path l).

(** [l.mu.Lock(); defer l.mu.Unlock()], for a body on any state that has the log. *)
Definition withLock {S A} (get : S → L) (set : L → S → S) (body : Go S A) : Go S A :=
  _ ← zoom (λ s, mu (get s)) (λ m s, set (set_mu m (get s)) s) Mutex.Lock;
  r ← body;
  _ ← zoom (λ s, mu (get s)) (λ m s, set (set_mu m (get s)) s) Mutex.Unlock;
  mret r.

Definition Open (p : string) : option L := f ← wl_open p; Some (MkLog Unlocked f p).

Definition Close : Go L unit := withLock id (λ l _, l) (modifyS (λ l, set_log (wl_Close (log l)) l)).

(** The record's type and data. *)
Definition encodeSignal (sig : Signal) : WalError + Z * bytes :=
  match sig with
  | SigTrace s => match marshal (ts_Traces s) with Some d => inr (WALRecord_TRACE, d) | None => inl ErrMarshalPdata end
  | SigMetric s => match marshal (ms_Metrics s) with Some d => inr (WALRecord_METRIC, d) | None => inl ErrMarshalPdata end
  | SigLog s => match marshal (ls_Logs s) with Some d => inr (WALRecord_LOG, d) | None => inl ErrMarshalPdata end
  | OtherSignal _ _ => inl ErrUnknownSignal
  end.

Definition recordOf (sig : Signal) (ty : Z) (data : bytes) : WALRecord :=
  MkWALRecord ty data (Some (ts_New (ReceivedAt (Signal_Context sig)))).

Definition Write (sig : Signal) : Go L (option WalError) :=
  withLock id (λ l _, l) (
    match encodeSignal sig with
    | inl err => mret (Some err)
    | inr (ty, data) =>
        match marshal (recordOf sig ty data) with
        | None => mret (Some ErrMarshalRecord)
        | Some recordBytes =>
            l ← getS;
            match wl_LastIndex (log l) with
            | None => mret (Some ErrWalFile)
            | Some lastIndex =>
                match wl_Write (lastIndex + 1) recordBytes (log l) with
                | None => mret (Some ErrWalFile)
                | Some f => _ ← putS (set_log f l); mret None
                end
            end
        end
    end).

(** The signal of a record, if its data can be decoded. *)
Definition decodeRecord (r : WALRecord) : option Signal :=
  let ctx := MkContext (ts_AsTime (wr_Timestamp r)) "" in
  if (wr_Type r =? WALRecord_TRACE)%Z then t ← unmarshal (wr_Data r); Some (SigTrace (MkTraceSignal t ctx))
  else if (wr_Type r =? WALRecord_METRIC)%Z then m ← unmarshal (wr_Data r); Some (SigMetric (MkMetricSignal m ctx))
  else if (wr_Type r =? WALRecord_LOG)%Z then l ← unmarshal (wr_Data r); Some (SigLog (MkLogSignal l ctx))
  else None.

(** [for i := first; i <= last; i++] *)
Definition indices (first last : Z) : list Z := seqZ first (last - first + 1).

Definition readRecord (i : Z) (f : F) : option WALRecord := data ← wl_Read i f; unmarshal data.

(** [Replay] runs [fn], code on the rest [S] of the state, with the lock held. *)
Definition replayEntry {S} (fn : Signal → Go S unit) (i : Z) : Go (L * S) unit :=
  s ← getS;
  match readRecord i (log s.1) ≫= decodeRecord with
  | Some sig => zoom snd (λ t s, (s.1, t)) (fn sig)
  | None => mret tt
  end.

Definition Replay {S} (fn : Signal → Go S unit) : Go (L * S) (option WalError) :=
  withLock fst (λ l s, (l, s.2)) (
    s ← getS;
    match wl_FirstIndex (log s.1), wl_LastIndex (log s.1) with
    | Some first, Some last => _ ← for_each (replayEntry fn) (indices first last); mret None
    | _, _ => mret (Some ErrWalFile)
    end).

(** The loop of [TruncateBefore], which breaks at the first record that is not
    older than [t]; 0 is "no index". *)
Fixpoint findTruncate (t : Z) (f : F) (ixs : list Z) (truncateIndex : Z) : Z :=
  match ixs with
  | [] => truncateIndex
  | i :: ixs' =>
      match readRecord i f with
      | None => findTruncate t f ixs' truncateIndex
      | Some record =>
          if Time.Before (ts_AsTime (wr_Timestamp record)) t then findTruncate t f ixs' i else truncateIndex
      end
  end.

Definition TruncateBefore (t : Z) : Go L (option WalError) :=
  withLock id (λ l _, l) (
    l ← getS;
    match wl_FirstIndex (log l), wl_LastIndex (log l) with
    | Some first, Some last =>
        let truncateIndex := findTruncate t (log l) (indices first last) 0 in
        if (0 <? truncateIndex)%Z then
          match wl_TruncateFront (truncateIndex + 1) (log l) with
          | None => mret (Some ErrWalFile)
          | Some f => _ ← putS (set_log f l); mret None
          end
        else mret None
    | _, _ => mret (Some ErrWalFile)
    end).

(** ** Properties *)
Context `{!WalFileLaws F} `{TSL : !TimestampsLaws} `{!CodecLaws WALRecord}.
Context `{!CodecLaws Traces} `{!CodecLaws Metrics} `{!CodecLaws Logs}.
Implicit Types (l : L).

Definition base l : Z := (wl_view (log l)).1.
Definition entries l : list bytes := (wl_view (log l)).2.

(** The signals that a replay of the log yields, in order. *)
Definition replayed l : list Signal := omap (λ b, unmarshal b ≫= decodeRecord) (entries l).

(** The bytes of the record of a signal. *)
Definition recordBytes (sig : Signal) : option bytes :=
  match encodeSignal sig with
  | inl _ => None
  | inr (ty, data) => marshal (recordOf sig ty data)
  end.

Lemma recordBytes_decode sig b : recordBytes sig = Some b → unmarshal b ≫= decodeRecord = Some (without_source sig).
Proof.
  unfold recordBytes. destruct (encodeSignal sig) as [|[ty data]] eqn:E; [done|]. intros Hm.
  rewrite (unmarshal_marshal _ _ Hm). cbn. unfold decodeRecord, recordOf. cbn. rewrite ts_AsTime_New.
  destruct sig as [s|s|s|]; cbn in E; [| | |done].
  - destruct (marshal (ts_Traces s)) eqn:Ed; simplify_eq. cbn. by rewrite (unmarshal_marshal _ _ Ed).
  - destruct (marshal (ms_Metrics s)) eqn:Ed; simplify_eq. cbn. by rewrite (unmarshal_marshal _ _ Ed).
  - destruct (marshal (ls_Logs s)) eqn:Ed; simplify_eq. cbn. by rewrite (unmarshal_marshal _ _ Ed).
Qed.

(** A body under the lock that leaves the lock alone. *)
Lemma withLock_run {S A} (get : S → L) set (body : Go S A) (s : S) (k : S → S) :
  mu (get s) = Unlocked → k = (λ s, set (set_mu WLocked (get s)) s) →
  withLock get set body s =
  match body (k s) with
  | Ok (r, s') => match Mutex.Unlock (mu (get s')) with
                  | Ok (_, m) => Ok (r, set (set_mu m (get s')) s')
                  | Panic => Panic
                  | Deadlock => Deadlock
                  end
  | Panic => Panic
  | Deadlock => Deadlock
  end.
Proof.
  intros Hmu ->. unfold withLock, zoom. go_simpl. rewrite Hmu. cbn.
  destruct (body _) as [[r s']| |]; [|done..]. by destruct (Mutex.Unlock (mu (get s'))) as [[[] ?]| |].
Qed.

Lemma log_mu_id l : set_mu (mu l) l = l.
Proof. by destruct l. Qed.

Lemma unlock_back l : mu l = Unlocked → set_mu Unlocked (set_mu WLocked l) = l.
Proof. intros Hmu. change (set_mu Unlocked l = l). rewrite <- Hmu. apply log_mu_id. Qed.

Lemma last_next l : ∃ i, wl_LastIndex (log l) = Some i ∧
  (entries l = [] ∧ i = 0%Z ∨ entries l ≠ [] ∧ i = base l + Z.of_nat (length (entries l)) - 1)%Z.
Proof.
  rewrite wl_last. unfold entries, base. destruct (wl_view (log l)).2 as [|e es]; eexists; (split; [done|]); auto.
Qed.

Lemma Write_run sig l :
  mu l = Unlocked →
  ∃ r l', Write sig l = Ok (r, l') ∧ mu l' = Unlocked
    ∧ match r with
      | None => (∃ b, recordBytes sig = Some b ∧ entries l' = entries l ++ [b]) ∧ base l' = base l
          ∧ replayed l' = replayed l ++ [without_source sig]
      | Some _ => l' = l
      end
    ∧ (recordBytes sig = None → ∃ err, r = Some err).
Proof.
  intros Hmu. unfold Write. rewrite (withLock_run _ _ _ _ (set_mu WLocked)) by done. unfold recordBytes.
  assert (∀ m, set_mu m (set_mu WLocked l) = set_mu m l) as Hset by done.
  destruct (encodeSignal sig) as [err|[ty data]] eqn:E; cbn.
  { exists (Some err), l. rewrite Hset, <- Hmu, log_mu_id. split_and!; eauto. }
  destruct (marshal (recordOf sig ty data)) as [b|] eqn:Eb; cbn.
  2:{ exists (Some ErrMarshalRecord), l. rewrite Hset, <- Hmu, log_mu_id. split_and!; eauto. }
  destruct (last_next l) as (i & Hi & Hnext). cbn. go_simpl. rewrite Hi.
  destruct (wl_Write (i + 1) b (log l)) as [f|] eqn:Ew; cbn.
  2:{ exists (Some ErrWalFile), l. rewrite Hset, <- Hmu, log_mu_id. split_and!; eauto; done. }
  destruct (wl_write _ _ _ _ Ew) as [_ Hv].
  eexists None, _. split; [done|]. split; [done|]. split; [|done].
  assert (entries (set_mu Unlocked (set_log f (set_mu WLocked l))) = entries l ++ [b]) as He.
  { unfold entries. cbn. by rewrite Hv. }
  split_and!; [eauto|unfold base; cbn; by rewrite Hv|].
  unfold replayed. rewrite He, omap_app. f_equal. cbn.
  rewrite (recordBytes_decode sig); [done|]. unfold recordBytes. by rewrite E.
Qed.

(** C28: [Write] returns: when it reports no error the record of the signal is the
    last entry of the log and a replay gives, after all earlier signals, this
    one (without its source address); when it reports an error, which it does
    for a signal of another type or one that cannot be encoded, the log is as
    it was. *)
Theorem Write_spec sig l :
  mu l = Unlocked →
  ∃ r l', Write sig l = Ok (r, l') ∧ mu l' = Unlocked
    ∧ match r with
      | None => (∃ b, recordBytes sig = Some b ∧ entries l' = entries l ++ [b]) ∧ base l' = base l
          ∧ replayed l' = replayed l ++ [without_source sig]
      | Some _ => l' = l
      end
    ∧ (recordBytes sig = None → ∃ err, r = Some err).
Proof. apply Write_run. Qed.

Lemma readRecord_entry l k : readRecord (base l + Z.of_nat k) (log l) = entries l !! k ≫= unmarshal.
Proof.
  unfold readRecord. rewrite wl_read. fold (base l). fold (entries l). rewrite decide_True by lia.
  replace (Z.to_nat (base l + Z.of_nat k - base l)) with k by lia. by destruct (entries l !! k).
Qed.

Lemma readRecord_zero l : readRecord 0 (log l) = None.
Proof. unfold readRecord. rewrite wl_read, decide_False; [done|]. pose proof (wl_view_ok (log l)). lia. Qed.

(** The indices of a log that is not empty. *)
Lemma indices_entries l :
  entries l ≠ [] →
  indices (base l) (base l + Z.of_nat (length (entries l)) - 1) = (λ k, base l + Z.of_nat k)%Z <$> seq 0 (length (entries l)).
Proof.
  intros _. unfold indices, seqZ.
  replace (Z.to_nat (base l + Z.of_nat (length (entries l)) - 1 - base l + 1)) with (length (entries l)) by lia.
  apply list_fmap_ext. intros i x _. lia.
Qed.

Lemma replayEntry_run {S} (fn : Signal → Go S unit) i l (s : S) :
  replayEntry fn i (l, s) =
  match readRecord i (log l) ≫= decodeRecord with
  | Some sig => match fn sig s with Ok (_, s') => Ok (tt, (l, s')) | Panic => Panic | Deadlock => Deadlock end
  | None => Ok (tt, (l, s))
  end.
Proof.
  unfold replayEntry. erewrite bind_ok by done. cbn [fst].
  destruct (readRecord i (log l) ≫= decodeRecord) as [sig|]; [|done].
  unfold zoom. cbn [snd fst]. by destruct (fn sig s) as [[[] s']| |].
Qed.

Lemma replay_loop {S} (fn : Signal → Go S unit) l es k (s : S) :
  (∀ j, j < length es → readRecord (base l + Z.of_nat (k + j)) (log l) = es !! j ≫= unmarshal) →
  for_each (replayEntry fn) ((λ k, base l + Z.of_nat k)%Z <$> seq k (length es)) (l, s) =
  match for_each fn (omap (λ b, unmarshal b ≫= decodeRecord) es) s with
  | Ok (_, s') => Ok (tt, (l, s'))
  | Panic => Panic
  | Deadlock => Deadlock
  end.
Proof.
  revert k s. induction es as [|b es IH]; intros k s Hr; [done|].
  pose proof (Hr 0 ltac:(cbn; lia)) as H0. rewrite Nat.add_0_r in H0. cbn [lookup list_lookup] in H0.
  assert (∀ s, for_each (replayEntry fn) ((λ k, base l + Z.of_nat k)%Z <$> seq (Datatypes.S k) (length es)) (l, s) =
    match for_each fn (omap (λ b, unmarshal b ≫= decodeRecord) es) s with
    | Ok (_, s') => Ok (tt, (l, s')) | Panic => Panic | Deadlock => Deadlock end) as IH'.
  { intros s'. apply IH. intros j Hj. specialize (Hr (Datatypes.S j) ltac:(cbn; lia)).
    by replace (Datatypes.S k + j) with (k + Datatypes.S j) by lia. }
  cbn [length seq]. rewrite fmap_cons, for_each_cons, replayEntry_run, H0.
  change (Some b ≫= unmarshal) with (unmarshal (A := WALRecord) b).
  rewrite omap_cons. destruct (unmarshal b ≫= decodeRecord) as [sig|]; [|apply IH'].
  rewrite for_each_cons. destruct (fn sig s) as [[[] s']| |]; [apply IH'|done..].
Qed.

Lemma Replay_run {S} (fn : Signal → Go S unit) l (s : S) :
  mu l = Unlocked →
  Replay fn (l, s) =
  match for_each fn (replayed l) s with
  | Ok (_, s') => Ok (None, (l, s'))
  | Panic => Panic
  | Deadlock => Deadlock
  end.
Proof.
  intros Hmu. unfold Replay. rewrite (withLock_run _ _ _ _ (λ s, (set_mu WLocked s.1, s.2))) by done.
  set (l' := set_mu WLocked l). cbn [fst snd]. fold l'.
  assert (replayed l = replayed l') as -> by done.
  assert (set_mu Unlocked l' = l) as Hback by by apply unlock_back.
  assert ((s0 ← getS (S := L * S);
    match wl_FirstIndex (log s0.1), wl_LastIndex (log s0.1) with
    | Some first, Some last => _ ← for_each (replayEntry fn) (indices first last); mret None
    | _, _ => mret (Some ErrWalFile)
    end) (l', s) =
    match for_each fn (replayed l') s with
    | Ok (_, s') => Ok (None, (l', s')) | Panic => Panic | Deadlock => Deadlock end) as ->.
  { erewrite bind_ok by done. cbn [fst]. rewrite wl_first, wl_last. fold (entries l'). fold (base l').
    assert (for_each (replayEntry fn) (indices
        (match entries l' with [] => 0 | _ => base l' end)
        (match entries l' with [] => 0 | es => base l' + Z.of_nat (length es) - 1 end)) (l', s) =
      match for_each fn (replayed l') s with
      | Ok (_, s') => Ok (tt, (l', s')) | Panic => Panic | Deadlock => Deadlock end) as Hloop.
    { unfold replayed. destruct (entries l') as [|e es] eqn:Ees.
      - change (indices 0 0) with [0%Z]. by rewrite for_each_cons, replayEntry_run, readRecord_zero.
      - pose proof (indices_entries l' ltac:(by rewrite Ees)) as Hix. rewrite Ees in Hix. rewrite Hix.
        apply (replay_loop fn l' (e :: es) 0 s). intros j _. rewrite readRecord_entry. by rewrite Ees. }
    unfold mbind at 1, Go_bind. rewrite Hloop. by destruct (for_each fn (replayed l') s) as [[[] s']| |]. }
  destruct (for_each fn (replayed l') s) as [[[] s']| |]; [|done..]. do 2 f_equal. f_equal. exact Hback.
Qed.

(** C29: [Replay] calls the function on the signals of the log in order, and on
    nothing else, and leaves the log as it is; entries that cannot be read are
    skipped. *)
Theorem Replay_spec {S} (fn : Signal → Go S unit) l (s : S) :
  mu l = Unlocked →
  Replay fn (l, s) =
  match for_each fn (replayed l) s with
  | Ok (_, s') => Ok (None, (l, s'))
  | Panic => Panic
  | Deadlock => Deadlock
  end.
Proof. apply Replay_run. Qed.

(** *** Truncation *)

Definition older (t : Z) (r : WALRecord) : bool := Time.Before (ts_AsTime (wr_Timestamp r)) t.

(** How many entries the loop decides to remove. *)
Fixpoint cut (t : Z) (es : list bytes) (i acc : nat) : nat :=
  match es with
  | [] => acc
  | b :: es' =>
      match unmarshal b with
      | None => cut t es' (S i) acc
      | Some r => if older t r then cut t es' (S i) (S i) else acc
      end
  end.

Lemma cut_bounds t es i acc : acc ≤ i → acc ≤ cut t es i acc ≤ i + length es.
Proof.
  revert i acc. induction es as [|b es IH]; intros i acc H; cbn; [lia|].
  destruct (unmarshal b) as [r|].
  - destruct (older t r); [|lia]. specialize (IH (S i) (S i) ltac:(lia)). lia.
  - specialize (IH (S i) acc ltac:(lia)). lia.
Qed.

(** Whatever is removed is older than [t]. *)
Lemma cut_old t es i acc k b r :
  acc ≤ i → es !! k = Some b → unmarshal b = Some r → i + k < cut t es i acc → older t r = true.
Proof.
  revert i acc k. induction es as [|b' es IH]; intros i acc [|k] Hi Hk Hr Hlt; cbn in *; [done..| |].
  - simplify_eq. rewrite Hr in Hlt. destruct (older t r); [done|lia].
  - destruct (unmarshal b') as [r'|].
    + destruct (older t r'); [|lia]. eapply (IH (S i) (S i) k); [lia|done..|lia].
    + eapply (IH (S i) acc k); [lia|done..|lia].
Qed.

(** The first entry that can be read and is kept is not older than [t]. *)
Lemma cut_kept t es i acc k b r :
  acc ≤ i → es !! k = Some b → unmarshal b = Some r → cut t es i acc ≤ i + k →
  (∀ j b', j < k → cut t es i acc ≤ i + j → es !! j = Some b' → unmarshal (A := WALRecord) b' = None) →
  older t r = false.
Proof.
  revert i acc k. induction es as [|b' es IH]; intros i acc [|k] Hi Hk Hr Hle Hfirst; cbn in *; [done..| |].
  - simplify_eq. rewrite Hr in Hle. destruct (older t r) eqn:E; [|done].
    pose proof (cut_bounds t es (S i) (S i) ltac:(lia)). lia.
  - destruct (unmarshal b') as [r'|] eqn:E'.
    + destruct (older t r').
      * eapply (IH (S i) (S i) k); [lia|done..|lia|]. intros j b'' Hj Hc Hb''.
        apply (Hfirst (S j) b''); [lia|lia|done].
      * specialize (Hfirst 0 b' ltac:(lia) ltac:(lia) eq_refl). congruence.
    + eapply (IH (S i) acc k); [lia|done..|lia|]. intros j b'' Hj Hc Hb''.
      apply (Hfirst (S j) b''); [lia|lia|done].
Qed.

Lemma findTruncate_cut t l es i acc :
  (∀ j, j < length es → readRecord (base l + Z.of_nat (i + j)) (log l) = es !! j ≫= unmarshal) →
  findTruncate t (log l) ((λ k, base l + Z.of_nat k)%Z <$> seq i (length es))
    (if acc is O then 0 else base l + Z.of_nat acc - 1)%Z =
  (let n := cut t es i acc in if n is O then 0 else base l + Z.of_nat n - 1)%Z.
Proof.
  revert i acc. induction es as [|b es IH]; intros i acc Hr; [done|]. cbn.
  pose proof (Hr 0 ltac:(cbn; lia)) as H0. rewrite Nat.add_0_r in H0. cbn in H0. rewrite H0.
  assert (∀ acc, findTruncate t (log l) ((λ k, base l + Z.of_nat k)%Z <$> seq (S i) (length es))
    (if acc is O then 0 else base l + Z.of_nat acc - 1)%Z =
    (let n := cut t es (S i) acc in if n is O then 0 else base l + Z.of_nat n - 1)%Z) as IH'.
  { intros a. apply IH. intros j Hj. specialize (Hr (S j) ltac:(cbn; lia)).
    by replace (S i + j) with (i + S j) by lia. }
  destruct (unmarshal b) as [r|]; [|apply IH'].
  fold (older t r). destruct (older t r); [|done].
  etrans; [|apply (IH' (S i))]. f_equal. lia.
Qed.

Lemma findTruncate_all t l :
  findTruncate t (log l)
    (indices (match entries l with [] => 0 | _ => base l end)
      (match entries l with [] => 0 | es => base l + Z.of_nat (length es) - 1 end)) 0 =
  (let n := cut t (entries l) 0 0 in if n is O then 0 else base l + Z.of_nat n - 1)%Z.
Proof.
  destruct (entries l) as [|e es] eqn:Ees.
  - change (indices 0 0) with [0%Z]. cbn [findTruncate]. by rewrite readRecord_zero.
  - pose proof (indices_entries l ltac:(by rewrite Ees)) as Hix. rewrite Ees in Hix. rewrite Hix.
    apply (findTruncate_cut t l (e :: es) 0 0). intros j _. rewrite readRecord_entry. by rewrite Ees.
Qed.

Lemma TruncateBefore_run t l :
  mu l = Unlocked →
  TruncateBefore t l =
    let ti := (let n := cut t (entries l) 0 0 in if n is O then 0 else base l + Z.of_nat n - 1)%Z in
    if (0 <? ti)%Z then
      match wl_TruncateFront (ti + 1) (log l) with
      | None => Ok (Some ErrWalFile, l)
      | Some f => Ok (None, MkLog Unlocked f (path l))
      end
    else Ok (None, l).
Proof.
  intros Hmu. pose proof (unlock_back l Hmu) as Hback.
  unfold TruncateBefore. rewrite (withLock_run _ _ _ _ (set_mu WLocked)) by done.
  erewrite bind_ok by done. set (l' := set_mu WLocked l) in *.
  rewrite wl_first, wl_last. fold (entries l'). fold (base l'). rewrite findTruncate_all.
  change (cut t (entries l') 0 0) with (cut t (entries l) 0 0). change (base l') with (base l).
  change (log l') with (log l). cbv zeta. destruct (0 <? _)%Z; cbn; [|by rewrite Hback].
  destruct (wl_TruncateFront _ (log l)) as [f|]; cbn; [done|]. by rewrite Hback.
Qed.

(** C30: [TruncateBefore] removes a prefix of the log in which every record that
    can be read is older than [t], so no record from [t] on is ever removed;
    the first record that is left is not older. But when the prefix is the
    whole log, the log file refuses, the caller gets the error and the log
    stays as long as it was. *)
Theorem TruncateBefore_spec t l :
  mu l = Unlocked →
  ∃ n, n ≤ length (entries l)
    ∧ (∀ k b r, entries l !! k = Some b → unmarshal b = Some r → k < n → older t r = true)
    ∧ (∀ k b r, entries l !! k = Some b → unmarshal b = Some r → n ≤ k →
         (∀ j b', j < k → n ≤ j → entries l !! j = Some b' → unmarshal (A := WALRecord) b' = None) → older t r = false)
    ∧ (if decide (n = 0) then TruncateBefore t l = Ok (None, l)
       else if decide (n = length (entries l)) then TruncateBefore t l = Ok (Some ErrWalFile, l)
       else ∃ l', TruncateBefore t l = Ok (None, l') ∧ mu l' = Unlocked
              ∧ base l' = (base l + Z.of_nat n)%Z ∧ entries l' = drop n (entries l)).
Proof.
  intros Hmu. exists (cut t (entries l) 0 0).
  pose proof (cut_bounds t (entries l) 0 0 ltac:(lia)) as [_ Hb].
  split; [lia|]. split; [intros k b r; by apply (cut_old t (entries l) 0 0)|].
  split; [intros k b r; by apply (cut_kept t (entries l) 0 0)|].
  rewrite TruncateBefore_run by done.
  pose proof (wl_view_ok (log l)) as Hbase. fold (base l) in Hbase. cbn zeta.
  destruct (cut t (entries l) 0 0) as [|n'] eqn:En; [done|]. rewrite <- En in *. set (n := cut t (entries l) 0 0) in *.
  rewrite decide_False by lia.
  replace (0 <? base l + Z.of_nat n - 1)%Z with true by (symmetry; apply Z.ltb_lt; lia).
  replace (base l + Z.of_nat n - 1 + 1)%Z with (base l + Z.of_nat n)%Z by lia.
  destruct (wl_TruncateFront (base l + Z.of_nat n) (log l)) as [f|] eqn:Et.
  - apply wl_truncate in Et as [Hr Hv]. fold (base l) in Hr, Hv. fold (entries l) in Hr, Hv.
    rewrite decide_False by lia. eexists. split; [done|]. split; [done|]. unfold base at 1, entries at 1. cbn. rewrite Hv. cbn.
    split; [done|]. f_equal. lia.
  - case_decide as Hn; [done|]. destruct (wl_truncate_ok (log l) n) as [f Hf]; [fold (entries l); lia|].
    fold (base l) in Hf. congruence.
Qed.
End Wal.
End Wal.
