(* ===== verification/Telemetry.v ===== *)
(** Package [telemetry]: the sampler's own counters and gauges
    (internal/telemetry/telemetry.go). The OpenTelemetry SDK is third-party
    code. *)
From S2P Require Import Prelude GoStd Config.

(** The SDK: exporters, resources, meter providers, and gauges, which may be
    refused. An instrument that is refused counts nothing; its error is
    ignored. *)
Class OtelSdk := {
  MetricExporter : Type;
  SdkResource : Type;
  Provider : Type;
  otlpmetricgrpc_New : string → option MetricExporter;
  resource_Merge : list (string * string) → option SdkResource;
  NewMeterProvider : SdkResource → MetricExporter → Z → Provider;
  Int64ObservableGauge : string → Provider → option Provider;
  provider_Shutdown : Provider → Provider
}.

(** The counters, and whether the gauges are registered. *)
Record Telemetry := MkTelemetry {
  SignalsReceived : Z;
  TracesSampled : Z;
  RollupsTotal : Z;
  BufferItems : bool;
  GossipPeers : bool }.

Definition add_SignalsReceived (n : Z) (t : Telemetry) : Telemetry :=
  MkTelemetry (wrap64 (SignalsReceived t + n)) (TracesSampled t) (RollupsTotal t) (BufferItems t) (GossipPeers t).
Definition add_TracesSampled (n : Z) (t : Telemetry) : Telemetry :=
  MkTelemetry (SignalsReceived t) (wrap64 (TracesSampled t + n)) (RollupsTotal t) (BufferItems t) (GossipPeers t).
Definition add_RollupsTotal (n : Z) (t : Telemetry) : Telemetry :=
  MkTelemetry (SignalsReceived t) (TracesSampled t) (wrap64 (RollupsTotal t + n)) (BufferItems t) (GossipPeers t).

Module Telemetry.
Section Telemetry.
Context `{OT : OtelSdk}.

(** The provider, which [main] only uses to shut it down, comes along with the
    telemetry. [None] is an error: [main] then goes on without telemetry. *)
Definition Init (cfg : ExporterConfig) : option (Telemetry * Provider) :=
  exporter ← otlpmetricgrpc_New (Endpoint cfg);
  res ← resource_Merge [("service.name", "otel-tail-sampler"); ("service.version", "1.0.0")];
  let provider := NewMeterProvider res exporter (10 * Time.Second) in
  Some (MkTelemetry 0 0 0 false false, provider).

(** The two gauges; the callback reads the buffer or the members. *)
Definition RegisterBufferGauge (tp : Telemetry * Provider) : Telemetry * Provider :=
  let '(t, p) := tp in
  match Int64ObservableGauge "sampler.buffer_items" p with
  | Some p' => (MkTelemetry (SignalsReceived t) (TracesSampled t) (RollupsTotal t) true (GossipPeers t), p')
  | None => (t, p)
  end.

Definition RegisterGossipGauge (tp : Telemetry * Provider) : Telemetry * Provider :=
  let '(t, p) := tp in
  match Int64ObservableGauge "sampler.gossip_peers" p with
  | Some p' => (MkTelemetry (SignalsReceived t) (TracesSampled t) (RollupsTotal t) (BufferItems t) true, p')
  | None => (t, p)
  end.
End Telemetry.
End Telemetry.
