(* ===== verification/Processor.v ===== *)
(** Package [processor]: acts on decisions and triggers, and rolls up what was
    not sampled (internal/processor/processor.go). It is written, and proved,
    against the interface of the buffer and the interface [Exporter]. *)
From S2P Require Import Prelude GoStd PData Signals Config Cache Buffer BufferSpec BufferTheorems Manager.
From S2P Require Import Grouping Rollup RollupTheorems Discovery Gossip Telemetry.

(** ** The interface [Exporter] *)
Inductive ExportError := ErrExport.

Class Exporter (X : Type) := {
  ExportTrace : TraceSignal → Go X (option ExportError);
  ExportMetrics : Metrics → Go X (option ExportError);
  ExportLogs : Logs → Go X (option ExportError)
}.

(** What an exporter is asked to send. *)
Inductive Export := ETrace (t : Traces) | EMetrics (m : Metrics) | ELogs (l : Logs).

(** Every call returns, with or without an error. *)
Class ExporterLaws (X : Type) `{!Exporter X} := {
  x_asked : X → list Export;
  x_trace t x : ∃ r x', ExportTrace t x = Ok (r, x') ∧ x_asked x' = x_asked x ++ [ETrace (ts_Traces t)];
  x_metrics m x : ∃ r x', ExportMetrics m x = Ok (r, x') ∧ x_asked x' = x_asked x ++ [EMetrics m];
  x_logs l x : ∃ r x', ExportLogs l x = Ok (r, x') ∧ x_asked x' = x_asked x ++ [ELogs l]
}.

Module Processor.

Record Processor (B X : Type) := MkProcessor {
  buffer : B;
  rollup : Rollup.Processor;
  exporter : X;
  debug : bool;
  telemetry : option Telemetry;
  evictedMetrics : list MetricSignal;
  evictedLogs : list LogSignal;
  evictedMu : RWMutex }.
Arguments MkProcessor {B X} _ _ _ _ _ _ _ _.
Arguments buffer {B X} _.
Arguments rollup {B X} _.
Arguments exporter {B X} _.
Arguments debug {B X} _.
Arguments telemetry {B X} _.
Arguments evictedMetrics {B X} _.
Arguments evictedLogs {B X} _.
Arguments evictedMu {B X} _.

Section Processor.
Context {B X : Type} `{BM : !BufferManager B} `{EX : !Exporter X} `{PD : !PData}.

Abbreviation P := (Processor B X).

Definition New (buf : B) (rlp : Rollup.Processor) (exp : X) (dbg : bool) (tel : option Telemetry) : P :=
  MkProcessor buf rlp exp dbg tel [] [] Unlocked.

Definition set_buffer (b : B) (p : P) : P :=
  MkProcessor b (rollup p) (exporter p) (debug p) (telemetry p) (evictedMetrics p) (evictedLogs p) (evictedMu p).
Definition set_rollup (r : Rollup.Processor) (p : P) : P :=
  MkProcessor (buffer p) r (exporter p) (debug p) (telemetry p) (evictedMetrics p) (evictedLogs p) (evictedMu p).
Definition set_exporter (x : X) (p : P) : P :=
  MkProcessor (buffer p) (rollup p) x (debug p) (telemetry p) (evictedMetrics p) (evictedLogs p) (evictedMu p).
Definition set_telemetry (t : option Telemetry) (p : P) : P :=
  MkProcessor (buffer p) (rollup p) (exporter p) (debug p) t (evictedMetrics p) (evictedLogs p) (evictedMu p).
Definition set_evicted (m : list MetricSignal) (l : list LogSignal) (p : P) : P :=
  MkProcessor (buffer p) (rollup p) (exporter p) (debug p) (telemetry p) m l (evictedMu p).
Definition set_evictedMu (m : RWMutex) (p : P) : P :=
  MkProcessor (buffer p) (rollup p) (exporter p) (debug p) (telemetry p) (evictedMetrics p) (evictedLogs p) m.

Definition onBuffer {A} (m : Go B A) : Go P A := zoom buffer set_buffer m.
Definition onExporter {A} (m : Go X A) : Go P A := zoom exporter set_exporter m.
Definition onRollup {A} (m : Go Rollup.Processor A) : Go P A := zoom rollup set_rollup m.

(** [if p.telemetry != nil { counter.Add(...) }] *)
Definition count (f : Telemetry → Telemetry) : Go P unit := modifyS (λ p, set_telemetry (f <$> telemetry p) p).

(** *** Labels *)
Definition label (r : Resource) : Resource :=
  MkResource (map_put "sampler.processed" (VBool true) (res_attrs r)) (res_rest r).

Definition labelGroups {A} (gs : list (ResourceGroup A)) : list (ResourceGroup A) :=
  map (λ g, MkRG (label (rg_resource g)) (rg_scopes g) (rg_schema g)) gs.

Definition addProcessingLabelToTraces (t : Traces) : Traces := labelGroups t.
Definition addProcessingLabelToMetrics (m : Metrics) : Metrics := labelGroups m.
Definition addProcessingLabelToLogs (l : Logs) : Logs := labelGroups l.

(** *** Evicted signals *)
Definition handleEvictedSignal (sig : Signal) : Go P unit :=
  _ ← zoom evictedMu set_evictedMu Mutex.Lock;
  _ ← modifyS (λ p, match sig with
        | SigMetric s => set_evicted (evictedMetrics p ++ [s]) (evictedLogs p) p
        | SigLog s => set_evicted (evictedMetrics p) (evictedLogs p ++ [s]) p
        | _ => p
        end);
  zoom evictedMu set_evictedMu Mutex.Unlock.

(** One round of [evictionConsumerLoop], when a signal is there. *)
Definition consumeEvicted : Go P unit :=
  sig ← onBuffer bm_recvEvicted;
  match sig with None => mret tt | Some s => handleEvictedSignal s end.

(** *** Triggers *)
Definition float64_gt (x y : float64) : bool :=
  match SFcompare x y with Some Gt => true | _ => false end.

Definition processTrigger (t : TriggerEvent) : Go P unit :=
  if decide (te_Name t = "high_load") then
    if float64_gt (te_Value t) (te_Threshold t) then onRollup (Rollup.SetLevel Rollup.LevelCoarse)
    else onRollup (Rollup.SetLevel Rollup.LevelFine)
  else mret tt.

(** *** Decisions *)

(** [hex.DecodeString], and the check of the length. *)
Definition parseTraceID (s : string) : option TraceID := b ← Hex.DecodeString s; tid_of_bytes b.

(** 1. Fetch the trace, export and remove it. *)
Definition exportTrace (e : Env) (tid : TraceID) : Go P unit :=
  trace ← onBuffer (bm_GetTrace tid);
  match trace with
  | Some trace =>
      _ ← count (add_TracesSampled 1);
      _ ← onExporter (ExportTrace (MkTraceSignal (addProcessingLabelToTraces (ts_Traces trace)) (ts_Ctx trace)));
      onBuffer (bm_RemoveTrace e tid)
  | None => mret tt
  end.

(** 2. Fetch the logs bound to it. *)
Definition exportTraceLogs (tid : TraceID) : Go P unit :=
  traceLogs ← onBuffer (bm_GetTraceLogs tid);
  match traceLogs with
  | Some traceLogs => _ ← onExporter (ExportLogs (addProcessingLabelToLogs (ls_Logs traceLogs))); mret tt
  | None => mret tt
  end.

(** 3. The metrics and the logs of the event window. *)
Definition exportMetricsWindow (e : Env) (start stop : Z) : Go P unit :=
  metrics ← onBuffer (bm_GetMetricsInRange start stop);
  match metrics with
  | [] => mret tt
  | _ =>
      let out := foldl (λ out m, out ++ ms_Metrics m) [] metrics in
      _ ← onExporter (ExportMetrics (addProcessingLabelToMetrics out));
      onBuffer (bm_RemoveMetricsInRange e start stop)
  end.

Definition exportLogsWindow (e : Env) (start stop : Z) : Go P unit :=
  logs ← onBuffer (bm_GetLogsInRange start stop);
  match logs with
  | [] => mret tt
  | _ =>
      let out := foldl (λ out l, out ++ ls_Logs l) [] logs in
      _ ← onExporter (ExportLogs (addProcessingLabelToLogs out));
      onBuffer (bm_RemoveLogsInRange e start stop)
  end.

Definition processDecision (e : Env) (d : SamplingDecision) : Go P unit :=
  match parseTraceID (sd_TraceID d) with
  | None => mret tt
  | Some tid =>
      _ ← exportTrace e tid;
      _ ← exportTraceLogs tid;
      let start := Time.Add (sd_EventStart d) (-5 * Time.Second) in
      let stop := Time.Add (sd_EventEnd d) (5 * Time.Second) in
      _ ← exportMetricsWindow e start stop;
      exportLogsWindow e start stop
  end.

(** *** The periodic rollup *)

(** Taking the evicted signals, with the lock held. *)
Definition takeEvicted : Go P (list MetricSignal * list LogSignal) :=
  _ ← zoom evictedMu set_evictedMu Mutex.Lock;
  p ← getS;
  _ ← putS (set_evicted [] [] p);
  _ ← zoom evictedMu set_evictedMu Mutex.Unlock;
  mret (evictedMetrics p, evictedLogs p).

Definition rollupAllMetrics (e : Env) (start stop : Z) (allMetrics : list MetricSignal) : Go P unit :=
  match allMetrics with
  | [] => mret tt
  | _ =>
      _ ← count (add_RollupsTotal (Z.of_nat (length allMetrics)));
      rolled ← onRollup (Rollup.RollupMetrics allMetrics);
      _ ← onExporter (ExportMetrics (addProcessingLabelToMetrics rolled));
      onBuffer (bm_RemoveMetricsInRange e start stop)
  end.

Definition rollupAllLogs (e : Env) (start stop : Z) (allLogs : list LogSignal) : Go P unit :=
  match allLogs with
  | [] => mret tt
  | _ =>
      _ ← count (add_RollupsTotal (Z.of_nat (length allLogs)));
      rolled ← onRollup (Rollup.RollupLogs allLogs);
      _ ← onExporter (ExportLogs (addProcessingLabelToLogs rolled));
      onBuffer (bm_RemoveLogsInRange e start stop)
  end.

Definition performRollup (e : Env) : Go P unit :=
  let stop := Time.Add (env_now e) (-10 * Time.Second) in
  let start := Time.zero_time in
  bufferMetrics ← onBuffer (bm_GetMetricsInRange start stop);
  bufferLogs ← onBuffer (bm_GetLogsInRange start stop);
  '(evM, evL) ← takeEvicted;
  _ ← rollupAllMetrics e start stop (bufferMetrics ++ evM);
  rollupAllLogs e start stop (bufferLogs ++ evL).
End Processor.
End Processor.
