(* ===== verification/ProcessorTheorems.v ===== *)
(** The properties of package [processor], proved against the interfaces of the
    buffer and of the exporter. *)
From S2P Require Import Prelude GoStd PData Signals Config Cache Buffer BufferSpec BufferTheorems Manager.
From S2P Require Import Grouping Rollup RollupTheorems Discovery Gossip Telemetry Processor.
Import Processor.

Section ProcessorTheorems.
Context {B X : Type} `{BM : !BufferManager B} `{BV : !BufferView B} `{BL : !BufferManagerLaws B}.
Context `{EX : !Exporter X} `{EL : !ExporterLaws X} `{PD : !PData} `{PDL : !PDataLaws}.

Abbreviation P := (Processor B X).
Implicit Types (p : P) (e : Env).

Definition asked p : list Export := x_asked (exporter p).

(** ** Running code on a part of the processor *)

Lemma onBuffer_ok {A} (m : Go B A) p a b : m (buffer p) = Ok (a, b) → onBuffer m p = Ok (a, set_buffer b p).
Proof. intros H. unfold onBuffer, zoom. by rewrite H. Qed.

Lemma onExporter_ok {A} (m : Go X A) p a x : m (exporter p) = Ok (a, x) → onExporter m p = Ok (a, set_exporter x p).
Proof. intros H. unfold onExporter, zoom. by rewrite H. Qed.

Lemma set_buffer_id p : set_buffer (buffer p) p = p.
Proof. by destruct p. Qed.

(** A call of the exporter: something is asked for, and nothing else changes. *)
Lemma export_trace_ok t p :
  ∃ r x, onExporter (ExportTrace t) p = Ok (r, set_exporter x p) ∧ x_asked x = asked p ++ [ETrace (ts_Traces t)].
Proof. destruct (x_trace t (exporter p)) as (r & x & H & ?). exists r, x. split; [by apply onExporter_ok|done]. Qed.

Lemma export_metrics_ok m p :
  ∃ r x, onExporter (ExportMetrics m) p = Ok (r, set_exporter x p) ∧ x_asked x = asked p ++ [EMetrics m].
Proof. destruct (x_metrics m (exporter p)) as (r & x & H & ?). exists r, x. split; [by apply onExporter_ok|done]. Qed.

Lemma export_logs_ok l p :
  ∃ r x, onExporter (ExportLogs l) p = Ok (r, set_exporter x p) ∧ x_asked x = asked p ++ [ELogs l].
Proof. destruct (x_logs l (exporter p)) as (r & x & H & ?). exists r, x. split; [by apply onExporter_ok|done]. Qed.

(** What stays the same in a step that acts on the buffer, the exporter and the
    counters only. *)
Definition same_rest (p p' : P) : Prop :=
  rollup p' = rollup p ∧ evictedMetrics p' = evictedMetrics p ∧ evictedLogs p' = evictedLogs p ∧ evictedMu p' = evictedMu p.

(** ** Labels *)

Lemma labelGroups_items {A} (gs : list (ResourceGroup A)) : items (labelGroups gs) = items gs.
Proof. unfold items, labelGroups. induction gs as [|g gs IH]; [done|]. cbn. by f_equal. Qed.

(** The label is put on every resource of what is exported, and changes
    nothing else: no scope, item or other attribute. *)
Theorem labelGroups_spec {A} (gs : list (ResourceGroup A)) :
  Forall (λ g, map_get "sampler.processed" (res_attrs (rg_resource g)) = Some (VBool true)) (labelGroups gs)
  ∧ items (labelGroups gs) = items gs
  ∧ Forall2 (λ g g', rg_scopes g' = rg_scopes g ∧ rg_schema g' = rg_schema g
      ∧ res_rest (rg_resource g') = res_rest (rg_resource g)
      ∧ ∀ k, k ≠ "sampler.processed" → map_get k (res_attrs (rg_resource g')) = map_get k (res_attrs (rg_resource g)))
      gs (labelGroups gs).
Proof.
  split_and!; [|apply labelGroups_items|].
  - apply Forall_map, Forall_true. intros g. apply map_get_put.
  - unfold labelGroups. apply Forall2_fmap_r, Forall_Forall2_diag, Forall_true. intros g.
    split_and!; [done..|]. intros k Hk. by apply map_get_put_ne.
Qed.

(** ** Decisions *)

(** What is exported of a trace whose entry is [o]: its spans, or else its logs. *)
Definition trace_exports (o : option TraceEntry) : list Export :=
  match trace_answer o with
  | Some t => [ETrace (labelGroups (ts_Traces t))]
  | None => match logs_answer o with Some l => [ELogs (labelGroups (ls_Logs l))] | None => [] end
  end.

(** What is exported of the metrics (the logs) of a window. *)
Definition metrics_export (l : list (TimeKey * Metrics)) : list Export :=
  match l with [] => [] | _ => [EMetrics (labelGroups (flat_map snd l))] end.
Definition logs_export (l : list (TimeKey * Logs)) : list Export :=
  match l with [] => [] | _ => [ELogs (labelGroups (flat_map snd l))] end.

Lemma range_empty {A} (m : gmap string (Z * A)) start stop :
  range_answer m start stop [] → filter (λ x, ¬ in_range start stop x.2.1) m = m.
Proof.
  intros [_ Hr]. apply map_filter_id. intros k [ts a] Hk Hin. cbn in Hin.
  specialize (Hr k ts a). rewrite elem_of_nil in Hr. naive_solver.
Qed.

Lemma foldl_metrics l out : foldl (λ out m, out ++ ms_Metrics m) out (map metric_at l) = out ++ flat_map snd l.
Proof. revert out. induction l as [|x l IH]; intros out; cbn; [by rewrite app_nil_r|]. by rewrite IH, app_assoc. Qed.

Lemma foldl_logs l out : foldl (λ out m, out ++ ls_Logs m) out (map log_at l) = out ++ flat_map snd l.
Proof. revert out. induction l as [|x l IH]; intros out; cbn; [by rewrite app_nil_r|]. by rewrite IH, app_assoc. Qed.

Lemma answered_trace o t : trace_answer o = Some t → is_Some o.
Proof. by destruct o. Qed.

(** The first two steps of [processDecision]. *)
Lemma exportTrace_spec e tid p :
  bm_ok (buffer p) →
  ∃ p', (_ ← exportTrace e tid; exportTraceLogs tid) p = Ok (tt, p') ∧ bm_ok (buffer p') ∧ same_rest p p'
    ∧ asked p' = asked p ++ trace_exports (bm_trace (buffer p) tid)
    ∧ (∀ tid', bm_trace (buffer p') tid' =
         if decide (tid' = tid ∧ is_Some (trace_answer (bm_trace (buffer p) tid))) then None else bm_trace (buffer p) tid')
    ∧ bm_metrics (buffer p') = bm_metrics (buffer p) ∧ bm_logs (buffer p') = bm_logs (buffer p)
    ∧ bm_evicted (buffer p') = bm_evicted (buffer p) ∧ (bm_distinct (buffer p) → bm_distinct (buffer p')).
Proof.
  intros Hb. unfold trace_exports, exportTrace.
  pose proof (bm_get_trace tid (buffer p) Hb) as Hg.
  destruct (trace_answer (bm_trace (buffer p) tid)) as [t|] eqn:Et.
  - unfold mbind, Go_bind. rewrite (onBuffer_ok _ _ _ _ Hg), set_buffer_id.
    cbn -[onExporter onBuffer exportTraceLogs].
    set (p1 := set_telemetry _ p).
    destruct (export_trace_ok (MkTraceSignal (labelGroups (ts_Traces t)) (ts_Ctx t)) p1) as (r & x & Hx & Hask).
    unfold addProcessingLabelToTraces. rewrite Hx.
    destruct (bm_remove_trace e tid (buffer p) Hb) as (b & Hr & Hb' & Hd & Ht & Hm & Hl & He); [by eapply answered_trace|].
    rewrite (onBuffer_ok _ (set_exporter x p1) _ _ Hr).
    unfold exportTraceLogs, mbind, Go_bind.
    pose proof (bm_get_trace_logs tid b Hb') as Hgl. rewrite (Ht tid), decide_True in Hgl by done. cbn in Hgl.
    rewrite (onBuffer_ok _ (set_buffer b (set_exporter x p1)) _ _ Hgl).
    eexists. split; [reflexivity|]. split_and!; [done..| |done|done|done|done].
    intros tid'. cbn. rewrite Ht. destruct (decide (tid' = tid)) as [->|Hne].
    + rewrite decide_True by (split; [done|by eexists]). done.
    + by rewrite decide_False by tauto.
  - unfold mbind, Go_bind. rewrite (onBuffer_ok _ _ _ _ Hg), set_buffer_id. cbn -[exportTraceLogs].
    unfold exportTraceLogs, mbind, Go_bind.
    pose proof (bm_get_trace_logs tid (buffer p) Hb) as Hgl.
    rewrite (onBuffer_ok _ _ _ _ Hgl), set_buffer_id.
    assert (∀ tid', (if decide (tid' = tid ∧ is_Some (@None TraceSignal)) then None else bm_trace (buffer p) tid') = bm_trace (buffer p) tid') as Hsame.
    { intros tid'. rewrite decide_False; [done|]. intros [_ [? ?]]. done. }
    destruct (logs_answer (bm_trace (buffer p) tid)) as [l|].
    + destruct (export_logs_ok (labelGroups (ls_Logs l)) p) as (r & x & Hx & Hask).
      unfold addProcessingLabelToLogs. rewrite Hx. eexists. split; [reflexivity|]. by split_and!.
    + exists p. split; [reflexivity|]. rewrite app_nil_r. by split_and!.
Qed.

Lemma exportMetricsWindow_spec e start stop p :
  bm_ok (buffer p) → bm_distinct (buffer p) → (Time.UnixNano stop < max_int64)%Z →
  ∃ p' l, exportMetricsWindow e start stop p = Ok (tt, p') ∧ bm_ok (buffer p') ∧ same_rest p p'
    ∧ range_answer (bm_metrics (buffer p)) start stop l ∧ asked p' = asked p ++ metrics_export l
    ∧ bm_metrics (buffer p') = filter (λ x, ¬ in_range start stop x.2.1) (bm_metrics (buffer p))
    ∧ bm_logs (buffer p') = bm_logs (buffer p) ∧ same_traces (buffer p) (buffer p')
    ∧ bm_evicted (buffer p') = bm_evicted (buffer p) ∧ bm_distinct (buffer p').
Proof.
  intros Hb Hd Hs. destruct (bm_get_metrics start stop (buffer p) Hb Hs) as (l & Hg & Hl).
  unfold exportMetricsWindow, mbind, Go_bind. rewrite (onBuffer_ok _ _ _ _ Hg), set_buffer_id.
  destruct l as [|x l].
  - exists p, []. rewrite app_nil_r. split_and!; try done. by rewrite (range_empty _ _ _ Hl).
  - destruct (export_metrics_ok (labelGroups (flat_map snd (x :: l))) p) as (r & xp & Hx & Hask).
    destruct (bm_remove_metrics e start stop (buffer p) Hb Hd Hs) as (b & Hr & Hb' & Hd' & Hm & Hlo & Ht & He).
    exists (set_buffer b (set_exporter xp p)), (x :: l). split_and!; [|done..].
    cbn [map]. change (metric_at x :: map metric_at l) with (map metric_at (x :: l)).
    rewrite foldl_metrics. cbn [app]. unfold addProcessingLabelToMetrics. rewrite Hx.
    by apply (onBuffer_ok _ (set_exporter xp p)).
Qed.

Lemma exportLogsWindow_spec e start stop p :
  bm_ok (buffer p) → bm_distinct (buffer p) → (Time.UnixNano stop < max_int64)%Z →
  ∃ p' l, exportLogsWindow e start stop p = Ok (tt, p') ∧ bm_ok (buffer p') ∧ same_rest p p'
    ∧ range_answer (bm_logs (buffer p)) start stop l ∧ asked p' = asked p ++ logs_export l
    ∧ bm_logs (buffer p') = filter (λ x, ¬ in_range start stop x.2.1) (bm_logs (buffer p))
    ∧ bm_metrics (buffer p') = bm_metrics (buffer p) ∧ same_traces (buffer p) (buffer p')
    ∧ bm_evicted (buffer p') = bm_evicted (buffer p) ∧ bm_distinct (buffer p').
Proof.
  intros Hb Hd Hs. destruct (bm_get_logs start stop (buffer p) Hb Hs) as (l & Hg & Hl).
  unfold exportLogsWindow, mbind, Go_bind. rewrite (onBuffer_ok _ _ _ _ Hg), set_buffer_id.
  destruct l as [|x l].
  - exists p, []. rewrite app_nil_r. split_and!; try done. by rewrite (range_empty _ _ _ Hl).
  - destruct (export_logs_ok (labelGroups (flat_map snd (x :: l))) p) as (r & xp & Hx & Hask).
    destruct (bm_remove_logs e start stop (buffer p) Hb Hd Hs) as (b & Hr & Hb' & Hd' & Hm & Hlo & Ht & He).
    exists (set_buffer b (set_exporter xp p)), (x :: l). split_and!; [|done..].
    cbn [map]. change (log_at x :: map log_at l) with (map log_at (x :: l)).
    rewrite foldl_logs. cbn [app]. unfold addProcessingLabelToLogs. rewrite Hx.
    by apply (onBuffer_ok _ (set_exporter xp p)).
Qed.

Definition window_start (d : SamplingDecision) : Z := (sd_EventStart d - 5000000000)%Z.
Definition window_end (d : SamplingDecision) : Z := (sd_EventEnd d + 5000000000)%Z.

Lemma processDecision_run e d p tid :
  parseTraceID (sd_TraceID d) = Some tid → bm_ok (buffer p) → bm_distinct (buffer p) →
  (Time.UnixNano (window_end d) < max_int64)%Z →
  ∃ p' lm ll, processDecision e d p = Ok (tt, p') ∧ bm_ok (buffer p') ∧ same_rest p p'
    ∧ range_answer (bm_metrics (buffer p)) (window_start d) (window_end d) lm
    ∧ range_answer (bm_logs (buffer p)) (window_start d) (window_end d) ll
    ∧ asked p' = asked p ++ trace_exports (bm_trace (buffer p) tid) ++ metrics_export lm ++ logs_export ll
    ∧ (∀ tid', bm_trace (buffer p') tid' =
         if decide (tid' = tid ∧ is_Some (trace_answer (bm_trace (buffer p) tid))) then None else bm_trace (buffer p) tid')
    ∧ bm_metrics (buffer p') = filter (λ x, ¬ in_range (window_start d) (window_end d) x.2.1) (bm_metrics (buffer p))
    ∧ bm_logs (buffer p') = filter (λ x, ¬ in_range (window_start d) (window_end d) x.2.1) (bm_logs (buffer p))
    ∧ bm_evicted (buffer p') = bm_evicted (buffer p) ∧ bm_distinct (buffer p').
Proof.
  intros Hid Hb Hd Hs. unfold processDecision. rewrite Hid.
  change (Time.Add (sd_EventStart d) (-5 * Time.Second)) with (window_start d).
  change (Time.Add (sd_EventEnd d) (5 * Time.Second)) with (window_end d).
  destruct (exportTrace_spec e tid p Hb) as (p1 & Hr1 & Hb1 & Hs1 & Ha1 & Ht1 & Hm1 & Hl1 & He1 & Hd1).
  destruct (exportMetricsWindow_spec e (window_start d) (window_end d) p1 Hb1 (Hd1 Hd) Hs)
    as (p2 & lm & Hr2 & Hb2 & Hs2 & Hlm & Ha2 & Hm2 & Hl2 & Ht2 & He2 & Hd2).
  destruct (exportLogsWindow_spec e (window_start d) (window_end d) p2 Hb2 Hd2 Hs)
    as (p3 & ll & Hr3 & Hb3 & Hs3 & Hll & Ha3 & Hl3 & Hm3 & Ht3 & He3 & Hd3).
  exists p3, lm, ll. split_and!; try done.
  - unfold mbind, Go_bind in *. destruct (exportTrace e tid p) as [[[] q]| |]; [|done..].
    rewrite Hr1, Hr2. exact Hr3.
  - destruct Hs1 as (?&?&?&?), Hs2 as (?&?&?&?), Hs3 as (?&?&?&?). repeat split; congruence.
  - by rewrite <- Hm1.
  - by rewrite <- Hl1, <- Hl2.
  - by rewrite Ha3, Ha2, Ha1, <- !app_assoc.
  - intros tid'. by rewrite (Ht3 tid'), (Ht2 tid'), Ht1.
  - by rewrite Hm3, Hm2, Hm1.
  - by rewrite Hl3, Hl2, Hl1.
  - by rewrite He3, He2, He1.
Qed.

(** C14: a decision exports, in this order, the trace with its label (or, when the
    buffer has no spans of it, its logs), the metrics and then the logs of the
    event window extended by five seconds at both ends, merged and not rolled
    up; what is exported of the window is removed from the buffer, and so is
    the trace; other traces, metrics and logs stay. So it is unless a key that
    is removed has the hash of another key of the cache. A decision whose trace
    id is not 32 hexadecimal digits changes nothing. *)
Theorem processDecision_spec e d p :
  bm_ok (buffer p) → bm_distinct (buffer p) → (Time.UnixNano (window_end d) < max_int64)%Z →
  match parseTraceID (sd_TraceID d) with
  | None => processDecision e d p = Ok (tt, p)
  | Some tid =>
      ∃ p' lm ll, processDecision e d p = Ok (tt, p') ∧ bm_ok (buffer p')
      ∧ range_answer (bm_metrics (buffer p)) (window_start d) (window_end d) lm
      ∧ range_answer (bm_logs (buffer p)) (window_start d) (window_end d) ll
      ∧ asked p' = asked p ++ trace_exports (bm_trace (buffer p) tid) ++ metrics_export lm ++ logs_export ll
      ∧ (∀ tid', bm_trace (buffer p') tid' =
           if decide (tid' = tid ∧ is_Some (trace_answer (bm_trace (buffer p) tid))) then None else bm_trace (buffer p) tid')
      ∧ bm_metrics (buffer p') = filter (λ x, ¬ in_range (window_start d) (window_end d) x.2.1) (bm_metrics (buffer p))
      ∧ bm_logs (buffer p') = filter (λ x, ¬ in_range (window_start d) (window_end d) x.2.1) (bm_logs (buffer p))
  end.
Proof.
  intros Hb Hd Hs. destruct (parseTraceID (sd_TraceID d)) as [tid|] eqn:Hid.
  - destruct (processDecision_run e d p tid Hid Hb Hd Hs) as (p' & lm & ll & ? & ? & _ & ? & ? & ? & ? & ? & ? & _). eauto 20.
  - unfold processDecision. by rewrite Hid.
Qed.

(** C38: the logs bound to a trace that is sampled are lost: the trace's spans are
    exported and its entry is removed before the logs in the entry are looked
    up, so no log export of the decision comes from the entry, which is gone.
    (The keys that are removed have hashes of their own.) *)
Theorem trace_logs_lost e d p tid o :
  parseTraceID (sd_TraceID d) = Some tid → bm_ok (buffer p) → bm_distinct (buffer p) →
  (Time.UnixNano (window_end d) < max_int64)%Z →
  bm_trace (buffer p) tid = Some o → te_spans o ≠ [] → te_logs o ≠ [] →
  ∃ p' lm ll, processDecision e d p = Ok (tt, p')
    ∧ range_answer (bm_metrics (buffer p)) (window_start d) (window_end d) lm
    ∧ range_answer (bm_logs (buffer p)) (window_start d) (window_end d) ll
    ∧ asked p' = asked p ++ [ETrace (labelGroups (te_spans o))]
                  ++ metrics_export lm ++ logs_export ll
    ∧ bm_trace (buffer p') tid = None.
Proof.
  intros Hid Hb Hd Hs Ho Hspans _.
  assert (trace_answer (Some o) = Some (MkTraceSignal (te_spans o) (MkContext (te_received o) ""))) as Ha.
  { unfold trace_answer. cbn. by destruct (te_spans o). }
  destruct (processDecision_run e d p tid Hid Hb Hd Hs) as (p' & lm & ll & ? & ? & _ & ? & ? & Hask & Ht & _).
  exists p', lm, ll. rewrite Ho in *. split_and!; try done.
  - by rewrite Hask; unfold trace_exports; rewrite Ha.
  - by rewrite Ht, Ha, decide_True.
Qed.

(** ** Triggers and evicted signals *)

Lemma processTrigger_run t p :
  Rollup.mu (rollup p) = Unlocked →
  ∃ r, processTrigger t p = Ok (tt, set_rollup r p) ∧ Rollup.mu r = Unlocked ∧ Rollup.cfg r = Rollup.cfg (rollup p)
    ∧ Rollup.currentLevel r =
        if decide (te_Name t = "high_load") then
          if float64_gt (te_Value t) (te_Threshold t) then Rollup.LevelCoarse else Rollup.LevelFine
        else Rollup.currentLevel (rollup p).
Proof.
  intros Hmu. unfold processTrigger, onRollup, zoom. destruct p as [b r x dbg tel em el mu]. cbn in *.
  destruct r as [cf m lv]. cbn in Hmu. subst m.
  case_decide; [|by eexists]. destruct (float64_gt _ _); by eexists.
Qed.

(** The metrics and the logs among signals. *)
Definition metric_signals (l : list Signal) : list MetricSignal := omap (λ s, match s with SigMetric m => Some m | _ => None end) l.
Definition log_signals (l : list Signal) : list LogSignal := omap (λ s, match s with SigLog m => Some m | _ => None end) l.

Lemma consumeEvicted_run p :
  bm_ok (buffer p) → evictedMu p = Unlocked →
  ∃ p', consumeEvicted p = Ok (tt, p') ∧ bm_ok (buffer p') ∧ evictedMu p' = Unlocked ∧ rollup p' = rollup p
    ∧ bm_evicted (buffer p') = tail (bm_evicted (buffer p))
    ∧ evictedMetrics p' ++ metric_signals (bm_evicted (buffer p')) = evictedMetrics p ++ metric_signals (bm_evicted (buffer p))
    ∧ evictedLogs p' ++ log_signals (bm_evicted (buffer p')) = evictedLogs p ++ log_signals (bm_evicted (buffer p)).
Proof.
  intros Hb Hmu. destruct (bm_recv (buffer p) Hb) as (b & Hr & Hb' & Ht & Hk & _).
  unfold consumeEvicted, mbind, Go_bind. rewrite (onBuffer_ok _ _ _ _ Hr).
  destruct (bm_evicted (buffer p)) as [|sig l]; cbn [head tail] in *.
  - exists (set_buffer b p). cbn. by rewrite Ht.
  - specialize (Hk sig (list_elem_of_here _ _)). destruct p as [b0 r x dbg tel em el mu]. cbn in *. subst mu.
    destruct sig as [| | |]; try done; (eexists; split; [reflexivity|]); cbn; rewrite Ht; split_and!; try done;
      unfold metric_signals, log_signals; by rewrite <- app_assoc.
Qed.

(** An evicted signal is taken out of the buffer's channel and kept, in order,
    for the next rollup; none is lost on the way. *)
Theorem consumeEvicted_spec p :
  bm_ok (buffer p) → evictedMu p = Unlocked →
  ∃ p', consumeEvicted p = Ok (tt, p') ∧ bm_ok (buffer p') ∧ evictedMu p' = Unlocked ∧ rollup p' = rollup p
    ∧ bm_evicted (buffer p') = tail (bm_evicted (buffer p))
    ∧ evictedMetrics p' ++ metric_signals (bm_evicted (buffer p')) = evictedMetrics p ++ metric_signals (bm_evicted (buffer p))
    ∧ evictedLogs p' ++ log_signals (bm_evicted (buffer p')) = evictedLogs p ++ log_signals (bm_evicted (buffer p)).
Proof. apply consumeEvicted_run. Qed.

(** ** The periodic rollup *)

(** What package rollup makes of signals, at a level. *)
Definition rollup_metrics (r : Rollup.Processor) (l : list MetricSignal) : option Metrics :=
  if decide (Rollup.currentLevel r = Rollup.LevelFine ∨ Enabled (Rollup.cfg r) = false) then Some (flat_map ms_Metrics l)
  else rolled_metrics (Rollup.currentLevel r) (flat_map ms_Metrics l).
Definition rollup_logs (r : Rollup.Processor) (l : list LogSignal) : option Logs :=
  if decide (Rollup.currentLevel r = Rollup.LevelFine ∨ Enabled (Rollup.cfg r) = false) then Some (flat_map ls_Logs l)
  else rolled_logs (Rollup.currentLevel r) (flat_map ls_Logs l).

Lemma RollupMetrics_run r l :
  Rollup.mu r = Unlocked →
  Rollup.RollupMetrics l r = match rollup_metrics r l with Some out => Ok (out, r) | None => Panic end.
Proof.
  intros Hmu. unfold Rollup.RollupMetrics, rollup_metrics. erewrite bind_ok by by apply readLevel_run.
  erewrite bind_ok by done. case_decide; [by rewrite mergeMetrics_flat|].
  rewrite rollupMetricsAt_nested. by destruct (rolled_metrics _ _).
Qed.

Lemma RollupLogs_run r l :
  Rollup.mu r = Unlocked → ∃ out, rollup_logs r l = Some out ∧ Rollup.RollupLogs l r = Ok (out, r).
Proof.
  intros Hmu. unfold Rollup.RollupLogs, rollup_logs. erewrite bind_ok by by apply readLevel_run.
  erewrite bind_ok by done. case_decide; [rewrite mergeLogs_flat; eauto|].
  destruct (rollupLogsAt_defined l (Rollup.currentLevel r)) as [out Hout]. exists out.
  rewrite Hout, <- rollupLogsAt_nested. by rewrite Hout.
Qed.

Lemma rollup_metrics_nil r : rollup_metrics r [] = Some [].
Proof. unfold rollup_metrics. by case_decide. Qed.

(** What one kind of data exports: nothing when there is nothing. *)
Definition rolled_metrics_export (l : list MetricSignal) (out : Metrics) : list Export :=
  match l with [] => [] | _ => [EMetrics (labelGroups out)] end.
Definition rolled_logs_export (l : list LogSignal) (out : Logs) : list Export :=
  match l with [] => [] | _ => [ELogs (labelGroups out)] end.

Lemma onRollup_ok {A} (m : Go Rollup.Processor A) p a r : m (rollup p) = Ok (a, r) → onRollup m p = Ok (a, set_rollup r p).
Proof. intros H. unfold onRollup, zoom. by rewrite H. Qed.

Lemma set_rollup_id p : set_rollup (rollup p) p = p.
Proof. by destruct p. Qed.

(** Rolling up the metrics: [l] is what the buffer has in the range. *)
Lemma rollupAllMetrics_spec e start stop lm extra out p :
  bm_ok (buffer p) → bm_distinct (buffer p) → (Time.UnixNano stop < max_int64)%Z → Rollup.mu (rollup p) = Unlocked →
  range_answer (bm_metrics (buffer p)) start stop lm →
  rollup_metrics (rollup p) (map metric_at lm ++ extra) = Some out →
  ∃ p', rollupAllMetrics e start stop (map metric_at lm ++ extra) p = Ok (tt, p') ∧ bm_ok (buffer p') ∧ same_rest p p'
    ∧ asked p' = asked p ++ rolled_metrics_export (map metric_at lm ++ extra) out
    ∧ bm_metrics (buffer p') = filter (λ x, ¬ in_range start stop x.2.1) (bm_metrics (buffer p))
    ∧ bm_logs (buffer p') = bm_logs (buffer p) ∧ same_traces (buffer p) (buffer p')
    ∧ bm_evicted (buffer p') = bm_evicted (buffer p) ∧ bm_distinct (buffer p').
Proof.
  intros Hb Hd Hs Hmu Hl Hout. unfold rollupAllMetrics, rolled_metrics_export.
  destruct (map metric_at lm ++ extra) as [|s l] eqn:E.
  - apply app_nil in E as [E ->]. destruct lm; [|done]. exists p. rewrite app_nil_r.
    split_and!; try done. by rewrite (range_empty _ _ _ Hl).
  - unfold mbind, Go_bind. cbn -[onRollup onExporter onBuffer labelGroups]. set (p1 := set_telemetry _ p).
    pose proof (RollupMetrics_run (rollup p1) (s :: l) Hmu) as Hr. change (rollup p1) with (rollup p) in Hr at 2. rewrite Hout in Hr.
    rewrite (onRollup_ok _ _ _ _ Hr), set_rollup_id.
    destruct (export_metrics_ok (labelGroups out) p1) as (r & x & Hx & Hask).
    unfold addProcessingLabelToMetrics. rewrite Hx.
    destruct (bm_remove_metrics e start stop (buffer p) Hb Hd Hs) as (b & Hrm & Hb' & ? & ?).
    exists (set_buffer b (set_exporter x p1)). split; [by apply (onBuffer_ok _ (set_exporter x p1))|]. destruct_and?; by split_and!.
Qed.

Lemma rollupAllMetrics_panic e start stop l p :
  Rollup.mu (rollup p) = Unlocked → rollup_metrics (rollup p) l = None → rollupAllMetrics e start stop l p = Panic.
Proof.
  intros Hmu Hn. unfold rollupAllMetrics. destruct l as [|s l]; [by rewrite rollup_metrics_nil in Hn|].
  unfold mbind, Go_bind, count, modifyS, onRollup, zoom. cbn -[Rollup.RollupMetrics length].
  by rewrite RollupMetrics_run, Hn.
Qed.

Lemma rollupAllLogs_spec e start stop ll extra p :
  bm_ok (buffer p) → bm_distinct (buffer p) → (Time.UnixNano stop < max_int64)%Z → Rollup.mu (rollup p) = Unlocked →
  range_answer (bm_logs (buffer p)) start stop ll →
  ∃ out p', rollup_logs (rollup p) (map log_at ll ++ extra) = Some out
    ∧ rollupAllLogs e start stop (map log_at ll ++ extra) p = Ok (tt, p') ∧ bm_ok (buffer p') ∧ same_rest p p'
    ∧ asked p' = asked p ++ rolled_logs_export (map log_at ll ++ extra) out
    ∧ bm_logs (buffer p') = filter (λ x, ¬ in_range start stop x.2.1) (bm_logs (buffer p))
    ∧ bm_metrics (buffer p') = bm_metrics (buffer p) ∧ same_traces (buffer p) (buffer p')
    ∧ bm_evicted (buffer p') = bm_evicted (buffer p) ∧ bm_distinct (buffer p').
Proof.
  intros Hb Hd Hs Hmu Hl. destruct (RollupLogs_run (rollup p) (map log_at ll ++ extra) Hmu) as (out & Hout & Hr).
  exists out. unfold rollupAllLogs, rolled_logs_export.
  destruct (map log_at ll ++ extra) as [|s l] eqn:E.
  - apply app_nil in E as [E ->]. destruct ll; [|done]. exists p. rewrite app_nil_r.
    split_and!; try done. by rewrite (range_empty _ _ _ Hl).
  - unfold mbind, Go_bind. cbn -[onRollup onExporter onBuffer labelGroups rollup_logs]. set (p1 := set_telemetry _ p).
    rewrite (onRollup_ok _ p1 _ _ Hr). replace (set_rollup (rollup p) p1) with p1 by done.
    destruct (export_logs_ok (labelGroups out) p1) as (r & x & Hx & Hask).
    unfold addProcessingLabelToLogs. rewrite Hx.
    destruct (bm_remove_logs e start stop (buffer p) Hb Hd Hs) as (b & Hrm & Hb' & ? & ?).
    exists (set_buffer b (set_exporter x p1)). split; [done|].
    split; [by apply (onBuffer_ok _ (set_exporter x p1))|]. destruct_and?; by split_and!.
Qed.

Definition rollup_end (e : Env) : Z := (env_now e - 10000000000)%Z.

Lemma takeEvicted_run p :
  evictedMu p = Unlocked → takeEvicted p = Ok ((evictedMetrics p, evictedLogs p), set_evicted [] [] p).
Proof. intros Hmu. destruct p as [b r x dbg tel em el mu]. cbn in Hmu. by subst mu. Qed.

(** C15: the periodic rollup exports, merged at the current level and labelled, the
    metrics of the buffer that are older than ten seconds together with the
    evicted ones, then the logs likewise; it removes from the buffer what it
    read there, and the traces and everything more recent stay, unless a key
    that is removed has the hash of another. It returns unless the metrics
    cannot be merged, and then it panics. *)
Theorem performRollup_spec e p :
  bm_ok (buffer p) → bm_distinct (buffer p) → (Time.UnixNano (rollup_end e) < max_int64)%Z →
  Rollup.mu (rollup p) = Unlocked → evictedMu p = Unlocked →
  let start := Time.zero_time in
  let stop := rollup_end e in
  ∃ lm ll, range_answer (bm_metrics (buffer p)) start stop lm ∧ range_answer (bm_logs (buffer p)) start stop ll ∧
    let allMetrics := map metric_at lm ++ evictedMetrics p in
    let allLogs := map log_at ll ++ evictedLogs p in
    match rollup_metrics (rollup p) allMetrics with
    | None => performRollup e p = Panic
    | Some outM =>
        ∃ outL p', performRollup e p = Ok (tt, p') ∧ bm_ok (buffer p')
          ∧ rollup_logs (rollup p) allLogs = Some outL
          ∧ asked p' = asked p ++ rolled_metrics_export allMetrics outM ++ rolled_logs_export allLogs outL
          ∧ evictedMetrics p' = [] ∧ evictedLogs p' = [] ∧ evictedMu p' = Unlocked ∧ rollup p' = rollup p
          ∧ bm_metrics (buffer p') = filter (λ x, ¬ in_range start stop x.2.1) (bm_metrics (buffer p))
          ∧ bm_logs (buffer p') = filter (λ x, ¬ in_range start stop x.2.1) (bm_logs (buffer p))
          ∧ same_traces (buffer p) (buffer p') ∧ bm_evicted (buffer p') = bm_evicted (buffer p)
    end.
Proof.
  intros Hb Hd Hs Hmu Hemu start stop.
  destruct (bm_get_metrics start stop (buffer p) Hb Hs) as (lm & Hgm & Hlm).
  destruct (bm_get_logs start stop (buffer p) Hb Hs) as (ll & Hgl & Hll).
  exists lm, ll. split; [done|]. split; [done|]. intros allMetrics allLogs.
  assert (performRollup e p = (_ ← rollupAllMetrics e start stop allMetrics; rollupAllLogs e start stop allLogs) (set_evicted [] [] p)) as ->.
  { unfold performRollup. change (Time.Add (env_now e) (-10 * Time.Second)) with stop. fold start.
    erewrite bind_ok by by apply (onBuffer_ok _ p). rewrite set_buffer_id.
    erewrite bind_ok by by apply (onBuffer_ok _ p). rewrite set_buffer_id.
    by erewrite bind_ok by by apply takeEvicted_run. }
  set (p0 := set_evicted [] [] p). change (rollup p) with (rollup p0).
  destruct (rollup_metrics (rollup p0) allMetrics) as [outM|] eqn:EM.
  - destruct (rollupAllMetrics_spec e start stop lm (evictedMetrics p) outM p0 Hb Hd Hs Hmu Hlm EM)
      as (p1 & Hr1 & Hb1 & (Hs1 & Hs2 & Hs3 & Hs4) & Ha1 & Hm1 & Hl1 & Ht1 & He1 & Hd1).
    destruct (rollupAllLogs_spec e start stop ll (evictedLogs p) p1 Hb1 Hd1 Hs)
      as (outL & p2 & Hout & Hr2 & Hb2 & (Hq1 & Hq2 & Hq3 & Hq4) & Ha2 & Hl2 & Hm2 & Ht2 & He2 & _); [by rewrite Hs1|by rewrite Hl1|].
    exists outL, p2. erewrite bind_ok by exact Hr1. rewrite Hs1 in Hout.
    split_and!; [exact Hr2|done|done|by rewrite Ha2, Ha1, <- app_assoc|by rewrite Hq2, Hs2|by rewrite Hq3, Hs3|by rewrite Hq4, Hs4
      |by rewrite Hq1, Hs1|by rewrite Hm2, Hm1|by rewrite Hl2, Hl1|by intros tid; rewrite (Ht2 tid), (Ht1 tid)|by rewrite He2, He1].
  - unfold mbind, Go_bind. by rewrite rollupAllMetrics_panic.
Qed.

(** ** Returning

    Without a bound on the times, the operations still return and keep the
    processor well-formed. *)

Lemma same_rest_trans p1 p2 p3 : same_rest p1 p2 → same_rest p2 p3 → same_rest p1 p3.
Proof. intros (?&?&?&?) (?&?&?&?). repeat split; congruence. Qed.

Lemma exportMetricsWindow_returns e start stop p :
  bm_ok (buffer p) → ∃ p', exportMetricsWindow e start stop p = Ok (tt, p') ∧ bm_ok (buffer p') ∧ same_rest p p'.
Proof.
  intros Hb. destruct (bm_get_metrics_returns start stop (buffer p) Hb) as [l Hg].
  unfold exportMetricsWindow. erewrite bind_ok by by apply onBuffer_ok. rewrite set_buffer_id.
  destruct l as [|x l]; [by exists p|].
  destruct (export_metrics_ok (addProcessingLabelToMetrics (foldl (λ out m, out ++ ms_Metrics m) [] (x :: l))) p) as (r & xp & Hx & _).
  erewrite bind_ok by exact Hx.
  destruct (bm_remove_metrics_returns e start stop (buffer p) Hb) as (b & Hr & Hb').
  eexists. split; [by apply (onBuffer_ok _ (set_exporter xp p))|]. done.
Qed.

Lemma exportLogsWindow_returns e start stop p :
  bm_ok (buffer p) → ∃ p', exportLogsWindow e start stop p = Ok (tt, p') ∧ bm_ok (buffer p') ∧ same_rest p p'.
Proof.
  intros Hb. destruct (bm_get_logs_returns start stop (buffer p) Hb) as [l Hg].
  unfold exportLogsWindow. erewrite bind_ok by by apply onBuffer_ok. rewrite set_buffer_id.
  destruct l as [|x l]; [by exists p|].
  destruct (export_logs_ok (addProcessingLabelToLogs (foldl (λ out m, out ++ ls_Logs m) [] (x :: l))) p) as (r & xp & Hx & _).
  erewrite bind_ok by exact Hx.
  destruct (bm_remove_logs_returns e start stop (buffer p) Hb) as (b & Hr & Hb').
  eexists. split; [by apply (onBuffer_ok _ (set_exporter xp p))|]. done.
Qed.

Lemma processDecision_returns e d p :
  bm_ok (buffer p) → ∃ p', processDecision e d p = Ok (tt, p') ∧ bm_ok (buffer p') ∧ same_rest p p'.
Proof.
  intros Hb. unfold processDecision. destruct (parseTraceID (sd_TraceID d)) as [tid|]; [|by exists p].
  destruct (exportTrace_spec e tid p Hb) as (p1 & Hr1 & Hb1 & Hs1 & _).
  destruct (exportMetricsWindow_returns e (window_start d) (window_end d) p1 Hb1) as (p2 & Hr2 & Hb2 & Hs2).
  destruct (exportLogsWindow_returns e (window_start d) (window_end d) p2 Hb2) as (p3 & Hr3 & Hb3 & Hs3).
  exists p3. split; [|eauto using same_rest_trans].
  unfold mbind, Go_bind in *. destruct (exportTrace e tid p) as [[[] q]| |]; [|done..].
  rewrite Hr1. change (exportMetricsWindow e (Time.Add _ _) (Time.Add _ _) p1) with
    (exportMetricsWindow e (window_start d) (window_end d) p1). rewrite Hr2. exact Hr3.
Qed.

Lemma rollupAllMetrics_returns e start stop l p :
  bm_ok (buffer p) → Rollup.mu (rollup p) = Unlocked → is_Some (rollup_metrics (rollup p) l) →
  ∃ p', rollupAllMetrics e start stop l p = Ok (tt, p') ∧ bm_ok (buffer p') ∧ same_rest p p'.
Proof.
  intros Hb Hmu [out Hout]. unfold rollupAllMetrics. destruct l as [|s l]; [by exists p|].
  erewrite bind_ok by done. set (p1 := set_telemetry _ p).
  pose proof (RollupMetrics_run (rollup p1) (s :: l) Hmu) as Hr. change (rollup p1) with (rollup p) in Hr at 2. rewrite Hout in Hr.
  erewrite bind_ok by (apply (onRollup_ok _ p1), Hr). rewrite set_rollup_id.
  destruct (export_metrics_ok (addProcessingLabelToMetrics out) p1) as (r & x & Hx & _). erewrite bind_ok by exact Hx.
  destruct (bm_remove_metrics_returns e start stop (buffer p) Hb) as (b & Hrm & Hb').
  eexists. split; [by apply (onBuffer_ok _ (set_exporter x p1))|]. done.
Qed.

Lemma rollupAllLogs_returns e start stop l p :
  bm_ok (buffer p) → Rollup.mu (rollup p) = Unlocked →
  ∃ p', rollupAllLogs e start stop l p = Ok (tt, p') ∧ bm_ok (buffer p') ∧ same_rest p p'.
Proof.
  intros Hb Hmu. unfold rollupAllLogs. destruct l as [|s l]; [by exists p|].
  erewrite bind_ok by done. set (p1 := set_telemetry _ p).
  destruct (RollupLogs_run (rollup p1) (s :: l) Hmu) as (out & _ & Hr).
  erewrite bind_ok by (apply (onRollup_ok _ p1), Hr). rewrite set_rollup_id.
  destruct (export_logs_ok (addProcessingLabelToLogs out) p1) as (r & x & Hx & _). erewrite bind_ok by exact Hx.
  destruct (bm_remove_logs_returns e start stop (buffer p) Hb) as (b & Hrm & Hb').
  eexists. split; [by apply (onBuffer_ok _ (set_exporter x p1))|]. done.
Qed.

(** The metrics that a rollup at this moment merges. *)
Definition rollup_input (e : Env) p : list MetricSignal :=
  match bm_GetMetricsInRange Time.zero_time (rollup_end e) (buffer p) with Ok (l, _) => l ++ evictedMetrics p | _ => [] end.

Lemma performRollup_returns e p :
  bm_ok (buffer p) → Rollup.mu (rollup p) = Unlocked → evictedMu p = Unlocked →
  match rollup_metrics (rollup p) (rollup_input e p) with
  | Some _ => ∃ p', performRollup e p = Ok (tt, p') ∧ bm_ok (buffer p') ∧ rollup p' = rollup p ∧ evictedMu p' = Unlocked
  | None => performRollup e p = Panic
  end.
Proof.
  intros Hb Hmu Hemu.
  destruct (bm_get_metrics_returns Time.zero_time (rollup_end e) (buffer p) Hb) as (lm & Hgm).
  destruct (bm_get_logs_returns Time.zero_time (rollup_end e) (buffer p) Hb) as (ll & Hgl).
  unfold rollup_input. rewrite Hgm.
  assert (performRollup e p = (_ ← rollupAllMetrics e Time.zero_time (rollup_end e) (lm ++ evictedMetrics p);
    rollupAllLogs e Time.zero_time (rollup_end e) (ll ++ evictedLogs p)) (set_evicted [] [] p)) as ->.
  { unfold performRollup. change (Time.Add (env_now e) (-10 * Time.Second)) with (rollup_end e).
    erewrite bind_ok by by apply (onBuffer_ok _ p). rewrite set_buffer_id.
    erewrite bind_ok by by apply (onBuffer_ok _ p). rewrite set_buffer_id.
    by erewrite bind_ok by by apply takeEvicted_run. }
  set (p0 := set_evicted [] [] p). change (rollup p) with (rollup p0).
  destruct (rollup_metrics (rollup p0) (lm ++ evictedMetrics p)) as [out|] eqn:EM.
  - destruct (rollupAllMetrics_returns e Time.zero_time (rollup_end e) (lm ++ evictedMetrics p) p0)
      as (p1 & Hr1 & Hb1 & Hs1 & _ & _ & Hs4); [done|done|by eexists|].
    destruct (rollupAllLogs_returns e Time.zero_time (rollup_end e) (ll ++ evictedLogs p) p1)
      as (p2 & Hr2 & Hb2 & Hq1 & _ & _ & Hq4); [done|by rewrite Hs1|].
    exists p2. erewrite bind_ok by exact Hr1. split_and!; [exact Hr2|done|by rewrite Hq1, Hs1|by rewrite Hq4, Hs4].
  - unfold mbind, Go_bind. by rewrite rollupAllMetrics_panic.
Qed.
End ProcessorTheorems.
