(* ===== verification/Receiver.v ===== *)
(** Packages [receiver] and [exporter]: OTLP over gRPC in and out
    (internal/receiver/receiver.go, internal/exporter/exporter.go). The gRPC
    servers and clients are third-party code. *)
From S2P Require Import Prelude GoStd PData Signals Config Cache Buffer BufferSpec BufferTheorems Manager.
From S2P Require Import Grouping Rollup RollupTheorems Discovery Gossip Telemetry Processor.

(** ** The receiver *)

(** The interface [Consumer], run on a state [S] with errors [E]. *)
Class Consumer (S E : Type) := { Consume : Env → Signal → Go S (option E) }.

(** gRPC servers and the listener they serve on. *)
Inductive Service := TraceService | MetricService | LogService.

Class GrpcServer (G : Type) := {
  Listener : Type;
  net_Listen : string → option Listener;
  grpc_NewServer : G;
  RegisterGRPCServer : Service → G → G;
  Serve : Listener → G → G;
  GracefulStop : G → G
}.

Inductive ReceiverError := ErrListen.

Module Receiver.
Section Receiver.
Context {S E G : Type} `{CO : !Consumer S E} `{GS : !GrpcServer G}.

Record Receiver := MkReceiver {
  cfg : ReceiverConfig;
  consumer : S;
  grpcServer : option G;
  debug : bool;
  telemetry : option Telemetry }.

Definition New (config : ReceiverConfig) (c : S) (dbg : bool) (tel : option Telemetry) : Receiver :=
  MkReceiver config c None dbg tel.

Definition set_consumer (s : S) (r : Receiver) : Receiver :=
  MkReceiver (cfg r) s (grpcServer r) (debug r) (telemetry r).
Definition set_grpcServer (g : option G) (r : Receiver) : Receiver :=
  MkReceiver (cfg r) (consumer r) g (debug r) (telemetry r).

(** [fmt.Sprintf("%s:%d", r.cfg.Host, r.cfg.GRPCPort)] *)
Definition address (c : ReceiverConfig) : string := Host c +:+ ":" +:+ pretty (GRPCPort c).

(** The server listens, gets its three services, and serves in a goroutine. *)
Definition Start : Go Receiver (option ReceiverError) :=
  r ← getS;
  match net_Listen (address (cfg r)) with
  | None => mret (Some ErrListen)
  | Some lis =>
      let register s := modifyS (λ r, set_grpcServer (RegisterGRPCServer s <$> grpcServer r) r) in
      _ ← modifyS (set_grpcServer (Some grpc_NewServer));
      _ ← register TraceService;
      _ ← register MetricService;
      _ ← register LogService;
      _ ← modifyS (λ r, set_grpcServer (Serve lis <$> grpcServer r) r);
      mret None
  end.

Definition Stop : Go Receiver unit :=
  modifyS (λ r, match grpcServer r with Some g => set_grpcServer (Some (GracefulStop g)) r | None => r end).

Definition received : Go Receiver unit :=
  modifyS (λ r, MkReceiver (cfg r) (consumer r) (grpcServer r) (debug r) (add_SignalsReceived 1 <$> telemetry r)).

Definition consume (e : Env) (sig : Signal) : Go Receiver (option E) := zoom consumer set_consumer (Consume e sig).

(** The three [Export] methods; the response is empty. *)
Definition traceExport (e : Env) (traces : Traces) : Go Receiver (option E) :=
  _ ← received; consume e (SigTrace (MkTraceSignal traces (MkContext (env_now e) ""))).
Definition metricExport (e : Env) (metrics : Metrics) : Go Receiver (option E) :=
  _ ← received; consume e (SigMetric (MkMetricSignal metrics (MkContext (env_now e) ""))).
Definition logExport (e : Env) (logs : Logs) : Go Receiver (option E) :=
  _ ← received; consume e (SigLog (MkLogSignal logs (MkContext (env_now e) ""))).
End Receiver.
End Receiver.

(** ** The exporter *)

(** The three gRPC clients behind one connection. *)
Class OTLPClient (N : Type) := {
  traceClient_Export : Traces → Go N bool;
  metricClient_Export : Metrics → Go N bool;
  logClient_Export : Logs → Go N bool
}.

(** [grpc.NewClient] and [conn.Close]. *)
Class GrpcConn (N : Type) := { grpc_NewClient : string → option N; conn_Close : N → N }.

(** A client's call returns; [c_sent] is what the clients were given to send. *)
Class OTLPClientLaws (N : Type) `{!OTLPClient N} := {
  c_sent : N → list Export;
  c_traces t n : ∃ ok n', traceClient_Export t n = Ok (ok, n') ∧ c_sent n' = c_sent n ++ [ETrace t];
  c_metrics m n : ∃ ok n', metricClient_Export m n = Ok (ok, n') ∧ c_sent n' = c_sent n ++ [EMetrics m];
  c_logs l n : ∃ ok n', logClient_Export l n = Ok (ok, n') ∧ c_sent n' = c_sent n ++ [ELogs l]
}.

Module OTLP.
Section OTLP.
Context {N : Type} `{!OTLPClient N}.

(** [conn] is the connection; [false] from a client is an error. *)
Record OTLPExporter := MkExporter { cfg : ExporterConfig; conn : N }.

(** [None] is an error. *)
Definition New `{GC : !GrpcConn N} (config : ExporterConfig) : option OTLPExporter :=
  n ← grpc_NewClient (Endpoint config); Some (MkExporter config n).

Definition Stop `{GC : !GrpcConn N} : Go OTLPExporter unit := modifyS (λ e, MkExporter (cfg e) (conn_Close (conn e))).

Definition call {A} (m : Go N A) : Go OTLPExporter A := zoom conn (λ n e, MkExporter (cfg e) n) m.

Definition ExportTrace (sig : TraceSignal) : Go OTLPExporter (option ExportError) :=
  ok ← call (traceClient_Export (ts_Traces sig)); mret (if ok : bool then None else Some ErrExport).
Definition ExportMetrics (metrics : Metrics) : Go OTLPExporter (option ExportError) :=
  ok ← call (metricClient_Export metrics); mret (if ok : bool then None else Some ErrExport).
Definition ExportLogs (logs : Logs) : Go OTLPExporter (option ExportError) :=
  ok ← call (logClient_Export logs); mret (if ok : bool then None else Some ErrExport).

#[global] Instance exporter : Exporter OTLPExporter := {|
  Processor.ExportTrace := ExportTrace; Processor.ExportMetrics := ExportMetrics; Processor.ExportLogs := ExportLogs |}.

(** The exporter keeps to the interface the processor relies on: it hands on
    what it is given, once. *)
Context `{!OTLPClientLaws N}.

#[global] Program Instance exporter_laws : ExporterLaws OTLPExporter := {| x_asked x := c_sent (conn x) |}.
Next Obligation.
  intros t [c n]. destruct (c_traces (ts_Traces t) n) as (ok & n' & H & Hs).
  eexists _, (MkExporter c n'). split; [|exact Hs]. cbn. unfold ExportTrace, call, zoom, mbind, Go_bind. cbn. by rewrite H.
Qed.
Next Obligation.
  intros m [c n]. destruct (c_metrics m n) as (ok & n' & H & Hs).
  eexists _, (MkExporter c n'). split; [|exact Hs]. cbn. unfold ExportMetrics, call, zoom, mbind, Go_bind. cbn. by rewrite H.
Qed.
Next Obligation.
  intros l [c n]. destruct (c_logs l n) as (ok & n' & H & Hs).
  eexists _, (MkExporter c n'). split; [|exact Hs]. cbn. unfold ExportLogs, call, zoom, mbind, Go_bind. cbn. by rewrite H.
Qed.
End OTLP.
Arguments OTLPExporter N : clear implicits.
End OTLP.
