(* ===== verification/Main.v ===== *)
(** Package [main]: the consumer that ties the components together, the load
    monitor, the truncation of the write-ahead log and the replay at startup
    (cmd/server/main.go); and a node of the cluster as a state machine. *)
From S2P Require Import Prelude GoStd PData Signals Config Cache Buffer BufferSpec BufferTheorems Manager.
From S2P Require Import Grouping Rollup RollupTheorems Discovery Gossip Decision Wal Telemetry Processor ProcessorTheorems Receiver.

Inductive ConsumeError := ConsumeWal (err : WalError) | ConsumeStore (err : BufferError).

Module Main.

(** What the goroutines of one process share. *)
Record Node (B X L Q F : Type) := MkNode {
  config : Config.Config;
  proc : Processor.Processor B X;
  gsp : Gossip.Manager L Q;
  engine : Decision.Engine;
  walLog : option (Wal.Log F);
  highLoadActive : bool }.
Arguments MkNode {B X L Q F} _ _ _ _ _ _.
Arguments config {B X L Q F} _.
Arguments proc {B X L Q F} _.
Arguments gsp {B X L Q F} _.
Arguments engine {B X L Q F} _.
Arguments walLog {B X L Q F} _.
Arguments highLoadActive {B X L Q F} _.

Section Main.
Context {B X L Q F : Type} `{BM : !BufferManager B} `{EX : !Exporter X} `{PD : !PData}.
Context `{ML : !Memberlist L} `{TQ : !TransmitQueue Q} `{TS : Timestamps} `{CG : !Codec GossipMessage}.
Context `{WF : !WalFile F} `{CW : !Codec WALRecord} `{CT : !Codec Traces} `{CM : !Codec Metrics} `{CL : !Codec Logs}.

Abbreviation N := (Node B X L Q F).

Definition set_proc (p : Processor.Processor B X) (n : N) : N :=
  MkNode (config n) p (gsp n) (engine n) (walLog n) (highLoadActive n).
Definition set_gsp (g : Gossip.Manager L Q) (n : N) : N :=
  MkNode (config n) (proc n) g (engine n) (walLog n) (highLoadActive n).
Definition set_walLog (w : option (Wal.Log F)) (n : N) : N :=
  MkNode (config n) (proc n) (gsp n) (engine n) w (highLoadActive n).
Definition set_highLoadActive (h : bool) (n : N) : N :=
  MkNode (config n) (proc n) (gsp n) (engine n) (walLog n) h.

Definition onProc {A} (m : Go (Processor.Processor B X) A) : Go N A := zoom proc set_proc m.
Definition onGossip {A} (m : Go (Gossip.Manager L Q) A) : Go N A := zoom gsp set_gsp m.

(** *** The consumer *)

Definition writeWal (sig : Signal) : Go N (option WalError) :=
  n ← getS;
  match walLog n with
  | None => mret None
  | Some w =>
      match Wal.Write sig w with
      | Ok (r, w') => _ ← putS (set_walLog (Some w') n); mret r
      | Panic => panic
      | Deadlock => deadlock
      end
  end.

Definition Consume (e : Env) (sig : Signal) : Go N (option ConsumeError) :=
  werr ← writeWal sig;
  match werr with
  | Some err => mret (Some (ConsumeWal err))
  | None =>
      serr ← onProc (Processor.onBuffer (bm_Store e sig));
      match serr with
      | Some err => mret (Some (ConsumeStore err))
      | None =>
          n ← getS;
          _ ← match sig with
              | SigTrace ts => onGossip (Decision.EvaluateTrace (env_now e) (engine n) ts)
              | _ => mret tt
              end;
          mret None
      end
  end.

#[global] Instance main_consumer : Consumer N ConsumeError := {| Receiver.Consume := Consume |}.

(** *** Replay at startup: every signal of the log goes to the buffer. The
    environments of the calls are numbered. *)
Definition replayStore (envs : nat → Env) (sig : Signal) : Go (nat * B) unit :=
  s ← getS;
  _ ← zoom snd (λ b s, (s.1, b)) (bm_Store (envs s.1) sig);
  modifyS (λ s, (S s.1, s.2)).

Definition replayWal (envs : nat → Env) : Go (Wal.Log F * (nat * B)) (option WalError) :=
  Wal.Replay (replayStore envs).

(** *** Startup: what [main] builds before its loops start. [None] is
    [log.Fatalf]; [exp] and [buf] are the results of the constructors of the
    exporter and of the buffer, which may fail or panic. *)
Definition boot (envs : nat → Env) (defaultResolver : Resolver) (cfg : Config.Config) (tel : option Telemetry)
    (exp : option X) (buf : option B) : outcome (option N) :=
  match Wal.Open "./data/wal", exp, buf with
  | None, _, _ | Some _, None, _ => Ok None
  | Some _, Some _, None => Panic
  | Some w, Some x, Some b =>
      '(_, b) ← bm_Start b;
      '(_, (w, (_, b))) ← replayWal envs (w, (0, b));
      match Discovery.New defaultResolver (Config.Discovery cfg) with
      | inl _ => Ok None
      | inr disc =>
          '(err, g) ← Gossip.Start (Gossip.New (Config.Gossip cfg) disc (Config.Debug cfg));
          match err with
          | Some _ => Ok None
          | None =>
              Ok (Some (MkNode cfg
                (Processor.New b (Rollup.New (Config.Rollup cfg)) x (Config.Debug cfg) tel) g
                (Decision.New (Config.Decision cfg) true (Config.Debug cfg)) (Some w) false))
          end
      end
  end.

(** *** The load monitor *)

(** The float64 nearest to 0.8. *)
Definition f0_8 : float64 := S754_finite false 7205759403792794 (-53).

Definition float64_le (x y : float64) : bool :=
  match SFcompare x y with Some Lt | Some Eq => true | _ => false end.

Definition loadThreshold (cfg : Config.Config) : float64 :=
  float64_mul (float64_of_Z (MaxTraces (Config.Buffer cfg))) f0_8.

Definition loadTrigger (now : Z) (count : nat) (threshold : float64) : TriggerEvent :=
  MkTrigger "high_load" (float64_of_Z (Z.of_nat count)) threshold now.

(** One tick of the load monitor. *)
Definition loadTick (e : Env) : Go N unit :=
  count ← onProc (Processor.onBuffer bm_GetTraceCount);
  n ← getS;
  let threshold := loadThreshold (config n) in
  let value := float64_of_Z (Z.of_nat count) in
  if Processor.float64_gt value threshold && negb (highLoadActive n) then
    _ ← onGossip (Gossip.BroadcastTrigger (loadTrigger (env_now e) count threshold));
    modifyS (set_highLoadActive true)
  else if float64_le value threshold && highLoadActive n then
    _ ← onGossip (Gossip.BroadcastTrigger (loadTrigger (env_now e) count threshold));
    modifyS (set_highLoadActive false)
  else mret tt.

(** One tick of the truncation loop: keep the last ten minutes. *)
Definition truncateTick (e : Env) : Go N unit :=
  n ← getS;
  match walLog n with
  | None => panic
  | Some w =>
      match Wal.TruncateBefore (Time.Add (env_now e) (-10 * Time.Minute)) w with
      | Ok (_, w') => putS (set_walLog (Some w') n)
      | Panic => panic
      | Deadlock => deadlock
      end
  end.

(** One round of [decisionLoop] and of [triggerLoop]. *)
Definition decisionTick (e : Env) : Go N unit :=
  d ← onGossip Gossip.recvDecision;
  match d with None => mret tt | Some d => onProc (Processor.processDecision e d) end.

Definition triggerTick : Go N unit :=
  t ← onGossip Gossip.recvTrigger;
  match t with None => mret tt | Some t => onProc (Processor.processTrigger t) end.

(** *** A node as a state machine: what its goroutines do, one at a time *)
Inductive NodeEvent :=
| EvConsume (e : Env) (sig : Signal)
| EvNotify (b : bytes)
| EvDecision (e : Env)
| EvTrigger
| EvEvicted
| EvRollup (e : Env)
| EvBackground (e : Env)
| EvLoad (e : Env)
| EvJoin
| EvSend (overhead limit : Z)
| EvTruncate (e : Env).

Definition run_event (ev : NodeEvent) : Go N unit :=
  match ev with
  | EvConsume e sig => _ ← Consume e sig; mret tt
  | EvNotify b => onGossip (Gossip.NotifyMsg b)
  | EvDecision e => decisionTick e
  | EvTrigger => triggerTick
  | EvEvicted => onProc Processor.consumeEvicted
  | EvRollup e => onProc (Processor.performRollup e)
  | EvBackground e => onProc (Processor.onBuffer (bm_background e))
  | EvLoad e => loadTick e
  | EvJoin => onGossip Gossip.joinTick
  | EvSend overhead limit => _ ← onGossip (Gossip.GetBroadcasts overhead limit); mret tt
  | EvTruncate e => truncateTick e
  end.
End Main.
End Main.
