(* ===== verification/MainTheorems.v ===== *)
(** The properties of a whole node: it keeps running, what it accepts survives a
    restart, high load changes the level of the rollup, and a decision taken on
    one node is acted on by every node. *)
From S2P Require Import Prelude GoStd PData Signals Config Cache Buffer BufferSpec BufferTheorems Manager.
From S2P Require Import Grouping Rollup RollupTheorems Discovery Gossip Decision Wal Telemetry Processor ProcessorTheorems Receiver Main.
Import Main.

Section MainTheorems.
Context {B X L Q F : Type}.
Context `{BM : !BufferManager B} `{BV : !BufferView B} `{BL : !BufferManagerLaws B}.
Context `{EX : !Exporter X} `{EL : !ExporterLaws X} `{PD : !PData} `{PDL : !PDataLaws}.
Context `{ML : !Memberlist L} `{TQ : !TransmitQueue Q} `{TQL : !TransmitQueueLaws Q}.
Context `{TS : Timestamps} `{TSL : !TimestampsLaws} `{CG : !Codec GossipMessage} `{CGL : !CodecLaws GossipMessage}.
Context `{WF : !WalFile F} `{WFL : !WalFileLaws F} `{CW : !Codec WALRecord} `{CWL : !CodecLaws WALRecord}.
Context `{CT : !Codec Traces} `{CTL : !CodecLaws Traces} `{CM : !Codec Metrics} `{CML : !CodecLaws Metrics}.
Context `{CL : !Codec Logs} `{CLL : !CodecLaws Logs}.

Abbreviation N := (Node B X L Q F).
Implicit Types (n : N) (e : Env).

(** ** The invariant of a node *)

Definition buf n : B := Processor.buffer (proc n).
Definition level n : Rollup.CardinalityLevel := Rollup.currentLevel (Processor.rollup (proc n)).

Record proc_inv (p : Processor.Processor B X) : Prop := {
  inv_buffer : bm_ok (Processor.buffer p);
  inv_rollup : Rollup.mu (Processor.rollup p) = Unlocked;
  inv_evicted : Processor.evictedMu p = Unlocked }.

Record node_inv n : Prop := {
  inv_proc : proc_inv (proc n);
  inv_gossip : Gossip.started (gsp n);
  inv_wal : ∃ w, walLog n = Some w ∧ Wal.mu w = Unlocked }.

(** What an event relies on. *)
Definition event_ok (ev : NodeEvent) n : Prop :=
  match ev with EvConsume e _ => env_ok e ∧ bm_fresh e (buf n) | _ => True end.

(** ** Running code on a part of the node *)

Lemma onProc_ok {A} (m : Go (Processor.Processor B X) A) n a p : m (proc n) = Ok (a, p) → onProc m n = Ok (a, set_proc p n).
Proof. intros H. unfold onProc, zoom. by rewrite H. Qed.

Lemma onGossip_ok {A} (m : Go (Gossip.Manager L Q) A) n a g : m (gsp n) = Ok (a, g) → onGossip m n = Ok (a, set_gsp g n).
Proof. intros H. unfold onGossip, zoom. by rewrite H. Qed.

Lemma set_proc_inv p n : node_inv n → proc_inv p → node_inv (set_proc p n).
Proof. intros [? ? ?] ?. by split. Qed.

Lemma set_gsp_inv g n : node_inv n → Gossip.started g → node_inv (set_gsp g n).
Proof. intros [? ? ?] ?. by split. Qed.

Lemma set_walLog_inv w n : node_inv n → Wal.mu w = Unlocked → node_inv (set_walLog (Some w) n).
Proof. intros [? ? ?] ?. split; [done..|]. by exists w. Qed.

Lemma set_proc_id n : set_proc (proc n) n = n.
Proof. by destruct n. Qed.

Lemma set_gsp_id n : set_gsp (gsp n) n = n.
Proof. by destruct n. Qed.

Lemma set_walLog_id n w : walLog n = Some w → set_walLog (Some w) n = n.
Proof. destruct n. cbn. by intros ->. Qed.

Lemma same_rest_inv p p' : proc_inv p → bm_ok (Processor.buffer p') → same_rest p p' → proc_inv p'.
Proof. intros [? ? ?] ? (Hr & _ & _ & He). split; [done|by rewrite Hr|by rewrite He]. Qed.

Lemma set_buffer_inv b p : proc_inv p → bm_ok b → proc_inv (Processor.set_buffer b p).
Proof. intros [? ? ?] ?. by split. Qed.

Lemma onProc_buffer {A} (m : Go B A) n a b :
  m (buf n) = Ok (a, b) → onProc (Processor.onBuffer m) n = Ok (a, set_proc (Processor.set_buffer b (proc n)) n).
Proof. intros H. by apply onProc_ok, onBuffer_ok. Qed.

(** ** The consumer *)

(** What [Consume] does when the log accepts the signal: [b] is the buffer and
    [g] the gossip manager afterwards. *)
Definition consumed (e : Env) (sig : Signal) (n : N) (r : option ConsumeError) (b : B) (g : Gossip.Manager L Q) : Prop :=
  match r with
  | Some (ConsumeWal _) => False
  | Some (ConsumeStore err) => bm_Store e sig (buf n) = Ok (Some err, b) ∧ g = gsp n
  | None => bm_Store e sig (buf n) = Ok (None, b)
      ∧ match sig with
        | SigTrace ts => Decision.EvaluateTrace (env_now e) (engine n) ts (gsp n) = Ok (tt, g)
        | _ => g = gsp n
        end
  end.

Lemma EvaluateTrace_started now en ts (g : Gossip.Manager L Q) :
  Gossip.started g → ∃ g', Decision.EvaluateTrace now en ts g = Ok (tt, g') ∧ Gossip.started g'.
Proof. intros Hg. apply Decision.EvaluateTrace_returns; [done|]. intros d. by apply Gossip.BroadcastDecision_started. Qed.

Lemma writeWal_run sig n w :
  walLog n = Some w → Wal.mu w = Unlocked →
  ∃ r w', writeWal sig n = Ok (r, set_walLog (Some w') n) ∧ Wal.Write sig w = Ok (r, w') ∧ Wal.mu w' = Unlocked
    ∧ match r with
      | None => (∃ data, Wal.recordBytes sig = Some data ∧ Wal.entries w' = Wal.entries w ++ [data])
          ∧ Wal.replayed w' = Wal.replayed w ++ [without_source sig]
      | Some _ => w' = w
      end.
Proof.
  intros Hw Hmu. destruct (Wal.Write_run sig w Hmu) as (r & w' & Hr & Hmu' & Hspec & _).
  exists r, w'. split_and!; [|done..|destruct r; naive_solver].
  unfold writeWal. erewrite bind_ok by done. by rewrite Hw, Hr.
Qed.

(** After the log, the buffer and then the policies. *)
Lemma Consume_run e sig n w :
  node_inv n → walLog n = Some w → event_ok (EvConsume e sig) n →
  ∃ r n' w', Consume e sig n = Ok (r, n') ∧ node_inv n' ∧ walLog n' = Some w'
    ∧ match r with
      | Some (ConsumeWal _) => n' = n ∧ w' = w
      | _ => (∃ data, Wal.recordBytes sig = Some data ∧ Wal.entries w' = Wal.entries w ++ [data])
          ∧ Wal.replayed w' = Wal.replayed w ++ [without_source sig]
          ∧ consumed e sig n r (buf n') (gsp n')
          ∧ n' = set_gsp (gsp n') (set_proc (Processor.set_buffer (buf n') (proc n)) (set_walLog (Some w') n))
      end.
Proof.
  intros Hn Hw [He Hf]. destruct (inv_wal n Hn) as (w0 & Hw0 & Hmu). rewrite Hw in Hw0. injection Hw0 as <-.
  destruct (writeWal_run sig n w Hw Hmu) as (r & w' & Hrun & _ & Hmu' & Hr).
  unfold Consume. erewrite bind_ok by exact Hrun. destruct r as [err|].
  { subst w'. exists (Some (ConsumeWal err)), n, w. rewrite set_walLog_id by done. by split_and!. }
  destruct Hr as [Hdata Hrep]. set (n1 := set_walLog (Some w') n).
  assert (node_inv n1) as Hn1 by by apply set_walLog_inv.
  destruct (bm_store e sig (buf n1)) as (sr & b & Hs & Hb); [apply (inv_proc _ Hn1)|done|done|].
  erewrite bind_ok by by apply (onProc_buffer _ n1). set (n2 := set_proc _ n1).
  assert (node_inv n2) as Hn2 by by apply set_proc_inv, set_buffer_inv; [|apply Hn1|].
  destruct sr as [err|]; [by exists (Some (ConsumeStore err)), n2, w'|].
  erewrite bind_ok by done.
  destruct sig as [ts|ms|ls|ty ctx]; [|by exists None, n2, w'..].
  destruct (EvaluateTrace_started (env_now e) (engine n2) ts (gsp n2)) as (g & Hg & Hst); [apply Hn2|].
  erewrite bind_ok by by apply (onGossip_ok _ n2). exists None, (set_gsp g n2), w'.
  split; [done|]. split; [by apply set_gsp_inv|]. by split_and!.
Qed.

(** ** Every event returns *)

Lemma loadTick_run e n :
  node_inv n →
  ∃ c n', bm_GetTraceCount (buf n) = Ok (c, buf n) ∧ loadTick e n = Ok (tt, n') ∧ node_inv n'
    ∧ let threshold := loadThreshold (config n) in
      let value := float64_of_Z (Z.of_nat c) in
      let broadcast active := ∃ r, Gossip.BroadcastTrigger (loadTrigger (env_now e) c threshold) (gsp n) = Ok (r, gsp n')
            ∧ n' = set_highLoadActive active (set_gsp (gsp n') n) in
      if Processor.float64_gt value threshold && negb (highLoadActive n) then broadcast true
      else if float64_le value threshold && highLoadActive n then broadcast false
      else n' = n.
Proof.
  intros Hn. destruct (bm_count (buf n)) as [c Hc].
  assert (∀ t active, ∃ r n', (_ ← onGossip (Gossip.BroadcastTrigger t); modifyS (set_highLoadActive active)) n = Ok (tt, n')
    ∧ node_inv n' ∧ Gossip.BroadcastTrigger t (gsp n) = Ok (r, gsp n') ∧ n' = set_highLoadActive active (set_gsp (gsp n') n)) as Hbc.
  { intros t active. destruct (Gossip.BroadcastTrigger_started t (gsp n)) as (r & g & Hr & Hg); [apply Hn|].
    exists r, (set_highLoadActive active (set_gsp g n)). erewrite bind_ok by by apply onGossip_ok.
    split; [done|]. split; [|done]. destruct (set_gsp_inv g n Hn Hg) as [? ? ?]. by split. }
  exists c. unfold loadTick. erewrite bind_ok by by apply (onProc_buffer _ n).
  erewrite bind_ok by done. unfold buf in *. rewrite set_buffer_id, set_proc_id. cbv zeta.
  set (t := loadTrigger _ _ _). destruct (Processor.float64_gt _ _ && _); [|destruct (float64_le _ _ && _); [|by exists n]].
  - destruct (Hbc t true) as (r & n' & ? & ? & ? & ?). exists n'. by eauto 10.
  - destruct (Hbc t false) as (r & n' & ? & ? & ? & ?). exists n'. by eauto 10.
Qed.

Lemma decisionTick_run e n :
  node_inv n →
  ∃ g, Gossip.recvDecision (gsp n) = Ok (head (chan_buf (Gossip.decisionChan (gsp n))), g) ∧ Gossip.started g
    ∧ chan_buf (Gossip.decisionChan g) = tail (chan_buf (Gossip.decisionChan (gsp n)))
    ∧ ∃ p, decisionTick e n = Ok (tt, set_proc p (set_gsp g n)) ∧ proc_inv p
        ∧ match head (chan_buf (Gossip.decisionChan (gsp n))) with
          | None => p = proc n
          | Some d => Processor.processDecision e d (proc n) = Ok (tt, p)
          end.
Proof.
  intros Hn. destruct (Gossip.recvDecision_started (gsp n)) as (g & Hr & Hg & Ht); [apply Hn|].
  exists g. split; [done|]. split; [done|]. split; [done|].
  unfold decisionTick. erewrite bind_ok by by apply onGossip_ok.
  destruct (head (chan_buf (Gossip.decisionChan (gsp n)))) as [d|].
  - destruct (processDecision_returns e d (proc n)) as (p & Hp & Hb & Hs); [apply Hn|].
    exists p. split; [by apply (onProc_ok _ (set_gsp g n))|]. split; [|done]. eapply same_rest_inv; [apply Hn|done..].
  - exists (proc n). split; [done|]. split; [apply Hn|done].
Qed.

Lemma triggerTick_run n :
  node_inv n →
  ∃ g, Gossip.recvTrigger (gsp n) = Ok (head (chan_buf (Gossip.triggerChan (gsp n))), g) ∧ Gossip.started g
    ∧ ∃ r, triggerTick n = Ok (tt, set_proc (Processor.set_rollup r (proc n)) (set_gsp g n))
        ∧ node_inv (set_proc (Processor.set_rollup r (proc n)) (set_gsp g n))
        ∧ match head (chan_buf (Gossip.triggerChan (gsp n))) with
          | None => r = Processor.rollup (proc n)
          | Some t => Processor.processTrigger t (proc n) = Ok (tt, Processor.set_rollup r (proc n))
          end.
Proof.
  intros Hn. destruct (Gossip.recvTrigger_started (gsp n)) as (g & Hr & Hg & _); [apply Hn|].
  exists g. split; [done|]. split; [done|]. pose proof (inv_proc n Hn) as Hp.
  unfold triggerTick. erewrite bind_ok by by apply onGossip_ok.
  destruct (head (chan_buf (Gossip.triggerChan (gsp n)))) as [t|].
  - destruct (processTrigger_run t (proc n)) as (r & Ht & Hmu & _); [apply Hp|].
    exists r. split; [by apply (onProc_ok _ (set_gsp g n))|]. split; [|done].
    apply set_proc_inv; [by apply set_gsp_inv|]. destruct Hp. by split.
  - exists (Processor.rollup (proc n)). rewrite set_rollup_id. split; [by destruct n|]. split; [|done].
    apply set_proc_inv; [by apply set_gsp_inv|done].
Qed.

Lemma truncateTick_run e n :
  node_inv n → ∃ w, truncateTick e n = Ok (tt, set_walLog (Some w) n) ∧ Wal.mu w = Unlocked.
Proof.
  intros Hn. destruct (inv_wal n Hn) as (w & Hw & Hmu). unfold truncateTick. erewrite bind_ok by done.
  rewrite Hw, Wal.TruncateBefore_run by done. cbv zeta.
  destruct (0 <? _)%Z; [destruct (wl_TruncateFront _ _)|]; eexists; (split; [reflexivity|done]).
Qed.

(** The one way to stop a node: a rollup of metrics that cannot be merged. *)
Definition rollup_fails (ev : NodeEvent) n : Prop :=
  ∃ e, ev = EvRollup e ∧ rollup_metrics (Processor.rollup (proc n)) (rollup_input e (proc n)) = None.

Lemma run_event_ok ev n :
  node_inv n → event_ok ev n →
  (∃ n', run_event ev n = Ok (tt, n') ∧ node_inv n') ∨ (rollup_fails ev n ∧ run_event ev n = Panic).
Proof.
  intros Hn Hev. pose proof (inv_proc n Hn) as Hp. destruct ev as [e sig|data|e| | |e|e|e| |o lim|e]; cbn [run_event].
  - left. destruct (inv_wal n Hn) as (w & Hw & _).
    destruct (Consume_run e sig n w Hn Hw Hev) as (r & n' & w' & Hr & Hn' & _). exists n'. by erewrite bind_ok by exact Hr.
  - left. destruct (Gossip.NotifyMsg_started data (gsp n)) as (g & Hr & Hg); [apply Hn|].
    eexists. split; [by apply onGossip_ok|by apply set_gsp_inv].
  - left. destruct (decisionTick_run e n Hn) as (g & _ & Hg & _ & p & Hr & Hpi & _).
    eexists. split; [exact Hr|]. by apply set_proc_inv, Hpi; apply set_gsp_inv.
  - left. destruct (triggerTick_run n Hn) as (g & _ & _ & r & Hr & Hn' & _). by eexists.
  - left. destruct (consumeEvicted_run (proc n)) as (p & Hr & Hb & Hmu & Hro & _); [apply Hp..|].
    eexists. split; [by apply onProc_ok|]. apply set_proc_inv; [done|].
    split; [done|rewrite Hro; apply Hp|done].
  - pose proof (performRollup_returns e (proc n) (inv_buffer _ Hp) (inv_rollup _ Hp) (inv_evicted _ Hp)) as Hr.
    destruct (rollup_metrics _ _) eqn:E.
    + left. destruct Hr as (p & Hr & Hb & Hro & Hmu). eexists. split; [by apply onProc_ok|].
      apply set_proc_inv; [done|]. split; [done|rewrite Hro; apply Hp|done].
    + right. split; [by exists e|]. unfold onProc, zoom. by rewrite Hr.
  - left. destruct (bm_background_returns e (buf n)) as (b & Hr & Hb); [apply Hp|].
    eexists. split; [by apply onProc_buffer|]. by apply set_proc_inv, set_buffer_inv.
  - left. destruct (loadTick_run e n Hn) as (c & n' & _ & Hr & Hn' & _). by exists n'.
  - left. destruct (Gossip.joinTick_started (gsp n)) as (g & Hr & Hg); [apply Hn|].
    eexists. split; [by apply onGossip_ok|by apply set_gsp_inv].
  - left. destruct (Gossip.GetBroadcasts_started o lim (gsp n)) as (r & g & Hr & Hg); [apply Hn|].
    eexists. split; [by erewrite bind_ok by by apply onGossip_ok|by apply set_gsp_inv].
  - left. destruct (truncateTick_run e n Hn) as (w & Hr & Hmu). eexists. split; [exact Hr|by apply set_walLog_inv].
Qed.

(** ** Startup *)

(** What the calls of [Store] during the replay of [l] rely on. *)
Fixpoint stores_ok (envs : nat → Env) (i : nat) (l : list Signal) (b : B) : Prop :=
  match l with
  | [] => True
  | sig :: l' => env_ok (envs i) ∧ bm_fresh (envs i) b
      ∧ ∀ r b', bm_Store (envs i) sig b = Ok (r, b') → stores_ok envs (S i) l' b'
  end.

Lemma replayStore_ok envs sig i b r b' :
  bm_Store (envs i) sig b = Ok (r, b') → replayStore envs sig (i, b) = Ok (tt, (S i, b')).
Proof.
  intros H. unfold replayStore. erewrite bind_ok by done. unfold mbind, Go_bind, zoom. cbn [snd fst]. by rewrite H.
Qed.

Lemma replayStore_loop envs l i b :
  bm_ok b → stores_ok envs i l b →
  ∃ b', for_each (replayStore envs) l (i, b) = Ok (tt, (i + length l, b')) ∧ bm_ok b'.
Proof.
  revert i b. induction l as [|sig l IH]; intros i b Hb Hok.
  - exists b. by rewrite Nat.add_0_r.
  - destruct Hok as (He & Hf & Hrest). destruct (bm_store (envs i) sig b Hb He Hf) as (r & b' & Hs & Hb').
    rewrite for_each_cons, (replayStore_ok _ _ _ _ _ _ Hs).
    destruct (IH (S i) b' Hb' (Hrest _ _ Hs)) as (b'' & -> & ?). exists b''. split; [|done]. cbn. by rewrite Nat.add_succ_r.
Qed.

Lemma replayWal_run envs w i b :
  Wal.mu w = Unlocked → bm_ok b → stores_ok envs i (Wal.replayed w) b →
  ∃ j b', replayWal envs (w, (i, b)) = Ok (None, (w, (j, b'))) ∧ bm_ok b'.
Proof.
  intros Hmu Hb Hok. destruct (replayStore_loop envs _ i b Hb Hok) as (b' & Hr & Hb').
  eexists _, b'. unfold replayWal. rewrite Wal.Replay_run by done. by rewrite Hr.
Qed.

Lemma boot_run envs resolver cfg tel x b w :
  Wal.Open "./data/wal" = Some w → bm_ok b → (0 < wrap64 (Interval (Config.Gossip cfg) * Time.Millisecond))%Z →
  (∀ b', bm_Start b = Ok (tt, b') → stores_ok envs 0 (Wal.replayed w) b') →
  ∃ r, boot (L := L) (Q := Q) envs resolver cfg tel (Some x) (Some b) = Ok r
    ∧ (is_Some r ↔ (∃ disc, Discovery.New resolver (Config.Discovery cfg) = inr disc)
                    ∧ is_Some (ml_create (L := L) (Config.Gossip cfg)))
    ∧ ∀ n, r = Some n → node_inv n ∧ highLoadActive n = false ∧ level n = Rollup.LevelFine.
Proof.
  intros Hw Hb Hpos Hok. destruct (bm_start b Hb) as (b1 & Hs & Hb1).
  assert (Wal.mu w = Unlocked) as Hmu.
  { unfold Wal.Open in Hw. destruct (wl_open _); [|done]. by injection Hw as <-. }
  destruct (replayWal_run envs w 0 b1 Hmu Hb1 (Hok _ Hs)) as (j & b2 & Hr & Hb2).
  unfold boot. rewrite Hw, Hs. cbn -[Discovery.New replayWal Gossip.Start]. rewrite Hr. cbn -[Discovery.New Gossip.Start].
  destruct (Discovery.New resolver (Config.Discovery cfg)) as [err|disc].
  { exists None. split; [done|]. split; [|done]. split; [by intros []|by intros [[? ?] _]]. }
  rewrite Gossip.Start_run. cbn [Gossip.cfg Gossip.New]. unfold Gossip.joinTicker. cbv zeta.
  replace (_ <=? 0)%Z with false by (symmetry; apply Z.leb_gt, Hpos).
  destruct (ml_create (Config.Gossip cfg)) as [l|]; cbn.
  - eexists. split; [reflexivity|]. split; [by split; eauto|]. intros n [= <-]. split; [|done].
    split; [by split|split_and!; [by eexists|by eexists| |cbn; lia..]|by exists w]. split; cbn; unfold Chan.wf; cbn; lia.
  - exists None. split; [done|]. split; [|done]. split; [by intros []|by intros [_ []]].
Qed.

Lemma rollup_fails_panics ev n : node_inv n → rollup_fails ev n → run_event ev n = Panic.
Proof.
  intros [Hp _ _] (e & -> & Hnone).
  pose proof (performRollup_returns e (proc n) (inv_buffer _ Hp) (inv_rollup _ Hp) (inv_evicted _ Hp)) as Hr.
  rewrite Hnone in Hr. cbn [run_event]. unfold onProc, zoom. by rewrite Hr.
Qed.

(** The states of a node that booted. *)
Inductive node_reachable (n0 : N) : N → Prop :=
| node_booted : node_reachable n0 n0
| node_event n ev n' : node_reachable n0 n → event_ok ev n → run_event ev n = Ok (tt, n') → node_reachable n0 n'.

Lemma node_reachable_inv n0 n : node_inv n0 → node_reachable n0 n → node_inv n.
Proof.
  intros H0 Hr. induction Hr as [|n ev n' _ IH Hev Hrun]; [done|].
  destruct (run_event_ok ev n IH Hev) as [(n'' & Hrun' & Hn')|[_ Hp]]; congruence.
Qed.

(** C1: a node whose gossip interval is positive boots whenever its log opens, its
    discovery is of a known kind and memberlist can be created, replaying the
    log first; from then on, whatever
    the order of its goroutines' steps and whatever bytes its peers send, every
    step, run to its end before the next, returns - no deadlock, no nil pointer -
    with one exception: a rollup
    panics when, and only when, the metrics it has to merge have conflicting
    types. *)
Theorem service_safe envs resolver cfg tel x b w :
  Wal.Open "./data/wal" = Some w → bm_ok b → (0 < wrap64 (Interval (Config.Gossip cfg) * Time.Millisecond))%Z →
  (∀ b', bm_Start b = Ok (tt, b') → stores_ok envs 0 (Wal.replayed w) b') →
  ∃ r, boot (L := L) (Q := Q) envs resolver cfg tel (Some x) (Some b) = Ok r
    ∧ (is_Some r ↔ (∃ disc, Discovery.New resolver (Config.Discovery cfg) = inr disc)
                    ∧ is_Some (ml_create (L := L) (Config.Gossip cfg)))
    ∧ ∀ n0 n ev, r = Some n0 → node_reachable n0 n → event_ok ev n →
        (¬ rollup_fails ev n → ∃ n', run_event ev n = Ok (tt, n')) ∧ (rollup_fails ev n → run_event ev n = Panic).
Proof.
  intros Hw Hb Hpos Hok. destruct (boot_run envs resolver cfg tel x b w Hw Hb Hpos Hok) as (r & Hr & Hsome & Hinv).
  exists r. split; [done|]. split; [done|]. intros n0 n ev Hn0 Hreach Hev. destruct (Hinv _ Hn0) as [H0 _].
  pose proof (node_reachable_inv _ _ H0 Hreach) as Hn. split; [|by apply rollup_fails_panics].
  destruct (run_event_ok ev n Hn Hev) as [(n' & ? & _)|[? _]]; [by eauto|done].
Qed.

(** C24: [Consume] is durable first: when the log refuses a signal nothing happens
    to it; otherwise the signal is the last of the log before it is stored, and
    a trace that could be stored is then evaluated. Nothing else of the node
    changes, and the caller sees the first error. *)
Theorem Consume_spec e sig n w :
  node_inv n → walLog n = Some w → event_ok (EvConsume e sig) n →
  ∃ r n' w', Consume e sig n = Ok (r, n') ∧ node_inv n' ∧ walLog n' = Some w'
    ∧ match r with
      | Some (ConsumeWal _) => n' = n ∧ w' = w
      | _ => (∃ data, Wal.recordBytes sig = Some data ∧ Wal.entries w' = Wal.entries w ++ [data])
          ∧ Wal.replayed w' = Wal.replayed w ++ [without_source sig]
          ∧ consumed e sig n r (buf n') (gsp n')
          ∧ n' = set_gsp (gsp n') (set_proc (Processor.set_buffer (buf n') (proc n)) (set_walLog (Some w') n))
      end.
Proof. apply Consume_run. Qed.

(** ** Recovery *)

(** The receiver's calls, one after the other. *)
Fixpoint consume_all (l : list (Env * Signal)) : Go N (list (option ConsumeError)) :=
  match l with
  | [] => mret []
  | (e, sig) :: l' => r ← Consume e sig; rs ← consume_all l'; mret (r :: rs)
  end.

Fixpoint inputs_ok (l : list (Env * Signal)) (n : N) : Prop :=
  match l with
  | [] => True
  | (e, sig) :: l' => event_ok (EvConsume e sig) n ∧ ∀ r n', Consume e sig n = Ok (r, n') → inputs_ok l' n'
  end.

(** The signals that reached the log. *)
Definition logged (r : option ConsumeError) : bool := match r with Some (ConsumeWal _) => false | _ => true end.

Fixpoint accepted (l : list (Env * Signal)) (rs : list (option ConsumeError)) : list Signal :=
  match l, rs with
  | (_, sig) :: l', r :: rs' => if logged r then sig :: accepted l' rs' else accepted l' rs'
  | _, _ => []
  end.

Lemma consume_all_run l n w :
  node_inv n → walLog n = Some w → inputs_ok l n →
  ∃ rs n' w', consume_all l n = Ok (rs, n') ∧ node_inv n' ∧ walLog n' = Some w' ∧ length rs = length l
    ∧ Wal.replayed w' = Wal.replayed w ++ map without_source (accepted l rs).
Proof.
  revert n w. induction l as [|[e sig] l IH]; intros n w Hn Hw Hok.
  - exists [], n, w. by rewrite app_nil_r.
  - destruct Hok as [Hev Hrest]. destruct (Consume_run e sig n w Hn Hw Hev) as (r & n1 & w1 & Hr & Hn1 & Hw1 & Hspec).
    destruct (IH n1 w1 Hn1 Hw1 (Hrest _ _ Hr)) as (rs & n2 & w2 & Hrs & Hn2 & Hw2 & Hlen & Hrep).
    exists (r :: rs), n2, w2. cbn [consume_all]. erewrite bind_ok by exact Hr. erewrite bind_ok by exact Hrs.
    split; [done|]. split; [done|]. split; [done|]. split; [by cbn; rewrite Hlen|]. rewrite Hrep.
    assert (∀ rep, Wal.replayed w1 = Wal.replayed w ++ [rep] → logged r = true → rep = without_source sig →
      Wal.replayed w1 ++ map without_source (accepted l rs) = Wal.replayed w ++ map without_source (accepted ((e, sig) :: l) (r :: rs))) as Hgo.
    { intros rep -> Hl ->. cbn. rewrite Hl. by rewrite <- app_assoc. }
    destruct r as [[err|err]|]; [by destruct Hspec as [_ ->]| |]; by destruct Hspec as (_ & ? & _); eapply Hgo.
Qed.

Lemma for_each_ext {S A} (f g : A → Go S unit) l s : (∀ x s, f x s = g x s) → for_each f l s = for_each g l s.
Proof.
  intros H. revert s. induction l as [|x l IH]; intros s; [done|]. rewrite !for_each_cons, H.
  destruct (g x s) as [[[] s']| |]; [apply IH|done..].
Qed.

Lemma replayStore_source envs sig s : replayStore envs (without_source sig) s = replayStore envs sig s.
Proof. unfold replayStore, mbind, Go_bind, zoom, getS. by rewrite bm_store_source. Qed.

Lemma replayStore_map envs l s : for_each (replayStore envs) (map without_source l) s = for_each (replayStore envs) l s.
Proof.
  revert s. induction l as [|sig l IH]; intros s; [done|]. cbn [map]. rewrite !for_each_cons, replayStore_source.
  destruct (replayStore envs sig s) as [[[] s']| |]; [apply IH|done..].
Qed.

(** C3: recovery. After any series of calls of [Consume], a replay of the log into
    any buffer stores there exactly what was in the log before and then, in
    order and each once, the signals that [Consume] did not refuse to log: what
    a crash loses is made up for, as long as the log is not truncated. *)
Theorem recovery l n w :
  node_inv n → walLog n = Some w → inputs_ok l n →
  ∃ rs n' w', consume_all l n = Ok (rs, n') ∧ walLog n' = Some w' ∧ length rs = length l
    ∧ ∀ envs b, replayWal envs (w', (0, b)) =
        match (_ ← for_each (replayStore envs) (Wal.replayed w); for_each (replayStore envs) (accepted l rs)) (0, b) with
        | Ok (_, s) => Ok (None, (w', s))
        | Panic => Panic
        | Deadlock => Deadlock
        end.
Proof.
  intros Hn Hw Hok. destruct (consume_all_run l n w Hn Hw Hok) as (rs & n' & w' & Hr & Hn' & Hw' & Hlen & Hrep).
  exists rs, n', w'. split_and!; [done..|]. intros envs b.
  destruct (inv_wal n' Hn') as (w0 & Hw0 & Hmu). rewrite Hw' in Hw0. injection Hw0 as <-.
  unfold replayWal. rewrite Wal.Replay_run, Hrep, for_each_app by done. unfold mbind, Go_bind.
  destruct (for_each (replayStore envs) (Wal.replayed w) (0, b)) as [[[] s]| |]; [|done..].
  by rewrite replayStore_map.
Qed.

(** ** High load *)

(** A node that hears a trigger: its own, or one that was broadcast. *)
Lemma triggerTick_heard t n :
  node_inv n → chan_buf (Gossip.triggerChan (gsp n)) = [] → te_Name t = "high_load" →
  ∃ n', triggerTick (set_gsp (Gossip.deliverTrigger t (gsp n)) n) = Ok (tt, n') ∧ node_inv n'
    ∧ level n' = if Processor.float64_gt (te_Value t) (te_Threshold t) then Rollup.LevelCoarse else Rollup.LevelFine.
Proof.
  intros Hn Hempty Hname. set (n1 := set_gsp _ n).
  assert (node_inv n1) as Hn1 by (apply set_gsp_inv; [done|apply Gossip.started_deliverTrigger, Hn]).
  assert (head (chan_buf (Gossip.triggerChan (gsp n1))) = Some t) as Hhead.
  { pose proof (inv_gossip n Hn) as (_ & _ & _ & _ & Hcap). cbn. unfold Chan.try_send. rewrite Hempty. by rewrite decide_True. }
  destruct (triggerTick_run n1 Hn1) as (g & _ & _ & r & Hr & Hinv & Ht). rewrite Hhead in Ht.
  exists (set_proc (Processor.set_rollup r (proc n1)) (set_gsp g n1)). split; [done|]. split; [done|].
  destruct (processTrigger_run t (proc n1)) as (r' & Ht' & _ & _ & Hl); [apply Hn1|].
  rewrite Ht in Ht'. injection Ht' as <-. rewrite decide_True in Hl by done. exact Hl.
Qed.

Definition node_above n c : bool :=
  Processor.float64_gt (float64_of_Z (Z.of_nat c)) (loadThreshold (config n)).
Definition node_below n c : bool := float64_le (float64_of_Z (Z.of_nat c)) (loadThreshold (config n)).

(** What a trigger does on a node where no other one waits. *)
Definition hears (data : bytes) (lvl : Rollup.CardinalityLevel) n : Prop :=
  node_inv n → chan_buf (Gossip.triggerChan (gsp n)) = [] →
  ∃ n1 n2, run_event (EvNotify data) n = Ok (tt, n1) ∧ run_event EvTrigger n1 = Ok (tt, n2) ∧ level n2 = lvl.

(** What follows when the load monitor broadcasts the trigger [t]. *)
Lemma broadcast_level t r active n n' :
  node_inv n → chan_buf (Gossip.triggerChan (gsp n)) = [] → te_Name t = "high_load" →
  Gossip.BroadcastTrigger t (gsp n) = Ok (r, gsp n') → n' = set_highLoadActive active (set_gsp (gsp n') n) →
  let lvl := if Processor.float64_gt (te_Value t) (te_Threshold t) then Rollup.LevelCoarse else Rollup.LevelFine in
  highLoadActive n' = active ∧
  ∀ data, marshal (Gossip.triggerMessage t) = Some data →
    (∃ q, Gossip.broadcasts (gsp n') = Some q ∧ data ∈ tq_view q)
    ∧ (∃ n2, run_event EvTrigger n' = Ok (tt, n2) ∧ level n2 = lvl)
    ∧ ∀ m, hears data lvl m.
Proof.
  intros Hn Hempty Hname Hb Heq lvl. split; [by rewrite Heq|]. intros data Hm.
  destruct (proj1 (inv_gossip n Hn)) as [q Hq].
  rewrite (Gossip.BroadcastTrigger_run t data q) in Hb by done. injection Hb as _ Hg. split_and!.
  - exists (tq_queue data q). rewrite <- Hg. split; [done|]. rewrite tq_view_queue. apply list_elem_of_here.
  - set (n1 := set_highLoadActive active (set_gsp (Gossip.set_broadcasts (Some (tq_queue data q)) (gsp n)) n)).
    assert (node_inv n1) as Hn1.
    { destruct Hn as [Hp Hs Hw]. split; [done|by apply Gossip.started_queue|done]. }
    destruct (triggerTick_heard t n1 Hn1 Hempty Hname) as (n2 & Hr2 & _ & Hl2). exists n2.
    split; [|exact Hl2]. cbn [run_event]. rewrite Heq, <- Hg. exact Hr2.
  - intros m Hinv Hme. destruct (triggerTick_heard t m Hinv Hme Hname) as (n2 & Hr2 & _ & Hl2).
    exists (set_gsp (Gossip.deliverTrigger t (gsp m)) m), n2. split; [|done].
    by apply onGossip_ok, Gossip.deliver_trigger_message.
Qed.

Lemma gt_not_le x y : Processor.float64_gt x y = true → float64_le x y = false.
Proof. unfold Processor.float64_gt, float64_le. by destruct (SFcompare x y) as [[]|]. Qed.

(** C31: the load monitor broadcasts only when the load crosses the threshold of
    80 percent: a tick does nothing while the load stays on its side. On a
    crossing it remembers the new side, and the level becomes coarse (above)
    or fine (not above) on this node and on every node that receives the
    message, once it has handled the trigger. *)
Theorem high_load_everywhere e n :
  node_inv n → chan_buf (Gossip.triggerChan (gsp n)) = [] →
  ∃ c n', bm_GetTraceCount (buf n) = Ok (c, buf n) ∧ loadTick e n = Ok (tt, n') ∧
    let crossed := if highLoadActive n then node_below n c else node_above n c in
    if crossed then
      highLoadActive n' = negb (highLoadActive n) ∧
      let t := loadTrigger (env_now e) c (loadThreshold (config n)) in
      let lvl := if node_above n c then Rollup.LevelCoarse else Rollup.LevelFine in
      ∀ data, marshal (Gossip.triggerMessage t) = Some data →
        (∃ q, Gossip.broadcasts (gsp n') = Some q ∧ data ∈ tq_view q)
        ∧ (∃ n2, run_event EvTrigger n' = Ok (tt, n2) ∧ level n2 = lvl)
        ∧ ∀ m, hears data lvl m
    else n' = n.
Proof.
  intros Hn Hempty. destruct (loadTick_run e n Hn) as (c & n' & Hc & Hr & Hn' & Hspec).
  exists c, n'. split; [done|]. split; [done|]. cbv zeta in *.
  fold (node_above n c) in Hspec. fold (node_below n c) in Hspec.
  set (t := loadTrigger (env_now e) c (loadThreshold (config n))) in *.
  pose proof (λ active r, broadcast_level t r active n n' Hn Hempty eq_refl) as Hgo. cbv zeta in Hgo.
  change (Processor.float64_gt (te_Value t) (te_Threshold t)) with (node_above n c) in Hgo.
  pose proof (gt_not_le (float64_of_Z (Z.of_nat c)) (loadThreshold (config n))) as Hex.
  fold (node_above n c) in Hex. fold (node_below n c) in Hex.
  destruct (highLoadActive n), (node_above n c) eqn:Ea, (node_below n c) eqn:Eb; cbn in *; try done; try (by discriminate Hex);
    destruct Hspec as (r & Hb & Heq); by apply (Hgo _ r).
Qed.

(** ** Sampling *)

(** What a decision on the trace [tid] does on a node: it exports what the node
    has of the trace (its spans, or else its logs) and of the event window, and
    removes the spans with the entry of the trace, and the window. *)
Definition acts (d : SamplingDecision) (tid : TraceID) n n' : Prop :=
  ∃ lm ll, range_answer (bm_metrics (buf n)) (window_start d) (window_end d) lm
    ∧ range_answer (bm_logs (buf n)) (window_start d) (window_end d) ll
    ∧ asked (proc n') = asked (proc n) ++ trace_exports (bm_trace (buf n) tid) ++ metrics_export lm ++ logs_export ll
    ∧ (∀ tid', bm_trace (buf n') tid' =
         if decide (tid' = tid ∧ is_Some (trace_answer (bm_trace (buf n) tid))) then None else bm_trace (buf n) tid')
    ∧ bm_metrics (buf n') = filter (λ x, ¬ in_range (window_start d) (window_end d) x.2.1) (bm_metrics (buf n))
    ∧ bm_logs (buf n') = filter (λ x, ¬ in_range (window_start d) (window_end d) x.2.1) (bm_logs (buf n)).

Lemma decisionTick_heard e d tid n :
  node_inv n → bm_distinct (buf n) → chan_buf (Gossip.decisionChan (gsp n)) = [] →
  Processor.parseTraceID (sd_TraceID d) = Some tid → (Time.UnixNano (window_end d) < max_int64)%Z →
  ∃ n', decisionTick e (set_gsp (Gossip.deliverDecision d (gsp n)) n) = Ok (tt, n') ∧ acts d tid n n'.
Proof.
  intros Hn Hd Hempty Hid Hend. set (n1 := set_gsp _ n).
  assert (node_inv n1) as Hn1 by (apply set_gsp_inv; [done|apply Gossip.started_deliverDecision, Hn]).
  assert (head (chan_buf (Gossip.decisionChan (gsp n1))) = Some d) as Hhead.
  { pose proof (inv_gossip n Hn) as (_ & _ & _ & Hcap & _). cbn. unfold Chan.try_send. rewrite Hempty. by rewrite decide_True. }
  destruct (decisionTick_run e n1 Hn1) as (g & _ & _ & _ & p & Hr & _ & Hp). rewrite Hhead in Hp.
  exists (set_proc p (set_gsp g n1)). split; [done|].
  destruct (processDecision_run e d (proc n) tid Hid) as (p' & lm & ll & Hp' & _ & _ & Hlm & Hll & Ha & Ht & Hm & Hl & _);
    [apply Hn|done..|].
  change (proc n1) with (proc n) in Hp. rewrite Hp in Hp'. injection Hp' as <-.
  exists lm, ll. by split_and!.
Qed.

Lemma parse_trace_key tid : Processor.parseTraceID (trace_key tid) = Some tid.
Proof. unfold Processor.parseTraceID, trace_key. rewrite Hex.decode_encode. cbn. apply tid_of_bytes_bytes. Qed.

Abbreviation spans := (items (A := Span)).

(** The decision that a batch gives rise to. *)
Definition batch_decision (now : Z) (reason : string) (tid : TraceID) (l : list Span) : SamplingDecision :=
  MkDecision (trace_key tid) reason now "local" (Decision.window_of l).1 (Decision.window_of l).2.

Lemma Consume_decides e ts n n' i p j sp data q :
  let l := spans (ts_Traces ts) in
  let d := batch_decision (env_now e) (Policy_Name p) (sp_trace_id sp) l in
  node_inv n → event_ok (EvConsume e (SigTrace ts)) n → Decision.broadcaster (engine n) = true →
  Forall Decision.time_ok l →
  list_find (λ p, Decision.matches ts p = true) (Policies (Decision.cfg (engine n))) = Some (i, p) →
  list_find (λ sp, IsEmpty (sp_trace_id sp) = false) l = Some (j, sp) →
  Gossip.broadcasts (gsp n) = Some q → marshal (Gossip.decisionMessage d) = Some data →
  Consume e (SigTrace ts) n = Ok (None, n') →
  node_inv n' ∧ gsp n' = Gossip.deliverDecision d (Gossip.set_broadcasts (Some (tq_queue data q)) (gsp n)).
Proof.
  intros l d Hn Hev Hbc Hok Hp Hsp Hq Hm Hc.
  destruct (inv_wal n Hn) as (w & Hw & _).
  destruct (Consume_run e (SigTrace ts) n w Hn Hw Hev) as (r & n1 & w' & Hr & Hn1 & _ & Hspec).
  rewrite Hc in Hr. injection Hr as <- <-. destruct Hspec as (_ & _ & [_ Hev'] & _). split; [done|].
  assert (Decision.first_trace l = trace_key (sp_trace_id sp)) as Hf by (unfold Decision.first_trace; by rewrite Hsp).
  rewrite Decision.EvaluateTrace_run, Hp in Hev' by done. fold l in Hev'. rewrite Hf, Hbc in Hev'.
  rewrite decide_False in Hev' by (intros [He|?]; [by apply Decision.encode_tid_nonempty in He|done]).
  cbn [broadcast_decision gossip_broadcaster] in Hev'. fold (batch_decision (env_now e) (Policy_Name p) (sp_trace_id sp) l) in Hev'.
  erewrite bind_ok in Hev' by by eapply Gossip.BroadcastDecision_run. by injection Hev' as <-.
Qed.

(** C2: a batch that matches a policy and that [Consume] accepts is sampled by the
    whole cluster. The decision is queued for broadcasting; the node itself and
    every node that receives the message, wherever the trace's other spans
    went, export the spans they have of the trace (or else its logs) and the
    metrics and logs of the event window when they handle the decision. They
    remove the window, and with the spans the whole entry of the trace; an
    entry with logs only stays, and so does everything else. So it is on a node
    whose indexed keys share no hash with another key of its cache. *)
Theorem cluster_sampling e ts n n' i p j sp :
  let l := spans (ts_Traces ts) in
  let tid := sp_trace_id sp in
  let d := batch_decision (env_now e) (Policy_Name p) tid l in
  node_inv n → event_ok (EvConsume e (SigTrace ts)) n → Decision.broadcaster (engine n) = true →
  Forall Decision.time_ok l → (Time.UnixNano (window_end d) < max_int64)%Z →
  list_find (λ p, Decision.matches ts p = true) (Policies (Decision.cfg (engine n))) = Some (i, p) →
  list_find (λ sp, IsEmpty (sp_trace_id sp) = false) l = Some (j, sp) →
  is_Some (marshal (Gossip.decisionMessage d)) →
  Consume e (SigTrace ts) n = Ok (None, n') →
  ∃ data q, Gossip.broadcasts (gsp n') = Some q ∧ data ∈ tq_view q
    ∧ (bm_distinct (buf n') → chan_buf (Gossip.decisionChan (gsp n)) = [] →
        ∀ e', ∃ n2, run_event (EvDecision e') n' = Ok (tt, n2) ∧ acts d tid n' n2)
    ∧ ∀ m e', node_inv m → bm_distinct (buf m) → chan_buf (Gossip.decisionChan (gsp m)) = [] →
        ∃ m1 m2, run_event (EvNotify data) m = Ok (tt, m1) ∧ run_event (EvDecision e') m1 = Ok (tt, m2) ∧ acts d tid m m2.
Proof.
  intros l tid d Hn Hev Hbc Hok Hend Hp Hsp [data Hm] Hc. destruct (proj1 (inv_gossip n Hn)) as [q Hq].
  destruct (Consume_decides e ts n n' i p j sp data q Hn Hev Hbc Hok Hp Hsp Hq Hm Hc) as [Hn' Hg].
  exists data, (tq_queue data q). split_and!.
  - by rewrite Hg.
  - rewrite tq_view_queue. apply list_elem_of_here.
  - intros Hd Hempty e'. set (n1 := set_gsp (Gossip.set_broadcasts (Some (tq_queue data q)) (gsp n)) n').
    assert (node_inv n1) as Hn1 by (apply set_gsp_inv; [done|apply Gossip.started_queue, Hn]).
    destruct (decisionTick_heard e' d tid n1 Hn1 Hd Hempty (parse_trace_key tid) Hend) as (n2 & Hr & Ha).
    exists n2. split; [|exact Ha]. cbn [run_event]. rewrite <- (set_gsp_id n'), Hg. exact Hr.
  - intros m e' Hinv Hd Hempty. destruct (decisionTick_heard e' d tid m Hinv Hd Hempty (parse_trace_key tid) Hend) as (m2 & Hr & Ha).
    exists (set_gsp (Gossip.deliverDecision d (gsp m)) m), m2. split; [|done].
    by apply onGossip_ok, Gossip.deliver_decision_message.
Qed.

(** ** The receiver *)

Context {G : Type}.

(** The three OTLP calls, and the signals they make. *)
Definition otlp_calls (e : Env) (t : Traces) (m : Metrics) (l : Logs) :
    list (Go (Receiver.Receiver (S := N) (G := G)) (option ConsumeError) * Signal) :=
  let ctx := MkContext (env_now e) "" in
  [(Receiver.traceExport e t, SigTrace (MkTraceSignal t ctx));
   (Receiver.metricExport e m, SigMetric (MkMetricSignal m ctx));
   (Receiver.logExport e l, SigLog (MkLogSignal l ctx))].

(** C25: every call of the three OTLP services is counted once and handed on with
    the time of its arrival; what is acknowledged is in the write-ahead log, as
    its last signal, exactly as it came. *)
Theorem acknowledged_is_logged e t m l call sig (r : Receiver.Receiver (S := N) (G := G)) w :
  (call, sig) ∈ otlp_calls e t m l →
  node_inv (Receiver.consumer r) → walLog (Receiver.consumer r) = Some w →
  event_ok (EvConsume e sig) (Receiver.consumer r) →
  ∃ res r' w', call r = Ok (res, r') ∧ node_inv (Receiver.consumer r')
    ∧ Receiver.telemetry r' = (add_SignalsReceived 1 <$> Receiver.telemetry r)
    ∧ walLog (Receiver.consumer r') = Some w'
    ∧ (res = None → Wal.replayed w' = Wal.replayed w ++ [sig]).
Proof.
  intros Hin Hn Hw Hev.
  assert (call r = Receiver.consume e sig (Receiver.MkReceiver (Receiver.cfg r) (Receiver.consumer r) (Receiver.grpcServer r)
      (Receiver.debug r) (add_SignalsReceived 1 <$> Receiver.telemetry r))
    ∧ without_source sig = sig) as [-> Hsig].
  { unfold otlp_calls in Hin. rewrite !elem_of_cons, elem_of_nil in Hin. by destruct Hin as [[= -> ->]|[[= -> ->]|[[= -> ->]|[]]]]. }
  destruct (Consume_run e sig (Receiver.consumer r) w Hn Hw Hev) as (res & n' & w' & Hr & Hn' & Hw' & Hspec).
  eexists res, _, w'. unfold Receiver.consume, zoom. cbn [Receiver.consumer]. unfold Receiver.Consume, main_consumer.
  rewrite Hr. split; [reflexivity|]. split; [done|]. split; [done|]. split; [done|]. intros ->.
  destruct Hspec as (_ & Hrep & _). by rewrite Hrep, Hsig.
Qed.
End MainTheorems.
