(* ===== verification/Lifecycle.v ===== *)
(** Function [main] (cmd/server/main.go): from the settings to the running
    service and to its end - what is opened, in which order it is closed again,
    and what an error on the way leaves open. *)
From S2P Require Import Prelude GoStd PData Signals Config Cache Buffer BufferSpec BufferTheorems Manager.
From S2P Require Import Grouping Rollup RollupTheorems Discovery Gossip Decision Wal Telemetry Processor ProcessorTheorems Receiver Main.
Import Main.

Module Lifecycle.

(** ** Settings *)

(** The defaults, then the file if it can be read - a parser may have changed
    some settings before it fails - then the two environment variables. *)
Definition set_Endpoint (ep : string) (c : Config.Config) : Config.Config :=
  Config.MkConfig (Config.Debug c) (Config.Receiver c) (Config.Buffer c) (Config.Discovery c) (Config.Gossip c)
    (Config.Decision c) (Config.Rollup c) (MkExporterConfig ep (Insecure (Config.Exporter c))).
Definition set_Host (host : string) (c : Config.Config) : Config.Config :=
  Config.MkConfig (Config.Debug c)
    (MkReceiverConfig (GRPCPort (Config.Receiver c)) (HTTPPort (Config.Receiver c)) host)
    (Config.Buffer c) (Config.Discovery c) (Config.Gossip c) (Config.Decision c) (Config.Rollup c) (Config.Exporter c).

Definition loadConfig (yaml_Unmarshal : bytes → Config.Config → Config.Config * bool) (file : option bytes)
    (EXPORTER_ENDPOINT RECEIVER_HOST : string) : Config.Config :=
  let c := Config.DefaultConfig in
  let c := match file with Some data => (yaml_Unmarshal data c).1 | None => c end in
  let c := if decide (EXPORTER_ENDPOINT = "") then c else set_Endpoint EXPORTER_ENDPOINT c in
  if decide (RECEIVER_HOST = "") then c else set_Host RECEIVER_HOST c.

(** ** [main] as a program with deferred calls *)

(** The calls that [main] defers. *)
Inductive Deferred := DCancel | DTelemetry | DWal | DExporter | DBuffer | DGossip | DReceiver.

#[export] Instance Deferred_eq_dec : EqDecision Deferred.
Proof. solve_decision. Defined.

(** How the process ends. *)
Inductive Exit := Returned | FatalExit | Panicked | Hung.

Section Lifecycle.
Context {B L Q F NC G : Type} `{BM : !BufferManager B} `{PD : !PData}.
Context `{ML : !Memberlist L} `{TQ : !TransmitQueue Q} `{TS : Timestamps} `{CG : !Codec GossipMessage}.
Context `{WF : !WalFile F} `{CW : !Codec WALRecord} `{CT : !Codec Traces} `{CM : !Codec Metrics} `{CL : !Codec Logs}.
Context `{OC : !OTLPClient NC} `{GC : !GrpcConn NC} `{GS : !GrpcServer G} `{OT : OtelSdk}.

Abbreviation X := (OTLP.OTLPExporter NC).
Abbreviation N := (Node B X L Q F).
Abbreviation Rcv := (Receiver.Receiver (S := N) (G := G)).

(** What [main] has open. [closed] lists the deferred calls that have run, in order. *)
Record World := MkWorld {
  cancelled : bool;
  telemetry : option (Telemetry * Provider);
  wal : option (Wal.Log F);
  exporter : option X;
  buffer : option B;
  gossip : option (Gossip.Manager L Q);
  server : option G;
  closed : list Deferred }.

Definition start_world : World := MkWorld false None None None None None None [].

Definition set_telemetry t w := MkWorld (cancelled w) t (wal w) (exporter w) (buffer w) (gossip w) (server w) (closed w).
Definition set_wal x w := MkWorld (cancelled w) (telemetry w) x (exporter w) (buffer w) (gossip w) (server w) (closed w).
Definition set_exporter x w := MkWorld (cancelled w) (telemetry w) (wal w) x (buffer w) (gossip w) (server w) (closed w).
Definition set_buffer x w := MkWorld (cancelled w) (telemetry w) (wal w) (exporter w) x (gossip w) (server w) (closed w).
Definition set_gossip x w := MkWorld (cancelled w) (telemetry w) (wal w) (exporter w) (buffer w) x (server w) (closed w).
Definition set_server x w := MkWorld (cancelled w) (telemetry w) (wal w) (exporter w) (buffer w) (gossip w) x (closed w).

(** A step of [main]: it goes on with its stack of deferred calls, ends the
    process by [log.Fatalf], which runs none of them, or panics, which runs them
    all; a panic of another goroutine also ends the process at once. *)
Inductive Step (A : Type) :=
| Go_on (a : A) (w : World) (ds : list Deferred)
| Fatalf (w : World)
| Main_panics (w : World) (ds : list Deferred)
| Goroutine_panics (w : World)
| Blocks (w : World).
Arguments Go_on {A} _ _ _.
Arguments Fatalf {A} _.
Arguments Main_panics {A} _ _.
Arguments Goroutine_panics {A} _.
Arguments Blocks {A} _.

Definition Prog (A : Type) := World → list Deferred → Step A.

Definition bind {A A'} (m : Prog A) (k : A → Prog A') : Prog A' := λ w ds,
  match m w ds with
  | Go_on a w ds => k a w ds
  | Fatalf w => Fatalf w
  | Main_panics w ds => Main_panics w ds
  | Goroutine_panics w => Goroutine_panics w
  | Blocks w => Blocks w
  end.

Definition defer (d : Deferred) : Prog unit := λ w ds, Go_on tt w (d :: ds).
Definition update (f : World → World) : Prog unit := λ w ds, Go_on tt (f w) ds.

(** *** The components, in the order of [main] *)

Definition startTelemetry (cfg : Config.Config) : Prog unit := λ w ds,
  match Telemetry.Init (Config.Exporter cfg) with
  | None => Go_on tt w ds
  | Some tp => Go_on tt (set_telemetry (Some tp) w) (DTelemetry :: ds)
  end.

Definition openWal : Prog (Wal.Log F) := λ w ds,
  match Wal.Open "./data/wal" with
  | None => Fatalf w
  | Some l => Go_on l (set_wal (Some l) w) (DWal :: ds)
  end.

Definition openExporter (cfg : Config.Config) : Prog X := λ w ds,
  match OTLP.New (Config.Exporter cfg) with
  | None => Fatalf w
  | Some x => Go_on x (set_exporter (Some x) w) (DExporter :: ds)
  end.

(** [newBuffer] is the constructor of the buffer; [None] is its panic. *)
Definition openBuffer (newBuffer : BufferConfig → bool → option B) (cfg : Config.Config) : Prog B := λ w ds,
  match newBuffer (Config.Buffer cfg) (Config.Debug cfg) with
  | None => Main_panics w ds
  | Some b =>
      match bm_Start b with
      | Ok (_, b) => Go_on b (set_buffer (Some b) w) (DBuffer :: ds)
      | Panic => Main_panics w ds
      | Deadlock => Blocks w
      end
  end.

Definition replay (envs : nat → Env) (l : Wal.Log F) (b : B) : Prog (Wal.Log F * B) := λ w ds,
  match replayWal envs (l, (0, b)) with
  | Ok (_, (l, (_, b))) => Go_on (l, b) (set_buffer (Some b) (set_wal (Some l) w)) ds
  | Panic => Main_panics w ds
  | Deadlock => Blocks w
  end.

Definition startGossip (defaultResolver : Resolver) (cfg : Config.Config) : Prog (Gossip.Manager L Q) := λ w ds,
  match Discovery.New defaultResolver (Config.Discovery cfg) with
  | inl _ => Fatalf w
  | inr disc =>
      match Gossip.Start (Gossip.New (Config.Gossip cfg) disc (Config.Debug cfg)) with
      | Ok (None, g) => Go_on g (set_gossip (Some g) w) (DGossip :: ds)
      | Ok (Some _, _) => Fatalf w
      | Panic => Goroutine_panics w
      | Deadlock => Blocks w
      end
  end.

Definition registerGauges : Prog (option Telemetry) := λ w ds,
  match telemetry w with
  | None => Go_on None w ds
  | Some tp =>
      let tp := Telemetry.RegisterGossipGauge (Telemetry.RegisterBufferGauge tp) in
      Go_on (Some tp.1) (set_telemetry (Some tp) w) ds
  end.

(** What the gauges observe. *)
Definition observeBuffer : Go N Z := c ← onProc (Processor.onBuffer bm_GetTraceCount); mret (wrap64 (Z.of_nat c)).
Definition observePeers : Go N Z := l ← onGossip Gossip.Members; mret (wrap64 (Z.of_nat (length l))).

Definition startReceiver (cfg : Config.Config) (tel : option Telemetry) (n : N) : Prog unit := λ w ds,
  match Receiver.Start (Receiver.New (Config.Receiver cfg) n (Config.Debug cfg) tel : Rcv) with
  | Ok (None, r) => Go_on tt (set_server (Receiver.grpcServer r) w) (DReceiver :: ds)
  | Ok (Some _, _) => Fatalf w
  | Panic => Main_panics w ds
  | Deadlock => Blocks w
  end.

(** The service runs until a signal of the operating system: the events of the
    node, in some order. A panic in one of them ends the process. *)
Fixpoint run_events (evs : list NodeEvent) : Go N unit :=
  match evs with [] => mret tt | ev :: evs' => _ ← run_event ev; run_events evs' end.

Definition serve (evs : list NodeEvent) (n : N) : Prog unit := λ w ds,
  match run_events evs n with
  | Ok (_, n) =>
      Go_on tt (set_wal (walLog n) (set_exporter (Some (Processor.exporter (proc n)))
        (set_buffer (Some (Processor.buffer (proc n))) (set_gossip (Some (gsp n)) w)))) ds
  | Panic => Goroutine_panics w
  | Deadlock => Blocks w
  end.

Definition main (newBuffer : BufferConfig → bool → option B) (envs : nat → Env) (defaultResolver : Resolver)
    (cfg : Config.Config) (evs : list NodeEvent) : Prog unit :=
  bind (defer DCancel) (λ _,
  bind (startTelemetry cfg) (λ _,
  bind openWal (λ l,
  bind (openExporter cfg) (λ x,
  bind (openBuffer newBuffer cfg) (λ b,
  bind (replay envs l b) (λ '(l, b),
  bind (startGossip defaultResolver cfg) (λ g,
  bind registerGauges (λ tel,
  let n := MkNode cfg (Processor.New b (Rollup.New (Config.Rollup cfg)) x (Config.Debug cfg) tel) g
    (Decision.New (Config.Decision cfg) true (Config.Debug cfg)) (Some l) false in
  bind (startReceiver cfg tel n) (λ _,
  serve evs n))))))))).

(** *** The deferred calls *)

(** A call on something that is open. *)
Definition on {A} (get : World → option A) (set : option A → World → World) (m : Go A unit) : Go World unit := λ w,
  match get w with
  | None => Ok (tt, w)
  | Some a => match m a with Ok (_, a) => Ok (tt, set (Some a) w) | Panic => Panic | Deadlock => Deadlock end
  end.

Definition deferred (d : Deferred) : Go World unit :=
  match d with
  | DCancel => modifyS (λ w, MkWorld true (telemetry w) (wal w) (exporter w) (buffer w) (gossip w) (server w) (closed w))
  | DTelemetry => on telemetry set_telemetry (modifyS (λ tp, (tp.1, provider_Shutdown tp.2)))
  | DWal => on wal set_wal Wal.Close
  | DExporter => on exporter set_exporter OTLP.Stop
  | DBuffer => on buffer set_buffer bm_Stop
  | DGossip => on gossip set_gossip Gossip.Stop
  | DReceiver => on server set_server (modifyS GracefulStop)
  end.

Definition note (d : Deferred) (w : World) : World :=
  MkWorld (cancelled w) (telemetry w) (wal w) (exporter w) (buffer w) (gossip w) (server w) (closed w ++ [d]).

(** The last call that was deferred runs first, and a panic in one of them does
    not keep the others from running. *)
Fixpoint run_deferred (ds : list Deferred) (x : Exit) (w : World) : Exit * World :=
  match ds with
  | [] => (x, w)
  | d :: ds' =>
      match deferred d w with
      | Ok (_, w) => run_deferred ds' x (note d w)
      | Panic => run_deferred ds' Panicked (note d w)
      | Deadlock => (Hung, w)
      end
  end.

(** The whole process. *)
Definition process newBuffer envs defaultResolver cfg evs : Exit * World :=
  match main newBuffer envs defaultResolver cfg evs start_world [] with
  | Go_on _ w ds => run_deferred ds Returned w
  | Fatalf w => (FatalExit, w)
  | Main_panics w ds => run_deferred ds Panicked w
  | Goroutine_panics w => (Panicked, w)
  | Blocks w => (Hung, w)
  end.

(** ** Properties *)

Definition present {A} (o : option A) : bool := match o with Some _ => true | None => false end.

(** The deferred calls that close what is open, last opened first. *)
Definition opened (w : World) : list Deferred :=
  (if present (server w) then [DReceiver] else []) ++ (if present (gossip w) then [DGossip] else [])
  ++ (if present (buffer w) then [DBuffer] else []) ++ (if present (exporter w) then [DExporter] else [])
  ++ (if present (wal w) then [DWal] else []) ++ (if present (telemetry w) then [DTelemetry] else []) ++ [DCancel].

Lemma on_keeps {A} (get : World → option A) set (m : Go A unit) w w' :
  (∀ a a' w, get w = Some a → let w' := set (Some a') w in closed w' = closed w ∧ cancelled w' = cancelled w ∧ opened w' = opened w) →
  on get set m w = Ok (tt, w') → closed w' = closed w ∧ cancelled w' = cancelled w ∧ opened w' = opened w.
Proof.
  intros Hset H. unfold on in H. destruct (get w) as [a|] eqn:Eg; [|by injection H as <-].
  destruct (m a) as [[[] a']| |]; [|done..]. injection H as <-. by eapply Hset.
Qed.

Lemma deferred_keeps d w w' :
  deferred d w = Ok (tt, w') →
  closed w' = closed w ∧ cancelled w' = bool_decide (d = DCancel) || cancelled w ∧ opened w' = opened w.
Proof.
  destruct d; cbn [deferred]; intros H; [by injection H as <-|..].
  all: eapply on_keeps in H as (? & ? & ?); [by split_and!|].
  all: intros a a' w0 Hg; split; [done|split; [done|]]; unfold opened; cbn; by rewrite Hg.
Qed.

(** All the deferred calls run, one after the other, or one of them blocks. *)
Lemma run_deferred_closed ds x w :
  let '(x', w') := run_deferred ds x w in
  opened w' = opened w ∧
  ((x' = x ∨ x' = Panicked) ∧ closed w' = closed w ++ ds ∧ cancelled w' = bool_decide (DCancel ∈ ds) || cancelled w
   ∨ x' = Hung ∧ ∃ d l, closed w ++ ds = closed w' ++ d :: l ∧ deferred d w' = Deadlock).
Proof.
  assert (∀ d ds (b : bool), bool_decide (DCancel ∈ ds) || (bool_decide (d = DCancel) || b) = bool_decide (DCancel ∈ d :: ds) || b) as Hcan.
  { intros d ds' b. rewrite orb_assoc. f_equal. apply eq_true_iff_eq. rewrite orb_true_iff, !bool_decide_eq_true, elem_of_cons.
    split; [intros [?|?]; [by right|by left]|intros [?|?]; [by right|by left]]. }
  revert x w. induction ds as [|d ds IH]; intros x w; cbn [run_deferred].
  - split; [done|]. left. rewrite app_nil_r. split_and!; [by left|done|by rewrite bool_decide_eq_false_2 by apply not_elem_of_nil].
  - destruct (deferred d w) as [[[] w1]| |] eqn:Ed; [| |split; [done|right; split; [done|by exists d, ds]]].
    + apply deferred_keeps in Ed as (Hc1 & Hx1 & Ho1). specialize (IH x (note d w1)).
      destruct (run_deferred ds x (note d w1)) as [x' w']. cbn [closed cancelled note] in IH.
      change (opened (note d w1)) with (opened w1) in IH. rewrite Hc1, Hx1, Ho1, <- app_assoc, Hcan in IH. exact IH.
    + specialize (IH Panicked (note d w)). destruct (run_deferred ds Panicked (note d w)) as [x' w'].
      cbn [closed cancelled note] in IH. change (opened (note d w)) with (opened w) in IH. rewrite <- app_assoc in IH.
      destruct IH as [Ho [([->| ->] & Hc & Hx)|H]]; (split; [done|]); [left|left|by right].
      all: assert (d ≠ DCancel) as Hd by (by intros ->).
      all: split_and!; [by right|done|]; rewrite Hx, <- Hcan; by rewrite (bool_decide_eq_false_2 (d = DCancel)).
Qed.

(** No event takes the log away. *)
Lemma keeps_walLog_event ev : keeps (λ n : N, is_Some (walLog n)) (run_event ev).
Proof.
  assert (∀ A (m : Go (Processor.Processor B X) A), keeps (λ n : N, is_Some (walLog n)) (onProc m)) as Hp.
  { intros A m n r n' Hn. unfold onProc, zoom. destruct (m (proc n)) as [[a p]| |]; [|done..]. by intros [= <- <-]. }
  assert (∀ A (m : Go (Gossip.Manager L Q) A), keeps (λ n : N, is_Some (walLog n)) (onGossip m)) as Hg.
  { intros A m n r n' Hn. unfold onGossip, zoom. destruct (m (gsp n)) as [[a g]| |]; [|done..]. by intros [= <- <-]. }
  assert (∀ sig, keeps (λ n : N, is_Some (walLog n)) (writeWal sig)) as Hw.
  { intros sig. apply keeps_bind_getS. intros n Hn. destruct (walLog n) as [w|]; [|auto with sampler].
    destruct (Wal.Write sig w) as [[r w']| |]; [|auto with sampler..].
    apply keeps_bind; [by apply keeps_put; eexists|auto with sampler]. }
  assert (∀ b, keeps (λ n : N, is_Some (walLog n)) (modifyS (set_highLoadActive b))) as Hm by (intros b; by apply keeps_modify).
  destruct ev; cbn [run_event]; auto with sampler.
  - apply keeps_bind; [|auto with sampler]. unfold Consume. apply keeps_bind; [apply Hw|]. intros [err|]; [auto with sampler|].
    apply keeps_bind; [apply Hp|]. intros [err|]; [auto with sampler|]. apply keeps_bind; [auto with sampler|]. intros n.
    apply keeps_bind; [|auto with sampler]. destruct sig; [apply Hg|auto with sampler..].
  - unfold decisionTick. apply keeps_bind; [done|]. intros [d|]; auto with sampler.
  - unfold triggerTick. apply keeps_bind; [done|]. intros [d|]; auto with sampler.
  - unfold loadTick. apply keeps_bind; [apply Hp|]. intros c. apply keeps_bind; [auto with sampler|]. intros n.
    repeat case_match; [apply keeps_bind; [apply Hg|by intros _; apply Hm].. |auto with sampler].
  - apply keeps_bind_getS. intros n Hn. destruct (walLog n) as [w|]; [|auto with sampler].
    destruct (Wal.TruncateBefore _ w) as [[r w']| |]; [|auto with sampler..]. by apply keeps_put; eexists.
Qed.

Lemma keeps_walLog_events evs : keeps (λ n : N, is_Some (walLog n)) (run_events evs).
Proof.
  induction evs as [|ev evs IH]; cbn [run_events]; auto with sampler. apply keeps_bind; [apply keeps_walLog_event|done].
Qed.

Lemma Receiver_Start_server (r r' : Rcv) : Receiver.Start r = Ok (None, r') → present (Receiver.grpcServer r') = true.
Proof. unfold Receiver.Start. erewrite bind_ok by done. destruct (net_Listen _); [|done]. cbn. by intros [= <-]. Qed.

(** Everything that [main] defers, last first. *)
Definition all_deferred (cfg : Config.Config) : list Deferred :=
  [DReceiver; DGossip; DBuffer; DExporter; DWal]
  ++ (match Telemetry.Init (Config.Exporter cfg) with Some _ => [DTelemetry] | None => [] end) ++ [DCancel].

Definition untouched (w : World) : Prop := closed w = [] ∧ cancelled w = false.

(** [n] of the five components after the telemetry are open. *)
Definition at_stage (tel : bool) (n : nat) (w : World) : Prop :=
  untouched w ∧ present (telemetry w) = tel ∧ present (wal w) = (0 <? n) ∧ present (exporter w) = (1 <? n)
  ∧ present (buffer w) = (2 <? n) ∧ present (gossip w) = (3 <? n) ∧ present (server w) = (4 <? n).

(** A step of [main] that has closed nothing, with the stack of deferred calls that
    closes what is open. *)
Definition stacked {A} (tel : bool) (n : nat) (st : Step A) : Prop :=
  match st with
  | Go_on _ w ds => at_stage tel n w ∧ ds = opened w
  | Main_panics w ds => untouched w ∧ ds = opened w
  | Fatalf w | Goroutine_panics w | Blocks w => untouched w
  end.

Lemma bind_stacked {A A'} tel tel' n n' (m : Prog A) (k : A → Prog A') w ds :
  stacked tel n (m w ds) → (∀ a w, at_stage tel n w → stacked tel' n' (k a w (opened w))) → stacked tel' n' (bind m k w ds).
Proof.
  intros Hm Hk. unfold bind. destruct (m w ds) as [a w1 ds1|w1|w1 ds1|w1|w1]; cbn in Hm; try done.
  destruct Hm as [Hw ->]. by apply Hk.
Qed.

Ltac stage :=
  unfold at_stage, untouched, opened in *; destruct_and?; cbn in *; split_and?; try done;
  repeat match goal with H : present _ = _ |- _ => rewrite H end; done.

Lemma serve_stacked tel evs (n : N) w :
  is_Some (walLog n) → at_stage tel 5 w → stacked tel 5 (serve evs n w (opened w)).
Proof.
  intros Hn Hw. unfold serve. destruct (run_events evs n) as [[[] n']| |] eqn:E; [|apply Hw..].
  destruct (keeps_walLog_events evs n tt n' Hn E) as [l Hl]. rewrite Hl. split; stage.
Qed.

Lemma main_stacked newBuffer envs resolver cfg evs :
  stacked (present (Telemetry.Init (Config.Exporter cfg))) 5 (main newBuffer envs resolver cfg evs start_world []).
Proof.
  set (tel := present (Telemetry.Init (Config.Exporter cfg))).
  unfold main. apply (bind_stacked false _ 0); [by split|]. intros _ w Hw.
  apply (bind_stacked tel _ 0); [|clear w Hw; intros _ w Hw].
  { unfold startTelemetry, tel. destruct (Telemetry.Init _); split; stage. }
  apply (bind_stacked tel _ 1); [|clear w Hw; intros l w Hw].
  { unfold openWal. destruct (Wal.Open _); [split; stage|apply Hw]. }
  apply (bind_stacked tel _ 2); [|clear w Hw; intros x w Hw].
  { unfold openExporter. destruct (OTLP.New _); [split; stage|apply Hw]. }
  apply (bind_stacked tel _ 3); [|clear w Hw; intros b w Hw].
  { unfold openBuffer. destruct (newBuffer _ _) as [b|]; [|by split; [apply Hw|]].
    destruct (bm_Start b) as [[[] b']| |]; [split; stage|by split; [apply Hw|]|apply Hw]. }
  apply (bind_stacked tel _ 3); [|clear w Hw; intros [l' b'] w Hw].
  { unfold replay. destruct (replayWal _ _) as [[r [l' [i b']]]| |]; [split; stage|by split; [apply Hw|]|apply Hw]. }
  apply (bind_stacked tel _ 4); [|clear w Hw; intros g w Hw].
  { unfold startGossip. destruct (Discovery.New _ _) as [|disc]; [apply Hw|].
    destruct (Gossip.Start _) as [[[err|] g]| |]; [apply Hw|split; stage|apply Hw..]. }
  apply (bind_stacked tel _ 4); [|clear w Hw; intros t w Hw].
  { unfold registerGauges. destruct (telemetry w) as [tp|] eqn:E; [|by split].
    split; [unfold at_stage in *; by rewrite E in Hw|]. unfold opened. cbn. by rewrite E. }
  apply (bind_stacked tel _ 5); [|clear w Hw; intros _ w Hw; by apply serve_stacked].
  unfold startReceiver. destruct (Receiver.Start _) as [[[err|] r]| |] eqn:Er; [apply Hw| |by split; [apply Hw|]|apply Hw].
  pose proof (Receiver_Start_server _ _ Er) as Hr. split; stage.
Qed.

Lemma opened_all cfg w :
  at_stage (present (Telemetry.Init (Config.Exporter cfg))) 5 w → opened w = all_deferred cfg.
Proof.
  unfold opened, all_deferred. intros (_ & -> & -> & -> & -> & -> & ->). by destruct (Telemetry.Init _).
Qed.

(** C11: [main] closes what it opened in the reverse order, and only then. When the
    service ends by a signal, everything is closed: the receiver first, then
    gossip, the buffer, the exporter, the log, the telemetry if there is one,
    and at last the context that stops the loops. A fatal error closes nothing
    at all, whatever was open. A panic of [main] or of a deferred call closes
    exactly what is open, in the same order, and a panic of another goroutine
    closes nothing. Otherwise the process hangs: in [main], or in the deferred
    call whose turn it is. *)
Theorem process_exits newBuffer envs resolver cfg evs :
  let last := main newBuffer envs resolver cfg evs start_world [] in
  let '(x, w) := process newBuffer envs resolver cfg evs in
  match x with
  | Returned => closed w = opened w ∧ opened w = all_deferred cfg ∧ cancelled w = true
  | FatalExit => last = Fatalf w ∧ closed w = [] ∧ cancelled w = false
  | Panicked =>
      closed w = opened w ∧ cancelled w = true
      ∨ last = Goroutine_panics w ∧ closed w = [] ∧ cancelled w = false
  | Hung =>
      last = Blocks w ∧ closed w = [] ∧ cancelled w = false
      ∨ ∃ d l, opened w = closed w ++ d :: l ∧ deferred d w = Deadlock
  end.
Proof.
  pose proof (main_stacked newBuffer envs resolver cfg evs) as Hst. unfold process. cbv zeta.
  assert (∀ w, bool_decide (DCancel ∈ opened w) = true) as Hin.
  { intros w. apply bool_decide_eq_true. unfold opened. rewrite !elem_of_app. do 6 right. apply list_elem_of_here. }
  destruct (main newBuffer envs resolver cfg evs start_world []) as [[] w ds|w|w ds|w|w]; cbn in Hst.
  - destruct Hst as [Hw ->]. pose proof (opened_all cfg w Hw) as Hall. destruct Hw as [[Hc Hx] _].
    pose proof (run_deferred_closed (opened w) Returned w) as H. rewrite Hc, Hin in H.
    destruct (run_deferred _ Returned w) as [x' w']. destruct H as [Ho [([->| ->] & Hcl & Hcan)|(-> & d & l & Hd & Hdl)]].
    + by rewrite Ho.
    + left. by rewrite Ho.
    + right. exists d, l. by rewrite Ho.
  - by split.
  - destruct Hst as [[Hc Hx] ->]. pose proof (run_deferred_closed (opened w) Panicked w) as H. rewrite Hc, Hin in H.
    destruct (run_deferred _ Panicked w) as [x' w']. destruct H as [Ho [([->| ->] & Hcl & Hcan)|(-> & d & l & Hd & Hdl)]].
    + left. by rewrite Ho.
    + left. by rewrite Ho.
    + right. exists d, l. by rewrite Ho.
  - right. by split.
  - left. by split.
Qed.

(** *** A service that starts, runs and is stopped *)
Context `{BV : !BufferView B} `{BL : !BufferManagerLaws B}.

(** The telemetry that the processor and the receiver get. *)
Definition registered (cfg : Config.Config) : option Telemetry :=
  (λ tp, (Telemetry.RegisterGossipGauge (Telemetry.RegisterBufferGauge tp)).1) <$> Telemetry.Init (Config.Exporter cfg).

Definition listening (cfg : Config.Config) (lis : Listener (G := G)) : G :=
  Serve lis (RegisterGRPCServer LogService (RegisterGRPCServer MetricService (RegisterGRPCServer TraceService grpc_NewServer))).

(** The stack of [main] before it opens the log. *)
Definition bottom (cfg : Config.Config) : list Deferred :=
  match Telemetry.Init (Config.Exporter cfg) with Some _ => [DTelemetry] | None => [] end ++ [DCancel].

Lemma startTelemetry_run cfg w ds :
  startTelemetry cfg w ds =
    Go_on tt (match Telemetry.Init (Config.Exporter cfg) with Some tp => set_telemetry (Some tp) w | None => w end)
      (match Telemetry.Init (Config.Exporter cfg) with Some _ => [DTelemetry] | None => [] end ++ ds).
Proof. unfold startTelemetry. by destruct (Telemetry.Init _). Qed.

Lemma Receiver_Start_run cfg tel (n : N) lis :
  net_Listen (Receiver.address (Config.Receiver cfg)) = Some lis →
  Receiver.Start (Receiver.New (Config.Receiver cfg) n (Config.Debug cfg) tel : Rcv)
  = Ok (None, Receiver.set_grpcServer (Some (listening cfg lis)) (Receiver.New (Config.Receiver cfg) n (Config.Debug cfg) tel)).
Proof. intros Hl. unfold Receiver.Start. erewrite bind_ok by done. cbn [Receiver.cfg Receiver.New]. by rewrite Hl. Qed.

(** [main] builds the node of [boot] and hands it to its loops. *)
Lemma main_boots newBuffer envs resolver cfg evs x b n0 n lis :
  OTLP.New (Config.Exporter cfg) = Some x → newBuffer (Config.Buffer cfg) (Config.Debug cfg) = Some b →
  boot envs resolver cfg (registered cfg) (Some x) (Some b) = Ok (Some n0) →
  net_Listen (Receiver.address (Config.Receiver cfg)) = Some lis → run_events evs n0 = Ok (tt, n) →
  ∃ w, main newBuffer envs resolver cfg evs start_world [] = Go_on tt w (all_deferred cfg)
    ∧ closed w = [] ∧ wal w = walLog n ∧ exporter w = Some (Processor.exporter (proc n))
    ∧ buffer w = Some (Processor.buffer (proc n)) ∧ gossip w = Some (gsp n) ∧ server w = Some (listening cfg lis).
Proof.
  intros Hx Hb Hboot Hlis Hrun. unfold boot in Hboot. unfold main, bind. cbn [defer]. rewrite startTelemetry_run.
  fold (bottom cfg). set (w0 := match Telemetry.Init (Config.Exporter cfg) with Some _ => _ | None => _ end).
  change (all_deferred cfg) with ([DReceiver; DGossip; DBuffer; DExporter; DWal] ++ bottom cfg).
  assert (closed w0 = []) as Hc0 by (unfold w0; by destruct (Telemetry.Init _)).
  assert (telemetry w0 = Telemetry.Init (Config.Exporter cfg)) as Ht0 by (unfold w0; by destruct (Telemetry.Init _)).
  unfold openWal, openExporter, openBuffer, replay, startGossip, registerGauges. rewrite Hx, Hb.
  destruct (Wal.Open "./data/wal") as [l|]; [|done].
  destruct (bm_Start b) as [[[] b1]| |]; [|done..]. cbn -[replayWal Discovery.New Gossip.Start] in Hboot.
  destruct (replayWal envs (l, (0, b1))) as [[r [l1 [k b2]]]| |]; [|done..]. cbn -[Discovery.New Gossip.Start] in Hboot.
  destruct (Discovery.New resolver (Config.Discovery cfg)) as [|disc]; [done|].
  destruct (Gossip.Start _) as [[[err|] g]| |]; [done| |done..]. cbn in Hboot. injection Hboot as Hn0.
  cbn [telemetry set_gossip set_buffer set_wal set_exporter]. rewrite Ht0.
  assert (∀ tel w ds, tel = registered cfg → closed w = [] →
    ∃ w', bind (startReceiver cfg tel n0) (λ _, serve evs n0) w ds = Go_on tt w' (DReceiver :: ds)
      ∧ closed w' = [] ∧ wal w' = walLog n ∧ exporter w' = Some (Processor.exporter (proc n))
      ∧ buffer w' = Some (Processor.buffer (proc n)) ∧ gossip w' = Some (gsp n) ∧ server w' = Some (listening cfg lis)) as Hgo.
  { intros tel w ds -> Hc. unfold bind, startReceiver. rewrite (Receiver_Start_run _ _ _ lis) by done.
    unfold serve. rewrite Hrun. eexists. split; [done|]. by split_and!. }
  rewrite <- Hn0 in Hgo. unfold registered in Hgo. unfold bind in Hgo.
  destruct (Telemetry.Init (Config.Exporter cfg)) as [tp|] eqn:Et.
  - by apply Hgo.
  - by apply Hgo.
Qed.

Lemma on_ok {A} (get : World → option A) set (m : Go A unit) w a a' :
  get w = Some a → m a = Ok (tt, a') → on get set m w = Ok (tt, set (Some a') w).
Proof. intros Hg Hm. unfold on. by rewrite Hg, Hm. Qed.

Lemma deferred_next d ds x w w1 :
  deferred d w = Ok (tt, w1) → run_deferred (d :: ds) x w = run_deferred ds x (note d w1).
Proof. intros H. cbn [run_deferred]. by rewrite H. Qed.

(** C23: a service that starts, runs and is stopped by a signal ends well, whatever it
    did in between: the node that [main] serves is the one that [boot] builds,
    the process returns after everything is closed, and the log that is closed
    is the log of the node's last moment. *)
Theorem clean_shutdown newBuffer envs resolver cfg evs x b n0 n lis l :
  OTLP.New (Config.Exporter cfg) = Some x → newBuffer (Config.Buffer cfg) (Config.Debug cfg) = Some b →
  boot envs resolver cfg (registered cfg) (Some x) (Some b) = Ok (Some n0) →
  net_Listen (Receiver.address (Config.Receiver cfg)) = Some lis →
  run_events evs n0 = Ok (tt, n) → walLog n = Some l → Wal.mu l = Unlocked →
  ∃ w, process newBuffer envs resolver cfg evs = (Returned, w) ∧ closed w = all_deferred cfg ∧ cancelled w = true
    ∧ wal w = Some (Wal.set_log (wl_Close (Wal.log l)) l)
    ∧ server w = Some (GracefulStop (listening cfg lis))
    ∧ (∃ g, Gossip.Stop (gsp n) = Ok (tt, g) ∧ gossip w = Some g)
    ∧ (∃ b', bm_Stop (Processor.buffer (proc n)) = Ok (tt, b') ∧ buffer w = Some b')
    ∧ exporter w = Some (OTLP.MkExporter (OTLP.cfg (Processor.exporter (proc n))) (conn_Close (OTLP.conn (Processor.exporter (proc n))))).
Proof.
  intros Hx Hb Hboot Hlis Hrun Hl Hmu.
  destruct (main_boots newBuffer envs resolver cfg evs x b n0 n lis Hx Hb Hboot Hlis Hrun)
    as (w & Hmain & Hc & Hw & He & Hbuf & Hg & Hs).
  destruct (bm_stop (Processor.buffer (proc n))) as [b' Hb'].
  assert (Wal.Close l = Ok (tt, Wal.set_log (wl_Close (Wal.log l)) l)) as Hclose.
  { unfold Wal.Close. destruct l as [m f path]. cbn in Hmu. by subst m. }
  rewrite Hl in Hw. unfold process. rewrite Hmain. unfold all_deferred. cbn [app].
  set (g := match Gossip.mlist (gsp n) with Some m => Gossip.set_mlist (Some (ml_leave m)) (gsp n) | None => gsp n end).
  assert (Gossip.Stop (gsp n) = Ok (tt, g)) as Hgs by done.
  erewrite (deferred_next DReceiver) by by eapply on_ok.
  erewrite (deferred_next DGossip) by by eapply on_ok.
  erewrite (deferred_next DBuffer) by by eapply on_ok.
  erewrite (deferred_next DExporter) by by eapply on_ok.
  erewrite (deferred_next DWal) by by eapply on_ok.
  destruct (Telemetry.Init (Config.Exporter cfg)) as [tp|]; cbn [app].
  - set (w5 := note DWal _). assert (∃ tp', deferred DTelemetry w5 = Ok (tt, set_telemetry tp' w5)) as [tp' Ht].
    { cbn [deferred]. unfold on. destruct (telemetry w5) as [tp'|] eqn:E; [by eexists|]. exists None. by rewrite <- E. }
    erewrite (deferred_next DTelemetry) by exact Ht. erewrite (deferred_next DCancel) by done.
    eexists. split; [reflexivity|]. cbn. rewrite Hc. split_and!; eauto.
  - erewrite (deferred_next DCancel) by done.
    eexists. split; [reflexivity|]. cbn. rewrite Hc. split_and!; eauto.
Qed.
End Lifecycle.
End Lifecycle.
