(* ===== verification/Cluster.v ===== *)
(** A cluster: nodes that run side by side and a network between them.

    A message that a node hands to memberlist may reach any node, any number of
    times, in any order, or never. What comes out of the channels of a node was
    put there for a reason, whatever the network does. *)
From S2P Require Import Prelude GoStd PData Signals Config Cache Buffer BufferSpec BufferTheorems Manager.
From S2P Require Import Grouping Rollup RollupTheorems Discovery Gossip Decision Wal Telemetry Processor ProcessorTheorems Receiver Main MainTheorems.
Import Main.

Section Cluster.
Context {B X L Q F : Type}.
Context `{BM : !BufferManager B} `{EX : !Exporter X} `{PD : !PData}.
Context `{ML : !Memberlist L} `{TQ : !TransmitQueue Q} `{TQL : !TransmitQueueLaws Q}.
Context `{TS : Timestamps} `{TSL : !TimestampsLaws} `{CG : !Codec GossipMessage} `{CGL : !CodecLaws GossipMessage}.
Context `{WF : !WalFile F} `{CW : !Codec WALRecord}.
Context `{CT : !Codec Traces} `{CM : !Codec Metrics} `{CL : !Codec Logs}.

Abbreviation N := (Node B X L Q F).
Abbreviation M := (Gossip.Manager L Q).
Implicit Types (n : N) (e : Env).

(** ** The state machine *)

(** [wire] holds every message that was ever sent. *)
Record Cluster := MkCluster { nodes : list N; wire : list bytes }.

Inductive ClusterEvent :=
| CNode (i : nat) (ev : NodeEvent)
| CSend (i : nat) (overhead limit : Z)
| CDeliver (j : nat) (b : bytes).

(** Sending and receiving are events of the cluster. *)
Definition local_event (ev : NodeEvent) : bool :=
  match ev with EvNotify _ | EvSend _ _ => false | _ => true end.

(** One step; [None] when it cannot be taken, or when it crashes the node. *)
Definition cluster_step (ev : ClusterEvent) (c : Cluster) : option Cluster :=
  match ev with
  | CNode i ev =>
      n ← nodes c !! i;
      if local_event ev then
        match run_event ev n with
        | Ok (_, n') => Some (MkCluster (<[i := n']> (nodes c)) (wire c))
        | _ => None
        end
      else None
  | CSend i overhead limit =>
      n ← nodes c !! i;
      match onGossip (Gossip.GetBroadcasts overhead limit) n with
      | Ok (msgs, n') => Some (MkCluster (<[i := n']> (nodes c)) (wire c ++ msgs))
      | _ => None
      end
  | CDeliver j b =>
      n ← nodes c !! j;
      if decide (b ∈ wire c) then
        match run_event (EvNotify b) n with
        | Ok (_, n') => Some (MkCluster (<[j := n']> (nodes c)) (wire c))
        | _ => None
        end
      else None
  end.

(** The history of a cluster, oldest event first. *)
Inductive cluster_runs (c0 : Cluster) : list ClusterEvent → Cluster → Prop :=
| runs_start : cluster_runs c0 [] c0
| runs_step tr c ev c' : cluster_runs c0 tr c → cluster_step ev c = Some c' → cluster_runs c0 (tr ++ [ev]) c'.

(** ** Where decisions and triggers come from *)

(** A decision that [EvaluateTrace] takes on the batch [ts]. *)
Definition decides (now : Z) (en : Decision.Engine) (ts : TraceSignal) (d : SamplingDecision) : Prop :=
  ∃ p, p ∈ Policies (Decision.cfg en) ∧ Decision.matches ts p = true
    ∧ sd_Reason d = Policy_Name p ∧ sd_DecidedAt d = now
    ∧ ∃ sp, sp ∈ items (ts_Traces ts) ∧ IsEmpty (sp_trace_id sp) = false ∧ sd_TraceID d = trace_key (sp_trace_id sp).

(** A trigger that the load monitor raises. *)
Definition raises (now : Z) (cfg : Config.Config) (t : TriggerEvent) : Prop :=
  ∃ count, t = loadTrigger now count (loadThreshold cfg).

Section authentic.
Context (D : SamplingDecision → Prop) (T : TriggerEvent → Prop).

(** Bytes that are a message about such a decision or trigger. *)
Definition authentic_bytes (b : bytes) : Prop :=
  (∃ d, D d ∧ marshal (Gossip.decisionMessage d) = Some b) ∨ (∃ t, T t ∧ marshal (Gossip.triggerMessage t) = Some b).

Record authentic (g : M) : Prop := {
  au_decisions d : d ∈ chan_buf (Gossip.decisionChan g) → D d;
  au_triggers t : t ∈ chan_buf (Gossip.triggerChan g) → T t;
  au_queue q b : Gossip.broadcasts g = Some q → b ∈ tq_view q → authentic_bytes b }.

Lemma try_send_elem {A} (x y : A) c : y ∈ chan_buf (Chan.try_send x c).2 → y = x ∨ y ∈ chan_buf c.
Proof.
  destruct (Chan.try_send_prefix x c) as (l & -> & Hl). rewrite elem_of_app.
  intros [?|Hy]; [by right|left]. destruct Hl as [-> | ->]; [by apply list_elem_of_singleton|by apply elem_of_nil in Hy].
Qed.

Lemma authentic_deliverDecision d g : D d → authentic g → authentic (Gossip.deliverDecision d g).
Proof. intros Hd [H1 H2 H3]. split; [|done..]. by intros d' [-> |?]%try_send_elem; [|apply H1]. Qed.

Lemma authentic_deliverTrigger t g : T t → authentic g → authentic (Gossip.deliverTrigger t g).
Proof. intros Ht [H1 H2 H3]. split; [done| |done]. by intros t' [-> |?]%try_send_elem; [|apply H2]. Qed.

Lemma keeps_QueueBroadcast data : authentic_bytes data → keeps authentic (Gossip.QueueBroadcast data).
Proof.
  intros Hd g r g' [H1 H2 H3] Hrun. unfold Gossip.QueueBroadcast in Hrun. erewrite bind_ok in Hrun by done.
  destruct (Gossip.broadcasts g) as [q|] eqn:Eq; [|done]. injection Hrun as _ <-.
  split; [done..|]. intros q' b [= <-]. rewrite tq_view_queue. intros [-> |?]%elem_of_cons; [done|by eapply H3].
Qed.

Lemma keeps_BroadcastDecision d : D d → keeps authentic (Gossip.BroadcastDecision d).
Proof.
  intros Hd. unfold Gossip.BroadcastDecision. destruct (marshal _) as [data|] eqn:Em; [|apply keeps_ret].
  apply keeps_bind; [apply keeps_QueueBroadcast; left; eauto|]. intros _.
  apply keeps_bind; [|intros; apply keeps_ret]. apply keeps_modify. intros g. by apply authentic_deliverDecision.
Qed.

Lemma keeps_BroadcastTrigger t : T t → keeps authentic (Gossip.BroadcastTrigger t).
Proof.
  intros Ht. unfold Gossip.BroadcastTrigger. destruct (marshal _) as [data|] eqn:Em; [|apply keeps_ret].
  apply keeps_bind; [apply keeps_QueueBroadcast; right; eauto|]. intros _.
  apply keeps_bind; [|intros; apply keeps_ret]. apply keeps_modify. intros g. by apply authentic_deliverTrigger.
Qed.

Lemma keeps_NotifyMsg b : authentic_bytes b → keeps authentic (Gossip.NotifyMsg b).
Proof.
  intros [(d & Hd & Hm)|(t & Ht & Hm)] g r g' Hg Hrun.
  - rewrite (Gossip.deliver_decision_message d b g Hm) in Hrun. injection Hrun as _ <-. by apply authentic_deliverDecision.
  - rewrite (Gossip.deliver_trigger_message t b g Hm) in Hrun. injection Hrun as _ <-. by apply authentic_deliverTrigger.
Qed.

Lemma keeps_recvDecision : keeps authentic Gossip.recvDecision.
Proof.
  intros g r g' Hg Hrun. unfold Gossip.recvDecision in Hrun. erewrite bind_ok in Hrun by done.
  unfold Chan.recv in Hrun. destruct (chan_buf (Gossip.decisionChan g)) as [|d l] eqn:E; injection Hrun as _ <-.
  - exact Hg.
  - destruct Hg as [H1 H2 H3]. split; [|done..]. intros d' Hd'. apply H1. rewrite E. by apply list_elem_of_further.
Qed.

Lemma keeps_recvTrigger : keeps authentic Gossip.recvTrigger.
Proof.
  intros g r g' Hg Hrun. unfold Gossip.recvTrigger in Hrun. erewrite bind_ok in Hrun by done.
  unfold Chan.recv in Hrun. destruct (chan_buf (Gossip.triggerChan g)) as [|d l] eqn:E; injection Hrun as _ <-.
  - exact Hg.
  - destruct Hg as [H1 H2 H3]. split; [done| |done]. intros d' Hd'. apply H2. rewrite E. by apply list_elem_of_further.
Qed.

Lemma keeps_joinTick : keeps authentic Gossip.joinTick.
Proof.
  intros g r g' Hg Hrun. unfold Gossip.joinTick in Hrun. erewrite bind_ok in Hrun by done.
  destruct (Gossip.mlist g) as [l|] eqn:El; [|done]. destruct (_ <=? _)%Z; [|by injection Hrun as _ <-].
  unfold Gossip.tryJoin in Hrun. erewrite bind_ok in Hrun by done.
  destruct (GetPeers _) as [|[|peer peers]]; [by injection Hrun as _ <-..|].
  rewrite El in Hrun. injection Hrun as _ <-. destruct Hg as [H1 H2 H3]. by split.
Qed.

Lemma keeps_EvaluateTrace now en ts :
  (∀ d, decides now en ts d → D d) → keeps authentic (Decision.EvaluateTrace now en ts).
Proof.
  intros Hd g r g' Hg Hrun. unfold Decision.EvaluateTrace in Hrun. rewrite Decision.evaluate_find in Hrun.
  destruct (list_find _ _) as [[i p]|] eqn:Ep; [|by injection Hrun as _ <-].
  apply list_find_Some in Ep as (Hp & Hm & _). apply list_elem_of_lookup_2 in Hp.
  unfold Decision.triggerDecision in Hrun. case_decide as Hw; [by injection Hrun as _ <-|].
  destruct (Decision.broadcaster en); [|by injection Hrun as _ <-].
  revert Hg Hrun. apply keeps_bind; [|intros; apply keeps_ret]. apply keeps_BroadcastDecision, Hd.
  exists p. split_and!; [done..|]. cbn [sd_TraceID]. clear -Hw.
  rewrite Decision.scanSpans_foldl, Decision.scan_trace in *. cbn [Decision.w_traceID] in *.
  rewrite decide_True in * by done. unfold Decision.first_trace in *.
  destruct (list_find _ _) as [[j sp]|] eqn:Es; [|done]. apply list_find_Some in Es as (Hs & He & _).
  exists sp. split; [by eapply list_elem_of_lookup_2|]. done.
Qed.

(** *** The events of a node *)
Context (cfg : Config.Config) (en : Decision.Engine).

(** The settings and the policies of a node never change. *)
Record authentic_node n : Prop := {
  an_config : config n = cfg;
  an_engine : engine n = en;
  an_gossip : authentic (gsp n) }.

Lemma keeps_onProc {A} (m : Go (Processor.Processor B X) A) : keeps authentic_node (onProc m).
Proof. apply (keeps_zoom _ (λ _, True)); [apply keeps_true|done|]. by intros n p [? ? ?] _. Qed.

Lemma keeps_onGossip {A} (m : Go M A) : keeps authentic m → keeps authentic_node (onGossip m).
Proof. intros Hm. apply (keeps_zoom _ authentic); [done|by intros n [? ? ?]|]. by intros n g [? ? ?]. Qed.

Lemma set_walLog_authentic w n : authentic_node n → authentic_node (set_walLog w n).
Proof. by intros [? ? ?]. Qed.

Lemma set_highLoadActive_authentic h n : authentic_node n → authentic_node (set_highLoadActive h n).
Proof. by intros [? ? ?]. Qed.

Hint Resolve keeps_onProc keeps_onGossip set_walLog_authentic set_highLoadActive_authentic keeps_put keeps_modify : sampler.

Lemma keeps_Consume e sig :
  (∀ ts d, sig = SigTrace ts → decides (env_now e) en ts d → D d) → keeps authentic_node (Consume e sig).
Proof.
  intros Hd. apply keeps_bind.
  { apply keeps_bind_getS. intros n Hn. destruct (walLog n); [|auto with sampler].
    destruct (Wal.Write _ _) as [[r w']| |]; auto with sampler. }
  intros [err|]; [auto with sampler|]. apply keeps_bind; [auto with sampler|]. intros [err|]; [auto with sampler|].
  apply keeps_bind_getS. intros n Hn. apply keeps_bind; [|auto with sampler]. destruct sig as [ts| | |]; auto with sampler.
  apply keeps_onGossip, keeps_EvaluateTrace. rewrite (an_engine n Hn). intros d. by apply Hd.
Qed.

Lemma keeps_loadTick e : (∀ t, raises (env_now e) cfg t → T t) → keeps authentic_node (loadTick e).
Proof.
  intros Ht. apply keeps_bind; [auto with sampler|]. intros count. apply keeps_bind_getS. intros n Hn.
  assert (T (loadTrigger (env_now e) count (loadThreshold (config n)))) as Hr.
  { apply Ht. rewrite (an_config n Hn). by exists count. }
  cbv zeta. destruct (Processor.float64_gt _ _ && _); [|destruct (float64_le _ _ && _); [|auto with sampler]].
  all: apply keeps_bind; [apply keeps_onGossip; by apply keeps_BroadcastTrigger|auto with sampler].
Qed.

Lemma keeps_event ev :
  (∀ e ts d, ev = EvConsume e (SigTrace ts) → decides (env_now e) en ts d → D d) →
  (∀ e t, ev = EvLoad e → raises (env_now e) cfg t → T t) →
  (∀ b, ev = EvNotify b → authentic_bytes b) →
  (∀ o l, ev ≠ EvSend o l) →
  keeps authentic_node (run_event ev).
Proof.
  intros Hd Ht Hb Hs. destruct ev as [e sig|b|e| | |e|e|e| |o lim|e]; cbn [run_event]; auto with sampler.
  - apply keeps_bind; [|auto with sampler]. apply keeps_Consume. intros ts d ->. by apply Hd.
  - by apply keeps_onGossip, keeps_NotifyMsg, Hb.
  - apply keeps_bind; [apply keeps_onGossip, keeps_recvDecision|]. intros [d|]; auto with sampler.
  - apply keeps_bind; [apply keeps_onGossip, keeps_recvTrigger|]. intros [t|]; auto with sampler.
  - apply keeps_loadTick. intros t. by apply Ht.
  - by apply keeps_onGossip, keeps_joinTick.
  - by destruct (Hs o lim).
  - apply keeps_bind_getS. intros n Hn. destruct (walLog n); [|auto with sampler].
    destruct (Wal.TruncateBefore _ _) as [[r w']| |]; auto with sampler.
Qed.

(** What a node sends is what it has queued. *)
Lemma send_authentic o lim n msgs n' :
  authentic_node n → onGossip (Gossip.GetBroadcasts o lim) n = Ok (msgs, n') →
  authentic_node n' ∧ ∀ b, b ∈ msgs → authentic_bytes b.
Proof.
  intros [? ? [H1 H2 H3]] Hrun. unfold onGossip, zoom, Gossip.GetBroadcasts in Hrun.
  rewrite (bind_ok _ _ _ _ _ (eq_refl (Ok (gsp n, gsp n)))) in Hrun.
  destruct (Gossip.broadcasts (gsp n)) as [q|] eqn:Eq; [|done].
  pose proof (tq_get_rest o lim q) as Hrest. pose proof (tq_get_elem o lim q) as Hget.
  destruct (tq_get o lim q) as [ms q']. injection Hrun as <- <-. split.
  - split; [done..|]. split; [done..|]. intros q2 b [= <-] Hb. eapply H3; [done|]. by apply Hrest.
  - intros b Hb. eapply H3; [done|]. by apply Hget.
Qed.
End authentic.

Lemma authentic_bytes_mono (D D' : SamplingDecision → Prop) (T T' : TriggerEvent → Prop) b :
  (∀ d, D d → D' d) → (∀ t, T t → T' t) → authentic_bytes D T b → authentic_bytes D' T' b.
Proof. intros HD HT [(d & ? & ?)|(t & ? & ?)]; [left; exists d|right; exists t]; auto. Qed.

Lemma authentic_node_mono (D D' : SamplingDecision → Prop) (T T' : TriggerEvent → Prop) cfg en n :
  (∀ d, D d → D' d) → (∀ t, T t → T' t) → authentic_node D T cfg en n → authentic_node D' T' cfg en n.
Proof.
  intros HD HT [? ? [H1 H2 H3]]. split; [done..|]. split; [auto..|]. intros q b Hq Hb.
  eapply authentic_bytes_mono; [done..|]. by eapply H3.
Qed.

(** ** The history explains every decision and every trigger *)

(** Node [i] of the start took the decision (raised the trigger) in an event of
    the history. *)
Definition decided_in (c0 : Cluster) (tr : list ClusterEvent) (d : SamplingDecision) : Prop :=
  ∃ i n0 e ts, nodes c0 !! i = Some n0 ∧ CNode i (EvConsume e (SigTrace ts)) ∈ tr ∧ decides (env_now e) (engine n0) ts d.
Definition raised_in (c0 : Cluster) (tr : list ClusterEvent) (t : TriggerEvent) : Prop :=
  ∃ i n0 e, nodes c0 !! i = Some n0 ∧ CNode i (EvLoad e) ∈ tr ∧ raises (env_now e) (config n0) t.

(** Nodes that have just booted: nothing in their channels, nothing queued. *)
Definition quiet n : Prop :=
  chan_buf (Gossip.decisionChan (gsp n)) = [] ∧ chan_buf (Gossip.triggerChan (gsp n)) = []
  ∧ ∀ q, Gossip.broadcasts (gsp n) = Some q → tq_view q = [].

Record explained (c0 : Cluster) (tr : list ClusterEvent) (c : Cluster) : Prop := {
  ex_length : length (nodes c) = length (nodes c0);
  ex_node i n0 n : nodes c0 !! i = Some n0 → nodes c !! i = Some n →
    authentic_node (decided_in c0 tr) (raised_in c0 tr) (config n0) (engine n0) n;
  ex_wire b : b ∈ wire c → authentic_bytes (decided_in c0 tr) (raised_in c0 tr) b }.

Lemma decided_in_snoc c0 tr ev d : decided_in c0 tr d → decided_in c0 (tr ++ [ev]) d.
Proof. intros (i & n0 & e & ts & ? & ? & ?). exists i, n0, e, ts. split_and!; [done| |done]. apply elem_of_app. by left. Qed.
Lemma raised_in_snoc c0 tr ev t : raised_in c0 tr t → raised_in c0 (tr ++ [ev]) t.
Proof. intros (i & n0 & e & ? & ? & ?). exists i, n0, e. split_and!; [done| |done]. apply elem_of_app. by left. Qed.

(** A step that changes one node. *)
Lemma explained_node c0 tr ev c i n' msgs :
  explained c0 tr c → is_Some (nodes c !! i) →
  (∀ n0 n, nodes c0 !! i = Some n0 → nodes c !! i = Some n →
     authentic_node (decided_in c0 (tr ++ [ev])) (raised_in c0 (tr ++ [ev])) (config n0) (engine n0) n →
     authentic_node (decided_in c0 (tr ++ [ev])) (raised_in c0 (tr ++ [ev])) (config n0) (engine n0) n'
     ∧ ∀ b, b ∈ msgs → authentic_bytes (decided_in c0 (tr ++ [ev])) (raised_in c0 (tr ++ [ev])) b) →
  explained c0 (tr ++ [ev]) (MkCluster (<[i := n']> (nodes c)) (wire c ++ msgs)).
Proof.
  intros [Hlen Hn Hw] [n Hi] Hstep.
  pose proof (decided_in_snoc c0 tr ev) as HD. pose proof (raised_in_snoc c0 tr ev) as HT.
  assert (∀ j n0 m, nodes c0 !! j = Some n0 → nodes c !! j = Some m →
    authentic_node (decided_in c0 (tr ++ [ev])) (raised_in c0 (tr ++ [ev])) (config n0) (engine n0) m) as Hmono.
  { intros j n0 m H0 Hj. eapply authentic_node_mono; [exact HD|exact HT|]. by eapply Hn. }
  split; cbn [nodes wire].
  - by rewrite length_insert.
  - intros j n0 m H0 Hj. destruct (decide (i = j)) as [<-|Hne].
    + rewrite list_lookup_insert_eq in Hj by by eapply lookup_lt_Some. injection Hj as <-.
      eapply Hstep; [done|exact Hi|]. by eapply Hmono.
    + rewrite list_lookup_insert_ne in Hj by done. by eapply Hmono.
  - intros b [Hb|Hb]%elem_of_app; [eapply authentic_bytes_mono; [exact HD|exact HT|by apply Hw]|].
    destruct (lookup_lt_is_Some_2 (nodes c0) i) as [n0 H0]; [rewrite <- Hlen; by eapply lookup_lt_Some|].
    by eapply Hstep; [..|by eapply Hmono|].
Qed.

Lemma step_explained c0 tr ev c c' : explained c0 tr c → cluster_step ev c = Some c' → explained c0 (tr ++ [ev]) c'.
Proof.
  intros Hex Hstep. destruct ev as [i ev|i o lim|j b]; cbn [cluster_step] in Hstep.
  - destruct (nodes c !! i) as [n|] eqn:Hi; [|done]. cbn in Hstep. destruct (local_event ev) eqn:Hl; [|done].
    destruct (run_event ev n) as [[[] n']| |] eqn:Hrun; [|done..]. injection Hstep as <-.
    rewrite <- (app_nil_r (wire c)). apply explained_node; [done|by eexists|]. intros n0 m H0 Hi' Ha.
    assert (m = n) as -> by congruence. split; [|by intros b ?%elem_of_nil]. eapply keeps_event; [..|exact Ha|exact Hrun].
    + intros e ts d -> Hd. exists i, n0, e, ts. split_and!; [done| |done]. apply elem_of_app. right. by apply list_elem_of_singleton.
    + intros e t -> Ht. exists i, n0, e. split_and!; [done| |done]. apply elem_of_app. right. by apply list_elem_of_singleton.
    + by intros b ->.
    + by intros o l ->.
  - destruct (nodes c !! i) as [n|] eqn:Hi; [|done]. cbn -[onGossip] in Hstep.
    destruct (onGossip _ n) as [[msgs n']| |] eqn:Hrun; [|done..]. injection Hstep as <-.
    apply explained_node; [done|by eexists|]. intros n0 m H0 Hi' Ha. assert (m = n) as -> by congruence.
    by eapply send_authentic.
  - destruct (nodes c !! j) as [n|] eqn:Hi; [|done]. cbn -[run_event] in Hstep. case_decide as Hb; [|done].
    destruct (run_event (EvNotify b) n) as [[[] n']| |] eqn:Hrun; [|done..]. injection Hstep as <-.
    rewrite <- (app_nil_r (wire c)). apply explained_node; [done|by eexists|]. intros n0 m H0 Hi' Ha.
    assert (m = n) as -> by congruence. split; [|by intros b' ?%elem_of_nil]. eapply keeps_event; [..|exact Ha|exact Hrun]; try done.
    intros b' [= <-]. eapply authentic_bytes_mono; [apply decided_in_snoc|apply raised_in_snoc|]. by apply Hex.
Qed.

(** C5: nothing comes out of thin air. Start a cluster of nodes that have just
    booted and let it run: nodes consume, roll up, load, join; memberlist loses,
    repeats and reorders messages. Every decision that waits on a node was taken
    by some node when it consumed a batch that matches one of that node's
    policies, and names a trace of that batch and that policy; every trigger
    that waits was raised by some node's load monitor with that node's
    threshold. *)
Theorem decisions_explained c0 tr c i n :
  Forall quiet (nodes c0) → wire c0 = [] → cluster_runs c0 tr c → nodes c !! i = Some n →
  (∀ d, d ∈ chan_buf (Gossip.decisionChan (gsp n)) → decided_in c0 tr d)
  ∧ (∀ t, t ∈ chan_buf (Gossip.triggerChan (gsp n)) → raised_in c0 tr t).
Proof.
  intros Hq Hw Hr Hi.
  assert (explained c0 tr c) as [Hlen Hn _].
  { clear Hi. induction Hr as [|tr c ev c' Hr IH Hstep]; [|by eapply step_explained].
    split; [done| |by rewrite Hw; intros b ?%elem_of_nil]. intros j n0 m H0 Hj. assert (m = n0) as -> by congruence.
    eapply Forall_lookup_1 in Hq as (H1 & H2 & H3); [|exact H0]. split; [done..|].
    split; [by rewrite H1; intros d ?%elem_of_nil|by rewrite H2; intros t ?%elem_of_nil|].
    intros q b Hb. rewrite (H3 _ Hb). by intros ?%elem_of_nil. }
  destruct (lookup_lt_is_Some_2 (nodes c0) i) as [n0 H0]; [rewrite <- Hlen; by eapply lookup_lt_Some|].
  destruct (Hn i n0 n H0 Hi) as [_ _ [H1 H2 _]]. done.
Qed.
End Cluster.
