(* ===== verification/Liveness.v ===== *)
(** What waits in a channel is handled: the decision loop takes decisions in the
    order they came, and nothing else that happens on a node takes one away. *)
From S2P Require Import Prelude GoStd PData Signals Config Cache Buffer BufferSpec BufferTheorems Manager.
From S2P Require Import Grouping Rollup RollupTheorems Discovery Gossip Decision Wal Telemetry Processor ProcessorTheorems Receiver Main MainTheorems.
Import Main.

Section Liveness.
Context {B X L Q F : Type}.
Context `{BM : !BufferManager B} `{BV : !BufferView B} `{BL : !BufferManagerLaws B}.
Context `{EX : !Exporter X} `{EL : !ExporterLaws X} `{PD : !PData} `{PDL : !PDataLaws}.
Context `{ML : !Memberlist L} `{TQ : !TransmitQueue Q} `{TQL : !TransmitQueueLaws Q}.
Context `{TS : Timestamps} `{TSL : !TimestampsLaws} `{CG : !Codec GossipMessage} `{CGL : !CodecLaws GossipMessage}.
Context `{WF : !WalFile F} `{WFL : !WalFileLaws F} `{CW : !Codec WALRecord} `{CWL : !CodecLaws WALRecord}.
Context `{CT : !Codec Traces} `{CTL : !CodecLaws Traces} `{CM : !Codec Metrics} `{CML : !CodecLaws Metrics}.
Context `{CL : !Codec Logs} `{CLL : !CodecLaws Logs}.

Abbreviation N := (Node B X L Q F).
Abbreviation M := (Gossip.Manager L Q).
Implicit Types (n : N) (e : Env).

Definition waiting_decisions (g : M) : list SamplingDecision := chan_buf (Gossip.decisionChan g).

(** Events that run one after the other, each with what it relies on. *)
Inductive node_runs : N → list NodeEvent → N → Prop :=
| node_runs_nil n : node_runs n [] n
| node_runs_cons n ev n1 evs n' :
    event_ok ev n → run_event ev n = Ok (tt, n1) → node_runs n1 evs n' → node_runs n (ev :: evs) n'.

Definition is_decision_round (ev : NodeEvent) : bool := match ev with EvDecision _ => true | _ => false end.
Fixpoint decision_rounds (evs : list NodeEvent) : nat :=
  match evs with
  | [] => 0
  | ev :: evs' => if is_decision_round ev then S (decision_rounds evs') else decision_rounds evs'
  end.

(** *** Every other event leaves the decisions that wait where they are *)
Section prefix.
Context (l : list SamplingDecision).

Definition behind (g : M) : Prop := l `prefix_of` waiting_decisions g.

Lemma behind_deliverDecision d g : behind g → behind (Gossip.deliverDecision d g).
Proof.
  intros Hg. unfold behind, waiting_decisions. cbn. destruct (Chan.try_send_prefix d (Gossip.decisionChan g)) as (l' & -> & _).
  by apply prefix_app_r.
Qed.

Lemma keeps_behind_queue data : keeps behind (Gossip.QueueBroadcast data).
Proof. apply keeps_bind_getS. intros g Hg. destruct (Gossip.broadcasts g); [by apply keeps_put|apply keeps_panic]. Qed.

Lemma keeps_behind_decision d : keeps behind (Gossip.BroadcastDecision d).
Proof.
  unfold Gossip.BroadcastDecision. destruct (marshal _); [|apply keeps_ret]. apply keeps_bind; [apply keeps_behind_queue|].
  intros _. apply keeps_bind; [|intros; apply keeps_ret]. apply keeps_modify, behind_deliverDecision.
Qed.

Lemma keeps_behind_trigger t : keeps behind (Gossip.BroadcastTrigger t).
Proof.
  unfold Gossip.BroadcastTrigger. destruct (marshal _); [|apply keeps_ret]. apply keeps_bind; [apply keeps_behind_queue|].
  intros _. apply keeps_bind; [|intros; apply keeps_ret]. by apply keeps_modify.
Qed.

Lemma keeps_behind_evaluate now en ts : keeps behind (Decision.EvaluateTrace now en ts).
Proof.
  intros g r g' Hg Hrun. unfold Decision.EvaluateTrace in Hrun. rewrite Decision.evaluate_find in Hrun.
  destruct (list_find _ _) as [[i p]|]; [|by injection Hrun as _ <-].
  unfold Decision.triggerDecision in Hrun. case_decide; [by injection Hrun as _ <-|].
  destruct (Decision.broadcaster en); [|by injection Hrun as _ <-].
  revert Hg Hrun. apply keeps_bind; [apply keeps_behind_decision|intros; apply keeps_ret].
Qed.

Lemma keeps_behind_notify b : keeps behind (Gossip.NotifyMsg b).
Proof.
  unfold Gossip.NotifyMsg. destruct b as [|x b]; [apply keeps_ret|].
  destruct (unmarshal (x :: b)) as [[|sd|te]|]; try apply keeps_ret; apply keeps_modify; [apply behind_deliverDecision|done].
Qed.

Lemma keeps_behind_recvTrigger : keeps behind Gossip.recvTrigger.
Proof.
  apply keeps_bind_getS. intros g Hg. destruct (Chan.recv _) as [[t c]|]; [|apply keeps_ret].
  apply keeps_bind; [by apply keeps_put|intros; apply keeps_ret].
Qed.

Lemma keeps_behind_join : keeps behind Gossip.joinTick.
Proof.
  apply keeps_bind_getS. intros g Hg. destruct (Gossip.mlist g); [|apply keeps_panic].
  destruct (_ <=? _)%Z; [|apply keeps_ret]. apply keeps_bind_getS. intros g' Hg'.
  destruct (GetPeers _) as [|[|]]; [apply keeps_ret..|]. destruct (Gossip.mlist g'); [by apply keeps_put|apply keeps_panic].
Qed.

Lemma keeps_behind_send o lim : keeps behind (Gossip.GetBroadcasts o lim).
Proof.
  apply keeps_bind_getS. intros g Hg. destruct (Gossip.broadcasts g); [|apply keeps_panic].
  destruct (tq_get _ _ _). apply keeps_bind; [by apply keeps_put|intros; apply keeps_ret].
Qed.

Definition node_behind n : Prop := behind (gsp n).

Lemma keeps_behind_onProc {A} (m : Go (Processor.Processor B X) A) : keeps node_behind (onProc m).
Proof. by apply (keeps_zoom _ (λ _, True)); [apply keeps_true|..]. Qed.

Lemma keeps_behind_onGossip {A} (m : Go M A) : keeps behind m → keeps node_behind (onGossip m).
Proof. intros Hm. by apply (keeps_zoom _ behind). Qed.

Hint Resolve keeps_behind_onProc keeps_behind_onGossip keeps_behind_trigger keeps_behind_evaluate keeps_behind_notify
  keeps_behind_recvTrigger keeps_behind_join keeps_behind_send : sampler.

Lemma keeps_behind_event ev : is_decision_round ev = false → keeps node_behind (run_event ev).
Proof.
  intros Hev. assert (∀ w n, node_behind n → keeps node_behind (putS (set_walLog w n))) as Hput by (intros; by apply keeps_put).
  destruct ev as [e sig|b|e| | |e|e|e| |o lim|e]; try done; cbn [run_event]; auto with sampler.
  - apply keeps_bind; [|auto with sampler]. apply keeps_bind.
    { apply keeps_bind_getS. intros n Hn. destruct (walLog n); [|auto with sampler].
      destruct (Wal.Write _ _) as [[r w']| |]; auto with sampler. }
    intros [err|]; [auto with sampler|]. apply keeps_bind; [auto with sampler|]. intros [err|]; [auto with sampler|].
    apply keeps_bind_getS. intros n Hn. apply keeps_bind; [|auto with sampler]. destruct sig; auto with sampler.
  - apply keeps_bind; [auto with sampler|]. intros [t|]; auto with sampler.
  - apply keeps_bind; [auto with sampler|]. intros count. apply keeps_bind_getS. intros n Hn. cbv zeta.
    assert (∀ h, keeps node_behind (modifyS (set_highLoadActive h))) as Hmod by (intros; by apply keeps_modify).
    destruct (Processor.float64_gt _ _ && _); [|destruct (float64_le _ _ && _); [|auto with sampler]].
    all: apply keeps_bind; auto with sampler.
  - apply keeps_bind_getS. intros n Hn. destruct (walLog n); [|auto with sampler].
    destruct (Wal.TruncateBefore _ _) as [[r w']| |]; auto with sampler.
Qed.
End prefix.

(** *** First come, first served *)

Lemma node_runs_inv n evs n' : node_inv n → node_runs n evs n' → node_inv n'.
Proof.
  intros Hn Hr. induction Hr as [n|n ev n1 evs n' Hev Hrun _ IH]; [done|]. apply IH.
  destruct (run_event_ok ev n Hn Hev) as [(n2 & Hrun' & Hn2)|[_ Hp]]; congruence.
Qed.

(** C7: liveness. A decision that waits on a node behind [length before] others is
    handled by the next round of the decision loop after those for the others:
    whatever else the node does in between, as soon as the loop has had that
    many rounds, exactly this decision was processed, and the ones before it
    were taken first. *)
Theorem decision_handled n evs n' before d :
  node_inv n → node_runs n evs n' →
  before ++ [d] `prefix_of` waiting_decisions (gsp n) → length before < decision_rounds evs →
  ∃ evs1 e evs2 n1 n2, evs = evs1 ++ EvDecision e :: evs2 ∧ decision_rounds evs1 = length before
    ∧ node_runs n evs1 n1 ∧ head (waiting_decisions (gsp n1)) = Some d
    ∧ run_event (EvDecision e) n1 = Ok (tt, n2) ∧ Processor.processDecision e d (proc n1) = Ok (tt, proc n2)
    ∧ node_runs n2 evs2 n'.
Proof.
  intros Hn Hr. revert before. induction Hr as [n|n ev n1 evs n' Hev Hrun Hr IH]; intros before Hpre Hlt; [cbn in Hlt; lia|].
  assert (node_inv n1) as Hn1 by (eapply (node_runs_inv n [ev]); [done|]; econstructor; [done..|constructor]).
  destruct (is_decision_round ev) eqn:Eev.
  - destruct ev as [|?|e| | | | | | | |]; try done. clear Eev.
    destruct (decisionTick_run e n Hn) as (g & _ & _ & Htl & p & Hrun' & _ & Hp).
    assert (n1 = set_proc p (set_gsp g n)) as -> by (cbn [run_event] in Hrun; congruence).
    destruct Hpre as [rest Hrest]. fold (waiting_decisions (gsp n)) in Htl, Hp. fold (waiting_decisions g) in Htl.
    rewrite Hrest in Htl, Hp. destruct before as [|d0 before].
    + exists [], e, evs, n. eexists. split_and!; [done..|constructor|by rewrite Hrest|exact Hrun|exact Hp|exact Hr].
    + destruct (IH Hn1 before) as (evs1 & e1 & evs2 & n2 & n3 & -> & Hc & Hr1 & Hrest1).
      * exists rest. cbn. by rewrite Htl.
      * cbn in Hlt. lia.
      * exists (EvDecision e :: evs1), e1, evs2, n2, n3. split; [done|]. split.
        { cbn. by f_equal. }
        split; [|done]. by econstructor.
  - destruct (IH Hn1 before) as (evs1 & e1 & evs2 & n2 & n3 & -> & Hc & Hr1 & Hrest1).
    + by eapply (keeps_behind_event (before ++ [d]) ev Eev).
    + cbn in Hlt. by rewrite Eev in Hlt.
    + exists (ev :: evs1), e1, evs2, n2, n3. split; [done|]. split.
      { cbn. by rewrite Eev. }
      split; [|done]. by econstructor.
Qed.
End Liveness.
