(* ===== verification/SamplesNode.v ===== *)
(** More concrete parameters: the messages, the log file, the clients and the
    cluster membership of a small node, on which the witnesses run. *)
From S2P Require Import Prelude GoStd PData Signals Config Cache Gob WireCodec Buffer BufferLemmas BufferSpec Samples Manager.
From S2P Require Import Rollup Discovery Gossip Decision Wal Telemetry Processor Receiver Main.

(** ** Messages *)

#[export] Instance sample_times : Timestamps := {|
  Timestamp_pb := Z; ts_New t := t; ts_AsTime o := match o with Some t => t | None => 0%Z end |}.
#[export] Instance sample_times_laws : TimestampsLaws.
Proof. by split. Qed.

#[export] Instance ser_option {A} `{!Ser A} : Ser (option A).
Proof.
  refine (ser_via (λ o, Some (match o with None => inl tt | Some x => inr x end))
    (λ x : unit + A, Some (match x with inl _ => None | inr x => Some x end)) _). by intros [] y [= <-].
Defined.

#[export] Instance ser_float : Ser float64.
Proof.
  refine (ser_via (λ f, Some (match f with
      | S754_zero s => inl s | S754_infinity s => inr (inl s) | S754_nan => inr (inr (inl tt))
      | S754_finite s m e => inr (inr (inr (s, (m, e)))) end))
    (λ x : bool + (bool + (unit + bool * (positive * Z))), Some (match x with
      | inl s => S754_zero s | inr (inl s) => S754_infinity s | inr (inr (inl _)) => S754_nan
      | inr (inr (inr (s, (m, e)))) => S754_finite s m e end)) _).
  by intros [] y [= <-].
Defined.

#[export] Instance ser_timestamp : Ser (Timestamp_pb (Timestamps := sample_times)) := ser_Z.

#[export] Instance ser_gossip : Ser (GossipMessage (H := sample_times)).
Proof.
  refine (ser_via (λ m, Some (match m with
      | NoPayload => inl tt
      | GossipMessage_SamplingDecision d => inr (inl (pb_TraceId d, (pb_Reason d, (pb_DecidedAt d,
          (pb_DecidedBy d, (pb_EventStart d, pb_EventEnd d))))))
      | GossipMessage_TriggerEvent t => inr (inr (pb_Name t, (pb_Value t, (pb_Threshold t, pb_StartedAt t)))) end))
    (λ x : unit + (string * (string * (option Timestamp_pb * (string * (option Timestamp_pb * option Timestamp_pb))))
                   + string * (float64 * (float64 * option Timestamp_pb))), Some (match x with
      | inl _ => NoPayload
      | inr (inl (a, (b, (c, (d, (e, f)))))) => GossipMessage_SamplingDecision (Mk_pb_SamplingDecision a b c d e f)
      | inr (inr (a, (b, (c, d)))) => GossipMessage_TriggerEvent (Mk_pb_TriggerEvent a b c d) end)) _).
  by intros [|[]|[]] y [= <-].
Defined.

#[export] Instance ser_record : Ser (WALRecord (H := sample_times)).
Proof.
  refine (ser_via (λ r, Some (wr_Type r, (wr_Data r, wr_Timestamp r)))
    (λ x : Z * (bytes * option Timestamp_pb), let '(a, (b, c)) := x in Some (MkWALRecord a b c)) _).
  by intros [] y [= <-].
Defined.

(** A marshaler that puts a mark in front, so that nothing is encoded by no bytes. *)
Section marked.
Context {A : Type} `{!Ser A} `{!Empty A}.

Definition marked_codec : Codec A := {|
  marshal x := b ← ser x; if (Z.of_nat (length b) <? 2 ^ 59)%Z then Some ("001"%byte :: b) else None;
  unmarshal b := match b with
    | "001"%byte :: b' => '(x, r) ← de b'; match r with [] => Some x | _ => None end
    | _ => None end |}.

Lemma marked_codec_laws : @CodecLaws A marked_codec _.
Proof.
  split; cbn [marshal unmarshal marked_codec]; intros x.
  - intros b H. destruct (ser x) as [b'|] eqn:E; [|done]. cbn [mbind option_bind] in H.
    case_match; [|done]. injection H as <-. apply (de_ser x b' []) in E. rewrite app_nil_r in E. by rewrite E.
  - intros H. destruct (ser x) as [b'|]; [|done]. cbn [mbind option_bind] in H. by case_match.
  - intros b H. destruct (ser x) as [b'|] eqn:E; [|done]. cbn [mbind option_bind] in H.
    destruct (Z.ltb_spec (Z.of_nat (length b')) (2 ^ 59)); [|done]. injection H as <-. cbn [length]. lia.
Qed.
End marked.

#[export] Instance sample_gossip_codec : Codec GossipMessage := marked_codec.
#[export] Instance sample_gossip_codec_laws : CodecLaws GossipMessage := marked_codec_laws.
#[export] Instance sample_record_codec : Codec WALRecord := marked_codec.
#[export] Instance sample_record_codec_laws : CodecLaws WALRecord := marked_codec_laws.

(** ** The log file: the index of the first entry, and the entries *)
Record SampleFile := MkFile { f_first : Z; f_entries : list bytes }.

Definition file_view (f : SampleFile) : Z * list bytes :=
  match f_entries f with [] => (1%Z, []) | es => (Z.max 1 (f_first f), es) end.

Definition sample_metric_signal : Signal :=
  SigMetric (sample_metric_sig [sample_sum "requests" [sample_point 3 [("host", VStr "a")]]]).

(** A new file has the record of one signal from an earlier run. *)
Definition sample_record : bytes := default [] (Wal.recordBytes sample_metric_signal).

#[export] Instance sample_walfile : WalFile SampleFile := {|
  wl_open _ := Some (MkFile 1 [sample_record]);
  wl_view := file_view;
  wl_FirstIndex f := Some (match (file_view f).2 with [] => 0%Z | _ => (file_view f).1 end);
  wl_LastIndex f := Some (match (file_view f).2 with [] => 0 | es => (file_view f).1 + Z.of_nat (length es) - 1 end)%Z;
  wl_Read i f := if decide ((file_view f).1 ≤ i)%Z then (file_view f).2 !! Z.to_nat (i - (file_view f).1) else None;
  wl_Write i b f :=
    if decide (i = (file_view f).1 + Z.of_nat (length (file_view f).2))%Z
    then Some (MkFile (file_view f).1 ((file_view f).2 ++ [b])) else None;
  wl_TruncateFront i f :=
    if decide ((file_view f).1 ≤ i < (file_view f).1 + Z.of_nat (length (file_view f).2))%Z
    then Some (MkFile i (drop (Z.to_nat (i - (file_view f).1)) (file_view f).2)) else None;
  wl_Close f := f |}.

Lemma file_view_first f : (1 ≤ (file_view f).1)%Z.
Proof. unfold file_view. destruct (f_entries f); cbn; lia. Qed.

Lemma file_view_make i es : (1 ≤ i)%Z → es ≠ [] → file_view (MkFile i es) = (i, es).
Proof. intros Hi He. unfold file_view. cbn. destruct es; [done|]. f_equal. lia. Qed.

#[export] Instance sample_walfile_laws : WalFileLaws SampleFile.
Proof.
  split; cbn [wl_view wl_FirstIndex wl_LastIndex wl_Read wl_Write wl_TruncateFront sample_walfile]; try done.
  - apply file_view_first.
  - intros f. unfold file_view. by destruct (f_entries f).
  - intros f i b f' H. case_decide; [|done]. injection H as <-. split; [done|].
    apply file_view_make; [apply file_view_first|]. by intros [_ ?]%app_nil.
  - intros f i f' H. case_decide; [|done]. injection H as <-. split; [done|].
    pose proof (file_view_first f). apply file_view_make; [lia|]. intros Hd%drop_nil_inv. lia.
  - intros f n Hn. rewrite decide_True by lia. by eexists.
Qed.

(** ** The cluster and the clients *)

#[export] Instance sample_members : Memberlist unit := {|
  ml_create _ := Some tt; ml_num_members _ := 2%Z; ml_members _ := ["a"; "b"]; ml_join l _ := (Some 1%Z, tt); ml_leave l := l |}.

#[export] Instance sample_queue : TransmitQueue (list bytes) := {|
  tq_new := []; tq_view q := q; tq_queue b q := b :: q; tq_get _ _ q := (q, []) |}.
#[export] Instance sample_queue_laws : TransmitQueueLaws (list bytes).
Proof. split; try done. intros o lim q b Hb. by apply elem_of_nil in Hb. Qed.

#[export] Instance sample_clients : OTLPClient (list Export) := {|
  traceClient_Export t := λ n, Ok (true, n ++ [ETrace t]);
  metricClient_Export m := λ n, Ok (true, n ++ [EMetrics m]);
  logClient_Export l := λ n, Ok (true, n ++ [ELogs l]) |}.
#[export] Program Instance sample_clients_laws : OTLPClientLaws (list Export) := {| c_sent n := n |}.
Next Obligation. intros t n. by eexists _, _. Qed.
Next Obligation. intros t n. by eexists _, _. Qed.
Next Obligation. intros t n. by eexists _, _. Qed.

(** ** A node *)

Abbreviation SampleExporter := (OTLP.OTLPExporter (list Export)).
Abbreviation SampleNode := (Main.Node SampleBuffer SampleExporter unit (list bytes) SampleFile).

Definition sample_exporter : SampleExporter := OTLP.MkExporter (MkExporterConfig "collector:4317" true) [].

Definition sample_main_config : Config.Config :=
  {| Config.Debug := false;
     Config.Receiver := Config.Receiver Config.DefaultConfig;
     Config.Buffer := sample_config;
     Config.Discovery := MkDiscoveryConfig "static" "" ["a"; "b"];
     Config.Gossip := Config.Gossip Config.DefaultConfig;
     Config.Decision := MkDecisionConfig [MkPolicyConfig "errors" "error" 0 "" "" float64_zero];
     Config.Rollup := MkRollupConfig true;
     Config.Exporter := MkExporterConfig "collector:4317" true |}.

Definition sample_envs (i : nat) : Env := sample_env (1000 + Z.of_nat i) (pretty i).

Definition sample_resolver : Resolver := MkResolver (λ _, None) (λ _, None).

(** The processor of a node over a buffer. *)
Definition sample_proc (b : SampleBuffer) : Processor.Processor SampleBuffer SampleExporter :=
  Processor.New b (Rollup.New (MkRollupConfig true)) sample_exporter false (Some (MkTelemetry 0 0 0 false false)).

Definition sample_gossip : Gossip.Manager unit (list bytes) :=
  Gossip.set_broadcasts (Some []) (Gossip.set_mlist (Some tt)
    (Gossip.New (Config.Gossip Config.DefaultConfig) (StaticDiscovery ["a"; "b"]) false)).

Definition sample_log_file : Wal.Log SampleFile := Wal.MkLog Unlocked (MkFile 1 [sample_record]) "./data/wal".

Definition sample_node (b : SampleBuffer) : SampleNode :=
  Main.MkNode sample_main_config (sample_proc b) sample_gossip
    (Decision.New (Config.Decision sample_main_config) true false) (Some sample_log_file) false.

(** ** Starting and stopping *)

(** A server is the list of what was done to it. *)
#[export] Instance sample_grpc : GrpcServer (list string) := {|
  Listener := string; net_Listen addr := Some addr; grpc_NewServer := [];
  RegisterGRPCServer s g := g ++ [match s with TraceService => "traces" | MetricService => "metrics" | LogService => "logs" end];
  Serve lis g := g ++ [lis]; GracefulStop g := g ++ ["stopped"] |}.

#[export] Instance sample_conn : GrpcConn (list Export) := {| grpc_NewClient _ := Some []; conn_Close n := n |}.

#[export] Instance sample_sdk : OtelSdk := {|
  MetricExporter := string; SdkResource := list (string * string); Provider := list string;
  otlpmetricgrpc_New ep := Some ep; resource_Merge l := Some l; NewMeterProvider _ ep _ := [ep];
  Int64ObservableGauge name p := Some (p ++ [name]); provider_Shutdown p := p ++ ["stopped"] |}.
