(* ===== verification/Witnesses.v ===== *)
(** Every property applied to a concrete input at which its hypotheses hold. *)
From S2P Require Import Prelude GoStd PData Signals Config Cache Gob WireCodec Buffer BufferLemmas Split BufferSpec Samples.
From S2P Require Import BufferTheorems Manager BufferRaces Grouping Rollup RollupTheorems Discovery Gossip Decision Wal.
From S2P Require Import Telemetry Processor ProcessorTheorems Receiver Main MainTheorems SamplesNode.

(** ** A buffer with two traces, a metric and logs *)

Definition spanA : Span := sample_span tidA "GET /" 100 200 StatusCodeOk.
Definition spanB : Span := sample_span tidB "GET /cart" 150 400 StatusCodeError.
Definition span0 : Span := sample_span tid0 "lost" 150 160 StatusCodeOk.
Definition traces1 : TraceSignal := sample_traces_sig [spanA; spanB; span0].
Definition metric1 : MetricSignal :=
  sample_metric_sig [sample_sum "requests" [sample_point 3 [("host", VStr "a")]; sample_point 4 [("host", VStr "b")]]].
Definition logs1 : LogSignal := sample_log_sig [sample_log tidA "boom"; sample_log tid0 "tick"].

Definition env1 : Env := sample_env 1000 "u1".
Definition env2 : Env := sample_env 2000 "u2".
Definition env3 : Env := sample_env 3000 "u3".
Definition env4 : Env := sample_env 60000000000 "u4".

Definition ops1 : list BufferOp :=
  [OpStore env1 (SigTrace traces1); OpStore env2 (SigMetric metric1); OpStore env3 (SigLog logs1)].
Definition full_buffer : SampleBuffer := default sample_buffer (sample_run ops1 sample_buffer).

Lemma ops1_ok : Forall op_env_ok ops1.
Proof. repeat constructor; apply sample_env_ok. Qed.

Lemma full_buffer_reachable : reachable sample_buffer full_buffer.
Proof.
  apply (sample_run_reachable ops1 sample_buffer sample_buffer); [apply ops1_ok|constructor|vm_compute; reflexivity|].
  vm_compute. reflexivity.
Qed.

Lemma full_buffer_inv : buf_inv full_buffer.
Proof. exact (reachable_inv _ _ sample_buffer_inv full_buffer_reachable). Qed.

Lemma full_buffer_distinct : distinct full_buffer.
Proof. apply backed_distinct, backedb_spec. vm_compute. reflexivity. Qed.

Lemma sample_fresh e b : op_freshb (OpStore e (OtherSignal TypeTrace (MkContext 0 ""))) b = true → env_ok e → store_fresh e b.
Proof. intros H He. exact (proj2 (op_freshb_spec (OpStore e (OtherSignal TypeTrace (MkContext 0 ""))) b He H)). Qed.

(** ** The buffer *)

Lemma run_op_safe_witness :
  ∃ b', run_op (OpRemoveMetrics env4 0 5000) full_buffer = Ok (tt, b') ∧ buf_inv b'.
Proof.
  exact (run_op_safe sample_config false sample_buffer full_buffer (OpRemoveMetrics env4 0 5000)
    sample_buffer_new full_buffer_reachable I).
Defined.

Lemma GetInRange_exact_witness :
  (∃ l, GetMetricsInRange 0 5000 full_buffer = Ok (map metric_at l, full_buffer) ∧ range_answer (metrics_at full_buffer) 0 5000 l)
  ∧ (∃ l, GetLogsInRange 0 5000 full_buffer = Ok (map log_at l, full_buffer) ∧ range_answer (logs_at full_buffer) 0 5000 l).
Proof. exact (GetInRange_exact full_buffer 0 5000 full_buffer_inv ltac:(vm_compute; reflexivity)). Defined.

Lemma RemoveInRange_exact_witness :
  (∃ b', RemoveMetricsInRange env4 0 2500 full_buffer = Ok (tt, b') ∧ buf_inv b'
    ∧ metrics_at b' = filter (λ x, ¬ in_range 0 2500 x.2.1) (metrics_at full_buffer)
    ∧ logs_at b' = logs_at full_buffer ∧ (∀ tid, trace_at b' tid = trace_at full_buffer tid)
    ∧ evictedChan b' = evictedChan full_buffer)
  ∧ (∃ b', RemoveLogsInRange env4 0 2500 full_buffer = Ok (tt, b') ∧ buf_inv b'
    ∧ logs_at b' = filter (λ x, ¬ in_range 0 2500 x.2.1) (logs_at full_buffer)
    ∧ metrics_at b' = metrics_at full_buffer ∧ (∀ tid, trace_at b' tid = trace_at full_buffer tid)
    ∧ evictedChan b' = evictedChan full_buffer).
Proof.
  destruct (RemoveInRange_exact env4 full_buffer 0 2500 full_buffer_inv ltac:(vm_compute; reflexivity))
    as [(b1 & Hr1 & Hb1 & H1) (b2 & Hr2 & Hb2 & H2)]. split.
  - exists b1. split; [exact Hr1|]. split; [exact Hb1|exact (H1 full_buffer_distinct)].
  - exists b2. split; [exact Hr2|]. split; [exact Hb2|exact (H2 full_buffer_distinct)].
Defined.

Lemma RemoveTrace_exact_witness :
  is_Some (trace_at full_buffer tidA) ∧
  ∃ b', RemoveTrace env4 tidA full_buffer = Ok (tt, b') ∧ buf_inv b'
    ∧ (∀ tid', trace_at b' tid' = if decide (tid' = tidA) then None else trace_at full_buffer tid')
    ∧ metrics_at b' = metrics_at full_buffer ∧ logs_at b' = logs_at full_buffer ∧ evictedChan b' = evictedChan full_buffer.
Proof.
  assert (is_Some (trace_at full_buffer tidA)) as Ht by (vm_compute; eexists; reflexivity).
  split; [exact Ht|]. exact (RemoveTrace_exact env4 full_buffer tidA full_buffer_inv Ht).
Defined.

Lemma GetTrace_entry_witness :
  GetTrace tidA full_buffer = Ok (trace_answer (trace_at full_buffer tidA), full_buffer)
  ∧ GetTraceLogs tidA full_buffer = Ok (logs_answer (trace_at full_buffer tidA), full_buffer).
Proof. exact (GetTrace_entry full_buffer tidA full_buffer_inv). Defined.

(** The traces of the batches. *)
Lemma traces1_ids tid : spans_of traces1 tid ≠ [] → tid = tidA ∨ tid = tidB.
Proof.
  unfold spans_of, alone_of. destruct (IsEmpty tid) eqn:E; [done|].
  change (flat (ts_Traces traces1)) with (map (λ sp, (sample_resource, sample_scope, sp)) [spanA; spanB; span0]).
  cbn [map]. rewrite !filter_cons, filter_nil. cbn [snd spanA spanB span0 sample_span sp_trace_id].
  repeat case_decide; subst; try tauto; done.
Qed.

Lemma logs1_ids tid : records_of logs1 tid ≠ [] → tid = tidA.
Proof.
  unfold records_of, alone_of. destruct (IsEmpty tid) eqn:E; [done|].
  change (flat (ls_Logs logs1)) with (map (λ lr, (sample_resource, sample_scope, lr)) [sample_log tidA "boom"; sample_log tid0 "tick"]).
  cbn [map]. rewrite !filter_cons, filter_nil. cbn [snd sample_log lr_trace_id].
  repeat case_decide; subst; try tauto; done.
Qed.

(** The cache of the empty buffer accepts a batch. *)
Lemma storeTraces_appends_witness :
  ∃ b', storeTraces env1 traces1 sample_buffer = Ok (None, b') ∧ buf_inv b'
    ∧ trace_at b' tidB = Some (MkEntry 1000 (spans_of traces1 tidB) []).
Proof.
  destruct (storeTraces_appends env1 traces1 sample_buffer) as (b' & Hr & Hb & Ht & _).
  - exact sample_buffer_inv.
  - apply sample_env_ok.
  - apply acceptsb_spec. vm_compute. reflexivity.
  - intros tid [-> | ->]%traces1_ids; vm_compute; by eexists.
  - exists b'. split; [exact Hr|]. split; [exact Hb|]. rewrite Ht. vm_compute. reflexivity.
Defined.

Lemma storeMetric_inserts_witness :
  ∃ b', storeMetric env2 metric1 sample_buffer = Ok (None, b') ∧ buf_inv b'
    ∧ metrics_at b' = <[new_key KMetric env2 := (2000%Z, ms_Metrics metric1)]> ∅.
Proof.
  assert (is_Some (marshal (ms_Metrics metric1))) as [data Hm] by (vm_compute; by eexists).
  pose proof (storeMetric_inserts env2 metric1 sample_buffer sample_buffer_inv) as H. rewrite Hm in H.
  destruct H as (b' & Hr & Hb & Hi & _).
  - apply sample_fresh; [vm_compute; reflexivity|apply sample_env_ok].
  - apply acceptsb_spec. vm_compute. reflexivity.
  - exists b'. split; [exact Hr|]. split; [exact Hb|]. rewrite Hi. vm_compute. reflexivity.
Defined.

Lemma storeSplitLogs_splits_witness :
  ∃ b', storeSplitLogs env3 logs1 sample_buffer = Ok (None, b') ∧ buf_inv b'
    ∧ trace_at b' tidA = Some (MkEntry 3000 [] (records_of logs1 tidA)).
Proof.
  destruct (storeSplitLogs_splits env3 logs1 sample_buffer) as (b' & Hr & Hb & Ht & _).
  - exact sample_buffer_inv.
  - apply sample_env_ok.
  - apply sample_fresh; [vm_compute; reflexivity|apply sample_env_ok].
  - apply acceptsb_spec. vm_compute. reflexivity.
  - intros tid ->%logs1_ids. vm_compute. by eexists.
  - intros l Hl. vm_compute in Hl. injection Hl as <-. vm_compute. by eexists.
  - exists b'. split; [exact Hr|]. split; [exact Hb|]. rewrite Ht. vm_compute. reflexivity.
Defined.

Lemma Ok_state {S A} (a a' : A) (s s' : S) : Ok (a, s) = Ok (a', s') → s = s'.
Proof. by intros [= _ ->]. Qed.

Definition cleaned_buffer : SampleBuffer :=
  match cacheClean env4 full_buffer with Ok (_, b) => b | _ => full_buffer end.

(** All of the full buffer expires; only its metric and its free logs are
    passed on. *)
Lemma cacheClean_forwards_witness :
  ∃ b', cacheClean env4 full_buffer = Ok (tt, b') ∧ buf_inv b' ∧ trace_at b' tidA = None ∧ length (chan_buf (evictedChan b')) = 2.
Proof.
  destruct (cacheClean_forwards env4 full_buffer full_buffer_inv) as (evs & b' & Hr & Hb & _).
  exists b'. split; [exact Hr|]. split; [exact Hb|].
  assert (cacheClean env4 full_buffer = Ok (tt, cleaned_buffer)) as Hc by (vm_compute; reflexivity).
  rewrite Hr in Hc. apply Ok_state in Hc. rewrite Hc.
  split; vm_compute; reflexivity.
Defined.

(** A clean-up run comes between the cache and the index. *)
Lemma late_index_leaks_witness :
  ∃ data b1 b2 b3, cacheSet env2 (new_key KMetric env2) data sample_buffer = Ok (true, b1) ∧ cacheClean env4 b1 = Ok (tt, b2)
    ∧ indexMetric (new_key KMetric env2) 2000 b2 = Ok (tt, b3)
    ∧ ∀ b', reachable b3 b' → metricKeyMap b' !! new_key KMetric env2 = Some 2000%Z ∧ cview (cache b') !! new_key KMetric env2 = None.
Proof.
  set (data := default [] (marshal (ms_Metrics metric1))).
  set (b1 := match cacheSet env2 (new_key KMetric env2) data sample_buffer with Ok (_, b) => b | _ => sample_buffer end).
  set (b2 := match cacheClean env4 b1 with Ok (_, b) => b | _ => sample_buffer end).
  assert (cacheSet env2 (new_key KMetric env2) data sample_buffer = Ok (true, b1)) as H1 by (vm_compute; reflexivity).
  assert (cacheClean env4 b1 = Ok (tt, b2)) as H2 by (vm_compute; reflexivity).
  destruct (late_index_leaks env2 data sample_buffer b1 b2) as (b3 & H3 & Hall).
  - exact sample_buffer_inv.
  - apply sample_fresh; [vm_compute; reflexivity|apply sample_env_ok].
  - exact H1.
  - exact (step_clean _ _ _ H2).
  - vm_compute. reflexivity.
  - exists data, b1, b2, b3. split; [exact H1|]. split; [exact H2|]. split; [exact H3|exact Hall].
Defined.

(** ** The rollup *)

Definition coarse_rollup : Rollup.Processor := Rollup.MkProcessor (MkRollupConfig true) Unlocked Rollup.LevelCoarse.
Definition metric2 : MetricSignal := sample_metric_sig [sample_sum "requests" [sample_point 5 [("host", VStr "c")]]].

Lemma RollupMetrics_spec_witness :
  ∃ out, Rollup.RollupMetrics [metric1; metric2] coarse_rollup = Ok (out, coarse_rollup)
    ∧ sumZ (metric_total "requests") (items out) = 12%Z.
Proof.
  rewrite (RollupMetrics_spec coarse_rollup [metric1; metric2] eq_refl).
  eexists. split; [vm_compute; reflexivity|]. vm_compute. reflexivity.
Defined.

Lemma rollupDataPoints_groups_witness :
  let pts := [[sample_point 3 [("host", VStr "a")]]; [sample_point 4 [("host", VStr "a")]; sample_point 5 [("host", VStr "b")]]] in
  fold_opt (λ dest src, Rollup.rollupDataPoints dest src Rollup.LevelMedium) [] pts
  = mapM (rolled_point Rollup.LevelMedium) (groups (λ dp, Rollup.filterAttributesKey (dp_attrs dp) Rollup.LevelMedium) (flat_map id pts)).
Proof.
  intros pts. apply (rollupDataPoints_groups Rollup.LevelMedium pts).
  repeat constructor; cbn; rewrite ?elem_of_nil; auto.
Defined.

Lemma rollupMetricsAt_panics_witness :
  Rollup.rollupMetricsAt [sample_metric_sig [sample_sum "m" [sample_point 1 []];
    MkMetric "m" "" "1" [] (MDGauge [sample_point 1 []])]] Rollup.LevelMedium = None.
Proof.
  set (s := sample_sum "m" [sample_point 1 []]). set (g := MkMetric "m" "" "1" [] (MDGauge [sample_point 1 []])).
  apply rollupMetricsAt_panics.
  exists [sample_group [s; g]], [MkSG sample_scope [s; g] ""], [s; g].
  split; [vm_compute; left|]. split; [vm_compute; left|]. split; [vm_compute; left|].
  exists g. split; [right; left|]. split; [left; reflexivity|]. vm_compute. discriminate.
Defined.

Lemma rollupMetricsAt_total_witness :
  ∃ out, Rollup.rollupMetricsAt [metric1; metric2] Rollup.LevelCoarse = Some out
    ∧ eq64 (sumZ (metric_total "requests") (items out)) 12.
Proof.
  eexists. split; [vm_compute; reflexivity|].
  apply (rollupMetricsAt_total "requests" [metric1; metric2] Rollup.LevelCoarse); [|vm_compute; reflexivity].
  repeat constructor.
Defined.

Lemma rollupMetricsAt_coarse_witness :
  ∃ out, Rollup.rollupMetricsAt [metric1; metric2] Rollup.LevelCoarse = Some out
    ∧ Forall (coarse_metric (items (flat_map ms_Metrics [metric1; metric2]))) (items out).
Proof.
  eexists. split; [vm_compute; reflexivity|].
  apply (rollupMetricsAt_coarse [metric1; metric2]). vm_compute. reflexivity.
Defined.

Lemma RollupLogs_spec_witness : ∃ out, Rollup.RollupLogs [logs1; logs1] coarse_rollup = Ok (out, coarse_rollup).
Proof. destruct (RollupLogs_spec coarse_rollup [logs1; logs1] eq_refl) as (out & H & _). exists out. exact H. Defined.

Lemma rollupLogsAt_counts_witness :
  ∃ out, Rollup.rollupLogsAt [logs1; logs1] Rollup.LevelCoarse = Some out ∧ sumZ count_of (items out) = 4%Z.
Proof.
  destruct (rollupLogsAt_counts [logs1; logs1] Rollup.LevelCoarse) as (out & H & _ & Hs).
  - apply (Forall_impl (λ lr, NoDup (lr_attrs lr).*1)); [|intros lr H _; exact H].
    apply (bool_decide_unpack _). vm_compute. exact I.
  - vm_compute. discriminate.
  - exists out. split; [exact H|exact Hs].
Defined.

(** ** Gossip and decisions *)

Definition decisionA : SamplingDecision := MkDecision (trace_key tidA) "errors" 1000 "local" 1500 2600.
Definition triggerH : TriggerEvent := MkTrigger "high_load" (float64_of_Z 5) (float64_of_Z 4) 1000.

Lemma Broadcast_roundtrip_witness :
  ∃ data m', Gossip.BroadcastDecision decisionA sample_gossip = Ok (None, m')
    ∧ Gossip.NotifyMsg data sample_gossip = Ok (tt, Gossip.deliverDecision decisionA sample_gossip).
Proof.
  destruct (proj1 (Gossip.Broadcast_roundtrip decisionA triggerH sample_gossip [] eq_refl))
    as (data & m' & q' & Hr & _ & _ & _ & _ & Hn); [vm_compute; by eexists|].
  exists data, m'. split; [exact Hr|apply Hn].
Defined.

Lemma NotifyMsg_total_witness : ∃ m', Gossip.NotifyMsg ["255"%byte; "000"%byte] sample_gossip = Ok (tt, m') ∧ m' = sample_gossip.
Proof.
  destruct (Gossip.NotifyMsg_total ["255"%byte; "000"%byte] sample_gossip) as (m' & Hr & _ & _ & Hsame).
  - split; vm_compute; lia.
  - exists m'. split; [exact Hr|]. apply Hsame. right. left. vm_compute. reflexivity.
Defined.

Lemma Start_spec_witness :
  Gossip.Start (Gossip.New (MkGossipConfig 7946 "0.0.0.0" 0) (StaticDiscovery []) false : Gossip.Manager unit (list bytes)) = Panic.
Proof.
  apply (Gossip.Start_spec (MkGossipConfig 7946 "0.0.0.0" 0) (StaticDiscovery []) false decisionA triggerH).
  - vm_compute. by eexists.
  - vm_compute. by eexists.
  - reflexivity.
  - by eexists.
Defined.

Definition traces2 : TraceSignal := sample_traces_sig [spanA; spanB].

Lemma traces2_ok : Forall Decision.time_ok (items (ts_Traces traces2)).
Proof. repeat constructor; vm_compute; discriminate. Qed.

Definition error_engine : Decision.Engine := Decision.New (Config.Decision sample_main_config) true false.

Lemma EvaluateTrace_spec_witness :
  Decision.EvaluateTrace 1000 error_engine traces2 sample_gossip =
  (_ ← broadcast_decision (MkDecision (trace_key tidA) "errors" 1000 "local" 100 400); mret tt) sample_gossip.
Proof.
  rewrite (proj1 (Decision.EvaluateTrace_spec 1000 error_engine traces2 sample_gossip traces2_ok)). vm_compute. reflexivity.
Defined.

(** 100 ns is above the wrapped threshold of 10^13 ms. *)
Lemma policy_matching_witness :
  Decision.matches traces2 (MkPolicyConfig "slow" "latency" 10000000000000 "" "" float64_zero) = true.
Proof.
  destruct (Decision.policy_matching traces2 (MkPolicyConfig "slow" "latency" 10000000000000 "" "" float64_zero) traces2_ok)
    as (Hm & _ & Ht & _).
  apply Hm. exists spanA. split; [vm_compute; left|]. right. left. split; [reflexivity|].
  rewrite (Ht eq_refl). vm_compute. reflexivity.
Defined.

Lemma decision_names_other_trace_witness :
  trace_key tidA ≠ trace_key tidB ∧
  Decision.EvaluateTrace 1000 (Decision.New (MkDecisionConfig [MkPolicyConfig "errors" "error" 0 "" "" float64_zero]) true false)
    (MkTraceSignal (map (λ sp, singleton_group (MkResource [] "") (MkScope "" "" "") sp) [spanA; spanB]) (MkContext 1000 ""))
    sample_gossip =
  (_ ← broadcast_decision (MkDecision (trace_key tidA) "errors" 1000 "local" 100 400); mret tt) sample_gossip.
Proof.
  apply (Decision.decision_names_other_trace 1000 "errors" 0 spanA spanB [] sample_gossip).
  - exact traces2_ok.
  - vm_compute. reflexivity.
  - intros H. apply (f_equal tid_bytes) in H. vm_compute in H. discriminate.
  - discriminate.
  - reflexivity.
Defined.

(** ** The write-ahead log *)

Lemma Write_spec_witness :
  ∃ l', Wal.Write (SigMetric metric1) sample_log_file = Ok (None, l') ∧ length (Wal.entries l') = 2.
Proof.
  destruct (Wal.Write_spec (SigMetric metric1) sample_log_file eq_refl) as (r & l' & Hr & _ & Hspec & _).
  assert (r = None) as -> by (vm_compute in Hr; congruence).
  exists l'. split; [exact Hr|]. destruct Hspec as [(b & _ & He) _]. rewrite He, length_app. vm_compute. reflexivity.
Defined.

Lemma Replay_spec_witness :
  Wal.Replay (λ sig, modifyS (λ l, l ++ [sig])) (sample_log_file, []) = Ok (None, (sample_log_file, [sample_metric_signal])).
Proof. rewrite (Wal.Replay_spec (λ sig, modifyS (λ l, l ++ [sig])) sample_log_file [] eq_refl). vm_compute. reflexivity. Defined.

(** The only record of the log is older: the log file refuses. *)
Lemma TruncateBefore_spec_witness : ∃ n, n ≤ 1 ∧ (n = 1 → Wal.TruncateBefore 1000 sample_log_file = Ok (Some ErrWalFile, sample_log_file)).
Proof.
  destruct (Wal.TruncateBefore_spec 1000 sample_log_file eq_refl) as (n & Hn & _ & _ & Hr).
  exists n. split; [exact Hn|]. intros ->. exact Hr.
Defined.

(** ** The processor *)

Lemma labelGroups_spec_witness :
  Forall (λ g, map_get "sampler.processed" (res_attrs (rg_resource g)) = Some (VBool true)) (Processor.labelGroups (ts_Traces traces2)).
Proof. apply (labelGroups_spec (ts_Traces traces2)). Defined.

Lemma processDecision_spec_witness :
  ∃ p', Processor.processDecision env4 decisionA (sample_proc full_buffer) = Ok (tt, p')
    ∧ bm_trace (Processor.buffer p') tidA = None.
Proof.
  pose proof (processDecision_spec env4 decisionA (sample_proc full_buffer) full_buffer_inv full_buffer_distinct ltac:(vm_compute; reflexivity)) as H.
  assert (Processor.parseTraceID (sd_TraceID decisionA) = Some tidA) as Hid by apply parse_trace_key.
  rewrite Hid in H. destruct H as (p' & lm & ll & Hr & _ & _ & _ & _ & Ht & _).
  exists p'. split; [exact Hr|]. rewrite Ht, decide_True; [reflexivity|]. split; [reflexivity|vm_compute; by eexists].
Defined.

Lemma trace_logs_lost_witness :
  is_Some (bm_trace full_buffer tidA) ∧
  ∃ p', Processor.processDecision env4 decisionA (sample_proc full_buffer) = Ok (tt, p') ∧ bm_trace (Processor.buffer p') tidA = None.
Proof.
  split; [vm_compute; by eexists|].
  edestruct (trace_logs_lost env4 decisionA (sample_proc full_buffer) tidA) as (p' & lm & ll & Hr & _ & _ & _ & Ht).
  - apply parse_trace_key.
  - exact full_buffer_inv.
  - exact full_buffer_distinct.
  - vm_compute. reflexivity.
  - vm_compute. reflexivity.
  - vm_compute. discriminate.
  - vm_compute. discriminate.
  - exists p'. split; [exact Hr|exact Ht].
Defined.

Lemma cleaned_buffer_inv : buf_inv cleaned_buffer.
Proof. destruct (run_op_ok (OpClean env4) full_buffer full_buffer_inv I) as (b' & Hr & Hb).
  assert (cacheClean env4 full_buffer = Ok (tt, cleaned_buffer)) as Hc by (vm_compute; reflexivity).
  cbn [run_op] in Hr. rewrite Hr in Hc. apply Ok_state in Hc. by rewrite <- Hc.
Qed.

Lemma consumeEvicted_spec_witness :
  length (bm_evicted cleaned_buffer) = 2 ∧
  ∃ p', Processor.consumeEvicted (sample_proc cleaned_buffer) = Ok (tt, p') ∧ bm_evicted (Processor.buffer p') = tail (bm_evicted cleaned_buffer).
Proof.
  split; [vm_compute; reflexivity|].
  destruct (consumeEvicted_spec (sample_proc cleaned_buffer)) as (p' & Hr & _ & _ & _ & Ht & _).
  - exact cleaned_buffer_inv.
  - reflexivity.
  - exists p'. split; [exact Hr|exact Ht].
Defined.

Lemma performRollup_spec_witness :
  size (bm_metrics full_buffer) = 1 ∧
  ∃ p', Processor.performRollup env4 (sample_proc full_buffer) = Ok (tt, p') ∧ bm_metrics (Processor.buffer p') = ∅.
Proof.
  split; [vm_compute; reflexivity|].
  destruct (performRollup_spec env4 (sample_proc full_buffer)) as (lm & ll & Hlm & _ & Hspec).
  - exact full_buffer_inv.
  - exact full_buffer_distinct.
  - vm_compute. reflexivity.
  - reflexivity.
  - reflexivity.
  - assert (rollup_metrics (Processor.rollup (sample_proc full_buffer)) (map metric_at lm ++ Processor.evictedMetrics (sample_proc full_buffer))
      = Some (flat_map ms_Metrics (map metric_at lm ++ []))) as Hout by reflexivity.
    cbv zeta in Hspec. rewrite Hout in Hspec. destruct Hspec as (outL & p' & Hr & _ & _ & _ & _ & _ & _ & _ & Hm & _).
    exists p'. split; [exact Hr|]. rewrite Hm. vm_compute. reflexivity.
Defined.

(** ** A node *)

Lemma sample_node_inv b : buf_inv b → node_inv (sample_node b).
Proof.
  intros Hb. split.
  - by split.
  - split_and!; [by eexists|by eexists|by split; vm_compute; lia|vm_compute; lia|vm_compute; lia].
  - by exists sample_log_file.
Qed.

Definition node0 : SampleNode := sample_node sample_buffer.

Lemma node0_inv : node_inv node0.
Proof. apply sample_node_inv, sample_buffer_inv. Qed.

Lemma sample_event_ok e sig b :
  op_freshb (OpStore e (OtherSignal TypeTrace (MkContext 0 ""))) b = true → env_ok e →
  event_ok (Main.EvConsume e sig) (sample_node b).
Proof. intros. split; [done|]. by apply sample_fresh. Qed.

(** The node boots from a log with one record. *)
Lemma service_safe_witness :
  ∃ n0, Main.boot sample_envs sample_resolver sample_main_config None (Some sample_exporter) (Some sample_buffer) = Ok (Some n0)
    ∧ ∃ n1 : SampleNode, Main.run_event (Main.EvNotify ["255"%byte]) n0 = Ok (tt, n1).
Proof.
  destruct (service_safe (L := unit) (Q := list bytes) sample_envs sample_resolver sample_main_config None sample_exporter
    sample_buffer sample_log_file) as (r & Hr & Hsome & Hsafe).
  - reflexivity.
  - exact sample_buffer_inv.
  - vm_compute. reflexivity.
  - intros b' Hb. injection Hb as <-. change (Wal.replayed sample_log_file) with [sample_metric_signal].
    split; [apply sample_env_ok|]. split; [|by intros].
    apply sample_fresh; [vm_compute; reflexivity|apply sample_env_ok].
  - destruct (proj2 Hsome) as [n0 ->]; [split; [by eexists|by eexists]|].
    exists n0. split; [exact Hr|].
    destruct (Hsafe n0 n0 (Main.EvNotify ["255"%byte]) eq_refl (node_booted n0) I) as [Hok _].
    apply Hok. by intros (e & ? & _).
Defined.

Lemma Consume_spec_witness :
  ∃ r n' w', Main.Consume env1 (SigTrace traces1) node0 = Ok (r, n') ∧ Main.walLog n' = Some w' ∧ length (Wal.entries w') = 2.
Proof.
  destruct (Consume_spec env1 (SigTrace traces1) node0 sample_log_file) as (r & n' & w' & Hr & _ & Hw & Hspec).
  - exact node0_inv.
  - reflexivity.
  - apply sample_event_ok; [vm_compute; reflexivity|apply sample_env_ok].
  - exists r, n', w'. split; [exact Hr|]. split; [exact Hw|].
    assert (r = None) as -> by (vm_compute in Hr; congruence).
    destruct Hspec as [(data & _ & He) _]. rewrite He, length_app. vm_compute. reflexivity.
Defined.

Definition inputs1 : list (Env * Signal) := [(env1, SigTrace traces1); (env2, SigMetric metric1)].

Lemma recovery_witness :
  ∃ rs n' w', consume_all inputs1 node0 = Ok (rs, n') ∧ Main.walLog n' = Some w' ∧ length rs = 2.
Proof.
  destruct (recovery inputs1 node0 sample_log_file) as (rs & n' & w' & Hr & Hw & Hlen & _).
  - exact node0_inv.
  - reflexivity.
  - split; [apply sample_event_ok; [vm_compute; reflexivity|apply sample_env_ok]|].
    intros r n' Hr. split; [|done]. split; [apply sample_env_ok|].
    apply sample_fresh; [|apply sample_env_ok]. revert Hr. vm_compute. intros [= _ <-]. reflexivity.
  - exists rs, n', w'. split; [exact Hr|]. split; [exact Hw|exact Hlen].
Defined.

Definition sample_receiver : Receiver.Receiver (S := SampleNode) (G := unit) :=
  Receiver.New (Config.Receiver sample_main_config) node0 false None.

Lemma acknowledged_is_logged_witness :
  ∃ res r' w', Receiver.traceExport env1 (ts_Traces traces1) sample_receiver = Ok (res, r')
    ∧ Main.walLog (Receiver.consumer r') = Some w'
    ∧ (res = None → Wal.replayed w' = [sample_metric_signal; SigTrace (MkTraceSignal (ts_Traces traces1) (MkContext 1000 ""))]).
Proof.
  destruct (acknowledged_is_logged env1 (ts_Traces traces1) [] [] (Receiver.traceExport env1 (ts_Traces traces1))
    (SigTrace (MkTraceSignal (ts_Traces traces1) (MkContext 1000 ""))) sample_receiver sample_log_file)
    as (res & r' & w' & Hr & _ & _ & Hw & Hrep).
  - left.
  - exact node0_inv.
  - reflexivity.
  - apply sample_event_ok; [vm_compute; reflexivity|apply sample_env_ok].
  - exists res, r', w'. split; [exact Hr|]. split; [exact Hw|exact Hrep].
Defined.

(** The batch with an error on [tidB] names [tidA]; another node has its spans. *)
Definition node2 : SampleNode := sample_node full_buffer.

Lemma cluster_sampling_witness :
  ∃ n' data q, Main.Consume env1 (SigTrace traces2) node0 = Ok (None, n')
    ∧ Gossip.broadcasts (Main.gsp n') = Some q ∧ data ∈ tq_view q
    ∧ ∃ m1 m2, Main.run_event (Main.EvNotify data) node2 = Ok (tt, m1) ∧ Main.run_event (Main.EvDecision env4) m1 = Ok (tt, m2)
        ∧ bm_trace (buf m2) tidA = None.
Proof.
  assert (∃ n', Main.Consume env1 (SigTrace traces2) node0 = Ok (None, n')) as [n' Hc] by (vm_compute; by eexists).
  destruct (cluster_sampling env1 traces2 node0 n' 0 (MkPolicyConfig "errors" "error" 0 "" "" float64_zero) 0 spanA)
    as (data & q & Hq & Hin & _ & Hall).
  - exact node0_inv.
  - apply sample_event_ok; [vm_compute; reflexivity|apply sample_env_ok].
  - reflexivity.
  - exact traces2_ok.
  - vm_compute. reflexivity.
  - vm_compute. reflexivity.
  - vm_compute. reflexivity.
  - vm_compute. by eexists.
  - exact Hc.
  - exists n', data, q. split; [exact Hc|]. split; [exact Hq|]. split; [exact Hin|].
    destruct (Hall node2 env4 (sample_node_inv _ full_buffer_inv) full_buffer_distinct eq_refl) as (m1 & m2 & H1 & H2 & lm & ll & _ & _ & _ & Ht & _).
    exists m1, m2. split; [exact H1|]. split; [exact H2|]. rewrite Ht, decide_True; [reflexivity|].
    split; [reflexivity|vm_compute; by eexists].
Defined.

(** A node that allows two traces holds four entries. *)
Definition small_config : Config.Config :=
  {| Config.Debug := false; Config.Receiver := Config.Receiver Config.DefaultConfig;
     Config.Buffer := MkBufferConfig 4 30 2; Config.Discovery := Config.Discovery Config.DefaultConfig;
     Config.Gossip := Config.Gossip Config.DefaultConfig; Config.Decision := MkDecisionConfig [];
     Config.Rollup := MkRollupConfig true; Config.Exporter := Config.Exporter Config.DefaultConfig |}.
Definition loaded_node : SampleNode :=
  Main.MkNode small_config (sample_proc full_buffer) sample_gossip (Decision.New (MkDecisionConfig []) true false)
    (Some sample_log_file) false.

Lemma high_load_everywhere_witness :
  ∃ n1 n2, Main.loadTick env4 loaded_node = Ok (tt, n1) ∧ Main.highLoadActive n1 = true
    ∧ Main.run_event Main.EvTrigger n1 = Ok (tt, n2) ∧ level n2 = Rollup.LevelCoarse.
Proof.
  destruct (high_load_everywhere env4 loaded_node) as (c & n1 & Hc & Hr & Hspec).
  - destruct (sample_node_inv full_buffer full_buffer_inv) as [Hp Hg Hw]. split; [exact Hp|exact Hg|exact Hw].
  - reflexivity.
  - assert (c = 4) as -> by (vm_compute in Hc; congruence).
    assert (node_above loaded_node 4 = true) as Ha by (vm_compute; reflexivity).
    cbn [Main.highLoadActive loaded_node] in Hspec. cbv zeta in Hspec. rewrite Ha in Hspec.
    destruct Hspec as [Hact Hlvl].
    assert (is_Some (marshal (Gossip.triggerMessage (Main.loadTrigger (env_now env4) 4 (Main.loadThreshold (Main.config loaded_node))))))
      as [data Hm] by (vm_compute; by eexists).
    destruct (Hlvl data Hm) as (_ & (n2 & H2 & Hl) & _).
    exists n1, n2. split; [exact Hr|]. split; [exact Hact|]. split; [exact H2|exact Hl].
Defined.

(** ** Discovery *)

Lemma GetPeers_dns_witness : srvPeer (MkSRV ("node-a" +:+ ".") 7946) = "node-a:7946".
Proof. exact (proj1 (proj2 (GetPeers_dns "sampler" sample_resolver) "node-a" 7946%Z)). Defined.
