(* ===== verification/WitnessesSystem.v ===== *)
(** The properties of goroutines, of a cluster and of the whole process, each at a
    concrete input where its hypotheses hold. *)
From S2P Require Import Prelude Locks GoStd PData Signals Config Cache Gob Buffer BufferLemmas Split BufferSpec BufferTypes BufferLocks BufferTheorems BufferRefinement Manager BufferRaces.
From S2P Require Import Grouping Rollup RollupTheorems Discovery Gossip Decision Wal Telemetry Processor ProcessorTheorems Receiver Main MainTheorems Lifecycle Cluster Liveness.
From S2P Require Import Samples SamplesNode Witnesses.

(** ** The buffer *)

Definition refined_ops : list BufferOp :=
  [OpStore env2 (SigMetric metric1); OpGetMetrics 0 5000; OpCount; OpRemoveMetrics env3 0 5000; OpGetMetrics 0 5000].

Lemma buffer_refines_witness :
  ∃ answers b', answer_ops refined_ops sample_buffer = Ok (answers, b')
    ∧ specs refined_ops (table_of sample_buffer) answers (table_of b')
    ∧ answers !! 2 = Some (ACount 1) ∧ last answers = Some (AMetrics []).
Proof.
  destruct (buffer_refines sample_config false sample_buffer refined_ops) as (_ & _ & _ & answers & b' & Hr & Hs).
  - reflexivity.
  - split; [split; [apply sample_env_ok|apply sample_fresh; [vm_compute; reflexivity|apply sample_env_ok]]|].
    split; [exact I|]. split; [apply acceptsb_spec; vm_compute; reflexivity|].
    intros _ b1 _. split; [exact I|]. split; [vm_compute; reflexivity|]. split; [exact I|].
    intros _ b2 _. split; [exact I|]. split; [exact I|]. split; [exact I|].
    intros _ b3 _. split; [exact I|]. split; [vm_compute; reflexivity|]. split; [exact I|].
    intros _ b4 _. split; [exact I|]. split; [vm_compute; reflexivity|]. split; [exact I|]. by intros.
  - exists answers, b'. split; [exact Hr|]. split; [exact Hs|].
    assert (match answer_ops refined_ops sample_buffer with
            | Ok (l, _) => l !! 2 = Some (ACount 1) ∧ last l = Some (AMetrics []) | _ => False end) as H
      by (vm_compute; split; reflexivity).
    by rewrite Hr in H.
Defined.

Lemma cache_well_typed_witness :
  dom (cview (cache full_buffer)) ≠ ∅ ∧ (∀ k v, cview (cache full_buffer) !! k = Some v → well_typed k v).
Proof.
  split; [vm_compute; discriminate|].
  apply (cache_well_typed sample_config false sample_buffer full_buffer sample_buffer_new full_buffer_reachable).
Defined.

Lemma concurrent_store_lost_witness :
  ∃ y1 y2 b', fetchFirst env1 tidA (inl [singleton_group sample_resource sample_scope spanA]) sample_buffer = Ok (y1, sample_buffer)
    ∧ fetchTrace env2 tidA [singleton_group sample_resource sample_scope spanB] sample_buffer = Ok (y2, sample_buffer)
    ∧ (_ ← setEntry env1 tidA y1; setEntry env2 tidA y2) sample_buffer = Ok (tt, b')
    ∧ trace_at b' tidA = Some (MkEntry 2000 [singleton_group sample_resource sample_scope spanB] []).
Proof.
  destruct (concurrent_store_lost env1 env2 tidA (inl [singleton_group sample_resource sample_scope spanA])
    [singleton_group sample_resource sample_scope spanB] sample_buffer) as (_ & _ & y1 & y2 & b' & H1 & H2 & Hr & _ & Ht).
  - exact sample_buffer_inv.
  - done.
  - done.
  - vm_compute. by eexists.
  - exists y1, y2, b'. split; [exact H1|]. split; [exact H2|]. split; [exact Hr|]. apply Ht.
    clear - H1 H2. vm_compute in H1, H2. injection H1 as <-. injection H2 as <-. vm_compute. reflexivity.
Defined.

(** ** Mutexes *)

Definition two_writers : list (list Task) :=
  [[TStore (CallsMetric (Some ("m_1", 1, true))); TWrite]; [TRemoveTrace "01" 1]].

Lemma goroutines_finish_witness :
  ∃ s, moves 18 (map (run_tasks (λ _, 0%N) true) two_writers) s ∧ finished s.
Proof.
  set (s0 := map (run_tasks (λ _, 0%N) true) two_writers).
  assert (∃ s, run_schedule (replicate 12 0 ++ replicate 6 1) s0 = Some s) as [s Hs] by (vm_compute; by eexists).
  apply run_schedule_moves in Hs. exists s. split; [exact Hs|].
  destruct (goroutines_finish (λ _, 0%N) true two_writers 18 s) as (_ & _ & Hf).
  - intros ts t Hts Ht. right. unfold two_writers in Hts. rewrite !elem_of_cons, elem_of_nil in Hts.
    destruct Hts as [-> |[-> |[]]]; rewrite ?elem_of_cons, elem_of_nil in Ht; by destruct_or!; subst.
  - exact Hs.
  - apply Hf. vm_compute. reflexivity.
Defined.

Lemma query_removal_deadlock_witness :
  ∃ sched s,
    run_schedule sched [run_tasks (λ _, 0%N) true [GetInRange_task metricTimeIndex 0 5000 full_buffer];
                        run_tasks (λ _, 0%N) true [RemoveInRange_task metricTimeIndex env3 0 5000 full_buffer]] = Some s
    ∧ deadlocked s.
Proof.
  set (keys := range_keys metricTimeIndex 0 5000 full_buffer).
  apply (query_removal_deadlock (λ _, 0%N) metricTimeIndex env3 0 5000 full_buffer (default "" (head keys)) (tail keys)
    (default [] (cview (cache full_buffer) !! default "" (head keys)))).
  - vm_compute. reflexivity.
  - vm_compute. reflexivity.
Defined.

(** ** A cluster *)

Definition pair0 : Cluster := MkCluster [node0; sample_node sample_buffer] [].
Definition event1 : ClusterEvent := CNode 0 (Main.EvConsume env1 (SigTrace traces2)).
Definition pair1 : Cluster := default pair0 (cluster_step event1 pair0).
Definition pair2 : Cluster := default pair0 (cluster_step (CSend 0 0 0) pair1).
Definition event3 : ClusterEvent := CDeliver 1 (default [] (head (wire pair2))).
Definition pair3 : Cluster := default pair0 (cluster_step event3 pair2).

(** Node 0 consumes a batch with an error and sends; node 1 hears the decision. *)
Lemma decisions_explained_witness :
  ∃ n d, nodes pair3 !! 1 = Some n ∧ d ∈ chan_buf (Gossip.decisionChan (Main.gsp n))
    ∧ decided_in pair0 [event1; CSend 0 0 0; event3] d.
Proof.
  assert (cluster_runs pair0 [event1; CSend 0 0 0; event3] pair3) as Hr.
  { apply (runs_step _ [event1; CSend 0 0 0] pair2); [|vm_compute; reflexivity].
    apply (runs_step _ [event1] pair1); [|vm_compute; reflexivity].
    apply (runs_step _ [] pair0); [constructor|vm_compute; reflexivity]. }
  set (n := default node0 (nodes pair3 !! 1)).
  set (d := default decisionA (head (chan_buf (Gossip.decisionChan (Main.gsp n))))).
  exists n, d. split; [vm_compute; reflexivity|].
  assert (d ∈ chan_buf (Gossip.decisionChan (Main.gsp n))) as Hd.
  { replace (chan_buf (Gossip.decisionChan (Main.gsp n))) with [d] by (vm_compute; reflexivity). apply list_elem_of_here. }
  split; [exact Hd|].
  destruct (decisions_explained pair0 [event1; CSend 0 0 0; event3] pair3 1 n) as [Hdec _].
  - repeat constructor; by intros q [= <-].
  - reflexivity.
  - exact Hr.
  - vm_compute. reflexivity.
  - by apply Hdec.
Defined.

(** ** Liveness *)

Definition waiting_node : SampleNode :=
  Main.set_gsp (Gossip.deliverDecision decisionA (Main.gsp node0)) node0.

Lemma decision_handled_witness :
  ∃ evs1 e evs2 n1 n2, [Main.EvTrigger; Main.EvDecision env4] = evs1 ++ Main.EvDecision e :: evs2
    ∧ Main.run_event (Main.EvDecision e) n1 = Ok (tt, n2)
    ∧ Processor.processDecision e decisionA (Main.proc (n1 : SampleNode)) = Ok (tt, Main.proc n2).
Proof.
  set (m1 := match Main.run_event Main.EvTrigger waiting_node with Ok (_, n) => n | _ => node0 end).
  set (m2 := match Main.run_event (Main.EvDecision env4) m1 with Ok (_, n) => n | _ => node0 end).
  destruct (decision_handled waiting_node [Main.EvTrigger; Main.EvDecision env4] m2 [] decisionA)
    as (evs1 & e & evs2 & n1 & n2 & Heq & _ & _ & _ & Hr & Hp & _).
  - apply set_gsp_inv; [exact node0_inv|]. apply Gossip.started_deliverDecision, node0_inv.
  - apply (node_runs_cons _ _ m1); [exact I|vm_compute; reflexivity|].
    apply (node_runs_cons _ _ m2); [exact I|vm_compute; reflexivity|constructor].
  - by exists [].
  - cbn. lia.
  - exists evs1, e, evs2, n1, n2. split; [exact Heq|]. split; [exact Hr|exact Hp].
Defined.

(** ** The process *)

Definition booted : option SampleNode :=
  match Main.boot sample_envs sample_resolver sample_main_config (Lifecycle.registered sample_main_config)
    (OTLP.New (Config.Exporter sample_main_config)) (New sample_config false) with Ok r => r | _ => None end.

Lemma clean_shutdown_witness :
  ∃ w, Lifecycle.process (G := list string) (L := unit) (Q := list bytes) (F := SampleFile) (NC := list Export)
         (New (C := QueueCache.cache) (T := list TimeKey)) sample_envs sample_resolver sample_main_config
         [Main.EvConsume env1 (SigTrace traces2)] = (Lifecycle.Returned, w)
    ∧ Lifecycle.closed w = Lifecycle.all_deferred sample_main_config ∧ Lifecycle.cancelled w = true.
Proof.
  set (n0 := default node0 booted).
  set (n := match Lifecycle.run_events [Main.EvConsume env1 (SigTrace traces2)] n0 with Ok (_, n) => n | _ => node0 end).
  destruct (Lifecycle.clean_shutdown (G := list string) (GS := sample_grpc) (New (C := QueueCache.cache) (T := list TimeKey)) sample_envs
    sample_resolver sample_main_config [Main.EvConsume env1 (SigTrace traces2)]
    (OTLP.MkExporter (MkExporterConfig "collector:4317" true) []) sample_buffer n0 n "0.0.0.0:4317"
    (default sample_log_file (Main.walLog n))) as (w & Hp & Hc & Hx & _).
  - reflexivity.
  - reflexivity.
  - vm_compute. reflexivity.
  - vm_compute. reflexivity.
  - vm_compute. reflexivity.
  - vm_compute. reflexivity.
  - vm_compute. reflexivity.
  - exists w. split; [exact Hp|]. split; [exact Hc|exact Hx].
Defined.

(** The constructor of the buffer panics: what is open by then is closed. *)
Lemma process_exits_witness :
  ∃ w, Lifecycle.process (B := SampleBuffer) (G := list string) (L := unit) (Q := list bytes) (F := SampleFile) (NC := list Export)
         (λ _ _, None) sample_envs sample_resolver sample_main_config [] = (Lifecycle.Panicked, w)
    ∧ Lifecycle.closed w = [Lifecycle.DExporter; Lifecycle.DWal; Lifecycle.DTelemetry; Lifecycle.DCancel]
    ∧ Lifecycle.closed w = Lifecycle.opened w ∧ Lifecycle.cancelled w = true.
Proof.
  pose proof (Lifecycle.process_exits (B := SampleBuffer) (G := list string) (L := unit) (Q := list bytes) (F := SampleFile)
    (NC := list Export) (λ _ _, None) sample_envs sample_resolver sample_main_config []) as H. cbv zeta in H.
  set (p := Lifecycle.process _ _ _ _ _) in *. assert (p.1 = Lifecycle.Panicked) as Hx by (vm_compute; reflexivity).
  assert (Lifecycle.closed p.2 = [Lifecycle.DExporter; Lifecycle.DWal; Lifecycle.DTelemetry; Lifecycle.DCancel]) as Hc
    by (vm_compute; reflexivity).
  destruct p as [x w]. cbn [fst snd] in Hx, Hc. subst x.
  exists w. split; [reflexivity|]. split; [exact Hc|]. destruct H as [H|(_ & H & _)]; [exact H|].
  rewrite Hc in H. discriminate H.
Defined.
